(* ===== verification/_CoqProject ===== *)
-Q . S2P
Prelude.v
GoStrings.v
GoTime.v
Ring.v
Manifest.v
ObjectStore.v
Store.v
Flusher.v
SlurmClient.v
Api.v
Demand.v
WorkerPlan.v
Effects.v
Hardware.v
ResourceApi.v
Workers.v
Recovery.v
RecoverySafety.v
DraPlugin.v
DraPluginSafety.v
DraInventory.v
DraDriver.v
Watchdog.v
WatchdogSafety.v
WatchdogDaemon.v
GresInit.v
GoPath.v
GoFloat.v
Quantize.v
Engine.v
Optical.v
Verifier.v
SlurmConf.v
ControlPlane.v
ClusterController.v
FlusherStart.v
DriverStart.v
Metrics.v
SlurmRest.v
