(* ===== verification/Prelude.v ===== *)
(** * A verification of the heterogeneous cluster orchestrator

    ** The program

    A Kubernetes operator runs a Slurm cluster for jobs on GPUs and simulated
    TPUs.  The paths below are relative to the repository's [src/].

    - The operator ([slurm-operator/]) applies the control plane of a
      [HeterogeneousCluster] ([controllers/cluster_controller.go]), renders its
      [slurm.conf] ([internal/render/slurm.go]), turns pending Slurm jobs into
      demands ([internal/resources/demand.go]) and these into worker Pods with
      resource claims ([controllers/workers.go]), talks to slurmrestd
      ([internal/slurm/client.go]), and recovers failed hardware: it evacuates
      the node, has it rebooted, verifies it and gives it back
      ([controllers/recovery*.go]).
    - On each node two DRA drivers discover, publish and prepare devices
      ([dra-driver/], [optical-dra-driver/]) with a common plugin
      ([shared/draplugin/]), and a watchdog checks the hardware and reboots it
      on request ([watchdog-daemon/]).
    - In each worker Pod an init container writes the node's Slurm
      configuration ([slurm-compute-node/cmd/gres-init/]), and the checkpoint
      flusher ([checkpoint-flusher/]) moves checkpoints between the job, through
      shared-memory rings ([shared/ring/]), and an S3 store, described by a
      manifest ([shared/checkpoint/]); a quantization engine converts tensors
      between two rings ([quantization-engine/]).  After a recovery a verifier
      checks the hardware ([slurm-compute-node/cmd/hardware-verifier/]).

    ** How it is modelled

    A function of the program is a definition of the same name in the file of
    its component, and a struct is a record.  Go's [(T, error)] is [result E T]
    with the component's own errors, machine integers are [Z] with the
    wrap-around written out, Go strings are byte strings, maps are [gmap] and
    maps that are ranged over are visited in an order that is an argument.
    Code that calls the API server, Slurm or the host is a program of the trace
    monad [eff] ([Effects]): each call is an event that carries its answer, and
    the environment answers as it likes, depending on all that happened before.
    Code over S3 is a [prog] of [ObjectStore].  Concurrent code is a transition
    system ([Ring], [DraPlugin], [WatchdogDaemon]), with crashes as steps where
    the code is meant to survive them.

    Code outside the repository is a parameter.  Where the program relies on a
    contract of it, the contract is a class with an instance in the samples:
    [ObjectService] (S3: conditional puts are atomic, calls may fail),
    [JSONFile] (a state file decodes to what was encoded), [LawfulConfig] and
    [DriverInventory] (what a driver promises the plugin and its start-up; both
    drivers are instances), [StatusConditions] (Kubernetes' condition helpers)
    and [GaugeVec] (Prometheus gauges).  SHA-256, JSON, quantities, URL parsing
    of configuration values, certificates and JWT signatures are function
    parameters; where a theorem needs a law of one, it is a hypothesis of the
    theorem, and its witness instantiates it.

    ** The files

    - Shared: [Prelude] (results, tactics, hints), [GoStrings], [GoTime],
      [GoPath], [GoFloat] (what is used of the standard library), [Effects]
      (trace monad and its two program logics, [spec] for the calls of a
      program and [keeps] for invariants of a whole history).
    - Checkpoints: [Ring], [Manifest], [ObjectStore], [Store], [Flusher],
      [FlusherStart], [Quantize], [Engine].
    - Operator: [Api] (resource types and admission rules), [SlurmClient],
      [SlurmRest], [SlurmConf], [Demand], [WorkerPlan], [Workers],
      [ControlPlane], [ClusterController], [Metrics], [Recovery] and
      [RecoverySafety].
    - Nodes: [Hardware], [ResourceApi], [DraPlugin] and [DraPluginSafety],
      [DraInventory], [DraDriver], [Optical], [DriverStart], [Watchdog],
      [WatchdogSafety], [WatchdogDaemon], [GresInit], [Verifier].

    ** What the theorems show

    - Checkpoints are not lost or mixed up: a ring is a FIFO under every
      interleaving ([ring_fifo]); an accepted manifest partitions its tensors
      ([chunks_partition_tensor]); a commit marker is put last, only by a commit of rank 0, and makes the checkpoint complete
      ([marker_put_last], [only_commits_write_markers], [commit_complete]);
      what is found and restored is genuine, and nothing newer was passed over
      without a reason ([latest_sound], [restore_delivers]); the tables of the
      server stay consistent ([requests_keep_tables]); conversion is lossless where it
      can be and the engine stays in the directory of its job
      ([int8_survives], [conversion_whole], [engine_isolation]); the flusher
      starts with what the operator gives it, up to three cases that are named
      ([flusher_starts]).
    - Devices are exclusive: through crashes, restarts and changes of the
      inventory the plugin refines an exclusive table, which a claim leaves only
      when it is released or known to be gone ([plugin_refines_table]), containers of different
      claims share no processor ([containers_isolated]), a driver announces only
      what it can hand out ([compute_driver_announces]), and the check of a pinned
      worker accepts exactly the shapes of its claim ([pinned_worker_accepted]).
    - Recovery is safe: over all sequences of passes, cut short anywhere, jobs
      are requeued, nodes rebooted and released only when they may be
      ([requeue_requires_checkpoint_or_grace], [reboot_requires_evacuation],
      [release_requires_recovery], [durable_state_invariant]), each tied to a
      durable state that was written and to the calls before it; the watchdog
      reboots only evacuated nodes ([reboot_only_evacuated]), its probe tells the
      truth ([probe_truthful]), and the verifier covers what was lost
      ([verification_covers_cell]).
    - The cluster is what the resource says: the rendered configuration reads
      back as the declarations of the resource ([config_read_back]), workers
      land in their partition ([worker_joins_partition]), addresses lead to
      listeners ([addresses_listen]), secrets stay where they belong
      ([secrets_confined]), objects are well formed ([objects_well_formed]),
      workers come after the control plane ([workers_after_control_plane]), the
      finalizer goes last ([finalizer_released_last]), the status and the
      metrics are honest ([status_honest], [metrics_exact]), and requests to
      Slurm mean what they should ([request_read_back]).
    - Scaling is right: shapes cover what a job asks of a node and demands do not
      depend on map order ([shape_sufficient], [demands_deterministic]), a pass
      serves groups whole or leaves them out for a reason
      ([groups_served_whole]), only drained nodes are deleted and
      minima are kept ([node_deletion_safe], [scale_down_keeps_minimum]), and
      node counts stay bounded ([node_count_limit]).

    ** Fuel and bounds

    [dec_aux] (decimal digits) runs with the binary logarithm of the number and
    [chunks] (slices of devices) with the length of the list; the lemmas that
    use them show that this is enough ([parse_format_digits],
    [split_slices_partition]).  [convert_loop] has fuel for the blocks of the
    tensor, and [convert_loop_spec] shows that it ends.  [expandHostlist] has
    fuel for the limit of names, which the loop cannot exceed when its guard
    holds; [hostlist_overflow_diverges] shows the one range whose guard
    overflows, for which the loop of the program does not end.

    ** What is not modelled

    Generated code ([zz_generated.deepcopy.go], scheme registration), the
    operator's [main.go] (flags, manager, leader election) and the
    [SetupWithManager] functions, which only register the modelled reconcilers;
    the sockets, timeouts and log lines of the servers; the encoders and
    decoders of JSON, SHA-256, TLS and the Kubernetes, MinIO, Prometheus, NRI
    and kubelet libraries, which are parameters as described above.

    This file holds the notation, the tactics and the generic lemmas that the
    components share. *)

From Stdlib Require Export ZArith Lia Bool Ascii Permutation Sorted.
From Stdlib Require String.
From Corelib Require Export ssreflect.
From stdpp Require Export base gmap list strings sorting.

#[global] Open Scope general_if_scope.
#[global] Open Scope Z_scope.

(** ** Results

    A Go function that returns [(T, error)] is a function into
    [result E T]; [E] is the component's own inductive type of errors. *)

Inductive result (E A : Type) : Type :=
| Ok (a : A)
| Err (e : E).
Arguments Ok {E A} a.
Arguments Err {E A} e.

Declare Scope go_scope.
Delimit Scope go_scope with go.
#[global] Open Scope go_scope.

(** [let! x := e in k] is [x, err := e; if err != nil { return err }; k]. *)
Notation "'let!' x ':=' e 'in' k" :=
  (match e with Ok x => k | Err err => Err err end)
  (at level 10, x pattern, e at level 100, k at level 200) : go_scope.

(** [reject_if b err k] is [if b { return err }; k]. *)
Notation "'reject_if' b 'with' err 'in' k" :=
  (if b then Err err else k)
  (at level 10, b at level 100, err at level 100, k at level 200) : go_scope.

Definition is_ok {E A} (r : result E A) : bool :=
  match r with Ok _ => true | Err _ => false end.

(** ** Automation *)

Create HintDb go.

(** Split every [match]/[if] of the hypotheses and the goal, discarding the
    branches whose equations clash. *)
Ltac go_cases :=
  repeat (case_match; simplify_eq/=; try done).

(** Turn the boolean tests of the source into propositions. *)
Ltac bool_hyps :=
  repeat match goal with
  | H : _ && _ = true |- _ => apply andb_true_iff in H as [? ?]
  | H : _ || _ = false |- _ => apply orb_false_iff in H as [? ?]
  | H : negb _ = true |- _ => apply negb_true_iff in H
  | H : negb _ = false |- _ => apply negb_false_iff in H
  | H : bool_decide _ = true |- _ => apply bool_decide_eq_true in H
  | H : bool_decide _ = false |- _ => apply bool_decide_eq_false in H
  | H : (_ =? _)%string = true |- _ => apply String.eqb_eq in H
  | H : (_ =? _)%string = false |- _ => apply String.eqb_neq in H
  | H : (_ <? _) = true |- _ => apply Z.ltb_lt in H
  | H : (_ <? _) = false |- _ => apply Z.ltb_ge in H
  | H : (_ <=? _) = true |- _ => apply Z.leb_le in H
  | H : (_ <=? _) = false |- _ => apply Z.leb_gt in H
  | H : (_ =? _) = true |- _ => apply Z.eqb_eq in H
  | H : (_ =? _) = false |- _ => apply Z.eqb_neq in H
  end.

(** ** Machine integers

    A Go integer is a [Z]; an operation that can leave the type's range
    wraps explicitly. *)

Definition int64_min : Z := - 2 ^ 63.
Definition int64_max : Z := 2 ^ 63 - 1.
Definition uint64_max : Z := 2 ^ 64 - 1.

(** Two's-complement wrap to [int64] (also [int] on the supported targets). *)
Definition wrap64 (z : Z) : Z := (z + 2 ^ 63) mod 2 ^ 64 - 2 ^ 63.

(** The same for [int32]. *)
Definition wrap32 (z : Z) : Z := (z + 2 ^ 31) mod 2 ^ 32 - 2 ^ 31.

Definition wrapu64 (z : Z) : Z := z mod 2 ^ 64.
Definition wrapu32 (z : Z) : Z := z mod 2 ^ 32.

Definition is_int64 (z : Z) : bool := (int64_min <=? z) && (z <=? int64_max).
Definition is_uint64 (z : Z) : bool := (0 <=? z) && (z <=? uint64_max).

(** Keep the powers of two opaque to [simpl] but visible to [lia]. *)
Ltac pow2 :=
  unfold int64_min, int64_max, uint64_max in *;
  change (2 ^ 63) with 9223372036854775808 in *;
  change (2 ^ 64) with 18446744073709551616 in *;
  change (2 ^ 32) with 4294967296 in *.

Lemma wrap64_range z : int64_min <= wrap64 z <= int64_max.
Proof.
  unfold wrap64. pow2.
  pose proof (Z.mod_pos_bound (z + 9223372036854775808) 18446744073709551616 ltac:(lia)).
  lia.
Qed.

Lemma wrap64_id z : int64_min <= z <= int64_max -> wrap64 z = z.
Proof.
  unfold wrap64. pow2. intros H. rewrite ->Z.mod_small by lia. lia.
Qed.

Lemma wrap32_id z : - 2 ^ 31 <= z < 2 ^ 31 -> wrap32 z = z.
Proof. unfold wrap32. change (2 ^ 31) with 2147483648. pow2. intros H. rewrite ->Z.mod_small by lia. lia. Qed.

Lemma wrapu64_range z : 0 <= wrapu64 z <= uint64_max.
Proof.
  unfold wrapu64. pow2.
  pose proof (Z.mod_pos_bound z 18446744073709551616 ltac:(lia)). lia.
Qed.

Lemma wrapu64_id z : 0 <= z <= uint64_max -> wrapu64 z = z.
Proof. unfold wrapu64. pow2. intros H. apply Z.mod_small. lia. Qed.

(** Wrapping is additive: only the last sum need be wrapped. *)
Lemma wrap64_add_l a b : wrap64 (wrap64 a + b) = wrap64 (a + b).
Proof.
  unfold wrap64. f_equal.
  replace ((a + 2 ^ 63) mod 2 ^ 64 - 2 ^ 63 + b + 2 ^ 63) with ((a + 2 ^ 63) mod 2 ^ 64 + b) by lia.
  rewrite ->Zplus_mod_idemp_l. f_equal. lia.
Qed.

#[export] Hint Resolve wrap64_range wrapu64_range : go.

(** In a window of [n] consecutive integers residues modulo [n] are distinct. *)
Lemma mod_window n c a b :
  c <= a < c + n -> c <= b < c + n -> a mod n = b mod n -> a = b.
Proof.
  intros Ha Hb E. assert (n <> 0) as Hn by lia.
  pose proof (Z.div_mod a n Hn) as Ea. pose proof (Z.div_mod b n Hn) as Eb.
  rewrite ->E in Ea. assert (a / n = b / n); [|lia].
  assert (a - b = n * (a / n - b / n)) by lia. nia.
Qed.

(** ** Lists *)

Lemma prefix_snoc_lookup {A} (l k : list A) x :
  l `prefix_of` k -> k !! length l = Some x -> l ++ [x] `prefix_of` k.
Proof.
  intros [k' ->] H. rewrite ->lookup_app_r, Nat.sub_diag in H by lia.
  destruct k' as [|y k']; simplify_eq/=. exists k'. by rw -app_assoc.
Qed.

(** A left fold whose steps commute does not depend on the order. *)
Lemma foldl_perm {A B} (f : A -> B -> A) l l' a :
  (forall a x y, f (f a x) y = f (f a y) x) -> Permutation l l' -> foldl f a l = foldl f a l'.
Proof.
  intros Hc Hp. revert a. induction Hp as [|x l l' _ IH|x y l|l1 l2 l3 _ IH1 _ IH2]; intros a; simpl.
  - done.
  - apply IH.
  - by rewrite ->Hc.
  - by rewrite ->IH1.
Qed.

(** A measure no step decreases is not decreased by the fold. *)
Lemma foldl_mono {A B} (f : A -> B -> A) (measure : A -> Z) l a :
  (forall a x, measure a <= measure (f a x)) -> measure a <= measure (foldl f a l).
Proof.
  intros Hf. revert a. induction l as [|x l IH]; intros a; simpl; [lia|].
  etrans; [apply (Hf a x)|apply IH].
Qed.

(** What a loop establishes at one element of the list and keeps at the others. *)
Lemma foldl_reach {A B} (f : A -> B -> A) (P : A -> Prop) l x a :
  x ∈ l -> (forall a, P (f a x)) -> (forall a y, y ∈ l -> P a -> P (f a y)) -> P (foldl f a l).
Proof.
  intros Hx Hat Hkeep.
  assert (forall l' a, (forall y, y ∈ l' -> y ∈ l) -> P a -> P (foldl f a l')) as Hrest.
  { induction l' as [|y l' IH]; intros a' Hsub Ha; [done|]. simpl. apply IH; [intros; apply Hsub; by right|].
    apply Hkeep; [apply Hsub; by left|done]. }
  apply list_elem_of_split in Hx as (l1 & l2 & ->). rewrite ->foldl_app. simpl. apply Hrest; [|by apply Hat].
  intros y Hy. apply elem_of_app. right. by right.
Qed.

Lemma forallb_false_elem {A} (f : A -> bool) l :
  forallb f l = false -> exists x, x ∈ l /\ f x = false.
Proof.
  induction l as [|x l IH]; simpl; [done|]. destruct (f x) eqn:E; simpl.
  - intros (y & Hy & Ey)%IH. exists y. split; [by right|done].
  - intros _. exists x. split; [left|done].
Qed.

Lemma StronglySorted_list_filter {A} (R : A -> A -> Prop) (f : A -> bool) l :
  StronglySorted R l -> StronglySorted R (List.filter f l).
Proof.
  induction 1 as [|x l Hl IH Hx]; simpl; [constructor|]. case_match; [|done]. constructor; [done|].
  apply List.Forall_forall. intros y [Hy _]%filter_In. rewrite ->List.Forall_forall in Hx. auto.
Qed.

(** A sort by a total order does not depend on the order of its input. *)
Lemma merge_sort_perm {A} (R : relation A) `{!forall x y, Decision (R x y), !Transitive R, !Total R} (l l' : list A) :
  (forall x y, x ∈ l -> y ∈ l -> R x y -> R y x -> x = y) -> l ≡ₚ l' -> merge_sort R l = merge_sort R l'.
Proof.
  intros Hanti Hp. apply (StronglySorted_unique_strong R).
  - intros x y Hx Hy. rewrite ->merge_sort_Permutation in Hx. rewrite ->merge_sort_Permutation, <-Hp in Hy. auto.
  - by apply StronglySorted_merge_sort.
  - by apply StronglySorted_merge_sort.
  - by rewrite ->!merge_sort_Permutation.
Qed.

Lemma omap_all {A B} (f : A -> option B) (g : A -> B) l :
  (forall x, x ∈ l -> f x = Some (g x)) -> omap f l = map g l.
Proof.
  induction l as [|x l IH]; intros H; [done|]. cbn. rewrite ->(H x) by (by left). f_equal. apply IH.
  intros y Hy. apply H. by right.
Qed.

Lemma filter_perm {A} (f : A -> bool) l l' : l ≡ₚ l' -> List.filter f l ≡ₚ List.filter f l'.
Proof.
  induction 1 as [|x l l' _ IH|x y l|l1 l2 l3 _ IH1 _ IH2]; cbn; [done| | |by etrans].
  - by destruct (f x); [f_equiv|].
  - destruct (f x), (f y); try done. apply Permutation_swap.
Qed.

(** Distinct keys tell the elements apart. *)
Lemma NoDup_fmap_eq {A B} (f : A -> B) l x y : NoDup (f <$> l) -> x ∈ l -> y ∈ l -> f x = f y -> x = y.
Proof.
  intros Hnd Hx Hy E. apply list_elem_of_lookup in Hx as [i Hi], Hy as [j Hj].
  assert (i = j) as ->; [|congruence].
  apply (NoDup_lookup _ _ _ (f x) Hnd); rewrite ->list_lookup_fmap; [by rewrite ->Hi|by rewrite ->Hj, E].
Qed.

Lemma omap_ext_in {A B} (f g : A -> option B) (l : list A) : (forall x, x ∈ l -> f x = g x) -> omap f l = omap g l.
Proof.
  induction l as [|x l IH]; intros H; [done|]. cbn. rewrite ->(H x) by (by left).
  rewrite ->IH; [done|]. intros y Hy. apply H. by right.
Qed.
