(* ===== verification/GoStrings.v ===== *)
(** * GoStrings: the part of Go's [strings], [strconv] and [path] packages
    that the components use.

    A Go string is a byte string, here Rocq's [string].  The functions are
    those of the Go standard library on ASCII text: [ToLower], [ToUpper] and
    [TrimSpace] leave bytes above 127 alone. *)

From S2P Require Import Prelude.

Implicit Types (s t u : string) (c : ascii).

Abbreviation slen s := (Z.of_nat (String.length s)).

(** ** Characters *)

Definition code c : Z := Z.of_N (N_of_ascii c).

Definition in_range (lo hi c : ascii) : bool := (code lo <=? code c) && (code c <=? code hi).
Definition is_digit c : bool := in_range "0" "9" c.
Definition is_lower c : bool := in_range "a" "z" c.
Definition is_upper c : bool := in_range "A" "Z" c.
Definition is_alnum c : bool := is_digit c || is_lower c || is_upper c.

Definition chr (z : Z) : ascii := ascii_of_N (Z.to_N z).
Definition lower_char c : ascii := if is_upper c then chr (code c + 32) else c.
Definition upper_char c : ascii := if is_lower c then chr (code c - 32) else c.

Fixpoint string_map (f : ascii -> ascii) s : string :=
  match s with
  | EmptyString => EmptyString
  | String c s' => String (f c) (string_map f s')
  end.

Fixpoint string_forallb (f : ascii -> bool) s : bool :=
  match s with
  | EmptyString => true
  | String c s' => f c && string_forallb f s'
  end.

(** [strings.ToLower], [strings.ToUpper], [strings.EqualFold]. *)
Definition to_lower s : string := string_map lower_char s.
Definition to_upper s : string := string_map upper_char s.
Definition equal_fold s t : bool := (to_lower s =? to_lower t)%string.

(** ** Prefixes and suffixes *)

(** [strings.CutPrefix]; [strings.HasPrefix] and [strings.TrimPrefix] are
    its two components. *)
Fixpoint cut_prefix (p s : string) : option string :=
  match p, s with
  | EmptyString, _ => Some s
  | String a p', String b s' => if decide (a = b) then cut_prefix p' s' else None
  | String _ _, EmptyString => None
  end.

Definition has_prefix (p s : string) : bool := bool_decide (is_Some (cut_prefix p s)).
Definition trim_prefix (p s : string) : string := default s (cut_prefix p s).

Definition cut_suffix (p s : string) : option string :=
  String.rev <$> cut_prefix (String.rev p) (String.rev s).
Definition has_suffix (p s : string) : bool := bool_decide (is_Some (cut_suffix p s)).

(** ** Splitting *)

(** [strings.Split] with a one-byte separator: never empty. *)
Fixpoint split_on (sep : ascii) s : list string :=
  match s with
  | EmptyString => [""]
  | String c s' =>
      if decide (c = sep) then "" :: split_on sep s'
      else match split_on sep s' with
           | [] => [String c ""]
           | w :: ws => String c w :: ws
           end
  end.

(** [strings.Cut] with a one-byte separator. *)
Fixpoint cut_on (sep : ascii) s : option (string * string) :=
  match s with
  | EmptyString => None
  | String c s' =>
      if decide (c = sep) then Some ("", s')
      else '(a, b) ← cut_on sep s'; Some (String c a, b)
  end.

(** The split at the last occurrence of a byte satisfying [f]: what
    [strings.LastIndex] and [strings.LastIndexAny] are used for. *)
Fixpoint cut_last (f : ascii -> bool) s : option (string * string) :=
  match s with
  | EmptyString => None
  | String c s' =>
      match cut_last f s' with
      | Some (a, b) => Some (String c a, b)
      | None => if f c then Some ("", s') else None
      end
  end.

(** [strings.FieldsFunc]: maximal runs of bytes that do not satisfy [f]. *)
Fixpoint fields_aux (f : ascii -> bool) (cur : string) s : list string :=
  match s with
  | EmptyString => if (cur =? "")%string then [] else [cur]
  | String c s' =>
      if f c then (if (cur =? "")%string then [] else [cur]) ++ fields_aux f "" s'
      else fields_aux f (cur +:+ String c "") s'
  end.
Definition fields_func (f : ascii -> bool) s : list string := fields_aux f "" s.

(** [strings.Join]. *)
Fixpoint join (sep : string) (l : list string) : string :=
  match l with
  | [] => ""
  | [w] => w
  | w :: ws => w +:+ sep +:+ join sep ws
  end.

(** [strings.TrimSpace]. *)
Fixpoint trim_left s : string :=
  match s with
  | EmptyString => ""
  | String c s' => if Ascii.is_space c then trim_left s' else s
  end.
Definition trim_space s : string := String.rev (trim_left (String.rev (trim_left s))).

(** [strings.ReplaceAll] of one byte by a string. *)
Fixpoint replace_byte (old : ascii) (new : string) s : string :=
  match s with
  | EmptyString => ""
  | String c s' =>
      (if decide (c = old) then new else String c "") +:+ replace_byte old new s'
  end.

(** [strings.ReplaceAll] of a non-empty string: [skip] counts the bytes of the
    last match that are still to be dropped. *)
Fixpoint replace_from (old new : string) (skip : nat) s : string :=
  match s with
  | EmptyString => ""
  | String c s' =>
      match skip with
      | S k => replace_from old new k s'
      | O => if has_prefix old s then new +:+ replace_from old new (String.length old - 1) s'
             else String c (replace_from old new 0 s')
      end
  end.
Definition replace_all (old new s : string) : string := replace_from old new 0 s.

(** [strings.Fields]. *)
Definition fields s : list string := fields_func Ascii.is_space s.

(** [strings.Split] at newlines is [split_on]; [bufio.Scanner] yields the lines
    without their ends and no empty last line. *)
Definition strip_cr s : string := default s (cut_suffix (String "013" "") s).
Definition nl : string := String "010" "".
Definition lines s : list string :=
  let l := split_on "010" s in
  map strip_cr (match last l with Some "" => removelast l | _ => l end).

Fixpoint contains_byte (f : ascii -> bool) s : bool :=
  match s with
  | EmptyString => false
  | String c s' => f c || contains_byte f s'
  end.

(** [strings.Contains]. *)
Fixpoint contains (p s : string) : bool :=
  has_prefix p s ||
  match s with EmptyString => false | String _ s' => contains p s' end.

(** ** [strconv] *)

Definition digit_val c : option Z :=
  if is_digit c then Some (code c - 48) else None.

(** The value of a digit string, accumulating from the left. *)
Fixpoint digits_acc (acc : Z) s : option Z :=
  match s with
  | EmptyString => Some acc
  | String c s' => d ← digit_val c; digits_acc (acc * 10 + d) s'
  end.

Definition parse_digits s : option Z :=
  if (s =? "")%string then None else digits_acc 0 s.

(** [strconv.ParseUint(s, 10, 64)]: no sign, and in range. *)
Definition parse_uint64 s : option Z :=
  z ← parse_digits s; if z <=? uint64_max then Some z else None.

(** [strconv.ParseInt(s, 10, 64)] and [strconv.Atoi]: one optional sign. *)
Definition parse_int64 s : option Z :=
  z ← match s with
      | String "-" s' => Z.opp <$> parse_digits s'
      | String "+" s' => parse_digits s'
      | _ => parse_digits s
      end;
  if is_int64 z then Some z else None.
Abbreviation atoi := parse_int64.

(** Decimal formatting of a non-negative integer ([%d]). *)
Fixpoint dec_aux (fuel : nat) (n : Z) (acc : string) : string :=
  match fuel with
  | O => acc
  | S fuel' =>
      let acc' := String (chr (48 + n mod 10)) acc in
      if n <? 10 then acc' else dec_aux fuel' (n / 10) acc'
  end.
Definition format_uint (n : Z) : string := dec_aux (S (Z.to_nat (Z.log2 n))) n "".

(** [strconv.FormatInt], [%d]. *)
Definition format_int (n : Z) : string :=
  if n <? 0 then "-" +:+ format_uint (- n) else format_uint n.

Fixpoint zeros (n : nat) : string :=
  match n with O => "" | S n' => String "0" (zeros n') end.

(** [%0*d] on a non-negative integer: left padding with zeros. *)
Definition pad_uint (width : nat) (n : Z) : string :=
  zeros (width - String.length (format_uint n)) +:+ format_uint n.

(** ** [path.Clean] *)

(** The components of a cleaned path: the empty and [.] components go, and
    [..] removes the component before it, if that is not itself [..]. *)
Fixpoint clean_elems (rooted : bool) (out : list string) (l : list string) : list string :=
  match l with
  | [] => out
  | e :: l' =>
      if (e =? "")%string || (e =? ".")%string then clean_elems rooted out l'
      else if (e =? "..")%string then
        match last out with
        | Some w => if (w =? "..")%string then clean_elems rooted (out ++ [e]) l'
                    else clean_elems rooted (removelast out) l'
        | None => clean_elems rooted (if rooted then out else [e]) l'
        end
      else clean_elems rooted (out ++ [e]) l'
  end.

Definition path_clean s : string :=
  let rooted := has_prefix "/" s in
  let body := join "/" (clean_elems rooted [] (split_on "/" s)) in
  if rooted then "/" +:+ body else if (body =? "")%string then "." else body.

(** ** Examples pinning the definitions to the Go documentation *)

Example split_ex : split_on "," "a,,b" = ["a"; ""; "b"].
Proof. reflexivity. Qed.
Example fields_ex : fields_func (fun c => bool_decide (c = "-"%char)) "--a-b--c" = ["a"; "b"; "c"].
Proof. reflexivity. Qed.
Example clean_ex : map path_clean ["a//b/./c"; "a/../../b"; "/.."; ""; ".."; "a/"] =
  ["a/b/c"; "../b"; "/"; "."; ".."; "a"].
Proof. reflexivity. Qed.
Example parse_ex : (parse_int64 "-12", parse_int64 "+7", parse_int64 "9223372036854775808", parse_uint64 "007") =
  (Some (-12), Some 7, None, Some 7).
Proof. reflexivity. Qed.
Example trim_ex : trim_space "  a b " = "a b".
Proof. reflexivity. Qed.
Example pad_ex : (pad_uint 8 12500, pad_uint 2 123) = ("00012500", "123").
Proof. reflexivity. Qed.

(** ** Lemmas: appending, cutting, numerals *)

Lemma sapp_nil_l s : "" +:+ s = s.
Proof. done. Qed.

Lemma sapp_cons c s t : String c s +:+ t = String c (s +:+ t).
Proof. done. Qed.

Lemma sapp_nil_r s : s +:+ "" = s.
Proof. induction s as [|c s IH]; [done|]. by rw sapp_cons IH. Qed.

Lemma sapp_assoc s t u : (s +:+ t) +:+ u = s +:+ t +:+ u.
Proof. induction s as [|c s IH]; [done|]. by rw !sapp_cons IH. Qed.

Lemma sapp_length s t : String.length (s +:+ t) = (String.length s + String.length t)%nat.
Proof. induction s as [|c s IH]; [done|]. rw sapp_cons. simpl. by rw IH. Qed.

Create Rewrite HintDb go_string.
#[export] Hint Rewrite sapp_nil_l sapp_nil_r sapp_cons sapp_assoc : go_string.
Ltac sapp := autorewrite with go_string.

Lemma sapp_inj_l s t u : s +:+ t = s +:+ u -> t = u.
Proof. induction s as [|c s IH]; [done|]. rw !sapp_cons. intros [=]. auto. Qed.

Lemma cut_prefix_app p s : cut_prefix p (p +:+ s) = Some s.
Proof. induction p as [|c p IH]; [done|]. rw sapp_cons. simpl. by rw decide_True. Qed.

Lemma cut_prefix_Some p s t : cut_prefix p s = Some t <-> s = p +:+ t.
Proof.
  split; [|intros ->; apply cut_prefix_app].
  revert s. induction p as [|a p IH]; intros [|b s] H; simplify_eq/=; [done..|].
  case_decide; simplify_eq. by rw sapp_cons (IH _ H).
Qed.

Lemma rev_app_spec s t : String.rev_app s t = String.rev s +:+ t.
Proof.
  unfold String.rev. revert t. induction s as [|c s IH]; intros t; cbn [String.rev_app]; [done|].
  by rw IH (IH (String c "")) sapp_assoc.
Qed.

Lemma rev_sapp s t : String.rev (s +:+ t) = String.rev t +:+ String.rev s.
Proof.
  induction s as [|c s IH]; [by rw sapp_nil_r|]. rw sapp_cons. unfold String.rev at 1 3.
  cbn [String.rev_app]. by rw !rev_app_spec IH sapp_assoc.
Qed.

Lemma rev_involutive s : String.rev (String.rev s) = s.
Proof.
  induction s as [|c s IH]; [done|]. unfold String.rev at 2. cbn [String.rev_app].
  by rw rev_app_spec rev_sapp IH.
Qed.

Lemma cut_suffix_app p s : cut_suffix p (s +:+ p) = Some s.
Proof. unfold cut_suffix. by rw rev_sapp cut_prefix_app /= rev_involutive. Qed.

Lemma has_prefix_spec p s : has_prefix p s = true <-> exists t, s = p +:+ t.
Proof.
  unfold has_prefix. rw bool_decide_eq_true. unfold is_Some.
  by setoid_rewrite cut_prefix_Some.
Qed.

Lemma string_forallb_app f s t :
  string_forallb f (s +:+ t) = string_forallb f s && string_forallb f t.
Proof. induction s as [|c s IH]; [done|]. rw sapp_cons /=. by rw IH andb_assoc. Qed.

(** A separator cuts at its first occurrence. *)
Lemma cut_on_app sep s t :
  string_forallb (fun c => negb (bool_decide (c = sep))) s = true ->
  cut_on sep (s +:+ String sep t) = Some (s, t).
Proof.
  induction s as [|c s IH]; intros H; simpl in H.
  - by rw sapp_nil_l /= decide_True.
  - bool_hyps. rw sapp_cons /= decide_False // IH //.
Qed.

(** The separator splits two strings in only one way. *)
Lemma cut_on_Some sep s x y : cut_on sep s = Some (x, y) -> s = x +:+ String sep y.
Proof.
  revert x. induction s as [|c s IH]; intros x; cbn [cut_on]; [done|].
  destruct (decide (c = sep)) as [->|_]; [by intros [= <- <-]|].
  destruct (cut_on sep s) as [[x' y']|]; [|done]. intros [= <- <-]. by rewrite ->sapp_cons, (IH x').
Qed.

Lemma cut_on_is_Some sep s t : is_Some (cut_on sep (s +:+ String sep t)).
Proof.
  induction s as [|c s IH].
  - rewrite ->sapp_nil_l. cbn [cut_on]. destruct (decide (sep = sep)); [by eexists|done].
  - rewrite ->sapp_cons. cbn [cut_on]. destruct (decide (c = sep)); [by eexists|].
    destruct IH as [[x y] ->]. by eexists.
Qed.

Lemma sep_inj sep s t s' t' :
  string_forallb (fun c => negb (bool_decide (c = sep))) s = true ->
  string_forallb (fun c => negb (bool_decide (c = sep))) s' = true ->
  s +:+ String sep t = s' +:+ String sep t' -> s = s' /\ t = t'.
Proof.
  intros Hs Hs' E.
  pose proof (cut_on_app sep s t Hs) as H1.
  pose proof (cut_on_app sep s' t' Hs') as H2.
  rw E H2 in H1. by simplify_eq.
Qed.

Lemma code_chr z : 0 <= z < 256 -> code (chr z) = z.
Proof. intros H. unfold code, chr. rw N_ascii_embedding ?Z2N.id //; lia. Qed.

Lemma code_inj c c' : code c = code c' -> c = c'.
Proof.
  unfold code. intros H%N2Z.inj.
  by rw -(ascii_N_embedding c) -(ascii_N_embedding c') H.
Qed.

Lemma is_digit_chr d : 0 <= d < 10 -> is_digit (chr (48 + d)) = true.
Proof.
  intros H. unfold is_digit, in_range. rewrite ->code_chr by lia.
  change (code "0") with 48. change (code "9") with 57.
  apply andb_true_intro; split; apply Z.leb_le; lia.
Qed.

Lemma digit_val_chr d : 0 <= d < 10 -> digit_val (chr (48 + d)) = Some d.
Proof.
  intros H. unfold digit_val. rw is_digit_chr //. rewrite ->code_chr by lia. f_equal. lia.
Qed.

(** The fuel of [format_uint] suffices: [n < 2 ^ fuel] halves at every digit. *)
Lemma digits_dec_aux fuel n acc :
  0 <= n < 2 ^ Z.of_nat fuel ->
  digits_acc 0 (dec_aux fuel n acc) = digits_acc n acc.
Proof.
  revert n acc. induction fuel as [|fuel IH]; intros n acc Hn.
  - simpl. f_equal. change (2 ^ Z.of_nat 0) with 1 in Hn. lia.
  - assert (0 <= n mod 10 < 10) by (apply Z.mod_pos_bound; lia).
    cbn [dec_aux]. case_match eqn:E; bool_hyps.
    + cbn [digits_acc]. rw digit_val_chr //=. f_equal.
      rewrite ->Z.mod_small by lia. lia.
    + rewrite ->IH.
      * cbn [digits_acc]. rw digit_val_chr //=. f_equal.
        pose proof (Z.div_mod n 10). lia.
      * rewrite ->Nat2Z.inj_succ, Z.pow_succ_r in Hn by lia.
        split; [apply Z.div_pos; lia|]. apply Z.div_lt_upper_bound; lia.
Qed.

Lemma dec_aux_nonempty fuel n acc : dec_aux (S fuel) n acc <> "".
Proof.
  revert n acc. induction fuel as [|fuel IH]; intros n acc; cbn [dec_aux]; case_match; try done.
  apply IH.
Qed.

Lemma fuel_log2 n : 0 <= n -> 0 <= n < 2 ^ Z.of_nat (S (Z.to_nat (Z.log2 n))).
Proof.
  intros H. split; [done|]. rewrite ->Nat2Z.inj_succ, Z2Nat.id by apply Z.log2_nonneg.
  destruct (decide (n = 0)) as [->|]; [done|]. apply Z.log2_spec. lia.
Qed.

Lemma parse_format_digits n : 0 <= n -> parse_digits (format_uint n) = Some n.
Proof.
  intros H. unfold parse_digits, format_uint.
  case_match eqn:E; bool_hyps; [by apply dec_aux_nonempty in E|].
  rw digits_dec_aux //. by apply fuel_log2.
Qed.

Lemma format_int_nonempty z : format_int z <> "".
Proof. unfold format_int. destruct (z <? 0); [done|apply dec_aux_nonempty]. Qed.

Lemma digits_acc_zeros k s : digits_acc 0 (zeros k +:+ s) = digits_acc 0 s.
Proof. induction k as [|k IH]; [done|]. simpl zeros. rw sapp_cons. simpl. by rw IH. Qed.

(** [strconv.ParseUint] reads back what [%0*d] printed. *)
Lemma parse_pad_uint w n :
  0 <= n <= uint64_max -> parse_uint64 (pad_uint w n) = Some n.
Proof.
  intros H. unfold parse_uint64, pad_uint, parse_digits.
  pose proof (parse_format_digits n ltac:(lia)) as P. unfold parse_digits in P.
  destruct (format_uint n =? "")%string eqn:E; [done|].
  case_match eqn:E2; bool_hyps.
  - by destruct (zeros _), (format_uint n).
  - rw digits_acc_zeros P /=. by rewrite ->(proj2 (Z.leb_le _ _)) by lia.
Qed.

Lemma format_uint_inj n m : 0 <= n -> 0 <= m -> format_uint n = format_uint m -> n = m.
Proof.
  intros Hn Hm E. apply parse_format_digits in Hn, Hm. congruence.
Qed.

Lemma dec_aux_digits fuel n acc :
  0 <= n -> string_forallb is_digit acc = true -> string_forallb is_digit (dec_aux fuel n acc) = true.
Proof.
  revert n acc. induction fuel as [|fuel IH]; intros n acc Hn Hacc; [done|]. cbn [dec_aux].
  assert (string_forallb is_digit (String (chr (48 + n mod 10)) acc) = true).
  { simpl. rw is_digit_chr //. apply Z.mod_pos_bound. lia. }
  case_match; [done|]. apply IH; [|done]. apply Z.div_pos; lia.
Qed.

Lemma format_uint_digits n : 0 <= n -> string_forallb is_digit (format_uint n) = true.
Proof. intros H. by apply dec_aux_digits. Qed.

Lemma string_forallb_impl (f g : ascii -> bool) s :
  (forall c, f c = true -> g c = true) -> string_forallb f s = true -> string_forallb g s = true.
Proof.
  intros Hfg. induction s as [|c s IH]; [done|]. simpl. rw !andb_true_iff. naive_solver.
Qed.

(** A numeral contains no separator that is not a digit. *)
Lemma format_uint_no_sep sep n :
  0 <= n -> is_digit sep = false ->
  string_forallb (fun c => negb (bool_decide (c = sep))) (format_uint n) = true.
Proof.
  intros Hn Hsep. eapply string_forallb_impl; [|by apply format_uint_digits].
  intros c Hc. rw bool_decide_eq_false_2 //. intros ->. congruence.
Qed.

Lemma digit_val_range c d : digit_val c = Some d -> 0 <= d <= 9.
Proof.
  unfold digit_val, is_digit, in_range. case_match eqn:E; [|done]. intros [= <-]. bool_hyps.
  change (code "0"%char) with 48 in *. change (code "9"%char) with 57 in *. lia.
Qed.

Lemma digits_acc_nonneg acc s z : 0 <= acc -> digits_acc acc s = Some z -> 0 <= z.
Proof.
  revert acc. induction s as [|c s IH]; intros acc Ha; cbn [digits_acc]; [by intros [= <-]|].
  destruct (digit_val c) as [d|] eqn:Ed; [|done]. apply digit_val_range in Ed. apply IH. lia.
Qed.

Lemma parse_uint64_range s z : parse_uint64 s = Some z -> 0 <= z <= uint64_max.
Proof.
  unfold parse_uint64, parse_digits. case_match; [done|]. intros H'.
  apply bind_Some in H' as (z' & Hz & H'). case_match eqn:E; simplify_eq. bool_hyps.
  apply digits_acc_nonneg in Hz; lia.
Qed.

Lemma parse_int64_range s z : parse_int64 s = Some z -> int64_min <= z <= int64_max.
Proof.
  unfold parse_int64. intros (z' & _ & H)%bind_Some. unfold is_int64 in H. destruct (_ && _) eqn:E; [|done]. simplify_eq. bool_hyps. done.
Qed.

Lemma path_clean_nonempty s : path_clean s <> "".
Proof. unfold path_clean. case_match; [done|]. case_match eqn:E; [done|]. by bool_hyps. Qed.

(** ** Trimming and fields *)

Lemma string_forallb_true f s : (forall c, f c = true) -> string_forallb f s = true.
Proof. intros H. induction s as [|c s IH]; [done|]. cbn. by rewrite ->H. Qed.

(** A string that does not start with a space. *)
Definition starts_text (s : string) : bool := match s with String c _ => negb (Ascii.is_space c) | EmptyString => true end.

Lemma trim_left_starts s : starts_text (trim_left s) = true.
Proof. induction s as [|c s IH]; [done|]. cbn. destruct (Ascii.is_space c) eqn:E; [done|]. cbn. by rewrite ->E. Qed.

Lemma trim_left_id s : starts_text s = true -> trim_left s = s.
Proof. destruct s as [|c s]; [done|]. cbn. intros H. apply negb_true_iff in H. by rewrite ->H. Qed.

Lemma trim_left_suffix s : exists p, s = p +:+ trim_left s.
Proof.
  induction s as [|c s [p IH]]; [by exists ""|]. cbn. destruct (Ascii.is_space c); [|by exists ""].
  exists (String c p). rewrite ->sapp_cons. by f_equal.
Qed.

Lemma trim_space_starts s : starts_text (trim_space s) = true.
Proof.
  unfold trim_space. pose proof (trim_left_starts s) as H. destruct (trim_left_suffix (String.rev (trim_left s))) as [p E].
  set (r := trim_left (String.rev (trim_left s))) in *. apply (f_equal String.rev) in E.
  rewrite ->rev_involutive, rev_sapp in E. destruct (String.rev r) as [|c t]; [done|]. rewrite ->E in H. exact H.
Qed.

Lemma trim_space_idem s : trim_space (trim_space s) = trim_space s.
Proof.
  pose proof (trim_space_starts s) as H. unfold trim_space at 1. rewrite ->(trim_left_id (trim_space s)) by done.
  unfold trim_space. rewrite ->rev_involutive, (trim_left_id (trim_left _)) by apply trim_left_starts. done.
Qed.

(** Text without spaces is not trimmed. *)
Lemma trim_space_id s : string_forallb (fun c => negb (Ascii.is_space c)) s = true -> trim_space s = s.
Proof.
  intros H. unfold trim_space. rewrite ->(trim_left_id s) by (destruct s; cbn in *; [done|]; by apply andb_true_iff in H as [? _]).
  rewrite ->trim_left_id; [apply rev_involutive|].
  assert (string_forallb (fun c => negb (Ascii.is_space c)) (String.rev s) = true) as H'.
  { clear -H. induction s as [|c s IH]; [done|]. cbn in H. apply andb_true_iff in H as [Hc H].
    change (String c s) with (String c "" +:+ s). rewrite ->rev_sapp, string_forallb_app, IH by done. cbn. by rewrite ->Hc. }
  destruct (String.rev s); cbn in *; [done|]. by apply andb_true_iff in H' as [? _].
Qed.

(** A word of [fields_func]. *)
Definition word (f : ascii -> bool) (w : string) : Prop := w <> "" /\ string_forallb (fun c => negb (f c)) w = true.

Lemma fields_aux_words f cur s :
  string_forallb (fun c => negb (f c)) cur = true -> Forall (word f) (fields_aux f cur s).
Proof.
  revert cur. induction s as [|c s IH]; intros cur Hc; cbn [fields_aux].
  - destruct (cur =? "")%string eqn:E; [done|]. apply String.eqb_neq in E. by repeat constructor.
  - destruct (f c) eqn:Ef.
    + apply Forall_app. split; [|by apply IH]. destruct (cur =? "")%string eqn:E; [done|]. apply String.eqb_neq in E. by repeat constructor.
    + apply IH. rewrite ->string_forallb_app, Hc. cbn. by rewrite ->Ef.
Qed.

Lemma fields_words f s : Forall (word f) (fields_func f s).
Proof. by apply fields_aux_words. Qed.

Lemma fields_aux_app f cur w s :
  string_forallb (fun c => negb (f c)) w = true -> fields_aux f cur (w +:+ s) = fields_aux f (cur +:+ w) s.
Proof.
  revert cur. induction w as [|c w IH]; intros cur Hw; [by rewrite ->sapp_nil_l, sapp_nil_r|]. cbn in Hw.
  apply andb_true_iff in Hw as [Hc Hw]. apply negb_true_iff in Hc. rewrite ->sapp_cons. cbn [fields_aux]. rewrite ->Hc, IH by done.
  by sapp.
Qed.

(** Joining words with a separator and splitting again. *)
Lemma fields_join f c l : f c = true -> Forall (word f) l -> fields_func f (join (String c "") l) = l.
Proof.
  intros Hf. unfold fields_func. induction 1 as [|w l [Hne Hw] Hl IH]; [done|]. apply String.eqb_neq in Hne. destruct l as [|w' l].
  - cbn [join]. pose proof (fields_aux_app f "" w "" Hw) as E. rewrite ->sapp_nil_r, sapp_nil_l in E. rewrite ->E. cbn. by rewrite ->Hne.
  - change (join (String c "") (w :: w' :: l)) with (w +:+ String c (join (String c "") (w' :: l))).
    rewrite ->fields_aux_app, sapp_nil_l by done. cbn [fields_aux]. rewrite ->Hf, Hne. cbn [app]. f_equal. exact IH.
Qed.

Lemma string_forallb_join g sep l :
  string_forallb g sep = true -> Forall (fun w => string_forallb g w = true) l -> string_forallb g (join sep l) = true.
Proof.
  intros Hs. induction 1 as [|w l Hw Hl IH]; [done|]. destruct l as [|w' l]; [done|].
  change (join sep (w :: w' :: l)) with (w +:+ sep +:+ join sep (w' :: l)). rewrite ->!string_forallb_app, Hw, Hs. exact IH.
Qed.

Lemma to_lower_id s : string_forallb (fun c => negb (is_upper c)) s = true -> to_lower s = s.
Proof.
  unfold to_lower. induction s as [|c s IH]; [done|]. cbn. intros H. apply andb_true_iff in H as [Hc H]. rewrite ->IH by done.
  unfold lower_char. apply negb_true_iff in Hc. by rewrite ->Hc.
Qed.

(** A digit string parses to its value with [strconv.Atoi]. *)
Lemma parse_int64_digits s z :
  string_forallb is_digit s = true -> parse_digits s = Some z -> is_int64 z = true ->
  parse_int64 s = Some z.
Proof.
  intros Hd Hp Hz. unfold parse_int64. destruct s as [|c s]; [done|]. cbn in Hd. bool_hyps.
  assert (match String c s with
          | String "-" s' => Z.opp <$> parse_digits s'
          | String "+" s' => parse_digits s'
          | _ => parse_digits (String c s) end = parse_digits (String c s)) as ->.
  { destruct c as [[] [] [] [] [] [] [] []]; done. }
  rewrite ->Hp. cbn. by rewrite ->Hz.
Qed.

Lemma parse_format_int z : int64_min <= z <= int64_max -> parse_int64 (format_int z) = Some z.
Proof.
  intros Hz. assert (is_int64 z = true) as Hi by (unfold is_int64; apply andb_true_iff; split; apply Z.leb_le; lia).
  unfold format_int. destruct (z <? 0) eqn:E; bool_hyps.
  - assert (Z.opp <$> parse_digits (format_uint (- z)) = Some z) as Ep by (rewrite ->parse_format_digits by lia; cbn; f_equal; lia).
    change (parse_int64 ("-" +:+ format_uint (- z))) with
      (z' ← Z.opp <$> parse_digits (format_uint (- z)); if is_int64 z' then Some z' else None).
    rewrite ->Ep. cbn [mbind option_bind]. by rewrite ->Hi.
  - by apply parse_int64_digits; [apply format_uint_digits|apply parse_format_digits|].
Qed.
