(* ===== verification/GoTime.v ===== *)
(** * GoTime: the timestamps the program reads and writes

    [time.Parse] with the layouts [RFC3339] and [RFC3339Nano] (they accept the
    same strings: a fraction of a second is optional in both).  An instant is
    the number of nanoseconds since the Unix epoch. *)

From S2P Require Import Prelude GoStrings.

Module GoTime.

Definition second : Z := 1000000000.

Definition is_leap (y : Z) : bool :=
  (y mod 4 =? 0) && (negb (y mod 100 =? 0) || (y mod 400 =? 0)).

Definition days_in (m y : Z) : Z :=
  if m =? 2 then if is_leap y then 29 else 28
  else if (m =? 4) || (m =? 6) || (m =? 9) || (m =? 11) then 30 else 31.

(** Days from the epoch to a day of the proleptic Gregorian calendar. *)
Definition days_from_civil (y m d : Z) : Z :=
  let y' := if m <=? 2 then y - 1 else y in
  let era := y' / 400 in
  let yoe := y' mod 400 in
  let doy := (153 * (if 2 <? m then m - 3 else m + 9) + 2) / 5 + d - 1 in
  era * 146097 + (yoe * 365 + yoe / 4 - yoe / 100 + doy) - 719468.

(** [getnum]: two digits, or one when [fixed] is off. *)
Definition getnum (fixed : bool) (s : string) : option (Z * string) :=
  match s with
  | String c1 (String c2 s2 as s1) =>
      match digit_val c1 with
      | None => None
      | Some d1 =>
          match digit_val c2 with
          | Some d2 => Some (10 * d1 + d2, s2)
          | None => if fixed then None else Some (d1, s1)
          end
      end
  | String c1 "" =>
      if fixed then None else match digit_val c1 with Some d1 => Some (d1, ""%string) | None => None end
  | _ => None
  end.

Definition expect (c : ascii) (s : string) : option string :=
  match s with
  | String c' s' => if bool_decide (c = c') then Some s' else None
  | _ => None
  end.

Fixpoint take_digits (s : string) : string * string :=
  match s with
  | String c s' => if is_digit c then let '(d, r) := take_digits s' in (String c d, r) else (""%string, s)
  | "" => (""%string, ""%string)
  end.

(** The fraction after the seconds: at most nine digits count. *)
Definition fraction (s : string) : Z * string :=
  match s with
  | String c s' =>
      if bool_decide (c = "."%char) || bool_decide (c = ","%char) then
        let '(d, r) := take_digits s' in
        if (String.length d =? 0)%nat then (0, s)
        else
          let d9 := String.substring 0 9 (d +:+ "000000000") in
          (default 0 (digits_acc 0 d9), r)
      else (0, s)
  | "" => (0, s)
  end.

(** [Z], or a sign with hours and minutes: the offset in seconds. *)
Definition zone (s : string) : option (Z * string) :=
  match s with
  | "" => None
  | String c s1 =>
      if bool_decide (c = "Z"%char) then Some (0, s1)
      else
        '(hr, s2) ← getnum true s1;
        s3 ← expect ":" s2;
        '(mm, s4) ← getnum true s3;
        if (24 <? hr) || (60 <? mm) then None
        else if bool_decide (c = "+"%char) then Some ((hr * 60 + mm) * 60, s4)
        else if bool_decide (c = "-"%char) then Some (- ((hr * 60 + mm) * 60), s4)
        else None
  end.

Definition parse_rfc3339 (s : string) : option Z :=
  '(y1, s) ← getnum true s;
  '(y2, s) ← getnum true s;
  let y := 100 * y1 + y2 in
  s ← expect "-" s;
  '(mo, s) ← getnum true s;
  if (mo <=? 0) || (12 <? mo) then None else
  s ← expect "-" s;
  '(d, s) ← getnum true s;
  s ← expect "T" s;
  '(h, s) ← getnum false s;
  if 24 <=? h then None else
  s ← expect ":" s;
  '(mi, s) ← getnum true s;
  if 60 <=? mi then None else
  s ← expect ":" s;
  '(se, s) ← getnum true s;
  if 60 <=? se then None else
  let '(frac, s) := fraction s in
  '(off, s) ← zone s;
  if negb (s =? "")%string then None else
  if (d <? 1) || (days_in mo y <? d) then None else
  Some ((days_from_civil y mo d * 86400 + h * 3600 + mi * 60 + se - off) * second + frac).

Definition valid_rfc3339 (s : string) : bool := bool_decide (is_Some (parse_rfc3339 s)).

Example rfc3339_ex :
  map parse_rfc3339 ["1970-01-01T00:00:00Z"; "2026-02-28T23:59:59.5+01:00"; "2024-02-29T1:02:03Z";
                     "2023-02-29T00:00:00Z"; "2026-01-01T00:00:60Z"; "2026-01-01"] =
  [Some 0; Some 1772319599500000000; Some 1709168523000000000; None; None; None].
Proof. vm_compute. reflexivity. Qed.

(** The calendar day of a day number. *)
Definition civil_from_days (days : Z) : Z * Z * Z :=
  let z := days + 719468 in
  let era := z / 146097 in
  let doe := z mod 146097 in
  let yoe := (doe - doe / 1460 + doe / 36524 - doe / 146096) / 365 in
  let doy := doe - (365 * yoe + yoe / 4 - yoe / 100) in
  let mp := (5 * doy + 2) / 153 in
  let m := if mp <? 10 then mp + 3 else mp - 9 in
  (yoe + era * 400 + (if m <=? 2 then 1 else 0), m, doy - (153 * mp + 2) / 5 + 1).

(** [t.UTC().Format(time.RFC3339)] *)
Definition format_rfc3339 (t : Z) : string :=
  let secs := t / second in
  let '(y, mo, d) := civil_from_days (secs / 86400) in
  let s := secs mod 86400 in
  pad_uint 4 y +:+ "-" +:+ pad_uint 2 mo +:+ "-" +:+ pad_uint 2 d +:+ "T" +:+ pad_uint 2 (s / 3600)
  +:+ ":" +:+ pad_uint 2 (s / 60 mod 60) +:+ ":" +:+ pad_uint 2 (s mod 60) +:+ "Z".

Example format_ex :
  map (fun t => parse_rfc3339 (format_rfc3339 (t * second)))
    [0; 951782400; 951868799; 1709164800; 1772319599; 4102444800] =
  map (fun t => Some (t * second)) [0; 951782400; 951868799; 1709164800; 1772319599; 4102444800].
Proof. vm_compute. reflexivity. Qed.

(** [t.Sub(u)]: a [Duration], saturated to [int64]. *)
Definition sub_saturated (t u : Z) : Z := Z.max int64_min (Z.min int64_max (t - u)).

End GoTime.
