(* ===== verification/Ring.v ===== *)
(** * Ring: the single-producer single-consumer shared-memory ring
    ([src/shared/ring/ring.go])

    [Initialize] and [Open] work on the bytes of the mapping.  [Read] and
    [Write] are programs of atomic actions (one load, one store or one copied
    byte at a time) so that a producer and a consumer process can be
    interleaved arbitrarily; the section [Concurrent] proves that under every
    interleaving the consumer receives a prefix of what the producer wrote. *)

From S2P Require Import Prelude GoStrings.

Module Ring.

(** ** Constants *)

Definition HeaderSize : Z := 4096.
Definition DefaultSlots : Z := 8.
Definition MaxSlotSize : Z := Z.shiftl 16 20.
Definition MinSlotSize : Z := Z.shiftl 1 20.
Definition MaxStreamLength : Z := Z.shiftl 1 40.
Definition headOffset : Z := 0.
Definition tailOffset : Z := 64.
Definition magicOffset : Z := 128.
Definition versionOffset : Z := 136.
Definition slotsOffset : Z := 140.
Definition slotSizeOffset : Z := 144.
Definition totalOffset : Z := 152.
Definition magic : list Z := [65; 73; 79; 82; 73; 78; 71; 49].

Inductive ring_error :=
| InvalidBounds | MappingTooLarge | OpenFailed | NotRegular | BadMagic | BadBounds
| NotReadable | NotWritable | EOF | ExceedsLength | CorruptCounters | ContextDone
| ClosedEarly (position total : Z) | UnmapFailed | CloseFailed.

(** ** The mapped file *)

(** The bytes of the mapping by offset, and its length. *)
Record mapping := Mapping { m_bytes : Z -> Z; m_len : Z }.

Definition set_byte (b : Z -> Z) (off v : Z) : Z -> Z :=
  fun o => if o =? off then v else b o.

(** [binary.LittleEndian.PutUint32] and [PutUint64] ([n] is 4 and 8). *)
Fixpoint put_le (n : nat) (b : Z -> Z) (off v : Z) : Z -> Z :=
  match n with
  | O => b
  | S n' => put_le n' (set_byte b off (v mod 256)) (off + 1) (v / 256)
  end.

(** [binary.LittleEndian.Uint32] and [Uint64]. *)
Fixpoint get_le (n : nat) (b : Z -> Z) (off : Z) : Z :=
  match n with
  | O => 0
  | S n' => b off + 256 * get_le n' b (off + 1)
  end.

Fixpoint put_bytes (b : Z -> Z) (off : Z) (l : list Z) : Z -> Z :=
  match l with
  | [] => b
  | v :: l' => put_bytes (set_byte b off v) (off + 1) l'
  end.

Fixpoint get_bytes (n : nat) (b : Z -> Z) (off : Z) : list Z :=
  match n with O => [] | S n' => b off :: get_bytes n' b (off + 1) end.

Definition bad_bounds (slots slotSize total : Z) : bool :=
  (slots <? 2) || (64 <? slots) || (slotSize <? MinSlotSize) || (MaxSlotSize <? slotSize)
  || (total =? 0) || (MaxStreamLength <? total).

(** [Initialize]: the mapping of the freshly truncated (zero-filled) file. *)
Definition Initialize (slots slotSize total : Z) : result ring_error mapping :=
  reject_if bad_bounds slots slotSize total with InvalidBounds in
  let size := wrapu64 (HeaderSize + slots * slotSize) in
  reject_if int64_max <? size with MappingTooLarge in
  let b := put_bytes (fun _ => 0) magicOffset magic in
  let b := put_le 4 b versionOffset 1 in
  let b := put_le 4 b slotsOffset (wrapu32 slots) in
  let b := put_le 8 b slotSizeOffset slotSize in
  let b := put_le 8 b totalOffset total in
  let b := put_le 8 b headOffset 0 in
  let b := put_le 8 b tailOffset 0 in
  Ok (Mapping b size).

(** ** The handle *)

Record Ring := MkRing {
  slots : Z; slotSize : Z; total : Z;
  position : Z; frameBytes : Z; framePos : Z;
  producer : bool }.

(** [Open]: [None] is a failed [os.OpenFile], [Stat] or [Mmap]; [regular] is
    the file-type test on the file's mode. *)
Definition Open (file : option (bool * mapping)) (producer : bool) : result ring_error Ring :=
  match file with
  | None => Err OpenFailed
  | Some (regular, m) =>
      reject_if negb regular || (m_len m <? HeaderSize) with NotRegular in
      reject_if negb (bool_decide (get_bytes 8 (m_bytes m) magicOffset = magic))
                || negb (get_le 4 (m_bytes m) versionOffset =? 1) with BadMagic in
      let slots := get_le 4 (m_bytes m) slotsOffset in
      let slotSize := get_le 8 (m_bytes m) slotSizeOffset in
      let total := get_le 8 (m_bytes m) totalOffset in
      let want := wrapu64 (HeaderSize + wrapu64 (slots * slotSize)) in
      reject_if bad_bounds slots slotSize total || negb (want =? m_len m) with BadBounds in
      Ok (MkRing slots slotSize total 0 0 0 producer)
  end.

Definition Total (r : Ring) : Z := total r.

(** [Close]: the first failure wins; a producer that did not write
    everything it declared is a failure. *)
Definition Close (r : Ring) (munmap_ok close_ok : bool) : result ring_error unit :=
  if producer r && negb (position r =? total r) then Err (ClosedEarly (position r) (total r))
  else if negb munmap_ok then Err UnmapFailed
  else if negb close_ok then Err CloseFailed
  else Ok tt.

(** ** The memory both processes share

    The atomic words at [headOffset] and [tailOffset] and the bytes. *)
Record shared := Shared { sh_head : Z; sh_tail : Z; sh_data : Z -> Z }.

Definition share (m : mapping) : shared :=
  Shared (get_le 8 (m_bytes m) headOffset) (get_le 8 (m_bytes m) tailOffset) (m_bytes m).

(** [wait]: [Some] error when the context is done, else retry. *)
Definition wait (ctx_done : bool) : option ring_error :=
  if ctx_done then Some ContextDone else None.

(** [r.frameBytes = min(r.slotSize, r.total-r.position); r.framePos = 0]. *)
Definition next_frame (r : Ring) : Ring :=
  MkRing (slots r) (slotSize r) (total r) (position r)
         (Z.min (slotSize r) (total r - position r)) 0 (producer r).

(** [r.framePos += amount; r.position += amount]. *)
Definition advance (r : Ring) (amount : Z) : Ring :=
  MkRing (slots r) (slotSize r) (total r) (position r + amount)
         (frameBytes r) (framePos r + amount) (producer r).

(** [HeaderSize + (counter % r.slots) * r.slotSize + r.framePos]. *)
Definition slot_start (r : Ring) (counter : Z) : Z :=
  HeaderSize + (counter mod slots r) * slotSize r + framePos r.

(** ** [Read] as a program

    [n] is [len(buffer)]; [done] the bytes already copied into it. *)
Inductive rpc :=
| RFrame (n : Z)                                  (* top of the frame loop *)
| RTail (n head : Z)                              (* head loaded, tail next *)
| RAmount (n : Z)                                 (* after the loop *)
| RCopy (tail start amount : Z) (done : list Z)   (* inside [copy] *)
| RPublish (tail : Z) (done : list Z)             (* before the store of tail *)
| RRet (r : result ring_error (list Z)).

Definition read_call (r : Ring) (n : Z) : rpc :=
  if producer r then RRet (Err NotReadable)
  else if position r =? total r then RRet (Err EOF)
  else RFrame n.

Definition read_step (ctx_done : bool) (sh : shared) (r : Ring) (pc : rpc) : shared * Ring * rpc :=
  match pc with
  | RFrame n =>
      if framePos r =? frameBytes r then (sh, r, RTail n (sh_head sh)) else (sh, r, RAmount n)
  | RTail n head =>
      let tail := sh_tail sh in
      if (head <? tail) || (slots r <? head - tail) then (sh, r, RRet (Err CorruptCounters))
      else if head =? tail then
        match wait ctx_done with
        | Some e => (sh, r, RRet (Err e))
        | None => (sh, r, RFrame n)
        end
      else (sh, next_frame r, RAmount n)
  | RAmount n =>
      let amount := Z.min n (frameBytes r - framePos r) in
      let tail := sh_tail sh in
      (sh, r, RCopy tail (slot_start r tail) amount [])
  | RCopy tail start amount done =>
      let k := Z.of_nat (length done) in
      if k <? amount then (sh, r, RCopy tail start amount (done ++ [sh_data sh (start + k)]))
      else
        let r' := advance r amount in
        (sh, r', if framePos r' =? frameBytes r' then RPublish tail done else RRet (Ok done))
  | RPublish tail done =>
      (Shared (sh_head sh) (wrapu64 (tail + 1)) (sh_data sh), r, RRet (Ok done))
  | RRet res => (sh, r, RRet res)
  end.

(** ** [Write] as a program

    [rest] is [buffer[written:]]. *)
Inductive wpc :=
| WLoop (rest : list Z) (written : Z)                     (* top of the outer loop *)
| WFrame (rest : list Z) (written : Z)                    (* top of the frame loop *)
| WTail (rest : list Z) (written head : Z)                (* head loaded, tail next *)
| WAmount (rest : list Z) (written : Z)                   (* after the frame loop *)
| WCopy (head start amount k : Z) (rest : list Z) (written : Z)
| WPublish (head : Z) (rest : list Z) (written : Z)       (* before the store of head *)
| WRet (written : Z) (e : option ring_error).

Definition write_call (r : Ring) (buffer : list Z) : wpc :=
  if negb (producer r) then WRet 0 (Some NotWritable)
  else if total r <? position r + Z.of_nat (length buffer) then WRet 0 (Some ExceedsLength)
  else WLoop buffer 0.

Definition write_step (ctx_done : bool) (sh : shared) (r : Ring) (pc : wpc) : shared * Ring * wpc :=
  match pc with
  | WLoop rest written =>
      match rest with
      | [] => (sh, r, WRet written None)
      | _ => (sh, r, WFrame rest written)
      end
  | WFrame rest written =>
      if framePos r =? frameBytes r then (sh, r, WTail rest written (sh_head sh))
      else (sh, r, WAmount rest written)
  | WTail rest written head =>
      let tail := sh_tail sh in
      if (head <? tail) || (slots r <? head - tail) then (sh, r, WRet written (Some CorruptCounters))
      else if head - tail =? slots r then
        match wait ctx_done with
        | Some e => (sh, r, WRet written (Some e))
        | None => (sh, r, WFrame rest written)
        end
      else (sh, next_frame r, WAmount rest written)
  | WAmount rest written =>
      let amount := Z.min (Z.of_nat (length rest)) (frameBytes r - framePos r) in
      let head := sh_head sh in
      (sh, r, WCopy head (slot_start r head) amount 0 rest written)
  | WCopy head start amount k rest written =>
      (* [amount <= len(rest)] at the start, so [hd] never sees the empty list *)
      if k <? amount
      then (Shared (sh_head sh) (sh_tail sh) (set_byte (sh_data sh) (start + k) (hd 0 rest)), r,
            WCopy head start amount (k + 1) (tl rest) written)
      else
        let r' := advance r amount in
        (sh, r', if framePos r' =? frameBytes r' then WPublish head rest (written + amount)
                 else WLoop rest (written + amount))
  | WPublish head rest written =>
      (Shared (wrapu64 (head + 1)) (sh_tail sh) (sh_data sh), r, WLoop rest written)
  | WRet written e => (sh, r, WRet written e)
  end.

(** ** Two processes over one mapping *)

(** The producer's and the consumer's handles and programs over the shared
    memory.  [sent] and [received] are history variables: the bytes copied
    into the ring by [Write] and the bytes returned by [Read]. *)
Record sys := Sys {
  s_sh : shared; s_w : Ring; s_wpc : wpc; s_r : Ring; s_rpc : rpc;
  sent : list Z; received : list Z }.

(** The byte a write step is about to copy, if any. *)
Definition copied (pc : wpc) : list Z :=
  match pc with
  | WCopy _ _ amount k rest _ => if k <? amount then [hd 0 rest] else []
  | _ => []
  end.

(** What a read step hands to the caller, if it returns. *)
Definition returned (pc pc' : rpc) : list Z :=
  match pc, pc' with
  | RRet _, _ => []
  | _, RRet (Ok done) => done
  | _, _ => []
  end.

Inductive sys_step : sys -> sys -> Prop :=
| step_write_call sh w n e r rp snt rcv buffer :
    sys_step (Sys sh w (WRet n e) r rp snt rcv) (Sys sh w (write_call w buffer) r rp snt rcv)
| step_write ctx_done sh w wp r rp snt rcv sh' w' wp' :
    write_step ctx_done sh w wp = (sh', w', wp') ->
    sys_step (Sys sh w wp r rp snt rcv) (Sys sh' w' wp' r rp (snt ++ copied wp) rcv)
| step_read_call sh w wp r res snt rcv n :
    0 <= n ->
    sys_step (Sys sh w wp r (RRet res) snt rcv) (Sys sh w wp r (read_call r n) snt rcv)
| step_read ctx_done sh w wp r rp snt rcv sh' r' rp' :
    read_step ctx_done sh r rp = (sh', r', rp') ->
    sys_step (Sys sh w wp r rp snt rcv) (Sys sh' w wp r' rp' snt (rcv ++ returned rp rp')).

(** Both processes have opened a freshly initialised ring. *)
Definition initial (slots slotSize total : Z) (s : sys) : Prop :=
  exists m w r,
    Initialize slots slotSize total = Ok m /\
    Open (Some (true, m)) true = Ok w /\ Open (Some (true, m)) false = Ok r /\
    s = Sys (share m) w (WRet 0 None) r (RRet (Ok [])) [] [].

(** A schedule as data, for running the two processes. *)
Inductive action :=
| CallWrite (buffer : list Z) | StepWrite | CallRead (n : Z) | StepRead.

Definition exec_step (s : sys) (a : action) : sys :=
  match a, s with
  | CallWrite buf, Sys sh w (WRet _ _) r rp snt rcv => Sys sh w (write_call w buf) r rp snt rcv
  | StepWrite, Sys sh w wp r rp snt rcv =>
      let '(sh', w', wp') := write_step false sh w wp in Sys sh' w' wp' r rp (snt ++ copied wp) rcv
  | CallRead n, Sys sh w wp r (RRet _) snt rcv => Sys sh w wp r (read_call r (Z.max 0 n)) snt rcv
  | StepRead, Sys sh w wp r rp snt rcv =>
      let '(sh', r', rp') := read_step false sh r rp in
      Sys sh' w wp r' rp' snt (rcv ++ returned rp rp')
  | _, _ => s
  end.

Definition exec (s : sys) (l : list action) : sys := fold_left exec_step l s.

Definition reachable (slots slotSize total : Z) (s : sys) : Prop :=
  exists s0, initial slots slotSize total s0 /\ rtc sys_step s0 s.

(** ** The header: lemmas on bytes and little-endian words *)

Lemma put_le_other n b off v o : o < off \/ off + Z.of_nat n <= o -> put_le n b off v o = b o.
Proof.
  revert b off v. induction n as [|n IH]; intros b off v H; [done|].
  cbn [put_le]. rewrite ->IH by lia. unfold set_byte.
  case_match eqn:E; bool_hyps; [lia|done].
Qed.

Lemma put_bytes_other b off l o :
  o < off \/ off + Z.of_nat (length l) <= o -> put_bytes b off l o = b o.
Proof.
  revert b off. induction l as [|v l IH]; intros b off H; [done|].
  cbn [put_bytes length] in *. rewrite ->IH by lia. unfold set_byte.
  case_match eqn:E; bool_hyps; [lia|done].
Qed.

Lemma get_le_ext n b b' off :
  (forall o, off <= o < off + Z.of_nat n -> b o = b' o) -> get_le n b off = get_le n b' off.
Proof.
  revert off. induction n as [|n IH]; intros off H; [done|].
  cbn [get_le]. rewrite ->H by lia. rewrite ->(IH (off + 1)); [done|].
  intros o Ho. apply H. lia.
Qed.

Lemma get_bytes_ext n b b' off :
  (forall o, off <= o < off + Z.of_nat n -> b o = b' o) -> get_bytes n b off = get_bytes n b' off.
Proof.
  revert off. induction n as [|n IH]; intros off H; [done|].
  cbn [get_bytes]. rewrite ->H by lia. rewrite ->(IH (off + 1)); [done|].
  intros o Ho. apply H. lia.
Qed.

Lemma get_put_le n b off v : get_le n (put_le n b off v) off = v mod 256 ^ Z.of_nat n.
Proof.
  revert b off v. induction n as [|n IH]; intros b off v.
  - cbn [get_le]. rewrite ->Z.mod_1_r. done.
  - cbn [get_le put_le]. rewrite ->IH, put_le_other by lia. unfold set_byte. rewrite ->Z.eqb_refl.
    rewrite ->Nat2Z.inj_succ, Z.pow_succ_r, Z.rem_mul_r by lia. lia.
Qed.

Lemma get_le_nonneg n b off : (forall o, 0 <= b o < 256) -> 0 <= get_le n b off.
Proof.
  intros Hb. revert off. induction n as [|n IH]; intros off; [done|].
  cbn [get_le]. pose proof (Hb off). pose proof (IH (off + 1)). lia.
Qed.

(** A word survives writes elsewhere. *)
Lemma get_le_put_disjoint n k b off off' v :
  off + Z.of_nat n <= off' \/ off' + Z.of_nat k <= off ->
  get_le n (put_le k b off' v) off = get_le n b off.
Proof. intros H. apply get_le_ext. intros o Ho. apply put_le_other. lia. Qed.

Lemma get_bytes_put_disjoint n k b off off' v :
  off + Z.of_nat n <= off' \/ off' + Z.of_nat k <= off ->
  get_bytes n (put_le k b off' v) off = get_bytes n b off.
Proof. intros H. apply get_bytes_ext. intros o Ho. apply put_le_other. lia. Qed.

#[local] Ltac header :=
  unfold magicOffset, versionOffset, slotsOffset, slotSizeOffset, totalOffset,
    headOffset, tailOffset in *;
  repeat first
    [ rewrite ->get_put_le
    | rewrite ->get_le_put_disjoint by (cbn; lia)
    | rewrite ->get_bytes_put_disjoint by (cbn; lia) ].

Lemma bad_bounds_false sl ss t :
  bad_bounds sl ss t = false -> 0 <= t ->
  2 <= sl <= 64 /\ MinSlotSize <= ss <= MaxSlotSize /\ 0 < t <= MaxStreamLength.
Proof. unfold bad_bounds. intros H Ht. bool_hyps. lia. Qed.

#[local] Ltac consts :=
  unfold MinSlotSize, MaxSlotSize, MaxStreamLength, HeaderSize in *;
  change (Z.shiftl 1 20) with 1048576 in *;
  change (Z.shiftl 16 20) with 16777216 in *;
  change (Z.shiftl 1 40) with 1099511627776 in *;
  pow2.

#[local] Arguments put_le : simpl never.
#[local] Arguments get_le : simpl never.
#[local] Arguments put_bytes : simpl never.
#[local] Arguments get_bytes : simpl never.

(** What [Initialize] wrote is what [Open] and the counters read. *)
Lemma initialize_open sl ss t m p :
  0 <= t -> Initialize sl ss t = Ok m ->
  Open (Some (true, m)) p = Ok (MkRing sl ss t 0 0 0 p) /\
  sh_head (share m) = 0 /\ sh_tail (share m) = 0 /\
  2 <= sl <= 64 /\ MinSlotSize <= ss <= MaxSlotSize /\ 0 < t <= MaxStreamLength.
Proof.
  intros Ht H. unfold Initialize in H.
  destruct (bad_bounds sl ss t) eqn:Hb; [done|].
  pose proof (bad_bounds_false _ _ _ Hb Ht) as (Hsl & Hss & Htt).
  case_match eqn:Hsize; simplify_eq. bool_hyps.
  assert (0 <= sl * ss <= 64 * MaxSlotSize) as Hmul by (consts; nia).
  unfold Open, share. cbn [m_bytes m_len sh_head sh_tail]. header.
  rewrite ->wrapu64_id in * by (consts; lia).
  unfold wrapu32. change (256 ^ Z.of_nat 4) with (2 ^ 32). change (256 ^ Z.of_nat 8) with (2 ^ 64).
  rewrite ->!(Z.mod_small sl), (Z.mod_small ss), (Z.mod_small t), !Z.mod_0_l, Z.mod_1_l by (consts; lia).
  rewrite ->Hb, (wrapu64_id (sl * ss)), wrapu64_id, Z.eqb_refl by (consts; lia).
  rewrite ->(proj2 (Z.ltb_ge _ _)) by (consts; lia).
  rewrite ->bool_decide_eq_true_2 by reflexivity. rewrite ->Z.eqb_refl. done.
Qed.

(** ** The invariant of the two processes *)

Section Invariant.
Context (S B T : Z).
Hypothesis HS : 2 <= S <= 64.
Hypothesis HB : MinSlotSize <= B <= MaxSlotSize.
Hypothesis HT : 0 < T <= MaxStreamLength.

Implicit Types (sh : shared) (w r : Ring) (j c : Z).

(** Byte [j] of the stream lives in slot [(j / B) mod S]. *)
Definition addr j : Z := HeaderSize + ((j / B) mod S) * B + j mod B.

(** A handle inside frame [c], and one between frames with [c] done. *)
Definition in_frame r c : Prop :=
  0 <= framePos r < frameBytes r /\ frameBytes r = Z.min B (T - c * B) /\
  position r = c * B + framePos r.
Definition between r c : Prop :=
  framePos r = frameBytes r /\ position r = Z.min (c * B) T.
Definition finished r c : Prop :=
  framePos r = frameBytes r /\ position r = Z.min ((c + 1) * B) T /\ c * B < T.

Definition geometry r : Prop := slots r = S /\ slotSize r = B /\ total r = T.

(** The producer: what its program counter knows of the head counter [h],
    of the room left ([h - t < S]) and of the remaining buffer. *)
Definition w_inv sh w wp : Prop :=
  let h := sh_head sh in
  let room := h - sh_tail sh < S in
  match wp with
  | WLoop rest _ | WFrame rest _ =>
      (between w h \/ in_frame w h /\ room) /\ position w + Z.of_nat (length rest) <= T /\
      (if wp is WFrame _ _ then rest <> [] else True)
  | WTail rest _ hd =>
      hd = h /\ between w h /\ position w + Z.of_nat (length rest) <= T /\ rest <> []
  | WAmount rest _ =>
      in_frame w h /\ room /\ position w + Z.of_nat (length rest) <= T /\ rest <> []
  | WCopy hd st amount k rest _ =>
      hd = h /\ st = slot_start w h /\ in_frame w h /\ room /\
      0 <= k <= amount /\ 0 < amount <= frameBytes w - framePos w /\
      amount - k <= Z.of_nat (length rest) /\
      position w + k + Z.of_nat (length rest) <= T
  | WPublish hd rest _ =>
      hd = h /\ finished w h /\ room /\ position w + Z.of_nat (length rest) <= T
  | WRet _ e =>
      (between w h \/ in_frame w h /\ room) /\ e <> Some CorruptCounters
  end.

(** Bytes of the current [Write] already in the ring but not yet counted. *)
Definition w_mid wp : Z := match wp with WCopy _ _ _ k _ _ => k | _ => 0 end.

Definition r_inv sh r rp : Prop :=
  let h := sh_head sh in
  let t := sh_tail sh in
  match rp with
  | RFrame n => (between r t \/ in_frame r t /\ t < h) /\ position r < T /\ 0 <= n
  | RTail n hd => between r t /\ position r < T /\ t <= hd <= h /\ 0 <= n
  | RAmount n => in_frame r t /\ t < h /\ 0 <= n
  | RCopy tl st amount done =>
      tl = t /\ st = slot_start r t /\ in_frame r t /\ t < h /\
      Z.of_nat (length done) <= amount <= frameBytes r - framePos r
  | RPublish tl done => tl = t /\ finished r t /\ t < h
  | RRet res => (between r t \/ in_frame r t /\ t < h) /\ res <> Err CorruptCounters
  end.

(** The bytes the current [Read] has copied, and whether the handle's
    position already counts them. *)
Definition r_pending rp : list Z :=
  match rp with RCopy _ _ _ done | RPublish _ done => done | _ => [] end.
Definition r_counted rp : Z :=
  match rp with RPublish _ done => Z.of_nat (length done) | _ => 0 end.

Record inv (s : sys) : Prop := {
  i_geo_w : geometry (s_w s);
  i_geo_r : geometry (s_r s);
  i_counters : 0 <= sh_tail (s_sh s) <= sh_head (s_sh s) /\
               sh_head (s_sh s) - sh_tail (s_sh s) <= S;
  i_w : w_inv (s_sh s) (s_w s) (s_wpc s);
  i_sent : Z.of_nat (length (sent s)) = position (s_w s) + w_mid (s_wpc s);
  i_r : r_inv (s_sh s) (s_r s) (s_rpc s);
  i_received : Z.of_nat (length (received s)) + r_counted (s_rpc s) = position (s_r s);
  i_prefix : received s ++ r_pending (s_rpc s) `prefix_of` sent s;
  i_data : forall j, sh_tail (s_sh s) * B <= j < Z.of_nat (length (sent s)) ->
           sent s !! Z.to_nat j = Some (sh_data (s_sh s) (addr j))
}.

#[local] Ltac bounds := consts; lia.

Lemma addr_in_frame c j :
  c * B <= j < c * B + B -> addr j = HeaderSize + (c mod S) * B + (j - c * B).
Proof.
  intros H. unfold addr.
  assert (j / B = c) as -> by (symmetry; apply (Z.div_unique_pos _ _ _ (j - c * B)); lia).
  assert (j mod B = j - c * B) as -> by (symmetry; apply (Z.mod_unique_pos _ _ c); lia).
  done.
Qed.

(** Distinct stream bytes less than [S] frames apart have distinct homes. *)
Lemma addr_inj c j j' :
  c * B <= j < (c + S) * B -> c * B <= j' < (c + S) * B -> addr j = addr j' -> j = j'.
Proof.
  unfold addr. intros Hj Hj' E.
  assert (0 < B) as HB0 by bounds.
  pose proof (Z.mod_pos_bound j B HB0). pose proof (Z.mod_pos_bound j' B HB0).
  assert ((j / B) mod S = (j' / B) mod S /\ j mod B = j' mod B) as [Eq Er].
  { apply (Z.div_mod_unique B); lia. }
  assert (j / B = j' / B) as Eq'.
  { assert (c <= j / B < c + S) by (split; [apply Z.div_le_lower_bound|apply Z.div_lt_upper_bound]; lia).
    assert (c <= j' / B < c + S) by (split; [apply Z.div_le_lower_bound|apply Z.div_lt_upper_bound]; lia).
    by apply (mod_window S c). }
  rewrite ->(Z.div_mod j B), (Z.div_mod j' B), Eq', Er by lia. done.
Qed.

Lemma slot_start_addr r c k :
  geometry r -> in_frame r c -> 0 <= k -> framePos r + k < B ->
  slot_start r c + k = addr (position r + k).
Proof.
  intros (Es & Eb & _) (Hf & _ & Ep) Hk Hlt. unfold slot_start. rewrite ->Es, Eb.
  rewrite ->(addr_in_frame c) by lia. lia.
Qed.

(** Loading a fresh frame. *)
Lemma next_frame_in r c :
  geometry r -> between r c -> position r < T -> in_frame (next_frame r) c.
Proof.
  intros (_ & Eb & Et) (_ & Ep) Hlt. unfold in_frame, next_frame. simpl.
  rewrite ->Eb, Et. repeat split; bounds.
Qed.

(** Consuming [amount] bytes of the frame either stays inside it or
    finishes it. *)
Lemma advance_frame r c amount :
  in_frame r c -> 0 <= amount <= frameBytes r - framePos r ->
  if framePos (advance r amount) =? frameBytes (advance r amount)
  then finished (advance r amount) c else in_frame (advance r amount) c.
Proof.
  intros (Hf & Efb & Ep) Ha. simpl. case_match eqn:E; bool_hyps;
    unfold finished, in_frame; simpl; repeat split; lia.
Qed.

Lemma in_frame_mono r c : in_frame r c -> c * B <= position r < c * B + B /\ position r < T.
Proof. intros (Hf & Efb & Ep). lia. Qed.

Lemma between_succ r c : finished r c -> between r (c + 1).
Proof. intros (? & ? & ?). split; [done|lia]. Qed.

(** A producer that publishes does not disturb the consumer, and conversely. *)
Lemma r_inv_mono sh sh' r rp :
  sh_tail sh' = sh_tail sh -> sh_head sh <= sh_head sh' -> r_inv sh r rp -> r_inv sh' r rp.
Proof.
  intros Et Eh. destruct rp; simpl; rewrite ->?Et; intuition (try lia).
Qed.

Lemma w_inv_mono sh sh' w wp :
  sh_head sh' = sh_head sh -> sh_tail sh <= sh_tail sh' -> w_inv sh w wp -> w_inv sh' w wp.
Proof.
  intros Eh Et. destruct wp; simpl; rewrite ->?Eh; intuition (try lia).
Qed.

Lemma between_or_frame_pos w h :
  0 <= h -> between w h \/ in_frame w h -> Z.min (h * B) T <= position w <= Z.min ((h + 1) * B) T.
Proof.
  intros Hh [(_ & E)|(Hf & Efb & Ep)]; assert (0 <= h * B) by (consts; nia); bounds.
Qed.

(** What one step of [Write] does to the shared memory and to the
    producer's position. *)
Record w_post sh w wp sh' w' wp' : Prop := {
  wp_geo : geometry w';
  wp_inv : w_inv sh' w' wp';
  wp_tail : sh_tail sh' = sh_tail sh;
  wp_head : sh_head sh <= sh_head sh' <= sh_tail sh + S;
  wp_pos : position w' + w_mid wp' = position w + w_mid wp + Z.of_nat (length (copied wp));
  wp_data : sh_data sh' = sh_data sh /\ copied wp = [] \/
    exists b, copied wp = [b] /\
      sh_data sh' = set_byte (sh_data sh) (addr (position w + w_mid wp)) b /\
      position w + w_mid wp < (sh_head sh + 1) * B /\ sh_head sh - sh_tail sh < S
}.

Lemma write_copy_post sh w hd st amount k rest written :
  geometry w -> 0 <= sh_tail sh <= sh_head sh -> sh_head sh - sh_tail sh <= S ->
  w_inv sh w (WCopy hd st amount k rest written) -> k < amount ->
  w_post sh w (WCopy hd st amount k rest written)
    (Shared (sh_head sh) (sh_tail sh) (set_byte (sh_data sh) (st + k) (List.hd 0 rest))) w
    (WCopy hd st amount (k + 1) (tl rest) written).
Proof.
  intros Hg Hc Hc' (-> & -> & Hf & Hroom & Hk & Ha & Hl & Ht) Hlt.
  assert (Z.of_nat (length (tl rest)) = Z.of_nat (length rest) - 1) as Etl
    by (destruct rest; simpl in *; lia).
  split; simpl; rewrite ->?(proj2 (Z.ltb_lt k amount) Hlt), ?Etl; simpl; try done; try lia.
  - split_and!; try done; lia.
  - right. eexists. split; [done|]. pose proof Hf as (Hfp & Hfb & Hpos).
    rewrite ->(slot_start_addr w (sh_head sh) k) by (try done; lia).
    split; [done|]. lia.
Qed.

Lemma write_done_post sh w hd st amount k rest written :
  geometry w -> 0 <= sh_tail sh <= sh_head sh -> sh_head sh - sh_tail sh <= S ->
  w_inv sh w (WCopy hd st amount k rest written) -> amount <= k ->
  w_post sh w (WCopy hd st amount k rest written) sh (advance w amount)
    (if framePos (advance w amount) =? frameBytes (advance w amount)
     then WPublish hd rest (written + amount) else WLoop rest (written + amount)).
Proof.
  intros Hg Hc Hc' (-> & -> & Hf & Hroom & Hk & Ha & Hl & Ht) Hge.
  pose proof (advance_frame w (sh_head sh) amount Hf ltac:(lia)) as Hadv.
  assert (k = amount) as -> by lia.
  simpl in Hadv.
  split; simpl; rewrite ->?(proj2 (Z.ltb_ge amount amount)) by lia; try done; try lia.
  - case_match; simpl; split_and!; auto with lia.
  - case_match; simpl; lia.
  - by left.
Qed.

Lemma write_tail_post ctx_done sh w rest written hd sh' w' wp' :
  geometry w -> 0 <= sh_tail sh <= sh_head sh -> sh_head sh - sh_tail sh <= S ->
  w_inv sh w (WTail rest written hd) ->
  write_step ctx_done sh w (WTail rest written hd) = (sh', w', wp') ->
  w_post sh w (WTail rest written hd) sh' w' wp'.
Proof.
  intros Hg Hc Hc' (-> & Hbt & Hlen & Hne) E. simpl in E.
  assert (position w < T) by (destruct rest; [done|]; simpl in *; lia).
  pose proof (next_frame_in _ _ Hg Hbt ltac:(done)) as Hnf.
  destruct Hg as (Es & Eb & Et). rewrite ->Es in E.
  rewrite ->(proj2 (orb_false_iff _ _)) in E by (split; lia).
  unfold wait in E. repeat case_match; simplify_eq; bool_hyps;
    split; simpl; try done; try lia; auto.
  all: split_and!; auto; lia.
Qed.

(** A counter inside the stream is far from wrapping. *)
Lemma counter_no_wrap c : 0 <= c -> c * B < T -> wrapu64 (c + 1) = c + 1.
Proof. intros Hc Hlt. apply wrapu64_id. consts. nia. Qed.

Lemma write_step_post ctx_done sh w wp sh' w' wp' :
  geometry w -> 0 <= sh_tail sh <= sh_head sh -> sh_head sh - sh_tail sh <= S ->
  w_inv sh w wp -> write_step ctx_done sh w wp = (sh', w', wp') ->
  w_post sh w wp sh' w' wp'.
Proof.
  intros Hg Hc Hc' Hw E. destruct wp as [rest wr|rest wr|rest wr hd|rest wr|hd st am k rest wr|hd rest wr|wr e].
  - destruct Hw as (Hfr & Hlen & _). destruct rest; simplify_eq/=;
      split; simpl; try done; try lia; auto; split_and!; auto.
  - destruct Hw as (Hfr & Hlen & Hne). simpl in E.
    case_match eqn:E1; simplify_eq; bool_hyps; split; simpl; try done; try lia; auto;
      destruct Hfr as [Hb|(Hf & Hroom)]; try done;
      solve [destruct Hf; lia | destruct Hb; lia].
  - by eapply write_tail_post.
  - destruct Hw as (Hf & Hroom & Hlen & Hne). simplify_eq/=.
    assert (0 < Z.of_nat (length rest)) by (destruct rest; [done|]; simpl; lia).
    pose proof Hf as (Hfp & Hfb & Hpos).
    split; simpl; rewrite ->?(proj2 (Z.ltb_lt 0 _)) by lia; try done; try lia;
      [split_and!; try done; lia|by left].
  - simpl in E. case_match eqn:E1; simplify_eq; bool_hyps.
    + by apply write_copy_post.
    + by apply write_done_post.
  - destruct Hw as (-> & Hfin & Hroom & Hlen). simplify_eq/=.
    pose proof (proj2 (proj2 Hfin)).
    split; simpl; rewrite ->?counter_no_wrap by lia; try done; try lia; auto.
    split_and!; [left; by apply between_succ|done|done].
  - simplify_eq/=. split; simpl; try done; try lia; auto.
Qed.

Record r_post sh r rp sh' r' rp' : Prop := {
  rp_geo : geometry r';
  rp_inv : r_inv sh' r' rp';
  rp_head : sh_head sh' = sh_head sh;
  rp_tail : sh_tail sh <= sh_tail sh' <= sh_head sh;
  rp_mem : sh_data sh' = sh_data sh;
  rp_pos : Z.of_nat (length (returned rp rp')) + r_counted rp' - r_counted rp
           = position r' - position r;
  rp_bytes : exists extra, returned rp rp' ++ r_pending rp' = r_pending rp ++ extra /\
    (extra = [] \/
     let j := position r + Z.of_nat (length (r_pending rp)) in
     extra = [sh_data sh (addr j)] /\ r_counted rp = 0 /\
     sh_tail sh * B <= j < Z.min (sh_head sh * B) T)
}.

Lemma read_copy_post sh r tl st amount done sh' r' rp' ctx_done :
  geometry r -> 0 <= sh_tail sh <= sh_head sh -> sh_head sh - sh_tail sh <= S ->
  r_inv sh r (RCopy tl st amount done) ->
  read_step ctx_done sh r (RCopy tl st amount done) = (sh', r', rp') ->
  r_post sh r (RCopy tl st amount done) sh' r' rp'.
Proof.
  intros Hg Hc Hc' (-> & -> & Hf & Hlt & Ha) E. simpl in E.
  pose proof Hf as (Hfp & Hfb & Hpos).
  assert (sh_tail sh * B + B <= sh_head sh * B) by (consts; nia).
  case_match eqn:E1; injection E as <- <- <-; bool_hyps.
  - split; simpl; try done; try lia.
    + rewrite ->length_app. simpl. split_and!; try done; lia.
    + rewrite ->(slot_start_addr r (sh_tail sh)) by (try done; lia).
      eexists. split; [done|]. right. split_and!; try done; lia.
  - pose proof (advance_frame r (sh_tail sh) amount Hf ltac:(lia)) as Hadv. simpl in Hadv.
    split; simpl; try done; try lia.
    + case_match; simpl; auto.
    + case_match; simpl; lia.
    + exists []. split; [|by left]. case_match; simpl; by rw ?app_nil_r.
Qed.

Lemma read_step_post ctx_done sh r rp sh' r' rp' :
  geometry r -> 0 <= sh_tail sh <= sh_head sh -> sh_head sh - sh_tail sh <= S ->
  r_inv sh r rp -> read_step ctx_done sh r rp = (sh', r', rp') ->
  r_post sh r rp sh' r' rp'.
Proof.
  intros Hg Hc Hc' Hr E. destruct rp as [n|n hd|n|tl st am dn|tl dn|res].
  - destruct Hr as (Hfr & Hlt & Hn). simpl in E.
    case_match eqn:E1; injection E as <- <- <-; bool_hyps; split; simpl; try done; try lia;
      destruct Hfr as [Hb|(Hf & Hroom)];
      solve [split_and!; auto; lia | destruct Hf; lia | destruct Hb; lia | exists []; auto].
  - destruct Hr as (Hb & Hlt & Hhd & Hn). simpl in E.
    pose proof (next_frame_in _ _ Hg Hb Hlt) as Hnf.
    destruct Hg as (Es & Eb & Et). rewrite ->Es in E.
    rewrite ->(proj2 (orb_false_iff _ _)) in E by (split; lia).
    unfold wait in E. repeat case_match; simplify_eq; try injection E as <- <- <-; bool_hyps;
      split; simpl; try done; try lia; try (exists []; auto); split_and!; auto; lia.
  - destruct Hr as (Hf & Hlt & Hn). injection E as <- <- <-. pose proof Hf as (Hfp & Hfb & Hpos).
    split; simpl; try done; try lia; [split_and!; try done; lia|exists []; auto].
  - by eapply read_copy_post.
  - destruct Hr as (-> & Hfin & Hlt). injection E as <- <- <-. pose proof (proj2 (proj2 Hfin)).
    split; simpl; rewrite ->?counter_no_wrap by lia; try done; try lia.
    + split; [left; by apply between_succ|done].
    + exists []. rw app_nil_r. auto.
  - injection E as <- <- <-. split; simpl; try done; try lia; exists []; auto.
Qed.

Lemma w_inv_published sh w wp :
  0 <= sh_head sh -> w_inv sh w wp -> Z.min (sh_head sh * B) T <= position w + w_mid wp.
Proof.
  intros Hh Hw. assert (0 <= sh_head sh * B) by (consts; nia).
  destruct wp; simpl in *; unfold between, in_frame, finished in *;
    [destruct Hw as ([|[? _]] & _)|destruct Hw as ([|[? _]] & _)|destruct Hw as (_ & ? & _)
    |destruct Hw as (? & _)|destruct Hw as (_ & _ & ? & _ & ? & _)|destruct Hw as (_ & ? & _)
    |destruct Hw as ([|[? _]] & _)]; bounds.
Qed.

Lemma inv_write ctx_done sh w wp r rp snt rcv sh' w' wp' :
  inv (Sys sh w wp r rp snt rcv) -> write_step ctx_done sh w wp = (sh', w', wp') ->
  inv (Sys sh' w' wp' r rp (snt ++ copied wp) rcv).
Proof.
  intros [Hgw Hgr [Hc Hc'] Hw Hsent Hr Hrecv Hpre Hdata] E. simpl in *.
  destruct (write_step_post _ _ _ _ _ _ _ Hgw Hc Hc' Hw E) as [Hg' Hw' Et Eh Epos Hd].
  assert (0 <= sh_tail sh * B) by (consts; nia).
  split; simpl; rewrite ->?length_app, ?Et; try done; try lia.
  - eapply r_inv_mono; [done|lia|done].
  - by apply prefix_app_r.
  - intros j Hj. destruct Hd as [[Ed Ec]|(b & Ec & Ed & Hlt & Hroom)]; rewrite ->Ec, Ed in *.
    { rw app_nil_r. apply Hdata. simpl in Hj. lia. }
    simpl in Hj. rewrite <-Hsent in *. unfold set_byte. case_match eqn:Ea; bool_hyps.
    + apply (addr_inj (sh_tail sh)) in Ea; [|consts; nia..]. subst j.
      rewrite ->Nat2Z.id, lookup_app_r, Nat.sub_diag by lia. done.
    + assert (j <> Z.of_nat (length snt)) by congruence.
      rewrite ->lookup_app_l by lia. apply Hdata. lia.
Qed.

Lemma inv_read ctx_done sh w wp r rp snt rcv sh' r' rp' :
  inv (Sys sh w wp r rp snt rcv) -> read_step ctx_done sh r rp = (sh', r', rp') ->
  inv (Sys sh' w wp r' rp' snt (rcv ++ returned rp rp')).
Proof.
  intros [Hgw Hgr [Hc Hc'] Hw Hsent Hr Hrecv Hpre Hdata] E. simpl in *.
  destruct (read_step_post _ _ _ _ _ _ _ Hgr Hc Hc' Hr E) as [Hg' Hr' Eh Et Ed Epos (x & Ex & Hx)].
  pose proof (w_inv_published sh w wp ltac:(lia) Hw) as Hpub.
  assert (0 <= sh_tail sh * B) by (consts; nia).
  split; simpl; rewrite ->?length_app, ?Eh, ?Ed; try done; try lia.
  - eapply w_inv_mono; [done|lia|done].
  - rewrite <-app_assoc, Ex, app_assoc. destruct Hx as [->|(-> & Hcnt & Hj)].
    + by rewrite ->app_nil_r.
    + apply prefix_snoc_lookup; [done|]. rewrite ->length_app.
      rewrite <-(Hdata (position r + Z.of_nat (length (r_pending rp)))) by lia.
      f_equal. lia.
  - intros j Hj. apply Hdata. consts; nia.
Qed.

Lemma inv_step s s' : inv s -> sys_step s s' -> inv s'.
Proof.
  intros Hi Hst. destruct Hst as [sh w n e r rp snt rcv buf|? sh w wp r rp snt rcv sh' w' wp' E
    |sh w wp r res snt rcv n Hn|? sh w wp r rp snt rcv sh' r' rp' E].
  - destruct Hi as [Hgw Hgr Hc [Hw He] Hsent Hr Hrecv Hpre Hdata]. simpl in *.
    pose proof Hgw as (_ & _ & Et). split; simpl; try done.
    + unfold write_call. rewrite ->Et. repeat case_match; simpl; bool_hyps; auto.
    + unfold write_call. by repeat case_match.
  - by eapply inv_write.
  - destruct Hi as [Hgw Hgr Hc Hw Hsent [Hr He] Hrecv Hpre Hdata]. simpl in *.
    pose proof Hgr as (_ & _ & Et).
    assert (position r <= T) by (unfold between, in_frame in *; intuition lia).
    split; simpl; try done.
    + unfold read_call. rewrite ->Et. repeat case_match; simpl; bool_hyps; auto with lia.
    + unfold read_call. by repeat case_match.
    + unfold read_call. by repeat case_match.
  - by eapply inv_read.
Qed.

Lemma inv_initial s : initial S B T s -> inv s.
Proof.
  intros (m & w & r & Hm & Hw & Hr & ->).
  destruct (initialize_open S B T m true ltac:(lia) Hm) as (Hw' & Hh & Ht & _).
  destruct (initialize_open S B T m false ltac:(lia) Hm) as (Hr' & _).
  rewrite ->Hw in Hw'. rewrite ->Hr in Hr'. simplify_eq.
  generalize dependent (share m). intros sh Hh Ht.
  split; simpl; rewrite ->?Hh, ?Ht; try done; try lia;
    split; try done; left; unfold between; simpl; lia.
Qed.

Lemma reachable_inv s : reachable S B T s -> inv s.
Proof.
  intros (s0 & H0 & Hs). apply inv_initial in H0. induction Hs; eauto using inv_step.
Qed.

(** The consumer's position never passes what the producer published. *)
Lemma inv_bounds s : inv s ->
  Z.of_nat (length (received s)) <= Z.of_nat (length (sent s)) <= T.
Proof.
  intros [Hgw Hgr [Hc Hc'] Hw Hsent Hr Hrecv Hpre Hdata].
  apply prefix_length in Hpre. rewrite ->length_app in Hpre. split; [lia|].
  rewrite ->Hsent. clear -Hw HB. destruct (s_wpc s); simpl in *; unfold between, in_frame, finished in *;
    [destruct Hw as ([|[? _]] & _)|destruct Hw as ([|[? _]] & _)|destruct Hw as (_ & ? & _)
    |destruct Hw as (? & _)|destruct Hw as (_ & _ & ? & _ & ? & ? & _)|destruct Hw as (_ & ? & _)
    |destruct Hw as ([|[? _]] & _)]; lia.
Qed.
End Invariant.


(** ** The ring's guarantees *)

Lemma exec_step_reach s a : rtc sys_step s (exec_step s a).
Proof.
  destruct a, s as [sh w wp r rp snt rcv]; simpl; repeat case_match; subst;
    try apply rtc_refl; apply rtc_once; by econstructor; eauto; lia.
Qed.

Lemma exec_reach s l : rtc sys_step s (exec s l).
Proof.
  revert s. induction l as [|a l IH]; intros s; simpl; [apply rtc_refl|].
  etrans; [apply exec_step_reach|apply IH].
Qed.

Lemma reachable_bounds sl ss t s :
  0 <= t -> reachable sl ss t s ->
  2 <= sl <= 64 /\ MinSlotSize <= ss <= MaxSlotSize /\ 0 < t <= MaxStreamLength.
Proof.
  intros Ht (s0 & (m & w & r & Hm & _) & _).
  by destruct (initialize_open sl ss t m true Ht Hm) as (_ & _ & _ & ?).
Qed.

Lemma reachable_inv' sl ss t s : 0 <= t -> reachable sl ss t s -> inv sl ss t s.
Proof.
  intros Ht Hs. destruct (reachable_bounds _ _ _ _ Ht Hs) as (? & ? & ?). by apply reachable_inv.
Qed.

(** C1: under every interleaving of a producer and a consumer that opened the
    same fresh ring, the bytes returned by [Read] are a prefix of the bytes
    [Write] copied in, the declared length is never exceeded, and neither
    side ever reports corrupt counters. *)
Theorem ring_fifo sl ss t s :
  0 <= t -> reachable sl ss t s ->
  received s `prefix_of` sent s /\ Z.of_nat (length (sent s)) <= t /\
  s_rpc s <> RRet (Err CorruptCounters) /\ (forall n, s_wpc s <> WRet n (Some CorruptCounters)).
Proof.
  intros Ht Hs. destruct (reachable_bounds _ _ _ _ Ht Hs) as (? & ? & ?).
  apply reachable_inv in Hs; [|done..]. split_and!.
  - etrans; [|apply (i_prefix _ _ _ _ Hs)]. by apply prefix_app_r.
  - by eapply inv_bounds.
  - pose proof (i_r _ _ _ _ Hs) as Hr. intros E. rewrite ->E in Hr. by destruct Hr.
  - pose proof (i_w _ _ _ _ Hs) as Hw. intros n E. rewrite ->E in Hw. by destruct Hw.
Qed.

(** The empty initial system of a 2-slot ring for a stream of [t] bytes. *)
Definition start_sys (t : Z) : sys :=
  match Initialize 2 MinSlotSize t with
  | Ok m => Sys (share m) (MkRing 2 MinSlotSize t 0 0 0 true) (WRet 0 None)
                (MkRing 2 MinSlotSize t 0 0 0 false) (RRet (Ok [])) [] []
  | Err _ => Sys (Shared 0 0 (fun _ => 0)) (MkRing 0 0 0 0 0 0 true) (WRet 0 None)
                 (MkRing 0 0 0 0 0 0 false) (RRet (Ok [])) [] []
  end.

Lemma start_reachable t l :
  0 <= t -> is_ok (Initialize 2 MinSlotSize t) = true ->
  reachable 2 MinSlotSize t (exec (start_sys t) l).
Proof.
  intros Ht H. exists (start_sys t). split; [|apply exec_reach].
  unfold start_sys. destruct (Initialize 2 MinSlotSize t) as [m|] eqn:E; [|done].
  destruct (initialize_open _ _ _ _ true Ht E) as (Hw & _).
  destruct (initialize_open _ _ _ _ false Ht E) as (Hr & _).
  eexists m, _, _. by rewrite ->Hw, Hr.
Qed.

(** A producer writes three bytes of which the consumer, interleaved with it,
    reads two and then the last. *)
Definition demo_schedule : list action :=
  CallWrite [10; 20; 30] :: CallRead 2 :: replicate 3 StepRead ++ replicate 14 StepWrite
  ++ replicate 8 StepRead ++ CallRead 5 :: replicate 5 StepRead.
Definition demo : sys := exec (start_sys 3) demo_schedule.

Lemma ring_fifo_witness :
  received demo = [10; 20; 30] /\ received demo `prefix_of` sent demo.
Proof.
  split; [by vm_compute|].
  apply (ring_fifo 2 MinSlotSize 3 demo); [lia|].
  apply start_reachable; [lia|by vm_compute].
Defined.

(** Once the consumer's next [Read] reports end of file, every byte of the
    declared length has been delivered, in order. *)
Theorem ring_eof_complete sl ss t s res n :
  0 <= t -> reachable sl ss t s -> s_rpc s = RRet res ->
  read_call (s_r s) n = RRet (Err EOF) ->
  received s = sent s /\ Z.of_nat (length (received s)) = t.
Proof.
  intros Ht Hs Hret Hcall. destruct (reachable_bounds _ _ _ _ Ht Hs) as (? & ? & ?).
  apply reachable_inv in Hs; [|done..].
  pose proof (inv_bounds _ _ _ _ Hs) as Hb.
  destruct Hs as [_ (_ & _ & Etot) _ _ _ _ Hrecv Hpre _]. rewrite ->Hret in Hrecv, Hpre. simpl in *.
  unfold read_call in Hcall. repeat case_match; simplify_eq; bool_hyps.
  rewrite ->app_nil_r in Hpre. destruct Hpre as [rest Erest].
  assert (rest = []) as ->; [|rewrite ->app_nil_r in Erest; split; [done|lia]].
  rewrite ->Erest, length_app in Hb. destruct rest; [done|]. simpl in Hb. lia.
Qed.

Lemma ring_eof_complete_witness :
  received demo = sent demo /\ Z.of_nat (length (received demo)) = 3.
Proof.
  apply (ring_eof_complete 2 MinSlotSize 3 demo (Ok [30]) 1);
    [lia|apply start_reachable; [lia|by vm_compute]|by vm_compute|by vm_compute].
Defined.

Lemma slot_start_range S B T r c k :
  geometry S B T r -> in_frame B T r c -> 2 <= S -> 0 <= k < frameBytes r - framePos r ->
  HeaderSize <= slot_start r c + k < HeaderSize + S * B.
Proof.
  intros (Es & Eb & Et) (Hf & Efb & Ep) HS Hk. unfold slot_start. rewrite ->Es, Eb.
  pose proof (Z.mod_pos_bound c S ltac:(lia)). nia.
Qed.

(** The byte a [Write] is about to store lies in the mapped slots and is
    none of the bytes a concurrent [Read] is copying: the two copies never
    race, and neither slice expression can leave the mapping. *)
Theorem ring_copies_disjoint sl ss t s hd st amount k rest written :
  0 <= t -> reachable sl ss t s ->
  s_wpc s = WCopy hd st amount k rest written -> k < amount ->
  HeaderSize <= st + k < HeaderSize + sl * ss /\
  forall tl st' amount' done i,
    s_rpc s = RCopy tl st' amount' done -> 0 <= i < amount' ->
    HeaderSize <= st' + i < HeaderSize + sl * ss /\ st + k <> st' + i.
Proof.
  intros Ht Hs Hwp Hk. destruct (reachable_bounds _ _ _ _ Ht Hs) as (? & HB & ?).
  apply reachable_inv in Hs; [|done..].
  destruct Hs as [Hgw Hgr [Hc Hc'] Hw _ Hr _ _ _]. rewrite ->Hwp in Hw.
  destruct Hw as (-> & -> & Hf & Hroom & Hk' & Ham & _). pose proof Hf as (Hfp & Hfb & Hpos).
  split; [eapply slot_start_range; eauto with lia|].
  intros tl st' amount' done i Hrp Hi. rewrite ->Hrp in Hr.
  destruct Hr as (-> & -> & Hf' & Hlt & Ha'). pose proof Hf' as (Hfp' & Hfb' & Hpos').
  split; [eapply slot_start_range; eauto with lia|].
  rewrite ->(slot_start_addr sl ss t (s_w s) (sh_head (s_sh s)) k) by (try done; lia).
  rewrite ->(slot_start_addr sl ss t (s_r s) (sh_tail (s_sh s)) i) by (try done; lia).
  intros E. assert (0 < ss) by (consts; lia).
  assert (sh_tail (s_sh s) * ss + ss <= sh_head (s_sh s) * ss) by nia.
  assert (sh_head (s_sh s) * ss + ss <= sh_tail (s_sh s) * ss + sl * ss) by nia.
  apply (addr_inj sl ss ltac:(done) (sh_tail (s_sh s))) in E; lia.
Qed.

(** The state in which the producer is about to copy its second byte. *)
Definition mid_copy : sys :=
  exec (start_sys 3) (CallWrite [10; 20; 30] :: CallRead 2 :: replicate 2 StepRead ++ replicate 5 StepWrite).

Lemma ring_copies_disjoint_witness :
  s_wpc mid_copy = WCopy 0 4096 3 1 [20; 30] 0 /\
  HeaderSize <= 4096 + 1 < HeaderSize + 2 * MinSlotSize.
Proof.
  assert (s_wpc mid_copy = WCopy 0 4096 3 1 [20; 30] 0) as E by (by vm_compute).
  split; [exact E|].
  refine (proj1 (ring_copies_disjoint 2 MinSlotSize 3 mid_copy _ _ _ _ _ _ _ _ E _));
    [lia|apply start_reachable; [lia|by vm_compute]|lia].
Defined.

(** [Open] accepts what [Initialize] wrote and recovers its parameters;
    whatever [Open] accepts has the documented bounds and a mapping of exactly
    the header plus the slots. *)
Theorem ring_header_roundtrip sl ss t p :
  0 <= t ->
  (forall m, Initialize sl ss t = Ok m ->
     Open (Some (true, m)) p = Ok (MkRing sl ss t 0 0 0 p)) /\
  (forall m r, (forall o, 0 <= m_bytes m o < 256) ->
     Open (Some (true, m)) p = Ok r ->
     2 <= slots r <= 64 /\ MinSlotSize <= slotSize r <= MaxSlotSize /\
     0 < total r <= MaxStreamLength /\ m_len m = HeaderSize + slots r * slotSize r /\
     position r = 0 /\ producer r = p).
Proof.
  intros Ht. split.
  - intros m Hm. by apply initialize_open.
  - intros m r Hby H. pose proof (get_le_nonneg 8 (m_bytes m) totalOffset Hby). unfold Open in H.
    repeat case_match; simplify_eq/=. bool_hyps.
    match goal with H : bad_bounds _ _ _ = false |- _ => apply bad_bounds_false in H as (? & ? & ?); [|done] end.
    split_and!; try done; try lia.
    match goal with H : wrapu64 _ = m_len m |- _ => rewrite <-H end.
    assert (0 <= get_le 4 (m_bytes m) slotsOffset * get_le 8 (m_bytes m) slotSizeOffset
            <= 64 * MaxSlotSize) by (consts; nia).
    rewrite ->(wrapu64_id (_ * _)) by (consts; lia). rewrite ->wrapu64_id by (consts; lia). done.
Qed.

Lemma ring_header_roundtrip_witness :
  match Initialize 8 MinSlotSize 100 with
  | Ok m => Open (Some (true, m)) false = Ok (MkRing 8 MinSlotSize 100 0 0 0 false)
  | Err _ => False
  end.
Proof.
  destruct (Initialize 8 MinSlotSize 100) as [m|] eqn:E; [|by vm_compute in E].
  by apply (ring_header_roundtrip 8 MinSlotSize 100 false ltac:(lia)).
Defined.

End Ring.
