(* ===== verification/Manifest.v ===== *)
(** * Manifest: checkpoint manifests
    ([src/shared/checkpoint/manifest.go] and [optimizer.go])

    The manifest's structs as records, its validation operation by operation,
    and the theorems that make an accepted manifest trustworthy: its ranks are
    exactly [0 .. size-1], the chunks of every tensor partition the tensor's
    index space, no two artifacts share a storage path.

    A Go map that is ranged over is the list of its entries in the order the
    [range] statement visits them ([gomap]); [Validate] is characterised by a
    predicate that does not depend on that order. *)

From Stdlib Require Import Floats.SpecFloat.
From S2P Require Import Prelude GoStrings GoTime.

Definition gomap (V : Type) : Type := list (string * V).

Fixpoint map_get {V} (m : gomap V) (k : string) : option V :=
  match m with
  | [] => None
  | (k', v) :: m' => if (k =? k')%string then Some v else map_get m' k
  end.

Module Manifest.

(** ** Data *)

Definition Version : Z := 2.
Definition MaxManifestBytes : Z := Z.shiftl 16 20.
Definition MaxChunks : Z := 4096.
Definition MaxDimensions : Z := 16.
Definition MaxOptimizerMetadataBytes : Z := Z.shiftl 4 20.

Record Metadata := MkMetadata {
  TotalParameters : Z; md_CanonicalDType : string; ModelID : string;
  ModelSchemaHash : string; DatasetID : string; ContainerImageDigest : string;
  Framework : string; FrameworkVersion : string; AdapterVersions : gomap string }.

Record Rank := MkRank { r_Rank : Z; Hardware : string; Adapter : string }.

Record World := MkWorld { Size : Z; Ranks : list Rank }.

(** A [float64] is a [spec_float]. *)
Record Quantization := MkQuantization {
  Scheme : string; Scale : spec_float; ZeroPoint : Z; Rounding : string; Clamp : Z * Z }.

Record Chunk := MkChunk {
  ChunkID : string; c_StoragePath : string; Slice : list (Z * Z); Shape : list Z;
  ByteOffset : Z; c_ByteLength : Z; c_SHA256 : string; c_WriterRank : Z }.

Record Tensor := MkTensor {
  Role : string; GlobalShape : list Z; t_CanonicalDType : string; ByteOrder : string;
  Layout : string; t_Quantization : option Quantization; Chunks : list Chunk }.

Record Artifact := MkArtifact { StoragePath : string; ByteLength : Z; SHA256 : string }.

(** [Scheduler] and [DataCursor] are opaque JSON: only their presence is read. *)
Record State := MkState {
  OptimizerMetadata : Artifact; Scheduler : option (gomap string);
  RNG : gomap Artifact; DataCursor : option (gomap string) }.

Record Manifest := MkManifest {
  CheckpointVersion : Z; RunID : string; GlobalStep : Z; Epoch : spec_float;
  CreatedAt : string; m_Metadata : Metadata; m_World : World;
  Tensors : gomap Tensor; m_State : State }.

Record Object := MkObject {
  ID : string; Path : string; Offset : Z; Length : Z; o_SHA256 : string; WriterRank : Z }.

Record Compatibility := MkCompatibility {
  w_ModelID : string; w_ModelSchemaHash : string; w_DatasetID : string;
  w_ContainerImageDigest : string; w_Framework : string; w_FrameworkVersion : string;
  w_AdapterVersions : gomap string }.

Inductive manifest_error :=
| BadLength | BadJSON | BadVersion | BadRunID | BadEpoch | BadCreatedAt
| BadDType | BadMetadataField (name : string) | BadSchemaHash | BadImageDigest
| BadAdapterCount | BadAdapter (name : string)
| BadWorldSize | BadRank (rank : Z) | BadRankHardware (rank : Z) | NoAdapterFor (rank : Z)
| NoTensors | BadTensorName (name : string) | BadRole | BadDimensionality | EmptyShape
| BadTensorLayout | BadQuantization | BadQuantizedDType
| BadChunkID | DuplicateChunkID (id : string) | BadStoragePath (owner : string)
| SharedPath (path : string) | BadChunkDims | BadSlice | BadByteRange | BadHashOrRank
| CoverageOverflow | ChunksOverlap (a b : string) | NotCovered (covered elements : Z)
| TooManyChunks | ParameterOverflow | DTypeMismatch | ParameterMismatch
| MissingState | BadRNGRank (rank : string) | BadArtifact (owner : string)
| Incompatible (field : string) | NoAdapters | IncompatibleAdapter (name : string)
| NotAuthorized (id : string)
| BadOptimizerVersion | BadGroup | UnknownParameter (name : string)
| EmptySlot | UnknownSlotTensor (tensor : string).

(** ** Patterns *)

(** [^[A-Za-z0-9][extra]{0,n}$] where [extra] also contains the alphanumerics. *)
Definition ident_pattern (extra : ascii -> bool) (n : Z) (s : string) : bool :=
  match s with
  | "" => false
  | String c s' =>
      is_alnum c && string_forallb (fun c => is_alnum c || extra c) s' && (slen s' <=? n)
  end.

Definition one_of (l : list ascii) (c : ascii) : bool := bool_decide (c ∈ l).

Definition idPattern : string -> bool := ident_pattern (one_of ["."; "_"; "-"]%char) 127.
Definition tensorPattern : string -> bool :=
  ident_pattern (one_of ["."; "_"; ":"; "/"; "-"]%char) 511.
Definition adapterPattern : string -> bool := ident_pattern (one_of ["."; "_"; "-"]%char) 63.

Definition is_hex_lower c : bool := is_digit c || in_range "a" "f" c.
Definition hashPattern (s : string) : bool := (slen s =? 64) && string_forallb is_hex_lower s.

(** ** Small helpers *)

Fixpoint product_from (result : Z) (shape : list Z) : option Z :=
  match shape with
  | [] => Some result
  | d :: shape' =>
      if (d =? 0) || (uint64_max / d <? result) then None
      else product_from (wrapu64 (result * d)) shape'
  end.

Definition product (shape : list Z) : option Z := product_from 1 shape.

(** Both lists have the tensor's rank when this is called. *)
Fixpoint slicesOverlap (a b : list (Z * Z)) : bool :=
  match a, b with
  | (a0, a1) :: a', (b0, b1) :: b' =>
      if (a1 <=? b0) || (b1 <=? a0) then false else slicesOverlap a' b'
  | _, _ => true
  end.

Definition dtypeSize (dtype : string) : option Z :=
  map_get [("float16", 2); ("bfloat16", 2); ("float32", 4); ("float64", 8); ("int8", 1);
           ("uint8", 1); ("int16", 2); ("int32", 4); ("int64", 8); ("bool", 1)]%string dtype.

Definition is_inf_or_nan (v : spec_float) : bool :=
  match v with S754_infinity _ | S754_nan => true | _ => false end.

Definition finitePositive (v : spec_float) : bool :=
  SFltb (S754_zero false) v && negb (is_inf_or_nan v).

Definition finiteNonNegative (v : spec_float) : bool :=
  SFleb (S754_zero false) v && negb (is_inf_or_nan v).

Definition ValidStoragePath (value : string) : bool :=
  negb (value =? "")%string && (slen value <=? 1024)
  && negb (contains_byte (fun c => one_of ["\"%char; "000"%char] c) value)
  && negb (has_prefix "/" value) && (path_clean value =? value)%string
  && negb (value =? ".")%string && negb (has_prefix "../" value).

Definition uniquePath (value owner : string) (paths : gmap string string)
    : result manifest_error (gmap string string) :=
  reject_if negb (ValidStoragePath value) with BadStoragePath owner in
  match paths !! value with
  | Some _ => Err (SharedPath value)
  | None => Ok (<[value := owner]> paths)
  end.

(** ** Validation *)

Fixpoint validate_adapters (m : gomap string) : result manifest_error unit :=
  match m with
  | [] => Ok tt
  | (name, version) :: m' =>
      reject_if negb (adapterPattern name) || (version =? "")%string || (64 <? slen version)
        with BadAdapter name in
      validate_adapters m'
  end.

Fixpoint validate_fields (l : list (string * string)) : result manifest_error unit :=
  match l with
  | [] => Ok tt
  | (name, value) :: l' =>
      reject_if (value =? "")%string || (512 <? slen value) with BadMetadataField name in
      validate_fields l'
  end.

Definition validate_metadata (m : Metadata) : result manifest_error unit :=
  reject_if negb (bool_decide (is_Some (dtypeSize (md_CanonicalDType m)))) with BadDType in
  let! _ := validate_fields [("model_id", ModelID m); ("dataset_id", DatasetID m);
                             ("framework", Framework m);
                             ("framework_version", FrameworkVersion m)]%string in
  reject_if negb (hashPattern (ModelSchemaHash m)) with BadSchemaHash in
  reject_if negb (has_prefix "sha256:" (ContainerImageDigest m))
            || negb (hashPattern (trim_prefix "sha256:" (ContainerImageDigest m)))
    with BadImageDigest in
  reject_if (Z.of_nat (length (AdapterVersions m)) =? 0)
            || (64 <? Z.of_nat (length (AdapterVersions m))) with BadAdapterCount in
  validate_adapters (AdapterVersions m).

Definition hardware_names : list string := ["cpu"; "nvidia-gpu"; "opentpu-sim"]%string.

Fixpoint validate_ranks (size : Z) (seen : list bool) (ranks : list Rank)
    : result manifest_error unit :=
  match ranks with
  | [] => Ok tt
  | rank :: ranks' =>
      reject_if (r_Rank rank <? 0) || (size <=? r_Rank rank)
                || default true (seen !! Z.to_nat (r_Rank rank)) with BadRank (r_Rank rank) in
      reject_if negb (bool_decide (Hardware rank ∈ hardware_names))
                || (Adapter rank =? "")%string || (64 <? slen (Adapter rank))
        with BadRankHardware (r_Rank rank) in
      validate_ranks size (<[Z.to_nat (r_Rank rank) := true]> seen) ranks'
  end.

Definition validate_world (w : World) : result manifest_error unit :=
  reject_if (Size w <? 1) || (65536 <? Size w)
            || negb (Z.of_nat (length (Ranks w)) =? Size w) with BadWorldSize in
  validate_ranks (Size w) (replicate (Z.to_nat (Size w)) false) (Ranks w).

(** The loop over [chunk.Slice]; the three lists have the same length. *)
Fixpoint bad_slice (slice : list (Z * Z)) (global shape : list Z) : bool :=
  match slice, global, shape with
  | (b0, b1) :: slice', g :: global', s :: shape' =>
      (b1 <=? b0) || (g <? b1) || negb (s =? wrapu64 (b1 - b0)) || bad_slice slice' global' shape'
  | _, _, _ => false
  end.

(** The inner loop: the first earlier chunk that overlaps. *)
Definition first_overlap (chunk : Chunk) (before : list Chunk) : option Chunk :=
  List.find (fun c => slicesOverlap (Slice chunk) (Slice c)) before.

Definition same_length {A B} (l : list A) (k : list B) : bool := (length l =? length k)%nat.

(** The body of the loop over [t.Chunks]: [before] are the earlier chunks,
    [covered] the elements they hold. *)
Definition validate_chunk (global : list Z) (size world_size : Z) (before : list Chunk)
    (covered : Z) (paths : gmap string string) (chunkIDs : gset string) (chunk : Chunk)
    : result manifest_error (Z * gmap string string * gset string) :=
  reject_if negb (idPattern (ChunkID chunk)) with BadChunkID in
  reject_if bool_decide (ChunkID chunk ∈ chunkIDs) with DuplicateChunkID (ChunkID chunk) in
  let chunkIDs := {[ChunkID chunk]} ∪ chunkIDs in
  let! paths := uniquePath (c_StoragePath chunk) ("chunk " +:+ ChunkID chunk) paths in
  reject_if negb (same_length (Slice chunk) global) || negb (same_length (Shape chunk) global)
    with BadChunkDims in
  reject_if bad_slice (Slice chunk) global (Shape chunk) with BadSlice in
  match product (Shape chunk) with
  | None => Err BadByteRange
  | Some elements =>
      reject_if (uint64_max / size <? elements)
                || negb (wrapu64 (elements * size) =? c_ByteLength chunk)
                || (c_ByteLength chunk =? 0)
                || (uint64_max - c_ByteLength chunk <? ByteOffset chunk) with BadByteRange in
      reject_if negb (hashPattern (c_SHA256 chunk)) || (c_WriterRank chunk <? 0)
                || (world_size <=? c_WriterRank chunk) with BadHashOrRank in
      reject_if uint64_max - covered <? elements with CoverageOverflow in
      match first_overlap chunk before with
      | Some other => Err (ChunksOverlap (ChunkID chunk) (ChunkID other))
      | None => Ok (wrapu64 (covered + elements), paths, chunkIDs)
      end
  end.

Fixpoint validate_chunks (global : list Z) (size world_size : Z) (before chunks : list Chunk)
    (covered : Z) (paths : gmap string string) (chunkIDs : gset string)
    : result manifest_error (Z * gmap string string * gset string) :=
  match chunks with
  | [] => Ok (covered, paths, chunkIDs)
  | chunk :: chunks' =>
      let! (covered, paths, chunkIDs) :=
        validate_chunk global size world_size before covered paths chunkIDs chunk in
      validate_chunks global size world_size (before ++ [chunk]) chunks' covered paths chunkIDs
  end.

Definition roles : list string :=
  ["model_parameter"; "model_buffer"; "optimizer_tensor"; "application_state"]%string.

Definition bad_quantization (q : Quantization) : bool :=
  negb (Scheme q =? "affine_int8")%string || negb (finitePositive (Scale q))
  || (ZeroPoint q <? -128) || (127 <? ZeroPoint q)
  || negb (Rounding q =? "ties_to_even")%string || negb (bool_decide (Clamp q = (-128, 127))).

Definition validate_tensor (w : World) (paths : gmap string string) (chunkIDs : gset string)
    (t : Tensor) : result manifest_error (gmap string string * gset string) :=
  reject_if negb (bool_decide (Role t ∈ roles)) with BadRole in
  reject_if (Z.of_nat (length (GlobalShape t)) =? 0)
            || (MaxDimensions <? Z.of_nat (length (GlobalShape t))) with BadDimensionality in
  match product (GlobalShape t) with
  | None => Err EmptyShape
  | Some globalElements =>
      match dtypeSize (t_CanonicalDType t) with
      | None => Err BadTensorLayout
      | Some size =>
          reject_if negb (ByteOrder t =? "little")%string || negb (Layout t =? "C")%string
                    || (Z.of_nat (length (Chunks t)) =? 0) with BadTensorLayout in
          let! _ :=
            match t_Quantization t with
            | None => Ok tt
            | Some q =>
                reject_if bad_quantization q with BadQuantization in
                reject_if negb (t_CanonicalDType t =? "float32")%string
                          && negb (t_CanonicalDType t =? "bfloat16")%string
                  with BadQuantizedDType in
                Ok tt
            end in
          let! (covered, paths, chunkIDs) :=
            validate_chunks (GlobalShape t) size (Size w) [] (Chunks t) 0 paths chunkIDs in
          reject_if negb (covered =? globalElements) with NotCovered covered globalElements in
          Ok (paths, chunkIDs)
      end
  end.

Definition validate_artifact (owner : string) (paths : gmap string string) (a : Artifact)
    : result manifest_error (gmap string string) :=
  let! paths := uniquePath (StoragePath a) owner paths in
  reject_if (ByteLength a =? 0) || negb (hashPattern (SHA256 a)) with BadArtifact owner in
  Ok paths.

Fixpoint validate_rng (size : Z) (paths : gmap string string) (rng : gomap Artifact)
    : result manifest_error unit :=
  match rng with
  | [] => Ok tt
  | (rank, artifact) :: rng' =>
      match parse_int64 rank with
      | None => Err (BadRNGRank rank)
      | Some value =>
          reject_if (value <? 0) || (size <=? value) with BadRNGRank rank in
          let! paths := validate_artifact ("rng rank " +:+ rank) paths artifact in
          validate_rng size paths rng'
      end
  end.

Definition is_nil {A} (o : option A) : bool := match o with None => true | _ => false end.

Definition validate_state (w : World) (paths : gmap string string) (s : State)
    : result manifest_error unit :=
  let! paths := validate_artifact "optimizer_metadata" paths (OptimizerMetadata s) in
  reject_if is_nil (Scheduler s) || is_nil (DataCursor s)
            || negb (Z.of_nat (length (RNG s)) =? Size w) with MissingState in
  validate_rng (Size w) paths (RNG s).

(** [for _, rank := range m.World.Ranks]: the hardware has an adapter version. *)
Fixpoint validate_rank_adapters (versions : gomap string) (ranks : list Rank)
    : result manifest_error unit :=
  match ranks with
  | [] => Ok tt
  | rank :: ranks' =>
      reject_if (default "" (map_get versions (Hardware rank)) =? "")%string
        with NoAdapterFor (r_Rank rank) in
      validate_rank_adapters versions ranks'
  end.

(** The loop over [m.Tensors]. *)
Fixpoint validate_tensors (w : World) (dtype : string) (tensors : gomap Tensor)
    (paths : gmap string string) (chunkIDs : gset string) (totalChunks totalParameters : Z)
    : result manifest_error (gmap string string * Z) :=
  match tensors with
  | [] => Ok (paths, totalParameters)
  | (name, t) :: tensors' =>
      reject_if negb (tensorPattern name) with BadTensorName name in
      let! (paths, chunkIDs) := validate_tensor w paths chunkIDs t in
      let totalChunks := totalChunks + Z.of_nat (length (Chunks t)) in
      reject_if MaxChunks <? totalChunks with TooManyChunks in
      if (Role t =? "model_parameter")%string then
        match product (GlobalShape t) with
        | None => Err ParameterOverflow
        | Some elements =>
            reject_if uint64_max - totalParameters <? elements with ParameterOverflow in
            let totalParameters := wrapu64 (totalParameters + elements) in
            reject_if negb (t_CanonicalDType t =? dtype)%string with DTypeMismatch in
            validate_tensors w dtype tensors' paths chunkIDs totalChunks totalParameters
        end
      else validate_tensors w dtype tensors' paths chunkIDs totalChunks totalParameters
  end.

Definition Validate (m : Manifest) : result manifest_error unit :=
  reject_if negb (CheckpointVersion m =? Version) with BadVersion in
  reject_if negb (idPattern (RunID m)) with BadRunID in
  reject_if negb (finiteNonNegative (Epoch m)) with BadEpoch in
  reject_if negb (GoTime.valid_rfc3339 (CreatedAt m)) with BadCreatedAt in
  let! _ := validate_metadata (m_Metadata m) in
  let! _ := validate_world (m_World m) in
  let! _ := validate_rank_adapters (AdapterVersions (m_Metadata m)) (Ranks (m_World m)) in
  reject_if Z.of_nat (length (Tensors m)) =? 0 with NoTensors in
  let! (paths, totalParameters) :=
    validate_tensors (m_World m) (md_CanonicalDType (m_Metadata m)) (Tensors m) ∅ ∅ 0 0 in
  reject_if negb (totalParameters =? TotalParameters (m_Metadata m)) with ParameterMismatch in
  validate_state (m_World m) paths (m_State m).

(** [DecodeManifest], over the JSON decoder of the type [Manifest]
    ([DecodeStrictJSON] into it). *)
Definition DecodeManifest (json : list Z -> option Manifest) (data : list Z)
    : result manifest_error Manifest :=
  reject_if (Z.of_nat (length data) =? 0) || (MaxManifestBytes <? Z.of_nat (length data))
    with BadLength in
  match json data with
  | None => Err BadJSON
  | Some m => let! _ := Validate m in Ok m
  end.

(** ** Use of a validated manifest *)

Fixpoint compatible_fields (l : list (string * string * string)) : result manifest_error unit :=
  match l with
  | [] => Ok tt
  | (name, got, want) :: l' =>
      reject_if (want =? "")%string || negb (got =? want)%string with Incompatible name in
      compatible_fields l'
  end.

Fixpoint compatible_adapters (have : gomap string) (want : gomap string)
    : result manifest_error unit :=
  match want with
  | [] => Ok tt
  | (adapter, version) :: want' =>
      reject_if negb (default "" (map_get have adapter) =? version)%string
        with IncompatibleAdapter adapter in
      compatible_adapters have want'
  end.

Definition Compatible (m : Manifest) (want : Compatibility) : result manifest_error unit :=
  let md := m_Metadata m in
  let! _ := compatible_fields
    [("model_id", ModelID md, w_ModelID want);
     ("model_schema_hash", ModelSchemaHash md, w_ModelSchemaHash want);
     ("dataset_id", DatasetID md, w_DatasetID want);
     ("container_image_digest", ContainerImageDigest md, w_ContainerImageDigest want);
     ("framework", Framework md, w_Framework want);
     ("framework_version", FrameworkVersion md, w_FrameworkVersion want)]%string in
  reject_if Z.of_nat (length (w_AdapterVersions want)) =? 0 with NoAdapters in
  compatible_adapters (AdapterVersions md) (w_AdapterVersions want).

Definition chunk_object (c : Chunk) : Object :=
  MkObject (ChunkID c) (c_StoragePath c) (ByteOffset c) (c_ByteLength c) (c_SHA256 c)
           (c_WriterRank c).

Definition artifact_object (id : string) (rank : Z) (a : Artifact) : Object :=
  MkObject id (StoragePath a) 0 (ByteLength a) (SHA256 a) rank.

(** The keys of [RNG] are integers once the manifest is validated, so the
    ignored error of [strconv.Atoi] does not occur. *)
Definition rng_object (e : string * Artifact) : Object :=
  artifact_object ("rng_" +:+ fst e) (default 0 (parse_int64 (fst e))) (snd e).

Definition Objects (m : Manifest) : list Object :=
  concat (map (fun e => map chunk_object (Chunks (snd e))) (Tensors m))
  ++ [artifact_object "optimizer_metadata" 0 (OptimizerMetadata (m_State m))]
  ++ map rng_object (RNG (m_State m)).

Definition Object_of (m : Manifest) (id : string) : result manifest_error Object :=
  match List.find (fun o => (ID o =? id)%string) (Objects m) with
  | Some o => Ok o
  | None => Err (NotAuthorized id)
  end.

(** ** Optimizer metadata ([optimizer.go]) *)

Record OptimizerParameterGroup := MkGroup {
  g_Parameters : list string; Options : option (gomap string) }.
Record OptimizerParameter := MkParameter { Scalars : gomap string; p_Tensors : gomap string }.
Record OptimizerState := MkOptimizerState {
  FormatVersion : Z; ParameterGroups : list OptimizerParameterGroup;
  Parameters : gomap OptimizerParameter }.

(** The names of the tensors of a role (the sets [model] and [optimizer]). *)
Definition tensors_with_role (role : string) (tensors : gomap Tensor) : list string :=
  map fst (List.filter (fun e => (Role (snd e) =? role)%string) tensors).

Fixpoint check_names (model names : list string) : result manifest_error unit :=
  match names with
  | [] => Ok tt
  | name :: names' =>
      reject_if negb (bool_decide (name ∈ model)) with UnknownParameter name in
      check_names model names'
  end.

Fixpoint check_groups (model : list string) (groups : list OptimizerParameterGroup)
    : result manifest_error unit :=
  match groups with
  | [] => Ok tt
  | g :: groups' =>
      reject_if (Z.of_nat (length (g_Parameters g)) =? 0) || is_nil (Options g) with BadGroup in
      let! _ := check_names model (g_Parameters g) in
      check_groups model groups'
  end.

Fixpoint check_slots (optimizer : list string) (slots : gomap string) : result manifest_error unit :=
  match slots with
  | [] => Ok tt
  | (slot, tensor) :: slots' =>
      reject_if (slot =? "")%string with EmptySlot in
      reject_if negb (bool_decide (tensor ∈ optimizer)) with UnknownSlotTensor tensor in
      check_slots optimizer slots'
  end.

Fixpoint check_parameters (model optimizer : list string) (ps : gomap OptimizerParameter)
    : result manifest_error unit :=
  match ps with
  | [] => Ok tt
  | (name, p) :: ps' =>
      reject_if negb (bool_decide (name ∈ model)) with UnknownParameter name in
      let! _ := check_slots optimizer (p_Tensors p) in
      check_parameters model optimizer ps'
  end.

(** Over the JSON decoder of the type [OptimizerState]. *)
Definition DecodeOptimizerState (json : list Z -> option OptimizerState) (data : list Z)
    (manifest : Manifest) : result manifest_error OptimizerState :=
  reject_if (Z.of_nat (length data) =? 0)
            || (MaxOptimizerMetadataBytes <? Z.of_nat (length data)) with BadLength in
  match json data with
  | None => Err BadJSON
  | Some state =>
      reject_if negb (FormatVersion state =? 1) with BadOptimizerVersion in
      let model := tensors_with_role "model_parameter" (Tensors manifest) in
      let optimizer := tensors_with_role "optimizer_tensor" (Tensors manifest) in
      let! _ := check_groups model (ParameterGroups state) in
      let! _ := check_parameters model optimizer (Parameters state) in
      Ok state
  end.

(** ** The index space of a tensor *)

(** The indices of a box, in row-major order. *)
Fixpoint cells (slice : list (Z * Z)) : list (list Z) :=
  match slice with
  | [] => [[]]
  | (lo, hi) :: slice' => i ← seqZ lo (hi - lo); cons i <$> cells slice'
  end.

Definition in_slice (idx : list Z) (slice : list (Z * Z)) : Prop :=
  Forall2 (fun i b => b.1 <= i < b.2) idx slice.

Definition whole (shape : list Z) : list (Z * Z) := (fun d => (0, d)) <$> shape.

Definition volume (shape : list Z) : Z := foldr Z.mul 1 shape.
Definition extents (slice : list (Z * Z)) : list Z := (fun b => b.2 - b.1) <$> slice.

Lemma elem_of_cells idx slice : idx ∈ cells slice <-> in_slice idx slice.
Proof.
  unfold in_slice. revert idx. induction slice as [|[lo hi] slice IH]; intros idx; simpl.
  - rw list_elem_of_singleton. split; [intros ->; constructor|by inversion 1].
  - rw list_elem_of_bind. split.
    + intros (i & (idx' & -> & Hi)%list_elem_of_fmap & Hlo). apply IH in Hi.
      apply elem_of_seqZ in Hlo. constructor; [simpl; lia|done].
    + inversion 1 as [|i b idx' ? Hb Hidx]; simplify_eq/=.
      exists i. rw list_elem_of_fmap elem_of_seqZ. split; [|lia].
      exists idx'. by rw IH.
Qed.

Lemma NoDup_cells slice : NoDup (cells slice).
Proof.
  induction slice as [|[lo hi] slice IH]; simpl; [apply NoDup_singleton|].
  apply NoDup_bind; [| |apply NoDup_seqZ].
  - intros i1 i2 x _ _ (? & -> & _)%list_elem_of_fmap (? & ? & _)%list_elem_of_fmap. congruence.
  - intros i _. apply NoDup_fmap_2; [|done]. by intros ?? [=].
Qed.

Lemma length_bind_const {A B} (f : A -> list B) l n :
  (forall x, length (f x) = n) -> length (l ≫= f) = (length l * n)%nat.
Proof. intros Hf. induction l as [|x l IH]; [done|].
  cbn. rw length_app Hf. change (mjoin (f <$> l)) with (l ≫= f). lia. Qed.

Lemma length_cells slice :
  Forall (fun b => b.1 <= b.2) slice ->
  Z.of_nat (length (cells slice)) = volume (extents slice).
Proof.
  induction 1 as [|[lo hi] slice Hb _ IH]; [done|]. simpl in *.
  rewrite ->(length_bind_const _ _ (length (cells slice))) by (intros; by rw length_fmap).
  rw length_seqZ Nat2Z.inj_mul IH. unfold volume. simpl. rewrite ->Z2Nat.id by lia. done.
Qed.

Lemma slices_disjoint a b idx :
  slicesOverlap a b = false -> in_slice idx a -> in_slice idx b -> False.
Proof.
  unfold in_slice. intros Ho Ha. revert b Ho.
  induction Ha as [|i [a0 a1] idx a Hi Ha IH]; intros [|[b0 b1] b] Ho Hb;
    try (by inversion Hb).
  simpl in Ho.
  inversion Hb as [|? ? ? ? Hib Hb']; simplify_eq/=.
  case_match eqn:E; [|by eapply IH]. apply orb_true_iff in E as [E|E]; bool_hyps; lia.
Qed.

(** Two boxes [slicesOverlap] reports do share an index. *)
Lemma slices_overlap_common a b :
  length a = length b ->
  Forall (fun s => s.1 < s.2) a -> Forall (fun s => s.1 < s.2) b ->
  slicesOverlap a b = true -> exists idx, in_slice idx a /\ in_slice idx b.
Proof.
  revert b. induction a as [|[a0 a1] a IH]; intros [|[b0 b1] b] Hl Ha Hb Ho; simplify_eq/=.
  - exists []. split; constructor.
  - apply Forall_cons in Ha as [? Ha]. apply Forall_cons in Hb as [? Hb].
    case_match eqn:E; [done|]. bool_hyps.
    destruct (IH b) as (idx & ? & ?); [lia|done..|].
    exists (Z.max a0 b0 :: idx). split; constructor; simpl in *; try done; lia.
Qed.

(** ** Declarative validity

    What an accepted manifest satisfies, stated without the accumulators of
    the loops: uniqueness as [NoDup], totals as sums. *)

Definition elements (c : Chunk) : Z := volume (Shape c).
Definition sum (l : list Z) : Z := foldr Z.add 0 l.

Record chunk_ok (global : list Z) (size world_size : Z) (c : Chunk) : Prop := {
  co_id : idPattern (ChunkID c) = true;
  co_path : ValidStoragePath (c_StoragePath c) = true;
  co_slice : Forall2 (fun b g => b.1 < b.2 <= g) (Slice c) global;
  co_shape : Shape c = (fun b => wrapu64 (b.2 - b.1)) <$> Slice c;
  co_pos : Forall (fun d => 0 < d) (Shape c);
  co_bytes : c_ByteLength c = elements c * size;
  co_range : 0 < c_ByteLength c /\ ByteOffset c + c_ByteLength c <= uint64_max
             /\ c_ByteLength c <= uint64_max;
  co_hash : hashPattern (c_SHA256 c) = true;
  co_writer : 0 <= c_WriterRank c < world_size }.

Definition disjoint_chunks (a b : Chunk) : Prop := slicesOverlap (Slice b) (Slice a) = false.

Record tensor_ok (w : World) (t : Tensor) (size : Z) : Prop := {
  to_role : Role t ∈ roles;
  to_dims : (0 < length (GlobalShape t) <= 16)%nat;
  to_pos : Forall (fun d => 0 < d) (GlobalShape t);
  to_volume : volume (GlobalShape t) <= uint64_max;
  to_dtype : dtypeSize (t_CanonicalDType t) = Some size;
  to_order : ByteOrder t = "little" /\ Layout t = "C";
  to_nonempty : Chunks t <> [];
  to_quant : forall q, t_Quantization t = Some q ->
    bad_quantization q = false /\ (t_CanonicalDType t = "float32" \/ t_CanonicalDType t = "bfloat16");
  to_chunks : Forall (chunk_ok (GlobalShape t) size (Size w)) (Chunks t);
  to_disjoint : ForallOrdPairs disjoint_chunks (Chunks t);
  to_covered : sum (elements <$> Chunks t) = volume (GlobalShape t) }.

Lemma product_from_spec r shape p :
  0 < r <= uint64_max ->
  product_from r shape = Some p <->
  Forall (fun d => 0 < d) shape /\ r * volume shape <= uint64_max /\ p = r * volume shape.
Proof.
  unfold volume. revert r. induction shape as [|d shape IH]; intros r Hr; simpl.
  { rw Z.mul_1_r. split; [intros [= <-]; repeat split; [constructor|lia]|].
    by intros (_ & _ & ->). }
  rw Forall_cons. case_match eqn:E.
  - split; [done|]. intros ([Hd Hs] & Hm & _). exfalso.
    assert (0 < foldr Z.mul 1 shape) by (clear -Hs; induction Hs; simpl; lia).
    apply orb_true_iff in E as [E|E]; bool_hyps; [lia|].
    assert (uint64_max < d * r); [|nia].
    pose proof (Z.mul_succ_div_gt uint64_max d ltac:(lia)). nia.
  - bool_hyps. destruct (decide (0 < d)) as [Hd|Hd].
    + assert (r * d <= uint64_max) by (pose proof (Z.mul_div_le uint64_max d ltac:(lia)); nia).
      rewrite ->wrapu64_id by nia. rewrite ->IH by nia. rw Z.mul_assoc. clear IH. intuition.
    + pose proof (Z.mul_div_ge uint64_max d ltac:(lia)). pow2. nia.
Qed.

Lemma product_spec shape p :
  product shape = Some p <->
  Forall (fun d => 0 < d) shape /\ volume shape <= uint64_max /\ p = volume shape.
Proof.
  unfold product. rewrite ->product_from_spec by (pow2; lia). by rw Z.mul_1_l.
Qed.

Lemma volume_pos shape : Forall (fun d => 0 < d) shape -> 0 < volume shape.
Proof. induction 1; unfold volume in *; simpl; lia. Qed.

Lemma bad_slice_spec slice global shape :
  length slice = length global -> length shape = length global ->
  bad_slice slice global shape = false <->
  Forall2 (fun b g => b.1 < b.2 <= g) slice global
  /\ shape = (fun b => wrapu64 (b.2 - b.1)) <$> slice.
Proof.
  revert global shape.
  induction slice as [|[b0 b1] slice IH]; intros [|g global] [|s shape] H1 H2; simplify_eq/=.
  { split; [split; [constructor|done]|done]. }
  rewrite ->!orb_false_iff, IH, Forall2_cons by done. simpl.
  rw !Z.leb_gt !Z.ltb_ge negb_false_iff Z.eqb_eq. naive_solver lia.
Qed.

Lemma same_length_spec {A B} (l : list A) (k : list B) :
  same_length l k = true <-> length l = length k.
Proof. unfold same_length. by rw Nat.eqb_eq. Qed.

Lemma dtypeSize_pos dtype size : dtypeSize dtype = Some size -> 0 < size <= 8.
Proof. unfold dtypeSize. simpl. repeat case_match; intros [= <-]; lia. Qed.

Lemma uniquePath_spec value owner paths paths' :
  uniquePath value owner paths = Ok paths' <->
  ValidStoragePath value = true /\ value ∉ dom paths /\ paths' = <[value := owner]> paths.
Proof.
  unfold uniquePath. destruct (ValidStoragePath value); simpl; [|naive_solver].
  rw not_elem_of_dom. destruct (paths !! value); naive_solver.
Qed.

Lemma find_None {A} (f : A -> bool) l : List.find f l = None <-> Forall (fun x => f x = false) l.
Proof.
  rw Forall_forall. split; [intros H x Hx; eapply find_none; [done|by apply list_elem_of_In]|].
  induction l as [|x l IH]; intros H; simpl; [done|].
  rewrite ->(H x) by left. apply IH. intros y Hy. apply H. by right.
Qed.

(** ** The loop over the chunks of a tensor *)

Definition chunk_accepted global size ws before covered (paths : gmap string string)
    (ids : gset string) (c : Chunk) : Prop :=
  chunk_ok global size ws c /\ ChunkID c ∉ ids /\ c_StoragePath c ∉ dom paths
  /\ Forall (fun b => disjoint_chunks b c) before /\ covered + elements c <= uint64_max.

Definition chunk_owner (c : Chunk) : string := "chunk " +:+ ChunkID c.

Lemma mul_le_div a b n : 0 < b -> a <= n / b <-> a * b <= n.
Proof.
  intros Hb. pose proof (Z.mul_div_le n b Hb). pose proof (Z.mul_succ_div_gt n b Hb). split; nia.
Qed.

Lemma validate_chunk_sound global size ws before covered paths ids c res :
  0 < size -> 0 <= covered <= uint64_max ->
  validate_chunk global size ws before covered paths ids c = Ok res ->
  chunk_accepted global size ws before covered paths ids c
  /\ res = (covered + elements c, <[c_StoragePath c := chunk_owner c]> paths,
            {[ChunkID c]} ∪ ids).
Proof.
  intros Hsize Hcov. unfold validate_chunk.
  destruct (idPattern (ChunkID c)) eqn:Eid; [simpl|done].
  case_match eqn:Efresh; [done|].
  destruct (uniquePath _ _ _) as [paths'|] eqn:Ep; [|done].
  apply uniquePath_spec in Ep as (Hpath & Hnew & ->).
  case_match eqn:Elen; [done|]. case_match eqn:Esl; [done|].
  destruct (product (Shape c)) as [e|] eqn:Eprod; [|done].
  apply product_spec in Eprod as (Hpos & Hmax & ->). fold (elements c).
  pose proof (volume_pos _ Hpos). fold (elements c) in *.
  case_match eqn:Er; [done|]. case_match eqn:Eh; [done|]. case_match eqn:Ecov; [done|].
  destruct (first_overlap c before) eqn:Eo; [done|]. intros [= <-].
  bool_hyps.
  repeat match goal with H : same_length _ _ = true |- _ => apply same_length_spec in H end.
  apply bad_slice_spec in Esl as [Hs1 Hs2]; [|done..].
  apply find_None in Eo.
  assert (elements c * size <= uint64_max) by (apply mul_le_div; lia).
  rewrite ->!wrapu64_id in * by nia.
  repeat split; try done; lia.
Qed.

Lemma validate_chunk_complete global size ws before covered paths ids c :
  0 < size -> 0 <= covered <= uint64_max ->
  chunk_accepted global size ws before covered paths ids c ->
  validate_chunk global size ws before covered paths ids c =
  Ok (covered + elements c, <[c_StoragePath c := chunk_owner c]> paths, {[ChunkID c]} ∪ ids).
Proof.
  intros Hsize Hcov ([] & Hid & Hp & Hd & Hmax). unfold validate_chunk.
  pose proof (volume_pos _ co_pos0) as Hv. fold (elements c) in Hv.
  pose proof (Forall2_length _ _ _ co_slice0) as Hl.
  assert (length (Shape c) = length global) as Hl' by (rw co_shape0 length_fmap; done).
  rw co_id0 /= bool_decide_false // /=.
  rewrite ->(proj2 (uniquePath_spec _ _ _ _) (conj co_path0 (conj Hp eq_refl))).
  rewrite ->(proj2 (same_length_spec _ _) Hl), (proj2 (same_length_spec _ _) Hl').
  rewrite ->(proj2 (bad_slice_spec _ _ _ Hl Hl')) by done. simpl.
  rewrite ->(proj2 (product_spec _ (elements c))) by (unfold elements in *; split_and!; try done; nia).
  rewrite ->(proj2 (Z.ltb_ge _ (elements c))) by (apply mul_le_div; lia). simpl.
  rewrite ->wrapu64_id, <-co_bytes0, Z.eqb_refl by lia. simpl.
  rewrite ->(proj2 (Z.eqb_neq _ _)), (proj2 (Z.ltb_ge _ (ByteOffset c))) by lia. simpl.
  rewrite ->co_hash0, (proj2 (Z.ltb_ge _ 0)), (proj2 (Z.leb_gt _ _)) by lia. simpl.
  rewrite ->(proj2 (Z.ltb_ge _ (elements c))) by lia.
  unfold first_overlap. rewrite ->(proj2 (find_None _ _)) by done.
  by rewrite ->wrapu64_id by lia.
Qed.

(** Keys that are distinct and not yet used. *)
Definition fresh (keys : list string) (used : gset string) : Prop :=
  NoDup keys /\ forall k, k ∈ keys -> k ∉ used.

Lemma fresh_nil used : fresh [] used.
Proof. split; [constructor|]. by intros ? ?%not_elem_of_nil. Qed.

Lemma fresh_cons k keys used :
  fresh (k :: keys) used <-> k ∉ used /\ fresh keys ({[k]} ∪ used).
Proof. unfold fresh. rw NoDup_cons. set_solver. Qed.

Lemma fresh_app keys1 keys2 used :
  fresh (keys1 ++ keys2) used <-> fresh keys1 used /\ fresh keys2 (list_to_set keys1 ∪ used).
Proof. unfold fresh. rw NoDup_app. set_solver. Qed.

Lemma fresh_empty keys : fresh keys ∅ <-> NoDup keys.
Proof. unfold fresh. set_solver. Qed.

Record chunks_accepted global size ws (before : list Chunk) covered (used ids : gset string)
    (chunks : list Chunk) : Prop := {
  ca_ok : Forall (chunk_ok global size ws) chunks;
  ca_ids : fresh (ChunkID <$> chunks) ids;
  ca_paths : fresh (c_StoragePath <$> chunks) used;
  ca_before : Forall (fun c => Forall (fun b => disjoint_chunks b c) before) chunks;
  ca_disjoint : ForallOrdPairs disjoint_chunks chunks;
  ca_sum : covered + sum (elements <$> chunks) <= uint64_max }.

Lemma sum_cons x l : sum (x :: l) = x + sum l.
Proof. done. Qed.

Lemma sum_elements_nonneg global size ws chunks :
  Forall (chunk_ok global size ws) chunks -> 0 <= sum (elements <$> chunks).
Proof.
  induction 1 as [|c chunks Hc _ IH]; [done|].
  pose proof (volume_pos _ (co_pos _ _ _ _ Hc)) as Hv. fold (elements c) in Hv.
  rw fmap_cons sum_cons. lia.
Qed.

Lemma chunks_accepted_cons global size ws before covered paths ids c chunks :
  0 <= covered ->
  chunks_accepted global size ws before covered (dom paths) ids (c :: chunks) <->
  chunk_accepted global size ws before covered paths ids c
  /\ chunks_accepted global size ws (before ++ [c]) (covered + elements c)
       ({[c_StoragePath c]} ∪ dom paths) ({[ChunkID c]} ∪ ids) chunks.
Proof.
  intros Hcov. split.
  - intros [Hok Hid Hp Hb Hd Hs]. apply Forall_cons in Hok as [Hc Hok].
    apply Forall_cons in Hb as [Hbc Hb]. rewrite ->!fmap_cons, fresh_cons in *.
    destruct Hid, Hp. inversion Hd as [|? ? Hc1 Hd']; subst.
    pose proof (sum_elements_nonneg _ _ _ _ Hok). rw sum_cons in Hs.
    split; [split_and!; try done; lia|]. split; try done; [|lia].
    rw Forall_forall => x Hx. apply Forall_app. rewrite ->Forall_forall in Hb. split; [by apply Hb|].
    constructor; [|done]. rewrite ->List.Forall_forall in Hc1. apply Hc1. by apply list_elem_of_In.
  - intros [(Hc & Hid & Hp & Hb & Hs) [Hok Hids Hps Hbs Hd Hss]].
    split; rw ?fmap_cons ?fresh_cons; try done.
    + by constructor.
    + constructor; [done|]. eapply Forall_impl; [done|]. intros x Hx. by apply Forall_app in Hx as [? _].
    + constructor; [|done]. apply List.Forall_forall. intros x Hx%list_elem_of_In.
      rewrite ->Forall_forall in Hbs. specialize (Hbs x Hx). apply Forall_app in Hbs as [_ Hbs].
      by apply Forall_cons in Hbs as [? _].
    + rw sum_cons. lia.
Qed.

Lemma validate_chunks_sound global size ws before chunks covered paths ids covered' paths' ids' :
  0 < size -> 0 <= covered <= uint64_max ->
  validate_chunks global size ws before chunks covered paths ids = Ok (covered', paths', ids') ->
  chunks_accepted global size ws before covered (dom paths) ids chunks
  /\ covered' = covered + sum (elements <$> chunks)
  /\ dom paths' = list_to_set (c_StoragePath <$> chunks) ∪ dom paths
  /\ ids' = list_to_set (ChunkID <$> chunks) ∪ ids.
Proof.
  intros Hsize. revert before covered paths ids.
  induction chunks as [|c chunks IH]; intros before covered paths ids Hcov;
    cbn [validate_chunks].
  { intros [= <- <- <-]. unfold sum. simpl. split_and!; [|lia|set_solver..].
    split; try apply fresh_nil; try constructor. simpl. unfold sum. simpl. lia. }
  destruct (validate_chunk _ _ _ _ _ _ _ _) as [[[cv p] i]|] eqn:Ec; [|done].
  apply validate_chunk_sound in Ec as [Hc [= -> -> ->]]; [|done..].
  pose proof (volume_pos _ (co_pos _ _ _ _ (proj1 Hc))) as Hv. fold (elements c) in Hv.
  assert (covered + elements c <= uint64_max) by apply Hc.
  intros (Ha & -> & -> & ->)%IH; [|lia].
  rw dom_insert_L in Ha *. split; [by apply chunks_accepted_cons; [lia|]|].
  rw !fmap_cons sum_cons. split_and!; [lia|set_solver..].
Qed.

Lemma validate_chunks_complete global size ws before chunks covered paths ids :
  0 < size -> 0 <= covered ->
  chunks_accepted global size ws before covered (dom paths) ids chunks ->
  exists paths',
    validate_chunks global size ws before chunks covered paths ids =
      Ok (covered + sum (elements <$> chunks), paths', list_to_set (ChunkID <$> chunks) ∪ ids)
    /\ dom paths' = list_to_set (c_StoragePath <$> chunks) ∪ dom paths.
Proof.
  intros Hsize. revert before covered paths ids.
  induction chunks as [|c chunks IH]; intros before covered paths ids Hcov Ha;
    cbn [validate_chunks].
  { exists paths. unfold sum. simpl. rw Z.add_0_r !union_empty_l_L. done. }
  pose proof (sum_elements_nonneg _ _ _ _ (ca_ok _ _ _ _ _ _ _ _ Ha)) as Hnn.
  pose proof (ca_sum _ _ _ _ _ _ _ _ Ha) as Hmax.
  apply chunks_accepted_cons in Ha as [Hc Ha]; [|done].
  pose proof (volume_pos _ (co_pos _ _ _ _ (proj1 Hc))) as Hv. fold (elements c) in Hv.
  rewrite ->validate_chunk_complete by (done || lia).
  destruct (IH (before ++ [c]) (covered + elements c)
    (<[c_StoragePath c := chunk_owner c]> paths) ({[ChunkID c]} ∪ ids)) as (p & -> & Hp);
    [lia|by rw dom_insert_L|].
  exists p. rw !fmap_cons sum_cons Hp dom_insert_L Z.add_assoc.
  split; [|set_solver]. do 2 f_equal. set_solver.
Qed.

(** ** One tensor *)

Definition chunk_ids (t : Tensor) : list string := ChunkID <$> Chunks t.
Definition chunk_paths (t : Tensor) : list string := c_StoragePath <$> Chunks t.

Definition tensor_accepted w (used ids : gset string) t : Prop :=
  (exists size, tensor_ok w t size) /\ fresh (chunk_ids t) ids /\ fresh (chunk_paths t) used.

Lemma validate_tensor_sound w paths ids t paths' ids' :
  validate_tensor w paths ids t = Ok (paths', ids') ->
  tensor_accepted w (dom paths) ids t
  /\ dom paths' = list_to_set (chunk_paths t) ∪ dom paths
  /\ ids' = list_to_set (chunk_ids t) ∪ ids.
Proof.
  unfold validate_tensor.
  case_match eqn:Er; [done|]. case_match eqn:Ed; [done|].
  destruct (product _) as [g|] eqn:Eg; [|done]. apply product_spec in Eg as (Hpos & Hmax & ->).
  destruct (dtypeSize _) as [size|] eqn:Esz; [|done]. pose proof (dtypeSize_pos _ _ Esz).
  case_match eqn:El; [done|].
  destruct (match t_Quantization t with None => _ | Some q => _ end) as [[]|] eqn:Eq; [|done].
  destruct (validate_chunks _ _ _ _ _ _ _ _) as [[[cv p] i]|] eqn:Ec; [|done].
  apply validate_chunks_sound in Ec as ([] & -> & Hp & Hi); [|pow2; lia..].
  destruct (negb (_ + _ =? _)) eqn:Ecv; [done|]. intros [= <- <-]. bool_hyps. unfold MaxDimensions in *.
  split; [|done]. split; [|done]. exists size. split; try done; try lia.
  - intros E. match goal with H : Z.of_nat (length (Chunks t)) <> 0 |- _ => by rewrite ->E in H end.
  - intros q Eqq. rw Eqq in Eq. case_match; [done|]. case_match eqn:Edt; [done|].
    split; [done|]. apply andb_false_iff in Edt as [?|?]; bool_hyps; auto.
Qed.

Lemma validate_tensor_complete w paths ids t :
  tensor_accepted w (dom paths) ids t ->
  exists paths',
    validate_tensor w paths ids t = Ok (paths', list_to_set (chunk_ids t) ∪ ids)
    /\ dom paths' = list_to_set (chunk_paths t) ∪ dom paths.
Proof.
  intros ((size & []) & Hi & Hp). unfold validate_tensor.
  pose proof (dtypeSize_pos _ _ to_dtype0).
  rw bool_decide_true // /=. unfold MaxDimensions.
  rewrite ->(proj2 (Z.eqb_neq _ _)), (proj2 (Z.ltb_ge _ _)) by lia. simpl.
  rewrite ->(proj2 (product_spec _ (volume (GlobalShape t)))) by done.
  rw to_dtype0 (proj1 to_order0) (proj2 to_order0) !String.eqb_refl /=.
  rewrite ->(proj2 (Z.eqb_neq _ _)) by (destruct (Chunks t); simpl; [done|lia]).
  destruct (validate_chunks_complete (GlobalShape t) size (Size w) [] (Chunks t) 0 paths ids)
    as (p & -> & Hdom); [lia|lia| |].
  { split; try done; [|lia]. apply Forall_true. intros; constructor. }
  rewrite ->Z.add_0_l, to_covered0, Z.eqb_refl.
  assert (match t_Quantization t with
    | Some q => if bad_quantization q then Err BadQuantization
        else if negb (t_CanonicalDType t =? "float32")%string
                && negb (t_CanonicalDType t =? "bfloat16")%string
             then Err BadQuantizedDType else Ok tt
    | None => Ok tt end = Ok tt) as ->.
  { destruct (t_Quantization t) as [q|]; [|done].
    destruct (to_quant0 q eq_refl) as [-> [->| ->]]; done. }
  simpl. by exists p.
Qed.

(** Slice bounds are [uint64]. *)
Definition slices_typed (t : Tensor) : Prop :=
  Forall (fun c => Forall (fun b => 0 <= b.1) (Slice c)) (Chunks t).

Lemma chunk_ok_extents global size ws c :
  Forall (fun d => d <= uint64_max) global -> Forall (fun b => 0 <= b.1) (Slice c) ->
  chunk_ok global size ws c -> Shape c = extents (Slice c).
Proof.
  intros Hg Ht [_ _ Hs -> _ _ _ _ _]. unfold extents.
  apply list_fmap_ext. intros i b Hb.
  destruct (Forall2_lookup_l _ _ _ _ _ Hs Hb) as (g & Hgl & ? & ?).
  rewrite ->Forall_lookup in Hg. rewrite ->Forall_lookup in Ht. specialize (Hg _ _ Hgl). specialize (Ht _ _ Hb).
  apply wrapu64_id. simpl in *. lia.
Qed.


Lemma volume_bounds shape :
  Forall (fun d => 0 < d) shape -> Forall (fun d => d <= volume shape) shape.
Proof.
  induction 1 as [|d shape Hd Hs IH]; [constructor|].
  pose proof (volume_pos _ Hs). unfold volume in *. simpl. constructor; [nia|].
  eapply Forall_impl; [done|]. simpl. nia.
Qed.

Lemma tensor_ok_cells_length w t size c :
  slices_typed t -> tensor_ok w t size -> c ∈ Chunks t ->
  Z.of_nat (length (cells (Slice c))) = elements c.
Proof.
  intros Ht Hok Hc. destruct Hok as [_ _ Hpos Hmax _ _ _ _ Hchunks _ _].
  unfold slices_typed in Ht. rewrite ->Forall_forall in Ht. rewrite ->Forall_forall in Hchunks.
  pose proof (Hchunks _ Hc) as Hck. unfold elements.
  erewrite ->chunk_ok_extents; [| |by apply Ht|done].
  - apply length_cells. apply Forall_lookup. intros i b Hb.
    destruct (Forall2_lookup_l _ _ _ _ _ (co_slice _ _ _ _ Hck) Hb) as (g & _ & ? & ?). lia.
  - eapply Forall_impl; [by apply volume_bounds|]. simpl. lia.
Qed.

(** The cells of all the chunks, in chunk order. *)
Definition tensor_cells (chunks : list Chunk) : list (list Z) :=
  chunks ≫= fun c => cells (Slice c).

Lemma NoDup_tensor_cells chunks :
  ForallOrdPairs disjoint_chunks chunks -> NoDup (tensor_cells chunks).
Proof.
  unfold tensor_cells. induction 1 as [|c chunks Hc Hd IH]; [constructor|].
  rewrite ->bind_cons, NoDup_app. split_and!; [apply NoDup_cells| |done].
  intros idx Hi (c' & Hi' & Hc')%list_elem_of_bind. rewrite ->List.Forall_forall in Hc.
  apply elem_of_cells in Hi, Hi'. eapply slices_disjoint; [|exact Hi'|exact Hi].
  apply Hc. by apply list_elem_of_In.
Qed.

Lemma in_slice_whole idx slice shape :
  Forall (fun b => 0 <= b.1) slice -> Forall2 (fun b g => b.1 < b.2 <= g) slice shape ->
  in_slice idx slice -> in_slice idx (whole shape).
Proof.
  unfold in_slice, whole. intros Ht Hs Hi. revert shape Hs.
  induction Hi as [|i b idx slice Hi _ IH]; intros shape Hs; inversion Hs; subst; [constructor|].
  apply Forall_cons in Ht as [? ?]. constructor; [simpl; lia|]. by apply IH.
Qed.

Lemma tensor_cells_complete w t size :
  slices_typed t -> tensor_ok w t size ->
  Permutation (tensor_cells (Chunks t)) (cells (whole (GlobalShape t))).
Proof.
  intros Ht Hok.
  assert (forall chunks, (forall c, c ∈ chunks -> c ∈ Chunks t) ->
    Z.of_nat (length (tensor_cells chunks)) = sum (elements <$> chunks)) as Hlen.
  { induction chunks as [|c chunks IH]; intros Hsub; [done|].
    unfold tensor_cells. rw bind_cons length_app fmap_cons sum_cons.
    rewrite ->Nat2Z.inj_add, (tensor_ok_cells_length w t size) by (done || apply Hsub; left).
    f_equal. apply IH. intros c' Hc'. apply Hsub. by right. }
  destruct Hok as [_ _ Hpos _ _ _ _ _ Hchunks Hdis Hcov].
  apply NoDup_Permutation_bis.
  - apply NoDup_ListNoDup. by apply NoDup_tensor_cells.
  - apply Nat2Z.inj_le. rewrite ->Hlen, Hcov by done. rewrite ->length_cells.
    2:{ apply Forall_fmap. eapply Forall_impl; [done|]. simpl. lia. }
    apply Z.eq_le_incl. unfold extents, whole. rw -list_fmap_compose.
    f_equal. rewrite <-(list_fmap_id (GlobalShape t)) at 2. apply list_fmap_ext. simpl. lia.
  - intros idx. rw -!list_elem_of_In elem_of_cells. intros (c & Hi & Hc)%list_elem_of_bind.
    unfold slices_typed in Ht. rewrite ->Forall_forall in Ht. rewrite ->Forall_forall in Hchunks.
    eapply in_slice_whole; [by apply Ht|by apply (co_slice _ _ _ _ (Hchunks _ Hc))|].
    by apply elem_of_cells.
Qed.

(** ** All the tensors *)

Definition is_parameter (t : Tensor) : bool := (Role t =? "model_parameter")%string.

Definition parameter_count (t : Tensor) : Z := if is_parameter t then volume (GlobalShape t) else 0.

Definition tensor_ids (ts : gomap Tensor) : list string := ts ≫= fun e => chunk_ids (snd e).
Definition tensor_paths (ts : gomap Tensor) : list string := ts ≫= fun e => chunk_paths (snd e).
Definition chunk_count (ts : gomap Tensor) : Z :=
  sum ((fun e => Z.of_nat (length (Chunks (snd e)))) <$> ts).
Definition parameters_total (ts : gomap Tensor) : Z :=
  sum ((fun e => parameter_count (snd e)) <$> ts).

(** What each tensor satisfies on its own. *)
Definition entry_ok (w : World) (dtype : string) (e : string * Tensor) : Prop :=
  tensorPattern (fst e) = true /\ (exists size, tensor_ok w (snd e) size)
  /\ (is_parameter (snd e) = true -> t_CanonicalDType (snd e) = dtype).

Record tensors_accepted w dtype (used ids : gset string) (tc tp : Z) (ts : gomap Tensor) : Prop := {
  ta_entries : Forall (entry_ok w dtype) ts;
  ta_ids : fresh (tensor_ids ts) ids;
  ta_paths : fresh (tensor_paths ts) used;
  ta_chunks : tc + chunk_count ts <= MaxChunks;
  ta_params : tp + parameters_total ts <= uint64_max }.

Lemma parameter_count_nonneg w dtype e : entry_ok w dtype e -> 0 <= parameter_count (snd e).
Proof.
  intros (_ & (size & Hok) & _). unfold parameter_count. case_match; [|lia].
  pose proof (volume_pos _ (to_pos _ _ _ Hok)). lia.
Qed.

Lemma parameters_total_nonneg w dtype ts : Forall (entry_ok w dtype) ts -> 0 <= parameters_total ts.
Proof.
  unfold parameters_total. induction 1 as [|e ts He _ IH]; [done|].
  rw fmap_cons sum_cons. pose proof (parameter_count_nonneg _ _ _ He). lia.
Qed.

Lemma chunk_count_nonneg ts : 0 <= chunk_count ts.
Proof. unfold chunk_count. induction ts; [done|]. rw fmap_cons sum_cons. lia. Qed.

Lemma tensors_accepted_cons w dtype used ids tc tp name t ts :
  tensors_accepted w dtype used ids tc tp ((name, t) :: ts) <->
  entry_ok w dtype (name, t) /\ tensor_accepted w used ids t
  /\ tensors_accepted w dtype (list_to_set (chunk_paths t) ∪ used)
       (list_to_set (chunk_ids t) ∪ ids) (tc + Z.of_nat (length (Chunks t)))
       (tp + parameter_count t) ts.
Proof.
  split.
  - intros [He Hi Hp Hc Hpar]. apply Forall_cons in He as [He Hes].
    unfold tensor_ids, tensor_paths in Hi, Hp. rewrite ->bind_cons, fresh_app in Hi, Hp.
    unfold chunk_count, parameters_total in Hc, Hpar. rewrite ->fmap_cons, sum_cons in Hc, Hpar.
    split; [done|]. split; [split; [apply He|]; naive_solver|].
    split; try naive_solver; unfold chunk_count, parameters_total; simpl in *; lia.
  - intros (He & (_ & ? & ?) & [Hes Hi Hp Hc Hpar]). split.
    + by constructor.
    + unfold tensor_ids. by rw bind_cons fresh_app.
    + unfold tensor_paths. by rw bind_cons fresh_app.
    + unfold chunk_count in *. rw fmap_cons sum_cons. simpl. lia.
    + unfold parameters_total in *. rw fmap_cons sum_cons. simpl. lia.
Qed.

Lemma validate_tensors_sound w dtype ts paths ids tc tp paths' tp' :
  0 <= tc <= MaxChunks -> 0 <= tp <= uint64_max ->
  validate_tensors w dtype ts paths ids tc tp = Ok (paths', tp') ->
  tensors_accepted w dtype (dom paths) ids tc tp ts
  /\ tp' = tp + parameters_total ts
  /\ dom paths' = list_to_set (tensor_paths ts) ∪ dom paths.
Proof.
  revert paths ids tc tp. induction ts as [|[name t] ts IH]; intros paths ids tc tp Htc Htp;
    cbn [validate_tensors].
  { intros [= <- <-]. unfold parameters_total. split_and!; [|unfold sum; simpl; lia|set_solver].
    split; try apply fresh_nil; [constructor| |]; unfold chunk_count, parameters_total, sum; simpl; lia. }
  destruct (negb _) eqn:En; [done|].
  destruct (validate_tensor _ _ _ _) as [[p i]|] eqn:Et; [|done].
  apply validate_tensor_sound in Et as (Ha & Hp & ->).
  destruct (MaxChunks <? _) eqn:Ec; [done|]. bool_hyps.
  pose proof Ha as ((size & Hok) & _). intros H.
  assert (entry_ok w dtype (name, t) /\ tp + parameter_count t <= uint64_max /\
    validate_tensors w dtype ts p (list_to_set (chunk_ids t) ∪ ids)
      (tc + Z.of_nat (length (Chunks t))) (tp + parameter_count t) = Ok (paths', tp'))
    as (He & Hmax & H').
  { unfold entry_ok, parameter_count, is_parameter in *. simpl. case_match eqn:Erole.
    - rewrite ->(proj2 (product_spec _ (volume (GlobalShape t)))) in H by (split_and!; apply Hok || done).
      pose proof (volume_pos _ (to_pos _ _ _ Hok)).
      destruct (uint64_max - tp <? _) eqn:Eo; [done|]. destruct (negb (_ =? dtype)%string) eqn:Edt; [done|].
      bool_hyps. rewrite ->wrapu64_id in H by lia. split_and!; eauto; lia.
    - rw Z.add_0_r. split_and!; eauto; [done|lia]. }
  pose proof (parameter_count_nonneg _ _ _ He) as Hnn. simpl in Hnn.
  apply IH in H' as (Hacc & -> & Hdom); [|lia..]. rewrite ->Hp in *.
  split; [by apply tensors_accepted_cons|].
  unfold parameters_total, tensor_paths in *. rw fmap_cons sum_cons bind_cons list_to_set_app_L Hdom.
  split; [simpl; lia|set_solver].
Qed.

Lemma validate_tensors_complete w dtype ts paths ids tc tp :
  0 <= tc -> 0 <= tp <= uint64_max ->
  tensors_accepted w dtype (dom paths) ids tc tp ts ->
  exists paths',
    validate_tensors w dtype ts paths ids tc tp = Ok (paths', tp + parameters_total ts)
    /\ dom paths' = list_to_set (tensor_paths ts) ∪ dom paths.
Proof.
  revert paths ids tc tp. induction ts as [|[name t] ts IH]; intros paths ids tc tp Htc Htp Ha;
    cbn [validate_tensors].
  { exists paths. unfold parameters_total, sum. simpl. by rw Z.add_0_r union_empty_l_L. }
  apply tensors_accepted_cons in Ha as (He & Ht & Hts).
  pose proof (parameter_count_nonneg _ _ _ He) as Hnn. simpl in Hnn.
  pose proof (parameters_total_nonneg _ _ _ (ta_entries _ _ _ _ _ _ _ Hts)) as Hnn2.
  pose proof (chunk_count_nonneg ts) as Hnn3.
  pose proof (ta_chunks _ _ _ _ _ _ _ Hts) as Hc. pose proof (ta_params _ _ _ _ _ _ _ Hts) as Hpar.
  destruct (validate_tensor_complete _ _ _ _ Ht) as (p & -> & Hp).
  destruct He as (En & (size & Hok) & Hdt). cbn [fst snd] in *. rewrite ->En. cbn [negb].
  rewrite ->(proj2 (Z.ltb_ge MaxChunks _)) by lia. rewrite <-Hp in Hts.
  apply IH in Hts as (p' & Hv & Hp'); [|lia..].
  exists p'. unfold parameters_total, tensor_paths in *.
  rw fmap_cons sum_cons bind_cons list_to_set_app_L Hp' Hp. split; [|set_solver].
  simpl. rw Z.add_assoc -Hv. unfold parameter_count, is_parameter in *.
  case_match; [|by rw Z.add_0_r].
  rewrite ->(proj2 (product_spec _ (volume (GlobalShape t)))) by (split_and!; apply Hok || done).
  rewrite ->(proj2 (Z.ltb_ge _ _)), Hdt, String.eqb_refl by (done || lia). simpl.
  by rewrite ->wrapu64_id by lia.
Qed.

(** ** The world, the artifacts and the metadata *)

Definition rank_ok (r : Rank) : Prop :=
  Hardware r ∈ hardware_names /\ Adapter r <> "" /\ slen (Adapter r) <= 64.

Lemma rank_checks r :
  negb (bool_decide (Hardware r ∈ hardware_names)) || (Adapter r =? "")%string
  || (64 <? slen (Adapter r)) = false <-> rank_ok r.
Proof.
  unfold rank_ok. rewrite ->!orb_false_iff, negb_false_iff, bool_decide_eq_true,
    String.eqb_neq, Z.ltb_ge. tauto.
Qed.

Lemma validate_ranks_spec size seen ranks :
  length seen = Z.to_nat size -> 
  validate_ranks size seen ranks = Ok tt <->
  Forall rank_ok ranks /\ NoDup (r_Rank <$> ranks)
  /\ forall r, r ∈ r_Rank <$> ranks -> 0 <= r < size /\ seen !! Z.to_nat r = Some false.
Proof.
  revert seen. induction ranks as [|r ranks IH]; intros seen Hl; cbn [validate_ranks].
  { split; [|done]. intros _. split_and!; try constructor; set_solver. }
  rewrite ->fmap_cons, NoDup_cons, Forall_cons.
  destruct (_ || _ || _) eqn:E1.
  { split; [done|]. intros (_ & _ & H). destruct (H (r_Rank r)) as [Hr Hs]; [left|].
    rewrite ->Hs, orb_false_r in E1. simpl in E1. apply orb_true_iff in E1 as [?|?]; bool_hyps; lia. }
  bool_hyps. assert (exists b, seen !! Z.to_nat (r_Rank r) = Some b) as [b Hb].
  { apply lookup_lt_is_Some. lia. }
  rewrite ->Hb in *. simpl in *. subst b.
  destruct (_ || _ || _) eqn:E2.
  { split; [done|]. intros ([Hok%rank_checks _] & _). congruence. }
  apply rank_checks in E2. rewrite ->IH by (by rw length_insert).
  split.
  - intros (Hok & Hnd & Hall). split_and!; try done.
    + intros Hin. destruct (Hall _ Hin) as [_ Hs].
      rewrite ->list_lookup_insert in Hs. case_decide; simplify_eq; lia.
    + intros r' [->|Hin]%elem_of_cons; [split; [lia|done]|].
      destruct (Hall _ Hin) as [? Hs]. rewrite ->list_lookup_insert in Hs.
      case_decide; simplify_eq. done.
  - intros ([_ Hok] & [Hni Hnd] & Hall). split_and!; try done. intros r' Hin.
    destruct (Hall r') as [? Hs]; [by right|]. split; [done|].
    rewrite ->list_lookup_insert_ne; [done|]. intros E. apply Hni.
    by replace (r_Rank r) with r' by lia.
Qed.

Definition world_ok (w : World) : Prop :=
  1 <= Size w <= 65536 /\ Permutation (r_Rank <$> Ranks w) (seqZ 0 (Size w))
  /\ Forall rank_ok (Ranks w).

Lemma validate_world_spec w : validate_world w = Ok tt <-> world_ok w.
Proof.
  unfold validate_world, world_ok. split.
  - destruct (_ || _ || _) eqn:E; [done|]. bool_hyps.
    intros (Hok & Hnd & Hall)%validate_ranks_spec; [|by rw length_replicate].
    split_and!; try done. apply NoDup_Permutation_bis; [by apply NoDup_ListNoDup| |].
    + rw length_fmap length_seqZ. lia.
    + intros r Hr%list_elem_of_In. apply list_elem_of_In, elem_of_seqZ.
      destruct (Hall r Hr). lia.
  - intros (Hs & Hp & Hok). pose proof (Permutation_length Hp) as Hl.
    rewrite ->length_fmap, length_seqZ in Hl.
    rewrite ->(proj2 (Z.ltb_ge _ _)), (proj2 (Z.ltb_ge _ _)), (proj2 (Z.eqb_eq _ _)) by lia.
    simpl. apply validate_ranks_spec; [by rw length_replicate|].
    split_and!; [done|rw Hp; apply NoDup_seqZ|]. intros r Hr. rewrite ->Hp in Hr.
    apply elem_of_seqZ in Hr. split; [lia|]. apply lookup_replicate_2. lia.
Qed.

Lemma validate_rank_adapters_spec versions ranks :
  validate_rank_adapters versions ranks = Ok tt <->
  Forall (fun r => default "" (map_get versions (Hardware r)) <> "") ranks.
Proof.
  induction ranks as [|r ranks IH]; cbn [validate_rank_adapters]; [done|].
  rw Forall_cons -IH. case_match eqn:E; bool_hyps; naive_solver.
Qed.

Definition artifact_ok (a : Artifact) : Prop :=
  ValidStoragePath (StoragePath a) = true /\ ByteLength a <> 0 /\ hashPattern (SHA256 a) = true.

Lemma validate_artifact_spec owner paths a paths' :
  validate_artifact owner paths a = Ok paths' <->
  artifact_ok a /\ StoragePath a ∉ dom paths /\ paths' = <[StoragePath a := owner]> paths.
Proof.
  unfold validate_artifact, artifact_ok.
  destruct (uniquePath _ _ _) as [p|e] eqn:E.
  - apply uniquePath_spec in E as (? & ? & ->).
    destruct (_ || _) eqn:E'.
    + split; [done|]. intros ((_ & ? & ?) & _).
      apply orb_true_iff in E' as [?|?]; bool_hyps; congruence.
    + bool_hyps. split; [intros [= <-]; done|]. by intros (_ & _ & ->).
  - split; [done|]. intros ((? & _) & ? & _). exfalso.
    assert (uniquePath (StoragePath a) owner paths = Ok (<[StoragePath a := owner]> paths))
      as E' by (by apply uniquePath_spec). congruence.
Qed.

Definition rng_ok (size : Z) (e : string * Artifact) : Prop :=
  (exists v, parse_int64 (fst e) = Some v /\ 0 <= v < size) /\ artifact_ok (snd e).

Definition rng_paths (rng : gomap Artifact) : list string := (fun e => StoragePath (snd e)) <$> rng.

Lemma validate_rng_spec size paths rng :
  validate_rng size paths rng = Ok tt <->
  Forall (rng_ok size) rng /\ fresh (rng_paths rng) (dom paths).
Proof.
  unfold rng_paths. revert paths. induction rng as [|[rank a] rng IH]; intros paths;
    cbn [validate_rng].
  { split; [|done]. intros _. split; [constructor|apply fresh_nil]. }
  rewrite ->Forall_cons, fmap_cons, fresh_cons. unfold rng_ok at 1. simpl.
  destruct (parse_int64 rank) as [v|]; [|naive_solver].
  destruct (_ || _) eqn:E.
  { split; [done|]. intros (((( v' & ? & ?) & _) & _) & _). simplify_eq.
    apply orb_true_iff in E as [?|?]; bool_hyps; lia. }
  bool_hyps. destruct (validate_artifact _ _ _) as [p|e] eqn:Ea.
  - apply validate_artifact_spec in Ea as (? & ? & ->). rewrite ->IH, dom_insert_L.
    naive_solver lia.
  - split; [done|]. intros ((( _ & ?) & _) & ? & _). exfalso.
    assert (validate_artifact ("rng rank " +:+ rank) paths a =
      Ok (<[StoragePath a := "rng rank " +:+ rank]> paths)) as E' by (by apply validate_artifact_spec).
    congruence.
Qed.

Definition field_ok (v : string) : Prop := v <> "" /\ slen v <= 512.
Definition adapter_ok (e : string * string) : Prop :=
  adapterPattern (fst e) = true /\ snd e <> "" /\ slen (snd e) <= 64.

Record metadata_ok (m : Metadata) : Prop := {
  mdo_dtype : is_Some (dtypeSize (md_CanonicalDType m));
  mdo_fields : field_ok (ModelID m) /\ field_ok (DatasetID m) /\ field_ok (Framework m)
               /\ field_ok (FrameworkVersion m);
  mdo_schema : hashPattern (ModelSchemaHash m) = true;
  mdo_digest : exists h, ContainerImageDigest m = "sha256:" +:+ h /\ hashPattern h = true;
  mdo_count : (1 <= length (AdapterVersions m) <= 64)%nat;
  mdo_adapters : Forall adapter_ok (AdapterVersions m) }.

Lemma validate_adapters_spec l : validate_adapters l = Ok tt <-> Forall adapter_ok l.
Proof.
  induction l as [|[name v] l IH]; cbn [validate_adapters]; [done|].
  rw Forall_cons -IH. unfold adapter_ok. simpl.
  destruct (_ || _) eqn:E.
  - split; [done|]. intros ((? & ? & ?) & _). rewrite ->!orb_true_iff in E.
    destruct E as [[?|?]|?]; bool_hyps; congruence || lia.
  - bool_hyps. naive_solver.
Qed.

Lemma validate_fields_spec l :
  validate_fields l = Ok tt <-> Forall (fun e => field_ok (snd e)) l.
Proof.
  induction l as [|[name v] l IH]; cbn [validate_fields]; [done|].
  rw Forall_cons -IH. unfold field_ok. simpl.
  destruct (_ || _) eqn:E.
  - split; [done|]. intros ((? & ?) & _). rewrite ->!orb_true_iff in E.
    destruct E as [?|?]; bool_hyps; congruence || lia.
  - bool_hyps. naive_solver.
Qed.

(** [let! _ := a in b] and [reject_if] succeed when both parts do. *)
Lemma bind_unit_ok {E} (a b : result E unit) :
  (let! _ := a in b) = Ok tt <-> a = Ok tt /\ b = Ok tt.
Proof. destruct a as [[]|]; naive_solver. Qed.

Lemma reject_ok {E A} (b : bool) (e : E) (k : result E A) x :
  (reject_if b with e in k) = Ok x <-> b = false /\ k = Ok x.
Proof. destruct b; naive_solver. Qed.

Lemma digest_spec d :
  negb (has_prefix "sha256:" d) || negb (hashPattern (trim_prefix "sha256:" d)) = false <->
  exists h, d = "sha256:" +:+ h /\ hashPattern h = true.
Proof.
  rewrite ->orb_false_iff, !negb_false_iff, has_prefix_spec. split.
  - intros [[h ->] H]. exists h. split; [done|]. unfold trim_prefix in H.
    by rewrite ->cut_prefix_app in H.
  - intros (h & -> & H). split; [by exists h|]. unfold trim_prefix. by rw cut_prefix_app.
Qed.

Lemma validate_metadata_spec m : validate_metadata m = Ok tt <-> metadata_ok m.
Proof.
  unfold validate_metadata.
  rewrite ->reject_ok, bind_unit_ok, !reject_ok, digest_spec, validate_adapters_spec,
    validate_fields_spec, !negb_false_iff, bool_decide_eq_true, !Forall_cons, Forall_nil, orb_false_iff,
    Z.eqb_neq, Z.ltb_ge. simpl.
  split; [intros H; split; naive_solver lia|intros []; naive_solver lia].
Qed.

(** ** Valid manifests *)

(** All the storage paths of the checkpoint. *)
Definition all_paths (m : Manifest) : list string :=
  tensor_paths (Tensors m)
  ++ StoragePath (OptimizerMetadata (m_State m)) :: rng_paths (RNG (m_State m)).

Record manifest_ok (m : Manifest) : Prop := {
  mo_version : CheckpointVersion m = Version;
  mo_run : idPattern (RunID m) = true;
  mo_epoch : finiteNonNegative (Epoch m) = true;
  mo_created : GoTime.valid_rfc3339 (CreatedAt m) = true;
  mo_metadata : metadata_ok (m_Metadata m);
  mo_world : world_ok (m_World m);
  mo_hardware : Forall (fun r => default "" (map_get (AdapterVersions (m_Metadata m)) (Hardware r)) <> "")
                       (Ranks (m_World m));
  mo_nonempty : Tensors m <> [];
  mo_tensors : Forall (entry_ok (m_World m) (md_CanonicalDType (m_Metadata m))) (Tensors m);
  mo_ids : NoDup (tensor_ids (Tensors m));
  mo_paths : NoDup (all_paths m);
  mo_chunks : chunk_count (Tensors m) <= MaxChunks;
  mo_params : parameters_total (Tensors m) = TotalParameters (m_Metadata m);
  mo_params_max : TotalParameters (m_Metadata m) <= uint64_max;
  mo_optimizer : artifact_ok (OptimizerMetadata (m_State m));
  mo_state : Scheduler (m_State m) <> None /\ DataCursor (m_State m) <> None;
  mo_rng_size : Z.of_nat (length (RNG (m_State m))) = Size (m_World m);
  mo_rng : Forall (rng_ok (Size (m_World m))) (RNG (m_State m)) }.

Lemma is_nil_false {A} (o : option A) : is_nil o = false <-> o <> None.
Proof. destruct o; naive_solver. Qed.

Lemma validate_state_spec w paths s :
  validate_state w paths s = Ok tt <->
  artifact_ok (OptimizerMetadata s) /\ (Scheduler s <> None /\ DataCursor s <> None)
  /\ Z.of_nat (length (RNG s)) = Size w /\ Forall (rng_ok (Size w)) (RNG s)
  /\ fresh (StoragePath (OptimizerMetadata s) :: rng_paths (RNG s)) (dom paths).
Proof.
  unfold validate_state. rewrite ->fresh_cons.
  destruct (validate_artifact _ _ _) as [p|e] eqn:E.
  - apply validate_artifact_spec in E as (? & ? & ->).
    rewrite ->reject_ok, !orb_false_iff, !is_nil_false, negb_false_iff, Z.eqb_eq,
      validate_rng_spec, dom_insert_L. naive_solver.
  - split; [done|]. intros (? & _ & _ & _ & ? & _). exfalso.
    rewrite ->(proj2 (validate_artifact_spec _ _ _ _)) in E by (split_and!; done). done.
Qed.

(** The checks of [Validate] as one predicate, independent of the order in
    which the maps are visited. *)
Lemma validate_spec m : Validate m = Ok tt <-> manifest_ok m.
Proof.
  unfold Validate. rewrite ->!reject_ok, !bind_unit_ok, reject_ok, !negb_false_iff, Z.eqb_eq,
    validate_metadata_spec, validate_world_spec, validate_rank_adapters_spec, Z.eqb_neq.
  split.
  - intros (? & ? & ? & ? & ? & ? & ? & Hne & H).
    destruct (validate_tensors _ _ _ _ _ _ _) as [[p tp]|] eqn:Et; [|done].
    apply validate_tensors_sound in Et as ([He Hi Hp Hc Hpar] & -> & Hdom); [|done..].
    rewrite ->reject_ok, negb_false_iff, Z.eqb_eq, validate_state_spec, Hdom, dom_empty_L in H.
    destruct H as (Htot & ? & ? & ? & ? & Hf). rewrite ->dom_empty_L in Hp.
    split; try done; try lia.
    + intros E. by rewrite ->E in Hne.
    + by apply (proj1 (fresh_empty _)).
    + by apply (proj1 (fresh_empty _)), fresh_app.
  - intros [? ? ? ? ? ? ? Hne ? Hi Hp Hc Hpar Hmax ? ? ? ?]. split_and!; try done.
    { destruct (Tensors m); simpl; [done|lia]. }
    unfold all_paths in Hp. apply (proj2 (fresh_empty _)), fresh_app in Hp as [Hp1 Hp2].
    destruct (validate_tensors_complete (m_World m) (md_CanonicalDType (m_Metadata m)) (Tensors m) ∅ ∅ 0 0)
      as (p & -> & Hdom); [done|done| |].
    { split; rewrite ->?dom_empty_L; try done; try lia; by apply (proj2 (fresh_empty _)). }
    rewrite ->reject_ok, negb_false_iff, Z.eqb_eq, validate_state_spec, Hdom, dom_empty_L. done.
Qed.

(** ** Samples *)

Definition hash0 : string := "0123456789abcdef0123456789abcdef0123456789abcdef0123456789abcdef".

Definition sample_metadata : Metadata :=
  MkMetadata 6 "float32" "model" hash0 "data" ("sha256:" +:+ hash0) "torch" "2.0"
    [("cpu", "1"); ("nvidia-gpu", "1")]%string.

Definition sample_world : World :=
  MkWorld 2 [MkRank 1 "nvidia-gpu" "cuda"; MkRank 0 "cpu" "cpu"].

Definition sample_chunk (id path : string) (slice : list (Z * Z)) (shape : list Z) (bytes : Z) : Chunk :=
  MkChunk id path slice shape 0 bytes hash0 1.

(** A 2x3 tensor split into a row and two parts of the other row. *)
Definition sample_tensor (id : string) : Tensor :=
  MkTensor "model_parameter" [2; 3] "float32" "little" "C" None
    [sample_chunk id "t/a" [(0, 1); (0, 3)] [1; 3] 12;
     sample_chunk "b" "t/b" [(1, 2); (0, 2)] [1; 2] 8;
     sample_chunk "c" "t/c" [(1, 2); (2, 3)] [1; 1] 4].

Definition sample_state (rank1 : string) : State :=
  MkState (MkArtifact "opt" 10 hash0) (Some [])
    [("0", MkArtifact "rng0" 5 hash0); (rank1, MkArtifact "rng1" 5 hash0)]%string (Some []).

Definition sample_with (id rank1 : string) : Manifest :=
  MkManifest Version "run" 7 (S754_finite false 3 0) "2026-01-01T00:00:00Z" sample_metadata
    sample_world [("w"%string, sample_tensor id)] (sample_state rank1).

Definition sample : Manifest := sample_with "a" "1".

Lemma sample_valid : Validate sample = Ok tt.
Proof. vm_compute. reflexivity. Qed.

(** ** What an accepted manifest guarantees *)

(** C19: in an accepted manifest the chunks of every tensor partition the
    tensor: each index of the global shape lies in exactly one chunk, every
    index of a chunk is an index of the tensor, and the chunks' byte lengths
    add up to the size of the tensor. *)
Theorem chunks_partition_tensor m name t :
  Validate m = Ok tt -> (name, t) ∈ Tensors m -> slices_typed t ->
  (forall idx, in_slice idx (whole (GlobalShape t)) <->
     exists i c, Chunks t !! i = Some c /\ in_slice idx (Slice c)) /\
  (forall idx i j c d, Chunks t !! i = Some c -> Chunks t !! j = Some d ->
     in_slice idx (Slice c) -> in_slice idx (Slice d) -> i = j) /\
  exists size, dtypeSize (t_CanonicalDType t) = Some size /\
    sum (c_ByteLength <$> Chunks t) = volume (GlobalShape t) * size.
Proof.
  intros Hm%validate_spec Ht Hty. pose proof (mo_tensors _ Hm) as He.
  rewrite ->Forall_forall in He. destruct (He _ Ht) as (_ & (size & Hok) & _). simpl in Hok.
  pose proof (tensor_cells_complete _ _ _ Hty Hok) as Hperm.
  pose proof (to_disjoint _ _ _ Hok) as Hd. split_and!.
  - intros idx. rewrite <-elem_of_cells, <-Hperm. unfold tensor_cells. rewrite ->list_elem_of_bind.
    split.
    + intros (c & Hi%elem_of_cells & (i & Hc)%list_elem_of_lookup). eauto.
    + intros (i & c & Hc & Hi). exists c. rw elem_of_cells. eauto using list_elem_of_lookup_2.
  - intros idx. clear -Hd. induction Hd as [|x l Hx Hl IH]; [by intros [|]|].
    rewrite ->List.Forall_forall in Hx.
    assert (forall j d, l !! j = Some d -> disjoint_chunks x d) as Hx'.
    { intros j d Hj. apply Hx, list_elem_of_In. eauto using list_elem_of_lookup_2. }
    intros [|i] [|j] c d Hc Hd' Hic Hid; simplify_eq/=; [done| | |f_equal; eauto]; exfalso.
    + exact (slices_disjoint _ _ _ (Hx' _ _ Hd') Hid Hic).
    + exact (slices_disjoint _ _ _ (Hx' _ _ Hc) Hic Hid).
  - exists size. split; [apply Hok|]. rewrite <-(to_covered _ _ _ Hok).
    pose proof (to_chunks _ _ _ Hok) as Hc. clear -Hc.
    induction Hc as [|c l Hc _ IH]; [done|]. rw !fmap_cons !sum_cons IH (co_bytes _ _ _ _ Hc). lia.
Qed.

Lemma chunks_partition_tensor_witness :
  exists i c, Chunks (sample_tensor "a") !! i = Some c /\ in_slice [1; 1] (Slice c).
Proof.
  eapply (chunks_partition_tensor sample "w" (sample_tensor "a")).
  - vm_compute. reflexivity.
  - vm_compute. left.
  - repeat constructor; simpl; lia.
  - repeat constructor; simpl; lia.
Defined.

(** *** Independence of the map order *)

Lemma map_get_perm {V} (m m' : gomap V) k :
  NoDup m.*1 -> Permutation m m' -> map_get m k = map_get m' k.
Proof.
  intros Hnd Hp. induction Hp as [|[k1 v1] m m' Hp IH|[k1 v1] [k2 v2] m|m1 m2 m3 Hp1 IH1 Hp2 IH2];
    cbn [map_get]; [done| | |].
  - apply NoDup_cons in Hnd as [_ Hnd]. case_match; auto.
  - apply NoDup_cons in Hnd as [Hn _]. simpl in Hn.
    destruct (k =? k2)%string eqn:E2, (k =? k1)%string eqn:E1; bool_hyps; try done.
    subst. exfalso. apply Hn. left.
  - rewrite ->IH1 by done. apply IH2. by rewrite <-Hp1.
Qed.

Lemma sum_perm l l' : Permutation l l' -> sum l = sum l'.
Proof. unfold sum. induction 1; simpl; lia. Qed.

(** The same manifest with its maps visited in another order. *)
Record same_manifest (m m' : Manifest) : Prop := {
  sm_tensors : Permutation (Tensors m) (Tensors m');
  sm_rng : Permutation (RNG (m_State m)) (RNG (m_State m'));
  sm_adapters : Permutation (AdapterVersions (m_Metadata m)) (AdapterVersions (m_Metadata m'));
  sm_rest :
    MkManifest (CheckpointVersion m) (RunID m) (GlobalStep m) (Epoch m) (CreatedAt m)
      (let md := m_Metadata m in
       MkMetadata (TotalParameters md) (md_CanonicalDType md) (ModelID md) (ModelSchemaHash md)
         (DatasetID md) (ContainerImageDigest md) (Framework md) (FrameworkVersion md) [])
      (m_World m) []
      (let s := m_State m in MkState (OptimizerMetadata s) (Scheduler s) [] (DataCursor s)) =
    MkManifest (CheckpointVersion m') (RunID m') (GlobalStep m') (Epoch m') (CreatedAt m')
      (let md := m_Metadata m' in
       MkMetadata (TotalParameters md) (md_CanonicalDType md) (ModelID md) (ModelSchemaHash md)
         (DatasetID md) (ContainerImageDigest md) (Framework md) (FrameworkVersion md) [])
      (m_World m') []
      (let s := m_State m' in MkState (OptimizerMetadata s) (Scheduler s) [] (DataCursor s)) }.

Lemma same_manifest_ok m m' :
  NoDup (AdapterVersions (m_Metadata m)).*1 -> same_manifest m m' -> manifest_ok m -> manifest_ok m'.
Proof.
  destruct m as [v run step ep cr [tp dt mi sh di im fw fv av] w ts [om sc rng dc]],
    m' as [v' run' step' ep' cr' [tp' dt' mi' sh' di' im' fw' fv' av'] w' ts' [om' sc' rng' dc']].
  intros Hnd [Hts Hrng Hav Hrest] [? ? ? ? [] ? Hhw Hne Hte Hids Hp Hc Hpar ? ? ? Hsz Hr]; simpl in *.
  injection Hrest as -> -> -> -> -> -> -> -> -> -> -> -> -> -> -> -> ->.
  split; simpl; try done.
  - split; simpl in *; try done; [by rewrite <-Hav|by rewrite <-Hav].
  - eapply Forall_impl; [done|]. intros r. simpl. by rewrite ->(map_get_perm av av').
  - intros ->. by apply Permutation_nil_r in Hts.
  - by rewrite <-Hts.
  - unfold tensor_ids in *. by rewrite <-Hts.
  - unfold all_paths, tensor_paths, rng_paths in *. simpl in *. by rewrite <-Hts, <-Hrng.
  - unfold chunk_count in *. by rewrite <-(sum_perm _ _ (fmap_Permutation _ _ _ Hts)).
  - unfold parameters_total in *. by rewrite <-(sum_perm _ _ (fmap_Permutation _ _ _ Hts)).
  - by rewrite <-Hrng.
  - by rewrite <-Hrng.
Qed.

(** The verdict of [Validate] does not depend on the order in which the
    runtime visits the maps of the manifest, although the checks share
    accumulators across iterations. *)
Theorem validate_order_independent m m' :
  NoDup (AdapterVersions (m_Metadata m)).*1 -> same_manifest m m' ->
  (Validate m = Ok tt <-> Validate m' = Ok tt).
Proof.
  intros Hnd Hsame. rewrite ->!validate_spec. split; [by apply same_manifest_ok|].
  apply same_manifest_ok.
  - by rewrite <-(sm_adapters _ _ Hsame).
  - destruct Hsame. by split.
Qed.

Definition sample_reordered : Manifest :=
  MkManifest Version "run" 7 (S754_finite false 3 0) "2026-01-01T00:00:00Z"
    (MkMetadata 6 "float32" "model" hash0 "data" ("sha256:" +:+ hash0) "torch" "2.0"
       [("nvidia-gpu", "1"); ("cpu", "1")]%string)
    sample_world [("w"%string, sample_tensor "a")]
    (MkState (MkArtifact "opt" 10 hash0) (Some [])
       [("1", MkArtifact "rng1" 5 hash0); ("0", MkArtifact "rng0" 5 hash0)]%string (Some [])).

Lemma validate_order_independent_witness : Validate sample_reordered = Ok tt.
Proof.
  apply (validate_order_independent sample sample_reordered).
  - apply (bool_decide_unpack _). vm_compute. reflexivity.
  - split; [apply Permutation_refl|apply perm_swap|apply perm_swap|reflexivity].
  - vm_compute. reflexivity.
Defined.

(** *** Objects *)

Definition reserved (id : string) : bool :=
  (id =? "optimizer_metadata")%string || has_prefix "rng_" id.

Lemma Objects_ids m :
  ID <$> Objects m =
  tensor_ids (Tensors m) ++ "optimizer_metadata"%string :: ((fun k => "rng_" +:+ k) <$> (RNG (m_State m)).*1).
Proof.
  unfold Objects, tensor_ids. rw !fmap_app. f_equal.
  - induction (Tensors m) as [|e ts IH]; [done|].
    cbn [map concat]. rw fmap_app IH bind_cons. f_equal. unfold chunk_ids.
    induction (Chunks e.2); simpl; by f_equal.
  - simpl. f_equal. induction (RNG (m_State m)); simpl; by f_equal.
Qed.

Lemma Objects_paths m : Path <$> Objects m = all_paths m.
Proof.
  unfold Objects, all_paths, tensor_paths, rng_paths. rw !fmap_app. f_equal.
  - induction (Tensors m) as [|e ts IH]; [done|].
    cbn [map concat]. rw fmap_app IH bind_cons. f_equal. unfold chunk_paths.
    induction (Chunks e.2); simpl; by f_equal.
  - simpl. f_equal. induction (RNG (m_State m)); simpl; by f_equal.
Qed.

Lemma find_unique {A} (key : A -> string) l x :
  NoDup (key <$> l) -> x ∈ l -> List.find (fun y => (key y =? key x)%string) l = Some x.
Proof.
  intros Hnd Hx. induction Hx as [x l|x y l Hx IH]; simpl.
  - by rw String.eqb_refl.
  - apply NoDup_cons in Hnd as [Hy Hnd]. case_match eqn:E; bool_hyps; [|by apply IH].
    exfalso. apply Hy. rewrite ->E. by apply list_elem_of_fmap_2.
Qed.

(** When no chunk uses a reserved identifier, every object an accepted
    manifest authorises is found under its own identifier, and no two objects
    share a storage path. *)
Theorem objects_addressable m :
  NoDup (RNG (m_State m)).*1 ->
  Validate m = Ok tt -> Forall (fun id => reserved id = false) (tensor_ids (Tensors m)) ->
  (forall o, o ∈ Objects m -> Object_of m (ID o) = Ok o) /\ NoDup (Path <$> Objects m).
Proof.
  intros Hk Hm%validate_spec Hres. split; [|rw Objects_paths; apply Hm].
  intros o Ho. unfold Object_of. rewrite ->find_unique; [done| |done]. rewrite ->Objects_ids.
  rewrite ->Forall_forall in Hres. apply NoDup_app. split_and!; [apply Hm| |].
  - intros id Hid Hin. specialize (Hres _ Hid). unfold reserved in Hres. bool_hyps.
    apply elem_of_cons in Hin as [->|Hin]; [done|].
    apply list_elem_of_fmap in Hin as (k & -> & _).
    rewrite ->(proj2 (has_prefix_spec _ _)) in * by eauto. done.
  - apply NoDup_cons. split.
    + intros (k & E & _)%list_elem_of_fmap. discriminate.
    + apply NoDup_fmap_2; [|done]. intros k k' E. by injection E.
Qed.

Lemma objects_addressable_witness :
  Object_of sample "rng_1" = Ok (artifact_object "rng_1" 1 (MkArtifact "rng1" 5 hash0)).
Proof.
  refine (proj1 (objects_addressable sample _ _ _)
            (artifact_object "rng_1" 1 (MkArtifact "rng1" 5 hash0)) _).
  - apply (bool_decide_unpack _). vm_compute. reflexivity.
  - vm_compute. reflexivity.
  - apply (bool_decide_unpack _). vm_compute. reflexivity.
  - apply list_elem_of_In. vm_compute. tauto.
Defined.

(** *** Optimizer metadata *)

Lemma check_names_spec model names :
  check_names model names = Ok tt <-> Forall (fun n => n ∈ model) names.
Proof.
  induction names as [|n names IH]; cbn [check_names]; [done|].
  by rewrite ->reject_ok, negb_false_iff, bool_decide_eq_true, IH, Forall_cons.
Qed.

Lemma check_groups_sound model groups :
  check_groups model groups = Ok tt ->
  Forall (fun g => g_Parameters g <> [] /\ Forall (fun n => n ∈ model) (g_Parameters g)) groups.
Proof.
  induction groups as [|g groups IH]; cbn [check_groups]; [by constructor|].
  rewrite ->reject_ok, bind_unit_ok, check_names_spec. intros (E & ? & ?). bool_hyps.
  constructor; [|by apply IH]. split; [|done]. by intros Eg; rewrite ->Eg in *.
Qed.

Lemma check_slots_sound optimizer slots :
  check_slots optimizer slots = Ok tt ->
  Forall (fun e => fst e <> "" /\ snd e ∈ optimizer) slots.
Proof.
  induction slots as [|[slot t] slots IH]; cbn [check_slots]; [by constructor|].
  rewrite ->!reject_ok, negb_false_iff, bool_decide_eq_true, String.eqb_neq.
  intros (? & ? & ?). constructor; auto.
Qed.

Lemma check_parameters_sound model optimizer ps :
  check_parameters model optimizer ps = Ok tt ->
  Forall (fun e => fst e ∈ model
                   /\ Forall (fun s => fst s <> "" /\ snd s ∈ optimizer) (p_Tensors (snd e))) ps.
Proof.
  induction ps as [|[name p] ps IH]; cbn [check_parameters]; [by constructor|].
  rewrite ->reject_ok, bind_unit_ok, negb_false_iff, bool_decide_eq_true.
  intros (? & ?%check_slots_sound & ?). constructor; auto.
Qed.

Lemma elem_of_tensors_with_role role ts name :
  name ∈ tensors_with_role role ts <-> exists t, (name, t) ∈ ts /\ Role t = role.
Proof.
  unfold tensors_with_role. rewrite ->list_elem_of_In, in_map_iff. split.
  - intros ([n t] & <- & [Hin E]%filter_In). simpl in *. bool_hyps. exists t.
    by rw list_elem_of_In.
  - intros (t & Hin%list_elem_of_In & E). exists (name, t). split; [done|].
    apply filter_In. split; [done|]. by rw /= E String.eqb_refl.
Qed.

(** Optimizer metadata is accepted only when every parameter it names is
    a model parameter of the manifest and every slot refers to an optimizer
    tensor of the manifest: nothing in a committed optimizer state dangles. *)
Theorem optimizer_references_resolve json data m st :
  DecodeOptimizerState json data m = Ok st ->
  (forall g n, g ∈ ParameterGroups st -> n ∈ g_Parameters g ->
     exists t, (n, t) ∈ Tensors m /\ Role t = "model_parameter") /\
  (forall n p, (n, p) ∈ Parameters st ->
     (exists t, (n, t) ∈ Tensors m /\ Role t = "model_parameter") /\
     forall slot tensor, (slot, tensor) ∈ p_Tensors p ->
       exists t, (tensor, t) ∈ Tensors m /\ Role t = "optimizer_tensor").
Proof.
  unfold DecodeOptimizerState. case_match; [done|]. destruct (json data) as [st'|]; [|done].
  case_match; [done|].
  destruct (check_groups _ _) as [[]|] eqn:Eg; [|done].
  destruct (check_parameters _ _ _) as [[]|] eqn:Ep; [|done]. intros [= ->].
  apply check_groups_sound in Eg. apply check_parameters_sound in Ep.
  rewrite ->Forall_forall in Eg. rewrite ->Forall_forall in Ep.
  setoid_rewrite <-elem_of_tensors_with_role. split.
  - intros g n Hg Hn. destruct (Eg _ Hg) as [_ Hall]. rewrite ->Forall_forall in Hall. auto.
  - intros n p Hp. destruct (Ep _ Hp) as [? Hall]. rewrite ->Forall_forall in Hall. simpl in *.
    split; [done|]. intros slot tensor Hs. apply (Hall _ Hs).
Qed.

Lemma optimizer_references_resolve_witness :
  exists t, ("w"%string, t) ∈ Tensors sample /\ Role t = "model_parameter".
Proof.
  eapply (proj1 (optimizer_references_resolve
    (fun _ => Some (MkOptimizerState 1 [MkGroup ["w"%string] (Some [])] [])) [1] sample
    (MkOptimizerState 1 [MkGroup ["w"%string] (Some [])] []) eq_refl)
    (MkGroup ["w"%string] (Some []))); simpl; left.
Defined.

(** *** Divergences *)

(** A manifest whose world has two ranks is accepted although both of its
    RNG artifacts are keyed by spellings of rank 0, so that rank 1 has none. *)
Theorem rng_ranks_not_covered :
  let m := sample_with "a" "00" in
  Validate m = Ok tt /\ Size (m_World m) = 2 /\
  Forall (fun e => parse_int64 (fst e) = Some 0) (RNG (m_State m)).
Proof. split; [vm_compute; reflexivity|]. split; [reflexivity|]. repeat constructor. Qed.

(** A chunk may be called [optimizer_metadata]; the object served under
    that identifier is then the chunk and never the optimizer metadata. *)
Theorem reserved_id_shadows :
  let m := sample_with "optimizer_metadata" "1" in
  Validate m = Ok tt /\
  exists o, Object_of m "optimizer_metadata" = Ok o
            /\ Path o <> StoragePath (OptimizerMetadata (m_State m)).
Proof.
  split; [vm_compute; reflexivity|]. eexists. split; [vm_compute; reflexivity|]. done.
Qed.

(** The storage path [..] is accepted, although every path that leaves
    the step's prefix is meant to be rejected; [../x] is. *)
Theorem dotdot_path_accepted :
  ValidStoragePath ".." = true /\ ValidStoragePath "../x" = false.
Proof. split; vm_compute; reflexivity. Qed.

End Manifest.
