(* ===== verification/ObjectStore.v ===== *)
(** * ObjectStore: the interface to the S3 service

    The MinIO client is outside the repository.  What the code asks of it is
    the type [req]; a program that talks to it is a [prog]; [ObjectService]
    states what the code relies on (reads return stored bytes, a conditional
    put creates an object atomically and never replaces one) and allows every
    call to fail.  [exec] runs a program against a service while other clients
    of the bucket add objects between any two calls. *)

From S2P Require Import Prelude GoStrings.

(** The objects of a bucket. *)
Abbreviation bucket := (gmap string (list Z)).

(** [minio.ErrorResponse]: the two fields the code reads. *)
Record merr := MkErr { Code : string; StatusCode : Z }.

(** An [io.Reader]: the bytes it delivers and whether it then fails. *)
Record reader := Reader { rd_data : list Z; rd_fails : bool }.

Inductive req :=
| StatObject (key : string)
| PutObject (key : string) (body : reader) (size : Z)   (* If-None-Match: * *)
| GetObject (key : string) (range : option (Z * Z))
| ListObjects (prefix : string).

(** A successful stat gives size and ETag, a successful put the ETag, a failed
    put also tells how many bytes of the body the client had consumed. *)
Definition resp (r : req) : Type :=
  match r with
  | StatObject _ => result merr (Z * string)
  | PutObject _ _ _ => result (merr * Z) string
  | GetObject _ _ => result merr (list Z)
  | ListObjects _ => list (result merr string)
  end.

Definition sub (data : list Z) (start stop : Z) : list Z :=
  take (Z.to_nat (stop - start + 1)) (drop (Z.to_nat start) data).

Class ObjectService := {
  serve : bucket -> forall r : req, resp r -> bucket -> Prop;
  (** reads do not change the bucket *)
  serve_stat b k s b' : serve b (StatObject k) s b' -> b' = b;
  serve_get b k rg s b' : serve b (GetObject k rg) s b' -> b' = b;
  serve_list b p s b' : serve b (ListObjects p) s b' -> b' = b;
  (** a size is an [int64] and is the object's length *)
  stat_size b k n etag b' : serve b (StatObject k) (Ok (n, etag)) b' ->
    exists data, b !! k = Some data /\ n = Z.of_nat (length data) /\ n <= int64_max;
  (** a whole read returns the object, a range read its range *)
  get_whole b k d b' : serve b (GetObject k None) (Ok d) b' -> b !! k = Some d;
  get_range b k start stop d b' : serve b (GetObject k (Some (start, stop))) (Ok d) b' ->
    0 <= start <= stop -> exists data, b !! k = Some data /\ d = sub data start stop;
  (** a conditional put adds at most the object, and only if the key is free *)
  put_effect b k body size s b' : serve b (PutObject k body size) s b' ->
    b' = b \/ (b !! k = None /\ Z.of_nat (length (rd_data body)) >= size /\
               b' = <[k := take (Z.to_nat size) (rd_data body)]> b);
  put_ok b k body size etag b' : serve b (PutObject k body size) (Ok etag) b' ->
    b !! k = None /\ 0 <= size <= Z.of_nat (length (rd_data body)) /\
    b' = <[k := take (Z.to_nat size) (rd_data body)]> b }.

(** ** Programs *)

Inductive prog (A : Type) : Type :=
| Ret (a : A)
| Call (r : req) (k : resp r -> prog A).
Arguments Ret {A} a.
Arguments Call {A} r k.

Fixpoint bind {A B} (p : prog A) (f : A -> prog B) : prog B :=
  match p with
  | Ret a => f a
  | Call r k => Call r (fun s => bind (k s) f)
  end.

Notation "x <- p ;; k" := (bind p (fun x => k)) (at level 100, p at next level, right associativity) : go_scope.

Definition call (r : req) : prog (resp r) := Call r (fun s => Ret s).

Section Exec.
Context `{ObjectService}.

(** [exec p b b' a]: a run of [p] that starts in the bucket [b] can return [a]
    and leave [b']; before every call (and after the last) other clients may
    have added objects. *)
Fixpoint exec {A} (p : prog A) (b b' : bucket) (a : A) : Prop :=
  match p with
  | Ret x => b ⊆ b' /\ a = x
  | Call r k => exists b1 s b2, b ⊆ b1 /\ serve b1 r s b2 /\ exec (k s) b2 b' a
  end.

(** [issues p b key b1]: some run of [p] from [b] puts the key while the
    bucket is [b1]. *)
Fixpoint issues {A} (p : prog A) (b : bucket) (key : string) (b1 : bucket) : Prop :=
  match p with
  | Ret _ => False
  | Call r k =>
      exists b0, b ⊆ b0 /\
        ((exists body size, r = PutObject key body size /\ b1 = b0)
         \/ exists s b2, serve b0 r s b2 /\ issues (k s) b2 key b1)
  end.

Lemma serve_grows b r s b' : serve b r s b' -> b ⊆ b'.
Proof.
  destruct r.
  - by intros ->%serve_stat.
  - intros [->|(Hk & _ & ->)]%put_effect; [done|]. by apply insert_subseteq.
  - by intros ->%serve_get.
  - by intros ->%serve_list.
Qed.

Lemma exec_grows {A} (p : prog A) b b' a : exec p b b' a -> b ⊆ b'.
Proof.
  revert b. induction p as [x|r k IH]; intros b; simpl; [by intros [? _]|].
  intros (b1 & s & b2 & ? & Hs & He). etrans; [done|]. etrans; [by eapply serve_grows|by eapply IH].
Qed.

Lemma exec_bind {A B} (p : prog A) (f : A -> prog B) b b' x :
  exec (bind p f) b b' x <-> exists b1 a, exec p b b1 a /\ exec (f a) b1 b' x.
Proof.
  revert b. induction p as [y|r k IH]; intros b; simpl.
  - split; [intros H'; exists b, y; done|]. intros (b1 & a & [? ->] & He).
    revert He. generalize (f y) as q. intros q. destruct q as [z|r k]; simpl.
    + intros [? ->]. split; [by etrans|done].
    + intros (b2 & s & b3 & ? & ? & ?). exists b2, s, b3. split; [by etrans|done].
  - split.
    + intros (b1 & s & b2 & ? & ? & (b3 & a & ? & ?)%IH). exists b3, a. split; [|done].
      by exists b1, s, b2.
    + intros (b3 & a & (b1 & s & b2 & ? & ? & ?) & ?). exists b1, s, b2. split_and!; [done..|].
      apply IH. eauto.
Qed.

Lemma issues_bind {A B} (p : prog A) (f : A -> prog B) b key b1 :
  issues (bind p f) b key b1 ->
  issues p b key b1 \/ exists b2 a, exec p b b2 a /\ issues (f a) b2 key b1.
Proof.
  revert b. induction p as [y|r k IH]; intros b; simpl.
  - intros H'. right. by exists b, y.
  - intros (b0 & Hb & [Hn|(s & b2 & Hs & Hi)]).
    + left. exists b0. auto.
    + apply IH in Hi as [Hi|(b3 & a & He & Hi)].
      * left. exists b0. split; [done|]. right. by exists s, b2.
      * right. exists b3, a. split; [|done]. by exists b0, s, b2.
Qed.

Lemma exec_call b b' (r : req) s :
  exec (call r) b b' s -> exists b1 b2, b ⊆ b1 /\ serve b1 r s b2 /\ b2 ⊆ b'.
Proof. simpl. intros (b1 & s' & b2 & ? & ? & ? & ->). eauto. Qed.

Lemma issues_call b (r : req) key b1 :
  issues (call r) b key b1 -> exists body size, r = PutObject key body size /\ b ⊆ b1.
Proof.
  simpl. intros (b0 & ? & [(body & size & -> & ->)|(s & b2 & _ & [])]). eauto.
Qed.

End Exec.

(** ** An instance

    A service without failures shows that the class can be instantiated; the
    witnesses run against it. *)

Definition not_found : merr := MkErr "NoSuchKey" 404.
Definition precondition_failed : merr := MkErr "PreconditionFailed" 412.

(** Keys in the order the listing returns them. *)
Definition keys_with (prefix : string) (b : bucket) : list string :=
  List.filter (has_prefix prefix) (map fst (map_to_list b)).

(** Its answer and the next bucket. *)
Definition answer (b : bucket) (r : req) : resp r * bucket :=
  match r return resp r * bucket with
  | StatObject k =>
      (match b !! k with
       | Some d => if int64_max <? Z.of_nat (length d) then Err not_found
                   else Ok (Z.of_nat (length d), ""%string)
       | None => Err not_found end, b)
  | PutObject k body size =>
      match b !! k with
      | Some _ => (Err (precondition_failed, 0), b)
      | None =>
          if (0 <=? size) && (size <=? Z.of_nat (length (rd_data body)))
          then (Ok ""%string, <[k := take (Z.to_nat size) (rd_data body)]> b)
          else (Err (MkErr "IncompleteBody" 400, Z.of_nat (length (rd_data body))), b)
      end
  | GetObject k None => (match b !! k with Some d => Ok d | None => Err not_found end, b)
  | GetObject k (Some (start, stop)) =>
      (match b !! k with
       | Some d => if (0 <=? start) && (start <=? stop) then Ok (sub d start stop)
                   else Err (MkErr "InvalidRange" 416)
       | None => Err not_found end, b)
  | ListObjects prefix => (map Ok (keys_with prefix b), b)
  end.

#[refine, export] Instance reliable_service : ObjectService := {
  serve b r s b' := answer b r = (s, b') }.
Proof.
  all: simpl; intros; repeat case_match; simplify_eq; bool_hyps; eauto 10 with lia.
Defined.

(** Running a program alone against that service. *)
Fixpoint run {A} (p : prog A) (b : bucket) : bucket * A :=
  match p with
  | Ret a => (b, a)
  | Call r k => let '(s, b') := answer b r in run (k s) b'
  end.

Lemma run_exec {A} (p : prog A) b : exec p b (fst (run p b)) (snd (run p b)).
Proof.
  revert b. induction p as [a|r k IH]; intros b; simpl; [done|].
  destruct (answer b r) as [s b'] eqn:E. exists b, s, b'. split_and!; [done|done|apply IH].
Qed.

(** The keys a run puts, each with the bucket at that moment. *)
Fixpoint run_puts {A} (p : prog A) (b : bucket) : list (string * bucket) :=
  match p with
  | Ret _ => []
  | Call r k =>
      let '(s, b') := answer b r in
      match r with
      | PutObject key _ _ => (key, b) :: run_puts (k s) b'
      | _ => run_puts (k s) b'
      end
  end.

Lemma run_puts_issues {A} (p : prog A) b key b1 :
  (key, b1) ∈ run_puts p b -> issues p b key b1.
Proof.
  revert b. induction p as [a|r k IH]; intros b; cbn [run_puts]; [by intros ?%not_elem_of_nil|].
  destruct (answer b r) as [s b'] eqn:E. intros Hin. exists b. split; [done|].
  assert (issues (k s) b' key b1 ->
    (exists body size, r = PutObject key body size /\ b1 = b)
    \/ exists s0 b2, serve b r s0 b2 /\ issues (k s0) b2 key b1) as Hnext.
  { intros Hi. right. by exists s, b'. }
  destruct r as [|key' body size| |]; auto.
  apply elem_of_cons in Hin as [[= -> ->]|]; [left; eauto|auto].
Qed.
