(* ===== verification/Store.v ===== *)
(** * Store: the checkpoint store
    ([src/checkpoint-flusher/store.go])

    Every method of [objectStore] is a program over the S3 interface of
    [ObjectStore]; SHA-256 and the JSON codecs are parameters.  The theorems
    hold for every service that satisfies [ObjectService], with calls failing
    at any point and other clients adding objects in between. *)

From S2P Require Import Prelude GoStrings GoTime Manifest ObjectStore.

Module Store.
Import Manifest.

Record Receipt := MkReceipt {
  rc_StoragePath : string; rc_ByteLength : Z; rc_SHA256 : string; ETag : string }.

Record CommitMarker := MkMarker {
  mk_CheckpointVersion : Z; mk_GlobalStep : Z; ManifestSHA256 : string;
  CommittedAt : string; SlurmJobID : Z }.

Record latestResult := MkLatest { Marker : CommitMarker; l_Manifest : Manifest }.

Inductive store_error :=
| StatFailed (e : merr) | UploadFailed (e : merr) | RetryBodyShort | DifferentLength
| DifferentBytes | GetFailed (e : merr) | ShortObject | EmptyRange | RangeExceedsLength
| HashMismatch | ArtifactTooLarge | LengthMismatch | ExceedsLimit | Conflicts
| PutFailed (e : merr) | MarkerConflicts | BadManifest (e : manifest_error)
| ListFailed (e : merr) | ListingTooLong | NoCheckpoint | BadMarker | BadTimestamp
| ManifestHashMismatch | RouteMismatch.

(** [strings.Trim] of the double quotes around an ETag. *)
Fixpoint trim_left_quote (s : string) : string :=
  match s with
  | String c s' => if bool_decide (c = chr 34) then trim_left_quote s' else s
  | "" => ""
  end%string.
Definition trim_quotes (s : string) : string :=
  String.rev (trim_left_quote (String.rev (trim_left_quote s))).

Definition notFound (e : merr) : bool :=
  (Code e =? "NoSuchKey")%string || (Code e =? "NoSuchObject")%string || (StatusCode e =? 404).

Definition preconditionFailed (e : merr) : bool :=
  (Code e =? "PreconditionFailed")%string || (StatusCode e =? 412).

(** The common part of the keys: [checkpoints/<run>/step_<%08d>]. *)
Definition stepKey (run : string) (step : Z) : string :=
  "checkpoints/" +:+ run +:+ "/step_" +:+ pad_uint 8 step.

Definition objectKey (run : string) (step : Z) (storagePath : string) : string :=
  stepKey run step +:+ "/" +:+ storagePath.

Definition markerKey (run : string) (step : Z) : string := stepKey run step +:+ ".complete".

Definition manifestKey (run : string) (step : Z) : string := objectKey run step "manifest.json".

(** [io.CopyN(w, r, n)]: exactly [n] bytes or an error. *)
Definition copy_n (n : Z) (data : list Z) : option (list Z) :=
  if Z.of_nat (length data) <? n then None else Some (take (Z.to_nat n) data).

(** [let!] inside a program: stop at the first error. *)
Definition try {A B} (p : prog (result store_error A)) (f : A -> prog (result store_error B))
    : prog (result store_error B) :=
  x <- p;; match x with Ok a => f a | Err e => Ret (Err e) end.

Notation "'let?' x ':=' p 'in' k" := (try p (fun x => k))
  (at level 10, x pattern, p at level 100, k at level 200) : go_scope.

Notation "'fail_if' b 'with' err 'in' k" := (if b then Ret (Err err) else k)
  (at level 10, b at level 100, err at level 100, k at level 200) : go_scope.

Section Store.
Variable sha256 : list Z -> string.
Variable json_manifest : list Z -> option Manifest.
Variable json_optimizer : list Z -> option OptimizerState.
Variable marker_json : CommitMarker -> list Z.
Variable json_marker : list Z -> option CommitMarker.

Definition hashRange (key : string) (offset length_ : Z) : prog (result store_error string) :=
  fail_if length_ =? 0 with EmptyRange in
  let range := (wrap64 offset, wrap64 (wrapu64 (offset + length_ - 1))) in
  got <- call (GetObject key (Some range));;
  match got with
  | Err e => Ret (Err (GetFailed e))
  | Ok data =>
      match copy_n (wrap64 length_) data with
      | None => Ret (Err ShortObject)
      | Some bytes =>
          fail_if negb (Z.of_nat (length bytes) =? length_) with ShortObject in
          Ret (Ok (sha256 bytes))
      end
  end.

Definition readBounded (key : string) (limit : Z) : prog (result store_error (list Z)) :=
  got <- call (GetObject key None);;
  match got with
  | Err e => Ret (Err (GetFailed e))
  | Ok data =>
      fail_if limit <? Z.of_nat (length data) with ExceedsLimit in
      Ret (Ok data)
  end.

Definition compareExistingHash (key : string) (info : Z * string) (storagePath : string)
    (size : Z) (wantedHash : string) : prog (result store_error Receipt) :=
  fail_if negb (fst info =? wrap64 size) with DifferentLength in
  let? actual := hashRange key 0 size in
  fail_if negb (actual =? wantedHash)%string with DifferentBytes in
  Ret (Ok (MkReceipt storagePath size wantedHash (trim_quotes (snd info)))).

Definition compareExisting (key : string) (info : Z * string) (storagePath : string)
    (source : reader) (size : Z) : prog (result store_error Receipt) :=
  fail_if rd_fails source || negb (Z.of_nat (length (rd_data source)) =? size)
    with RetryBodyShort in
  compareExistingHash key info storagePath size (sha256 (rd_data source)).

Definition upload (run : string) (step : Z) (storagePath : string) (source : reader) (size : Z)
    : prog (result store_error Receipt) :=
  let key := objectKey run step storagePath in
  stat <- call (StatObject key);;
  match stat with
  | Ok existing => compareExisting key existing storagePath source size
  | Err e =>
      fail_if negb (notFound e) with StatFailed e in
      put <- call (PutObject key source (wrap64 size));;
      match put with
      | Ok etag =>
          (* the tee has hashed the bytes the put consumed *)
          Ret (Ok (MkReceipt storagePath size
                     (sha256 (take (Z.to_nat (wrap64 size)) (rd_data source))) (trim_quotes etag)))
      | Err (e, consumed) =>
          if preconditionFailed e then
            again <- call (StatObject key);;
            match again with
            | Ok existing =>
                compareExistingHash key existing storagePath size
                  (sha256 (take (Z.to_nat consumed) (rd_data source)))
            | Err _ => Ret (Err (UploadFailed e))
            end
          else Ret (Err (UploadFailed e))
      end
  end.

Definition verifyObject (run : string) (step : Z) (o : Object) : prog (result store_error unit) :=
  let key := objectKey run step (Path o) in
  stat <- call (StatObject key);;
  match stat with
  | Err e => Ret (Err (StatFailed e))
  | Ok (size, _) =>
      fail_if (size <? Offset o) || (size - Offset o <? Length o) with RangeExceedsLength in
      let? digest := hashRange key (Offset o) (Length o) in
      fail_if negb (digest =? o_SHA256 o)%string with HashMismatch in
      Ret (Ok tt)
  end.

Fixpoint verifyObjects (run : string) (step : Z) (objects : list Object)
    : prog (result store_error unit) :=
  match objects with
  | [] => Ret (Ok tt)
  | o :: objects' => let? _ := verifyObject run step o in verifyObjects run step objects'
  end.

Definition readArtifact (run : string) (step : Z) (a : Artifact) : prog (result store_error (list Z)) :=
  fail_if MaxOptimizerMetadataBytes <? ByteLength a with ArtifactTooLarge in
  let? data := readBounded (objectKey run step (StoragePath a)) (ByteLength a) in
  fail_if negb (Z.of_nat (length data) =? ByteLength a) with LengthMismatch in
  Ret (Ok data).

Definition bytes_equal (a b : list Z) : bool := bool_decide (a = b).

Definition putImmutable (key : string) (data : list Z) : prog (result store_error unit) :=
  stat <- call (StatObject key);;
  match stat with
  | Ok _ =>
      existing <- readBounded key (Z.of_nat (length data));;
      match existing with
      | Ok old => if bytes_equal old data then Ret (Ok tt) else Ret (Err Conflicts)
      | Err _ => Ret (Err Conflicts)
      end
  | Err e =>
      fail_if negb (notFound e) with StatFailed e in
      put <- call (PutObject key (Reader data false) (Z.of_nat (length data)));;
      match put with
      | Ok _ => Ret (Ok tt)
      | Err (e, _) =>
          if preconditionFailed e then
            existing <- readBounded key (Z.of_nat (length data));;
            match existing with
            | Ok old => if bytes_equal old data then Ret (Ok tt) else Ret (Err (PutFailed e))
            | Err _ => Ret (Err (PutFailed e))
            end
          else Ret (Err (PutFailed e))
      end
  end.

Definition same_commit (old new : CommitMarker) : bool :=
  (mk_CheckpointVersion old =? mk_CheckpointVersion new)
  && (mk_GlobalStep old =? mk_GlobalStep new)
  && (ManifestSHA256 old =? ManifestSHA256 new)%string.

Definition putImmutableMarker (key : string) (data : list Z) (marker : CommitMarker)
    : prog (result store_error unit) :=
  put <- putImmutable key data;;
  match put with
  | Ok _ => Ret (Ok tt)
  | Err err =>
      existing <- readBounded key 65536;;
      match existing with
      | Err _ => Ret (Err err)
      | Ok old_bytes =>
          match json_marker old_bytes with
          | Some old => if same_commit old marker then Ret (Ok tt) else Ret (Err MarkerConflicts)
          | None => Ret (Err MarkerConflicts)
          end
      end
  end.

(** [now] is [time.Now().UTC().Format(time.RFC3339Nano)]. *)
Definition commit (now : string) (manifestBytes : list Z) (manifest : Manifest) (jobID : Z)
    : prog (result store_error CommitMarker) :=
  let run := RunID manifest in
  let step := GlobalStep manifest in
  let? optimizer := readArtifact run step (OptimizerMetadata (m_State manifest)) in
  match DecodeOptimizerState json_optimizer optimizer manifest with
  | Err e => Ret (Err (BadManifest e))
  | Ok _ =>
      let? _ := verifyObjects run step (Objects manifest) in
      let? _ := putImmutable (manifestKey run step) manifestBytes in
      let marker := MkMarker Version step (sha256 manifestBytes) now jobID in
      let? _ := putImmutableMarker (markerKey run step) (marker_json marker) marker in
      Ret (Ok marker)
  end.

Definition loadCommitted (run : string) (step : Z) : prog (result store_error latestResult) :=
  let? markerBytes := readBounded (markerKey run step) 65536 in
  match json_marker markerBytes with
  | None => Ret (Err BadMarker)
  | Some marker =>
      fail_if negb (mk_CheckpointVersion marker =? Version)
              || negb (mk_GlobalStep marker =? step)
              || negb (slen (ManifestSHA256 marker) =? 64) with BadMarker in
      fail_if negb (GoTime.valid_rfc3339 (CommittedAt marker)) with BadTimestamp in
      let? manifestBytes := readBounded (manifestKey run step) MaxManifestBytes in
      fail_if negb (sha256 manifestBytes =? ManifestSHA256 marker)%string
        with ManifestHashMismatch in
      match DecodeManifest json_manifest manifestBytes with
      | Err _ => Ret (Err RouteMismatch)
      | Ok manifest =>
          fail_if negb (RunID manifest =? run)%string || negb (GlobalStep manifest =? step)
            with RouteMismatch in
          Ret (Ok (MkLatest marker manifest))
      end
  end.

(** The step a listed key commits, when it is a marker before [before]. *)
Definition marker_step (run : string) (before : option Z) (key : string) : option Z :=
  name ← cut_prefix ("checkpoints/" +:+ run +:+ "/" +:+ "step_") key;
  name ← cut_suffix ".complete" name;
  step ← parse_uint64 name;
  match before with
  | Some limit => if limit <=? step then None else Some step
  | None => Some step
  end.

(** The loop over the listing. *)
Fixpoint list_steps (run : string) (before : option Z) (items : list (result merr string))
    (steps : list Z) : result store_error (list Z) :=
  match items with
  | [] => Ok steps
  | Err e :: _ => Err (ListFailed e)
  | Ok key :: items' =>
      match marker_step run before key with
      | None => list_steps run before items' steps
      | Some step =>
          reject_if 10000 <? Z.of_nat (length (steps ++ [step])) with ListingTooLong in
          list_steps run before items' (steps ++ [step])
      end
  end.

(** [slices.Sort] then [slices.Reverse]. *)
Definition newest_first (steps : list Z) : list Z := rev (merge_sort Z.le steps).

(** The loop over the candidates, newest first. *)
Fixpoint first_valid (run : string) (want : Compatibility) (steps : list Z)
    : prog (result store_error latestResult) :=
  match steps with
  | [] => Ret (Err NoCheckpoint)
  | step :: steps' =>
      loaded <- loadCommitted run step;;
      match loaded with
      | Err _ => first_valid run want steps'
      | Ok res =>
          if negb (is_ok (Compatible (l_Manifest res) want)) then first_valid run want steps' else
          checked <- verifyObjects run step (Objects (l_Manifest res));;
          match checked with
          | Ok _ => Ret (Ok res)
          | Err _ => first_valid run want steps'
          end
      end
  end.

Definition latest (run : string) (want : Compatibility) (before : option Z)
    : prog (result store_error latestResult) :=
  items <- call (ListObjects ("checkpoints/" +:+ run +:+ "/"));;
  match list_steps run before items [] with
  | Err e => Ret (Err e)
  | Ok steps => first_valid run want (newest_first steps)
  end.

(** [restore]: the receipt, and the bytes written to the target ring, which
    receives them before the hash is checked; a write after the first
    [accepts] bytes fails. *)
Definition restore (run : string) (step : Z) (o : Object) (accepts : Z)
    : prog (result store_error Receipt * list Z) :=
  let key := objectKey run step (Path o) in
  let range := (wrap64 (Offset o), wrap64 (wrapu64 (Offset o + Length o - 1))) in
  got <- call (GetObject key (Some range));;
  match got with
  | Err e => Ret (Err (GetFailed e), [])
  | Ok data =>
      match copy_n (wrap64 (Length o)) data with
      | None => Ret (Err ShortObject, take (Z.to_nat accepts) data)
      | Some bytes =>
          if (accepts <? Z.of_nat (length bytes))
             || negb (Z.of_nat (length bytes) =? wrap64 (Length o))
          then Ret (Err ShortObject, take (Z.to_nat accepts) bytes)
          else if negb (sha256 bytes =? o_SHA256 o)%string then Ret (Err HashMismatch, bytes)
          else Ret (Ok (MkReceipt (Path o) (Length o) (sha256 bytes) ""), bytes)
      end
  end.

(** ** Specifications *)

Context `{ObjectService}.

(** The bytes the object describes are stored with the hash it states. *)
Definition verified (b : bucket) (run : string) (step : Z) (o : Object) : Prop :=
  exists data, b !! objectKey run step (Path o) = Some data
    /\ 0 < Length o /\ Offset o + Length o <= Z.of_nat (length data)
    /\ sha256 (sub data (Offset o) (Offset o + Length o - 1)) = o_SHA256 o.

(** Offsets and lengths are [uint64]. *)
Definition object_typed (o : Object) : Prop := 0 <= Offset o /\ 0 <= Length o.

Lemma verified_mono b b' run step o : b ⊆ b' -> verified b run step o -> verified b' run step o.
Proof.
  intros Hb (data & Hd & ?). exists data. split; [|done]. by eapply lookup_weaken.
Qed.

Lemma length_sub data start stop :
  0 <= start <= stop ->
  Z.of_nat (length (sub data start stop)) =
  Z.max 0 (Z.min (stop - start + 1) (Z.of_nat (length data) - start)).
Proof. intros Hs. unfold sub. rw length_take length_drop. lia. Qed.

Lemma hashRange_sound key offset len b b' h :
  0 <= offset -> 0 <= len -> offset + len <= int64_max ->
  exec (hashRange key offset len) b b' (Ok h) ->
  exists data, b' !! key = Some data /\ 0 < len /\ offset + len <= Z.of_nat (length data)
    /\ h = sha256 (sub data offset (offset + len - 1)).
Proof.
  intros Ho Hl Hm. unfold hashRange. destruct (len =? 0) eqn:E0; [by intros [? [=]]|]. bool_hyps.
  rewrite ->exec_bind. intros (b1 & r & (b2 & b3 & Hb2 & Hs & Hb3)%exec_call & He).
  destruct r as [d|]; [|by destruct He as [_ [=]]].
  rewrite ->(wrapu64_id (offset + len - 1)), !wrap64_id in * by (pow2; lia).
  unfold copy_n in He. destruct (Z.of_nat (length d) <? len) eqn:El; [by destruct He as [_ [=]]|].
  destruct (negb _) eqn:En; [by destruct He as [_ [=]]|]. destruct He as [Hb1 [= ->]].
  pose proof (serve_get _ _ _ _ _ Hs) as ->.
  apply get_range in Hs as (data & Hd & ->); [|lia]. bool_hyps.
  rewrite ->length_sub in El by lia. exists data. split_and!; [|lia..|].
  - eapply lookup_weaken; [done|]. by etrans.
  - f_equal. rewrite ->take_ge; [done|]. apply Nat2Z.inj_le. rewrite ->length_sub by lia. lia.
Qed.

Lemma readBounded_sound key limit b b' d :
  exec (readBounded key limit) b b' (Ok d) ->
  b' !! key = Some d /\ Z.of_nat (length d) <= limit.
Proof.
  unfold readBounded. rewrite ->exec_bind.
  intros (b1 & r & (b2 & b3 & Hb2 & Hs & Hb3)%exec_call & He).
  destruct r as [d'|]; [|by destruct He as [_ [=]]].
  destruct (limit <? _) eqn:El; [by destruct He as [_ [=]]|]. destruct He as [Hb1 [= ->]].
  pose proof (serve_get _ _ _ _ _ Hs) as ->. apply get_whole in Hs. bool_hyps.
  split; [|lia]. eapply lookup_weaken; [done|]. by etrans.
Qed.

Lemma exec_try {A B} (p : prog (result store_error A)) (f : A -> prog (result store_error B)) b b' x :
  exec (try p f) b b' (Ok x) <-> exists b1 a, exec p b b1 (Ok a) /\ exec (f a) b1 b' (Ok x).
Proof.
  unfold try. rewrite ->exec_bind. split.
  - intros (b1 & [a|e] & ? & He); [eauto|]. by destruct He as [_ [=]].
  - intros (b1 & a & ? & ?). by exists b1, (Ok a).
Qed.

Lemma verifyObject_sound run step o b b' :
  object_typed o -> exec (verifyObject run step o) b b' (Ok tt) -> verified b' run step o.
Proof.
  intros [Ho Hl]. unfold verifyObject. rewrite ->exec_bind.
  intros (b1 & r & (b2 & b3 & Hb2 & Hs & Hb3)%exec_call & He).
  destruct r as [[size etag]|]; [|by destruct He as [_ [=]]].
  apply stat_size in Hs as (d0 & Hd0 & -> & Hmax).
  destruct (_ || _) eqn:Er; [by destruct He as [_ [=]]|]. bool_hyps.
  apply exec_try in He as (b4 & h & Hh & He).
  apply hashRange_sound in Hh as (data & Hd & ? & ? & ->); [|lia..].
  destruct (negb _) eqn:En; [by destruct He as [_ [=]]|]. destruct He as [Hb4 _].
  bool_hyps. eapply verified_mono; [done|]. by exists data.
Qed.

Lemma verifyObjects_sound run step objects b b' :
  Forall object_typed objects -> exec (verifyObjects run step objects) b b' (Ok tt) ->
  Forall (verified b' run step) objects.
Proof.
  revert b. induction objects as [|o objects IH]; intros b Ht He; cbn [verifyObjects] in He.
  { constructor. }
  apply Forall_cons in Ht as [? ?]. apply exec_try in He as (b1 & [] & Ho & He).
  constructor; [|by eapply IH]. eapply verified_mono; [by eapply exec_grows|].
  by eapply verifyObject_sound.
Qed.

Lemma putImmutable_sound key data b b' :
  exec (putImmutable key data) b b' (Ok tt) -> b' !! key = Some data.
Proof.
  unfold putImmutable. rewrite ->exec_bind.
  intros (b1 & r & _ & He). destruct r as [info|e].
  { apply exec_bind in He as (b2 & [old|] & Hr & He); [|by destruct He as [_ [=]]].
    apply readBounded_sound in Hr as [Hr _]. unfold bytes_equal in He.
    case_bool_decide; [|by destruct He as [_ [=]]]. destruct He as [Hb _]. subst.
    by eapply lookup_weaken. }
  destruct (negb _); [by destruct He as [_ [=]]|].
  apply exec_bind in He as (b2 & put & (b3 & b4 & Hb3 & Hs & Hb4)%exec_call & He).
  destruct put as [etag|[e' consumed]].
  { apply put_ok in Hs as (_ & _ & ->). destruct He as [Hb _]. simpl in *.
    eapply lookup_weaken; [|exact Hb]. eapply lookup_weaken; [|exact Hb4].
    rewrite ->lookup_insert_eq. f_equal. apply take_ge. lia. }
  destruct (preconditionFailed e'); [|by destruct He as [_ [=]]].
  apply exec_bind in He as (b5 & [old|] & Hr & He); [|by destruct He as [_ [=]]].
  apply readBounded_sound in Hr as [Hr _]. unfold bytes_equal in He.
  case_bool_decide; [|by destruct He as [_ [=]]]. destruct He as [Hb _]. subst.
  by eapply lookup_weaken.
Qed.

(** ** Which keys the programs put *)

(** A program that only reads puts nothing. *)
Fixpoint read_only {A} (p : prog A) : Prop :=
  match p with
  | Ret _ => True
  | Call (PutObject _ _ _) _ => False
  | Call _ k => forall s, read_only (k s)
  end.

Lemma read_only_issues {A} (p : prog A) b key b1 : read_only p -> ~ issues p b key b1.
Proof.
  revert b. induction p as [a|r k IH]; intros b Hr Hi; [done|].
  destruct Hi as (b0 & _ & [(body & size & -> & _)|(s & b2 & _ & Hi)]); [done|].
  destruct r; try done; by eapply IH.
Qed.

Lemma read_only_bind {A B} (p : prog A) (f : A -> prog B) :
  read_only p -> (forall a, read_only (f a)) -> read_only (bind p f).
Proof.
  induction p as [a|r k IH]; simpl; intros Hp Hf; [done|]. destruct r; auto.
Qed.

Lemma read_only_try {A B} (p : prog (result store_error A)) (f : A -> prog (result store_error B)) :
  read_only p -> (forall a, read_only (f a)) -> read_only (try p f).
Proof. intros Hp Hf. apply read_only_bind; [done|]. by intros [a|e]. Qed.

Lemma read_only_hashRange key offset len : read_only (hashRange key offset len).
Proof. unfold hashRange. case_match; [done|]. intros [d|e]; [|done]. simpl. repeat case_match; done. Qed.

Lemma read_only_readBounded key limit : read_only (readBounded key limit).
Proof. intros [d|e]; simpl; [case_match|]; done. Qed.

Lemma read_only_verifyObject run step o : read_only (verifyObject run step o).
Proof.
  intros [[size etag]|e]; [|done]. simpl. case_match; [done|].
  apply read_only_try; [apply read_only_hashRange|]. intros h. case_match; done.
Qed.

Lemma read_only_verifyObjects run step objects : read_only (verifyObjects run step objects).
Proof.
  induction objects as [|o objects IH]; cbn [verifyObjects]; [done|].
  apply read_only_try; [apply read_only_verifyObject|done].
Qed.

Lemma read_only_readArtifact run step a : read_only (readArtifact run step a).
Proof.
  unfold readArtifact. case_match; [done|]. apply read_only_try; [apply read_only_readBounded|].
  intros d. case_match; done.
Qed.

Lemma issues_try {A B} (p : prog (result store_error A)) (f : A -> prog (result store_error B)) b key b1 :
  issues (try p f) b key b1 ->
  issues p b key b1 \/ exists b2 a, exec p b b2 (Ok a) /\ issues (f a) b2 key b1.
Proof.
  intros [Hi|(b2 & [a|e] & He & Hi)]%issues_bind; [by left| |done]. right. eauto.
Qed.

Lemma issues_grows {A} (p : prog A) b key b1 : issues p b key b1 -> b ⊆ b1.
Proof.
  revert b. induction p as [a|r k IH]; intros b; [done|].
  intros (b0 & Hb & [(body & size & -> & ->)|(s & b2 & Hs & Hi)]); [done|].
  etrans; [done|]. etrans; [by eapply serve_grows|]. by eapply IH.
Qed.

Lemma putImmutable_issues key data b k b1 : issues (putImmutable key data) b k b1 -> k = key.
Proof.
  unfold putImmutable. intros [Hi|(b2 & r & _ & Hi)]%issues_bind.
  { apply issues_call in Hi as (? & ? & [=] & _). }
  destruct r as [info|e].
  { exfalso. revert Hi. apply read_only_issues. apply read_only_bind; [apply read_only_readBounded|].
    intros [old|]; [|done]. case_match; done. }
  destruct (negb _); [done|]. apply issues_bind in Hi as [Hi|(b3 & put & _ & Hi)].
  { by apply issues_call in Hi as (? & ? & [=] & _). }
  exfalso. revert Hi. apply read_only_issues. destruct put as [|[e' c]]; [done|].
  case_match; [|done]. apply read_only_bind; [apply read_only_readBounded|].
  intros [old|]; [|done]. case_match; done.
Qed.

Lemma read_only_loadCommitted run_id step : read_only (loadCommitted run_id step).
Proof.
  unfold loadCommitted. apply read_only_try; [apply read_only_readBounded|]. intros mb.
  repeat (case_match; try done). apply read_only_try; [apply read_only_readBounded|].
  intros d. repeat case_match; done.
Qed.

Lemma manifest_not_marker run step : manifestKey run step <> markerKey run step.
Proof. unfold manifestKey, objectKey, markerKey. by intros E%sapp_inj_l. Qed.

(** A checkpoint that may carry a marker: everything it references is stored
    and verified, and the manifest itself is stored. *)
Record committable (b : bucket) (manifestBytes : list Z) (m : Manifest) : Prop := {
  cm_objects : Forall (verified b (RunID m) (GlobalStep m)) (Objects m);
  cm_manifest : b !! manifestKey (RunID m) (GlobalStep m) = Some manifestBytes;
  cm_optimizer : exists data st,
    b !! objectKey (RunID m) (GlobalStep m) (StoragePath (OptimizerMetadata (m_State m))) = Some data
    /\ DecodeOptimizerState json_optimizer data m = Ok st }.

Lemma committable_mono b b' mb m : b ⊆ b' -> committable b mb m -> committable b' mb m.
Proof.
  intros Hb [Ho Hm (d & st & Hd & ?)]. split.
  - eapply Forall_impl; [done|]. intros o. by apply verified_mono.
  - by eapply lookup_weaken.
  - exists d, st. split; [|done]. by eapply lookup_weaken.
Qed.

Lemma readArtifact_sound run step a b b' d :
  exec (readArtifact run step a) b b' (Ok d) -> b' !! objectKey run step (StoragePath a) = Some d.
Proof.
  unfold readArtifact. destruct (_ <? _); [by intros [_ [=]]|].
  intros (b1 & d' & [Hr _]%readBounded_sound & He)%exec_try.
  destruct (negb _); [by destruct He as [_ [=]]|]. destruct He as [Hb [= ->]].
  by eapply lookup_weaken.
Qed.

Lemma Objects_typed m :
  Forall (fun e => Forall (fun c => 0 <= ByteOffset c /\ 0 <= c_ByteLength c) (Chunks (snd e))) (Tensors m) ->
  0 <= ByteLength (OptimizerMetadata (m_State m)) ->
  Forall (fun e => 0 <= ByteLength (snd e)) (RNG (m_State m)) ->
  Forall object_typed (Objects m).
Proof.
  intros Ht Ho Hr. unfold Objects. rewrite ->!Forall_app. split_and!.
  - induction Ht as [|e ts He _ IH]; simpl; [constructor|]. apply Forall_app. split; [|done].
    induction He; simpl; constructor; done.
  - by constructor.
  - induction Hr; simpl; constructor; done.
Qed.

(** The three stages of [commit] that precede the marker make the checkpoint
    committable. *)
Lemma commit_stages m manifestBytes b b1 opt b2 b3 b4 st :
  Forall object_typed (Objects m) ->
  exec (readArtifact (RunID m) (GlobalStep m) (OptimizerMetadata (m_State m))) b b1 (Ok opt) ->
  DecodeOptimizerState json_optimizer opt m = Ok st ->
  exec (verifyObjects (RunID m) (GlobalStep m) (Objects m)) b1 b2 (Ok tt) ->
  exec (putImmutable (manifestKey (RunID m) (GlobalStep m)) manifestBytes) b2 b3 (Ok tt) ->
  b3 ⊆ b4 -> committable b4 manifestBytes m.
Proof.
  intros Ht Hr Hd Hv Hp Hb. eapply committable_mono; [exact Hb|].
  pose proof (exec_grows _ _ _ _ Hp) as H23. pose proof (exec_grows _ _ _ _ Hv) as H12. split.
  - eapply Forall_impl; [by eapply verifyObjects_sound|]. intros o. by apply verified_mono.
  - by eapply putImmutable_sound.
  - exists opt, st. split; [|done]. eapply lookup_weaken; [by eapply readArtifact_sound|by etrans].
Qed.

(** [commit] puts nothing but the manifest and the marker. *)
Lemma commit_issues_key now manifestBytes m job b key b1 :
  issues (commit now manifestBytes m job) b key b1 ->
  key = manifestKey (RunID m) (GlobalStep m) \/ key = markerKey (RunID m) (GlobalStep m).
Proof.
  unfold commit. intros [Hi|(b2 & opt & Hr & Hi)]%issues_try.
  { exfalso. revert Hi. apply read_only_issues, read_only_readArtifact. }
  destruct (DecodeOptimizerState _ _ _) as [st|] eqn:Ed; [|done].
  apply issues_try in Hi as [Hi|(b3 & [] & Hv & Hi)].
  { exfalso. revert Hi. apply read_only_issues, read_only_verifyObjects. }
  apply issues_try in Hi as [Hi|(b4 & [] & Hp & Hi)].
  { left. by apply putImmutable_issues in Hi. }
  apply issues_try in Hi as [Hi|(b5 & [] & Hm & [])]. right.
  unfold putImmutableMarker in Hi. apply issues_bind in Hi as [Hi|(b6 & [[]|e] & _ & Hi)]; [|done|].
  { by apply putImmutable_issues in Hi. }
  exfalso. revert Hi. apply read_only_issues, read_only_bind; [apply read_only_readBounded|].
  intros [old|]; [|done]. repeat case_match; done.
Qed.

(** C2: [commit] writes the marker of a step only when the bucket already
    holds the manifest, optimizer metadata that decodes against it, and every
    object the manifest lists with its stated hash; this under arbitrary
    failures of the service and concurrent writers. *)
Theorem marker_put_last now manifestBytes m job b b1 :
  Forall object_typed (Objects m) ->
  issues (commit now manifestBytes m job) b (markerKey (RunID m) (GlobalStep m)) b1 ->
  committable b1 manifestBytes m.
Proof.
  intros Ht. unfold commit. intros [Hi|(b2 & opt & Hr & Hi)]%issues_try.
  { exfalso. revert Hi. apply read_only_issues, read_only_readArtifact. }
  destruct (DecodeOptimizerState _ _ _) as [st|] eqn:Ed; [|done].
  apply issues_try in Hi as [Hi|(b3 & [] & Hv & Hi)].
  { exfalso. revert Hi. apply read_only_issues, read_only_verifyObjects. }
  apply issues_try in Hi as [Hi|(b4 & [] & Hp & Hi)].
  { apply putImmutable_issues in Hi. by apply symmetry, manifest_not_marker in Hi. }
  eapply commit_stages; [done..|]. by eapply issues_grows.
Qed.

Lemma putImmutableMarker_sound key data marker b b' :
  json_marker data = Some marker ->
  exec (putImmutableMarker key data marker) b b' (Ok tt) ->
  exists bytes old, b' !! key = Some bytes /\ json_marker bytes = Some old
    /\ same_commit old marker = true.
Proof.
  intros Hj. unfold putImmutableMarker. rewrite ->exec_bind. intros (b1 & r & Hp & He).
  destruct r as [[]|e].
  { apply putImmutable_sound in Hp. exists data, marker. destruct He as [Hb _].
    split_and!; [by eapply lookup_weaken|done|]. unfold same_commit.
    by rw !Z.eqb_refl String.eqb_refl. }
  apply exec_bind in He as (b2 & [bytes|] & Hr & He); [|by destruct He as [_ [=]]].
  apply readBounded_sound in Hr as [Hr _].
  destruct (json_marker bytes) as [old|] eqn:Eo; [|by destruct He as [_ [=]]].
  destruct (same_commit old marker) eqn:Es; [|by destruct He as [_ [=]]].
  destruct He as [Hb _]. exists bytes, old. split_and!; [by eapply lookup_weaken|done..].
Qed.

(** C33: when [commit] reports success the checkpoint is complete: it is
    committable and its marker is stored with the manifest's hash, whether
    this call wrote it or found the one an earlier attempt left. *)
Theorem commit_complete now manifestBytes m job b b' marker :
  (forall mk, json_marker (marker_json mk) = Some mk) ->
  Forall object_typed (Objects m) ->
  exec (commit now manifestBytes m job) b b' (Ok marker) ->
  committable b' manifestBytes m /\
  exists bytes old, b' !! markerKey (RunID m) (GlobalStep m) = Some bytes /\
    json_marker bytes = Some old /\ same_commit old marker = true /\
    ManifestSHA256 old = sha256 manifestBytes.
Proof.
  intros Hj Ht. unfold commit. intros (b2 & opt & Hr & He)%exec_try.
  destruct (DecodeOptimizerState _ _ _) as [st|] eqn:Ed; [|by destruct He as [_ [=]]].
  apply exec_try in He as (b3 & [] & Hv & He). apply exec_try in He as (b4 & [] & Hp & He).
  apply exec_try in He as (b5 & [] & Hm & He). destruct He as [Hb [= ->]].
  split.
  - eapply commit_stages; [done..|]. etrans; [by eapply exec_grows|done].
  - eapply putImmutableMarker_sound in Hm as (bytes & old & Hk & Ho & Hs); [|done].
    exists bytes, old. split_and!; [by eapply lookup_weaken|done..|].
    unfold same_commit in Hs. bool_hyps. done.
Qed.

(** ** Uploads *)

Lemma compareExistingHash_sound key info path size hash b b' receipt :
  0 <= size -> fst info <= int64_max -> 0 <= fst info ->
  size <= uint64_max ->
  exec (compareExistingHash key info path size hash) b b' (Ok receipt) ->
  exists data, b' !! key = Some data /\ size <= Z.of_nat (length data)
    /\ sha256 (take (Z.to_nat size) data) = hash
    /\ rc_StoragePath receipt = path /\ rc_ByteLength receipt = size /\ rc_SHA256 receipt = hash
    /\ size = fst info.
Proof.
  intros Hs Hi Hi0 Hu. unfold compareExistingHash.
  destruct (negb _) eqn:El; [by intros [_ [=]]|]. bool_hyps.
  assert (size = fst info) as Esz.
  { unfold wrap64 in El. pow2.
    destruct (decide (size < 9223372036854775808)).
    - rewrite ->Z.mod_small in El by lia. lia.
    - rewrite <-(Zmod_unique (size + 9223372036854775808) 18446744073709551616 1
                  (size - 9223372036854775808)) in El by lia. lia. }
  intros (b1 & h & Hh & He)%exec_try. apply hashRange_sound in Hh as (data & Hd & ? & ? & ->); [|lia..].
  destruct (negb _) eqn:En; [by destruct He as [_ [=]]|]. destruct He as [Hb [= ->]]. bool_hyps.
  exists data. split_and!; try done; [by eapply lookup_weaken|].
  rewrite <-En. unfold sub. rewrite ->drop_0. f_equal. f_equal. lia.
Qed.

(** An accepted upload is durable and content-addressed: the key holds
    exactly [size] bytes whose hash is the receipt's; when the put created the
    object these are the bytes read from the ring; and whatever the outcome,
    no object that existed before is changed. *)
Theorem upload_receipt_sound run step path source size b b' res :
  0 <= size <= int64_max ->
  exec (upload run step path source size) b b' res ->
  b ⊆ b' /\
  forall receipt, res = Ok receipt ->
    exists data, b' !! objectKey run step path = Some data
      /\ rc_ByteLength receipt = size /\ size <= Z.of_nat (length data)
      /\ rc_SHA256 receipt = sha256 (take (Z.to_nat size) data)
      /\ (b !! objectKey run step path = Some data
          \/ exists n, rc_SHA256 receipt = sha256 (take n (rd_data source))).
Proof.
  intros Hsize He. split; [by eapply exec_grows|]. intros receipt ->. revert He.
  unfold upload. set (key := objectKey run step path). rewrite ->exec_bind.
  intros (b1 & r & (b2 & b3 & Hb2 & Hs & Hb3)%exec_call & He). destruct r as [info|e].
  { destruct info as [n etag]. apply stat_size in Hs as (d0 & Hd0 & -> & ?).
    unfold compareExisting in He.
    destruct (_ || _) eqn:Ec; [by destruct He as [_ [=]]|]. bool_hyps.
    apply compareExistingHash_sound in He as (data & ? & ? & ? & ? & ? & ? & ?); [|simpl; pow2; lia..].
    exists data. split_and!; try done; [congruence|]. right. exists (length (rd_data source)).
    rewrite ->firstn_all. done. }
  destruct (negb _); [by destruct He as [_ [=]]|].
  apply exec_bind in He as (b4 & put & (b5 & b6 & Hb5 & Hp & Hb6)%exec_call & He).
  rewrite ->!wrap64_id in * by (pow2; lia).
  destruct put as [etag|[e' consumed]].
  { apply put_ok in Hp as (_ & Hlen & ->). destruct He as [Hb [= ->]]. simpl.
    exists (take (Z.to_nat size) (rd_data source)).
    split_and!; [|done|rw length_take; lia|by rw take_take Nat.min_id|by eauto].
    eapply lookup_weaken; [|exact Hb]. eapply lookup_weaken; [|exact Hb6].
    by rewrite ->lookup_insert_eq. }
  destruct (preconditionFailed e'); [|by destruct He as [_ [=]]].
  apply exec_bind in He as (b7 & again & (b8 & b9 & Hb8 & Hs' & Hb9)%exec_call & He).
  destruct again as [[n etag]|]; [|by destruct He as [_ [=]]].
  apply stat_size in Hs' as (d0 & Hd0 & -> & ?).
  apply compareExistingHash_sound in He as (data & ? & ? & ? & ? & ? & ? & ?); [|simpl; pow2; lia..].
  exists data. split_and!; try done; [congruence|]. right. eauto.
Qed.

(** ** Loading and choosing a checkpoint *)

Lemma loadCommitted_sound run step b b' res :
  exec (loadCommitted run step) b b' (Ok res) ->
  exists mb bytes, b' !! markerKey run step = Some bytes
    /\ json_marker bytes = Some (Marker res)
    /\ b' !! manifestKey run step = Some mb
    /\ sha256 mb = ManifestSHA256 (Marker res)
    /\ DecodeManifest json_manifest mb = Ok (l_Manifest res)
    /\ RunID (l_Manifest res) = run /\ GlobalStep (l_Manifest res) = step.
Proof.
  unfold loadCommitted. intros (b1 & bytes & Hr & He)%exec_try.
  apply readBounded_sound in Hr as [Hr _].
  destruct (json_marker bytes) as [mk|] eqn:Ej; [|by destruct He as [_ [=]]].
  destruct (_ || _ || _); [by destruct He as [_ [=]]|].
  destruct (negb (GoTime.valid_rfc3339 _)); [by destruct He as [_ [=]]|].
  pose proof (exec_grows _ _ _ _ He) as Hb1.
  apply exec_try in He as (b2 & mb & Hm & He). apply readBounded_sound in Hm as [Hm _].
  destruct (negb _) eqn:Eh; [by destruct He as [_ [=]]|].
  destruct (DecodeManifest _ mb) as [m|] eqn:Ed; [|by destruct He as [_ [=]]].
  destruct (_ || _) eqn:Er; [by destruct He as [_ [=]]|]. destruct He as [Hb [= ->]]. bool_hyps.
  exists mb, bytes. simpl. split_and!; try done; by eapply lookup_weaken.
Qed.

Lemma DecodeManifest_json d m :
  DecodeManifest json_manifest d = Ok m -> json_manifest d = Some m /\ Validate m = Ok tt.
Proof.
  unfold DecodeManifest. case_match; [done|]. destruct (json_manifest d) as [m'|]; [|done].
  destruct (Validate m') as [[]|] eqn:Ev; [|done]. by intros [= ->].
Qed.

(** During a run from [b] to [b'] the step was tried and did not load, was not
    compatible or did not verify. *)
Definition passed_over (b b' : bucket) (run : string) (want : Compatibility) (step : Z) : Prop :=
  exists b1 b2, b ⊆ b1 /\ b2 ⊆ b' /\
    ((exists e, exec (loadCommitted run step) b1 b2 (Err e)) \/
     exists res, exec (loadCommitted run step) b1 b2 (Ok res) /\
       (Compatible (l_Manifest res) want <> Ok tt \/
        exists b3 e, b3 ⊆ b' /\ exec (verifyObjects run step (Objects (l_Manifest res))) b2 b3 (Err e))).

Lemma passed_over_earlier b b0 b' run want step :
  b ⊆ b0 -> passed_over b0 b' run want step -> passed_over b b' run want step.
Proof. intros Hb (b1 & b2 & H1 & H2). exists b1, b2. split; [by etrans|done]. Qed.

(** What a successful [first_valid] returns: the first step that was not passed over. *)
Record found (steps : list Z) (run : string) (want : Compatibility) (b b' : bucket) (res : latestResult) : Prop := {
  fo_first : exists pre post, steps = pre ++ GlobalStep (l_Manifest res) :: post /\
    forall step, step ∈ pre -> passed_over b b' run want step;
  fo_compatible : Compatible (l_Manifest res) want = Ok tt;
  fo_verified : Forall (verified b' run (GlobalStep (l_Manifest res))) (Objects (l_Manifest res));
  fo_loaded : exists b1 b2, exec (loadCommitted run (GlobalStep (l_Manifest res))) b1 b2 (Ok res) /\ b2 ⊆ b' }.

Lemma found_next step steps run want b b0 b' res :
  b ⊆ b0 -> passed_over b b' run want step -> found steps run want b0 b' res -> found (step :: steps) run want b b' res.
Proof.
  intros Hb Hp [(pre & post & -> & Hpre) Hc Hv Hl]. split; try done. exists (step :: pre), post.
  split; [done|]. intros s [->|Hs]%elem_of_cons; [done|]. by eapply passed_over_earlier, Hpre.
Qed.

Lemma first_valid_sound run want steps b b' res :
  (forall d m, json_manifest d = Some m -> Forall object_typed (Objects m)) ->
  exec (first_valid run want steps) b b' (Ok res) -> found steps run want b b' res.
Proof.
  intros Hty. revert b. induction steps as [|step steps IH]; intros b; cbn [first_valid].
  { by intros [_ [=]]. }
  intros (b1 & [r|e] & Hl & He)%exec_bind; pose proof (exec_grows _ _ _ _ Hl) as Hb1.
  2:{ apply (found_next _ _ _ _ _ b1); [done| |by apply IH]. exists b, b1.
      split_and!; [done|by eapply exec_grows|by left; exists e]. }
  destruct (Compatible (l_Manifest r) want) as [[]|] eqn:Ec; simpl in He.
  2:{ apply (found_next _ _ _ _ _ b1); [done| |by apply IH]. exists b, b1.
      split_and!; [done|by eapply exec_grows|]. right. exists r. split; [done|]. left. by rewrite ->Ec. }
  apply exec_bind in He as (b2 & [[]|e] & Hv & He); pose proof (exec_grows _ _ _ _ Hv) as Hb2.
  2:{ pose proof (exec_grows _ _ _ _ He) as Hb'. apply (found_next _ _ _ _ _ b2); [by etrans| |by apply IH].
      exists b, b1. split_and!; [done|by etrans|]. right. exists r. split; [done|]. right. by exists b2, e. }
  destruct He as [Hb [= ->]]. pose proof (loadCommitted_sound _ _ _ _ _ Hl) as
    (mb & bytes & _ & _ & _ & _ & Hdec & _ & Hstep). rewrite <-Hstep in *. split; [|done| |].
  - exists [], steps. split; [done|]. by intros ? ?%not_elem_of_nil.
  - apply verifyObjects_sound in Hv; [|by eapply Hty, DecodeManifest_json]. eapply Forall_impl; [done|].
    intros o. by apply verified_mono.
  - exists b, b1. split; [done|]. by etrans.
Qed.

(** ** The listing *)

Lemma marker_step_markerKey run step before :
  0 <= step <= uint64_max -> (forall limit, before = Some limit -> step < limit) ->
  marker_step run before (markerKey run step) = Some step.
Proof.
  intros Hs Hb. unfold marker_step, markerKey, stepKey.
  replace (("checkpoints/" +:+ run +:+ "/step_" +:+ pad_uint 8 step) +:+ ".complete")
    with (("checkpoints/" +:+ run +:+ "/" +:+ "step_") +:+ pad_uint 8 step +:+ ".complete")
    by (by rw !sapp_assoc).
  rw cut_prefix_app. cbn [mbind option_bind]. rw cut_suffix_app. cbn [mbind option_bind].
  rewrite ->parse_pad_uint by done. cbn [mbind option_bind].
  destruct before as [limit|]; [|done]. by rewrite ->(proj2 (Z.leb_gt _ _)) by auto.
Qed.

Lemma marker_step_before run before key step :
  marker_step run before key = Some step -> forall limit, before = Some limit -> step < limit.
Proof.
  unfold marker_step. intros Hm limit ->. apply bind_Some in Hm as (n1 & _ & Hm).
  apply bind_Some in Hm as (n2 & _ & Hm). apply bind_Some in Hm as (st & _ & Hm).
  case_match eqn:E; simplify_eq. bool_hyps. lia.
Qed.

(** The loop collects the step of every marker the listing shows, in order. *)
Lemma list_steps_sound run before items steps res :
  list_steps run before items steps = Ok res ->
  exists keys, items = Ok <$> keys /\ res = steps ++ omap (marker_step run before) keys.
Proof.
  revert steps. induction items as [|[key|e] items IH]; intros steps; cbn [list_steps]; [| |done].
  { intros [= <-]. exists []. by rw app_nil_r. }
  destruct (marker_step run before key) as [step|] eqn:Em.
  - case_match; [done|]. intros (keys & -> & ->)%IH. exists (key :: keys). split; [done|].
    cbn. rewrite ->Em. by rw -app_assoc.
  - intros (keys & -> & ->)%IH. exists (key :: keys). split; [done|]. cbn. by rewrite ->Em.
Qed.

Lemma elem_of_newest_first step steps : step ∈ newest_first steps <-> step ∈ steps.
Proof. unfold newest_first. rw list_elem_of_In -in_rev -list_elem_of_In. by rw merge_sort_Permutation. Qed.

Lemma newest_first_sorted steps : StronglySorted Z.ge (newest_first steps).
Proof.
  unfold newest_first. assert (StronglySorted Z.le (merge_sort Z.le steps)) as Hs.
  { apply Sorted_StronglySorted; [intros ???; lia|]. apply Sorted_merge_sort, _. }
  induction Hs as [|x l Hs IH Hx]; [constructor|]. cbn [rev].
  assert (forall y, y ∈ rev l -> y >= x) as Hr.
  { intros y Hy%list_elem_of_In%in_rev. rewrite ->List.Forall_forall in Hx. apply Hx in Hy. lia. }
  clear Hs Hx. induction IH as [|y k Hk IHk Hy]; simpl; [repeat constructor|].
  constructor.
  - apply IHk. intros z Hz. apply Hr. by right.
  - apply List.Forall_app. split; [done|]. repeat constructor. apply Hr. left.
Qed.

Lemma sorted_before (pre post : list Z) x y :
  StronglySorted Z.ge (pre ++ x :: post) -> y ∈ pre ++ x :: post -> y <= x \/ y ∈ pre.
Proof.
  intros Hs [Hy|[->|Hy]%elem_of_cons]%elem_of_app; [by right|left; lia|left].
  induction pre as [|z pre IH]; simpl in Hs; apply StronglySorted_inv in Hs as [Hs Hx]; [|by apply IH].
  rewrite ->List.Forall_forall in Hx. apply list_elem_of_In, Hx in Hy. lia.
Qed.

(** C30: the checkpoint [latest] returns is genuine and the newest that can be
    restored, under arbitrary failures of the store and concurrent writers,
    when the manifests decoded have sizes and offsets of their types: a marker
    of that run and step is stored, the manifest matches the marker's hash and
    validates, it is compatible with the request, every object is stored with
    its hash, and the step precedes the requested bound; and for every other
    marker that the store listed below the bound, the step is not newer or it
    was tried first and did not load, was not compatible or did not verify. *)
Theorem latest_sound run want before b b' res :
  (forall d m, json_manifest d = Some m -> Forall object_typed (Objects m)) ->
  exec (latest run want before) b b' (Ok res) ->
  let m := l_Manifest res in
  RunID m = run /\ Validate m = Ok tt /\ Compatible m want = Ok tt /\
  (forall limit, before = Some limit -> GlobalStep m < limit) /\
  Forall (verified b' run (GlobalStep m)) (Objects m) /\
  (exists mb bytes, b' !! markerKey run (GlobalStep m) = Some bytes
    /\ json_marker bytes = Some (Marker res)
    /\ b' !! manifestKey run (GlobalStep m) = Some mb
    /\ sha256 mb = ManifestSHA256 (Marker res)) /\
  exists b0 keys, b ⊆ b0 /\ serve b0 (ListObjects ("checkpoints/" +:+ run +:+ "/")) (Ok <$> keys) b0 /\
    forall step, markerKey run step ∈ keys -> 0 <= step <= uint64_max ->
      (forall limit, before = Some limit -> step < limit) ->
      step <= GlobalStep m \/ passed_over b b' run want step.
Proof.
  intros Hty. unfold latest. intros (b1 & items & Hls & He)%exec_bind.
  destruct (list_steps _ _ _ _) as [steps|] eqn:El; [|by destruct He as [_ [=]]].
  apply first_valid_sound in He as [(pre & post & Esteps & Hpre) Hc Hv (b2 & b3 & Hl & Hb)]; [|done].
  apply loadCommitted_sound in Hl as (mb & bytes & ? & ? & ? & ? & Hd & ? & _).
  apply DecodeManifest_json in Hd as [_ Hval].
  apply list_steps_sound in El as (keys & -> & ->). simpl in Esteps.
  assert (forall step, step ∈ pre ++ GlobalStep (l_Manifest res) :: post ->
            exists key, key ∈ keys /\ marker_step run before key = Some step) as Hin.
  { intros step Hs. rewrite <-Esteps, elem_of_newest_first in Hs. by apply list_elem_of_omap in Hs. }
  split_and!; try done.
  - destruct (Hin (GlobalStep (l_Manifest res))) as (key & _ & Hk);
      [apply elem_of_app; right; left|]. by eapply marker_step_before.
  - exists mb, bytes. split_and!; try done; by eapply lookup_weaken.
  - apply exec_call in Hls as (b4 & b5 & Hb4 & Hserve & Hb5). pose proof (serve_list _ _ _ _ Hserve) as ->.
    exists b4, keys. split_and!; [done..|]. intros step Hkey Hstep Hbound.
    destruct (sorted_before pre post (GlobalStep (l_Manifest res)) step) as [|Hs].
    + rewrite <-Esteps. apply newest_first_sorted.
    + rewrite <-Esteps. apply elem_of_newest_first, list_elem_of_omap. exists (markerKey run step).
      split; [done|by apply marker_step_markerKey].
    + by left.
    + right. eapply passed_over_earlier; [|by apply Hpre]. by etrans.
Qed.

(** ** Restores *)

(** C29: a restore that reports success has delivered exactly the object's
    byte range, of the length the manifest states, and the delivered bytes hash
    to the value the manifest states, for an object with a positive length and
    a range that ends within int64. *)
Theorem restore_delivers run step o accepts b b' receipt bytes :
  object_typed o -> Offset o + Length o <= int64_max -> 0 < Length o ->
  exec (restore run step o accepts) b b' (Ok receipt, bytes) ->
  (exists data, b' !! objectKey run step (Path o) = Some data
     /\ bytes = sub data (Offset o) (Offset o + Length o - 1))
  /\ Z.of_nat (length bytes) = Length o /\ sha256 bytes = o_SHA256 o
  /\ rc_SHA256 receipt = o_SHA256 o /\ rc_ByteLength receipt = Length o.
Proof.
  intros [Ho Hl] Hm Hpos. unfold restore. rewrite ->exec_bind.
  intros (b1 & r & (b2 & b3 & Hb2 & Hs & Hb3)%exec_call & He).
  destruct r as [d|]; [|by destruct He as [_ [=]]].
  rewrite ->(wrapu64_id (Offset o + Length o - 1)), !wrap64_id in * by (pow2; lia).
  unfold copy_n in He. destruct (_ <? Length o) eqn:El; [by destruct He as [_ [=]]|].
  destruct (_ || _) eqn:En; [by destruct He as [_ [=]]|].
  destruct (negb (_ =? _)%string) eqn:Eh; [by destruct He as [_ [=]]|].
  destruct He as [Hb1 [= -> ->]]. bool_hyps.
  pose proof (serve_get _ _ _ _ _ Hs) as ->.
  apply get_range in Hs as (data & Hd & ->); [|lia].
  split_and!; try done. exists data. split.
  - eapply lookup_weaken; [done|]. by etrans.
  - apply take_ge. apply Nat2Z.inj_le. rewrite ->length_sub in * by lia. lia.
Qed.

End Store.

(** ** A stored checkpoint, for the witnesses *)

Module Samples.

Definition sha256 (_ : list Z) : string := hash0.
Definition json_manifest (_ : list Z) : option Manifest := Some sample.
Definition json_optimizer (_ : list Z) : option OptimizerState := Some (MkOptimizerState 1 [] []).

Fixpoint codes (s : string) : list Z :=
  match s with "" => [] | String c s' => code c :: codes s' end%string.
Fixpoint of_codes (l : list Z) : string :=
  match l with [] => "" | z :: l' => String (chr z) (of_codes l') end%string.

Definition marker_json (m : CommitMarker) : list Z :=
  mk_CheckpointVersion m :: mk_GlobalStep m :: SlurmJobID m ::
  Z.of_nat (length (codes (ManifestSHA256 m))) :: codes (ManifestSHA256 m) ++ codes (CommittedAt m).
Definition json_marker (l : list Z) : option CommitMarker :=
  match l with
  | v :: step :: job :: n :: rest =>
      Some (MkMarker v step (of_codes (take (Z.to_nat n) rest)) (of_codes (drop (Z.to_nat n) rest)) job)
  | _ => None
  end.

Lemma of_codes_codes s : of_codes (codes s) = s.
Proof.
  induction s as [|c s IH]; [done|]. cbn. rw IH. f_equal. unfold chr, code.
  by rw N2Z.id ascii_N_embedding.
Qed.

Lemma marker_roundtrip m : json_marker (marker_json m) = Some m.
Proof.
  destruct m. unfold json_marker, marker_json. cbn -[Z.of_nat].
  by rw Nat2Z.id take_app_length drop_app_length !of_codes_codes.
Qed.

Definition stored (path : string) (n : nat) : string * list Z :=
  (objectKey "run" 7 path, replicate n 0).

Definition objects : bucket :=
  list_to_map [stored "t/a" 12; stored "t/b" 8; stored "t/c" 4; stored "opt" 10;
               stored "rng0" 5; stored "rng1" 5].

Definition manifest_bytes : list Z := [123; 125].
Definition now : string := "2026-01-01T00:00:00.5Z".
Definition commit_sample := commit sha256 json_optimizer marker_json json_marker now manifest_bytes sample 9.
Definition committed : bucket := fst (run commit_sample objects).

Definition want : Compatibility :=
  MkCompatibility "model" hash0 "data" ("sha256:" +:+ hash0) "torch" "2.0" [("cpu", "1")]%string.

Lemma sample_typed : Forall object_typed (Objects sample).
Proof. repeat constructor; simpl; lia. Qed.

Lemma json_typed d m : json_manifest d = Some m -> Forall object_typed (Objects m).
Proof. intros [= <-]. apply sample_typed. Qed.

End Samples.

Lemma marker_put_last_witness :
  committable Samples.sha256 Samples.json_optimizer
    (<[manifestKey "run" 7 := Samples.manifest_bytes]> Samples.objects) Samples.manifest_bytes sample.
Proof.
  apply (marker_put_last Samples.sha256 Samples.json_optimizer Samples.marker_json
           Samples.json_marker Samples.now Samples.manifest_bytes sample 9 Samples.objects).
  - apply Samples.sample_typed.
  - apply run_puts_issues, (bool_decide_unpack _). vm_compute. reflexivity.
Defined.

Lemma commit_complete_witness :
  committable Samples.sha256 Samples.json_optimizer Samples.committed Samples.manifest_bytes sample.
Proof.
  refine (proj1 (commit_complete Samples.sha256 Samples.json_optimizer Samples.marker_json
           Samples.json_marker Samples.now Samples.manifest_bytes sample 9 Samples.objects
           Samples.committed (MkMarker 2 7 hash0 Samples.now 9) Samples.marker_roundtrip
           Samples.sample_typed _)).
  replace (Ok (MkMarker 2 7 hash0 Samples.now 9)) with (snd (run Samples.commit_sample Samples.objects))
    by (vm_compute; reflexivity).
  apply run_exec.
Defined.

Definition upload_sample :=
  upload Samples.sha256 "run" 7 "new" (Reader [1; 2; 3] false) 3.

Lemma upload_receipt_sound_witness :
  exists data, fst (run upload_sample Samples.objects) !! objectKey "run" 7 "new" = Some data.
Proof.
  destruct (upload_receipt_sound Samples.sha256 "run" 7 "new" (Reader [1; 2; 3] false) 3 Samples.objects
    (fst (run upload_sample Samples.objects)) (snd (run upload_sample Samples.objects)))
    as [_ Hr]; [pow2; lia|apply run_exec|].
  destruct (Hr (MkReceipt "new" 3 hash0 "") ltac:(vm_compute; reflexivity)) as (data & Hd & _).
  exists data. exact Hd.
Defined.

Definition latest_sample :=
  latest Samples.sha256 Samples.json_manifest Samples.json_marker "run" Samples.want (Some 8).

Lemma latest_sound_witness :
  Forall (verified Samples.sha256 (fst (run latest_sample Samples.committed)) "run" 7) (Objects sample).
Proof.
  assert (snd (run latest_sample Samples.committed) = Ok (MkLatest (MkMarker 2 7 hash0 Samples.now 9) sample))
    as E by (vm_compute; reflexivity).
  pose proof (run_exec latest_sample Samples.committed) as He. rewrite ->E in He.
  exact (proj1 (proj2 (proj2 (proj2 (proj2 (latest_sound Samples.sha256 Samples.json_manifest
    Samples.json_marker "run" Samples.want (Some 8) Samples.committed _
    (MkLatest (MkMarker 2 7 hash0 Samples.now 9) sample) Samples.json_typed He)))))).
Defined.

Definition restore_sample :=
  restore Samples.sha256 "run" 7 (MkObject "x" "t/a" 4 8 hash0 0) 100.

Lemma restore_delivers_witness :
  Z.of_nat (length (snd (snd (run restore_sample Samples.objects)))) = 8.
Proof.
  pose proof (run_exec restore_sample Samples.objects) as He.
  assert (snd (run restore_sample Samples.objects) = (Ok (MkReceipt "t/a" 8 hash0 ""), replicate 8 0))
    as E by (vm_compute; reflexivity).
  rewrite ->E in He |- *.
  refine (proj1 (proj2 (restore_delivers Samples.sha256 "run" 7 (MkObject "x" "t/a" 4 8 hash0 0) 100
    Samples.objects _ _ _ _ _ _ He))); simpl; unfold object_typed; simpl; pow2; lia.
Defined.

End Store.
