(* ===== verification/Flusher.v ===== *)
(** * Flusher: the checkpoint flusher's HTTP server
    ([src/checkpoint-flusher/server.go])

    The server's maps and the rings under the shared-memory directory are the
    state [server]; each handler is a program over the object store that also
    returns the next state and the response.  The mutex of the server makes
    every method that touches the maps atomic, so a method is one function. *)

From S2P Require Import Prelude GoStrings Manifest ObjectStore Ring Store.

Module Flusher.
Import Manifest Store.

(** ** State *)

Record transaction := MkTxn {
  jobID : Z; rank : Z; dir : string; streams : gomap string }.

(** [files] are the ring files under [sharedRoot]. *)
Record server := MkServer {
  sharedRoot : string; clusterUID : string; budget : Z;
  transactions : gmap string transaction; active : gmap string string;
  runOwners : gmap string Z; files : gmap string Ring.mapping }.

Record streamRequest := MkStream { Name : string; s_ByteLength : Z }.

Record createTransactionResponse := MkCreated {
  Transaction : string; c_Streams : gomap string; Slots : Z; SlotBytes : Z }.

Inductive txn_error :=
| StreamCount | AlreadyExists | ActiveForRank (current : string) | BudgetTooSmall | MkdirFailed
| BadStream | DuplicateStream | RingFailed (e : Ring.ring_error) | CreateFailed
| NotOwned | UnknownStream | RemoveFailed | RunOwned (owner : Z) | BadJob | BadRank.

(** ** Helpers *)

Definition streamPattern : string -> bool := idPattern.
Definition transactionPattern (s : string) : bool := (slen s =? 32) && string_forallb is_hex_lower s.

(** [fmt.Sprintf("%d/%d", job, rank)] *)
Definition rank_key (job rank : Z) : string := format_uint job +:+ "/" +:+ format_int rank.

(** [filepath.Join]: the non-empty elements, cleaned. *)
Definition filepath_join (elems : list string) : string :=
  match List.filter (fun e => negb (e =? "")%string) elems with
  | [] => ""
  | l => path_clean (join "/" l)
  end.

(** [os.RemoveAll] of a directory. *)
Definition remove_all (d : string) (fs : gmap string Ring.mapping) : gmap string Ring.mapping :=
  filter (fun e => has_prefix (d +:+ "/") (fst e) = false /\ fst e <> d) fs.

Definition set_files (s : server) (fs : gmap string Ring.mapping) : server :=
  MkServer (sharedRoot s) (clusterUID s) (budget s) (transactions s) (active s) (runOwners s) fs.

(** What the file system does: [None] of [create] is success. *)
Record fs_env := MkFsEnv { mkdir_ok : bool; create_ok : string -> bool; remove_ok : bool }.

(** [ring.Initialize] on a path: bounds first, then [O_EXCL] creation. *)
Definition initialize_file (env : fs_env) (fs : gmap string Ring.mapping) (path : string)
    (slots slotSize total : Z) : result txn_error (gmap string Ring.mapping) :=
  match Ring.Initialize slots slotSize total with
  | Err e => Err (RingFailed e)
  | Ok m =>
      reject_if bool_decide (is_Some (fs !! path)) || negb (create_ok env path) with CreateFailed in
      Ok (<[path := m]> fs)
  end.

(** The loop over [request.Streams]: the streams or an error, and the files
    as the loop leaves them. *)
Fixpoint create_streams (env : fs_env) (directory : string) (slotBytes : Z)
    (requests : list streamRequest) (acc : gomap string) (fs : gmap string Ring.mapping)
    : result txn_error (gomap string) * gmap string Ring.mapping :=
  match requests with
  | [] => (Ok acc, fs)
  | r :: requests' =>
      if negb (streamPattern (Name r)) || (s_ByteLength r =? 0)
         || (Ring.MaxStreamLength <? s_ByteLength r) then (Err BadStream, fs) else
      if bool_decide (is_Some (map_get acc (Name r))) then (Err DuplicateStream, fs) else
      let path := filepath_join [directory; Name r +:+ ".ring"] in
      match initialize_file env fs path Ring.DefaultSlots slotBytes (s_ByteLength r) with
      | Err e => (Err e, fs)
      | Ok fs' => create_streams env directory slotBytes requests' (acc ++ [(Name r, path)]) fs'
      end
  end.

Definition slot_bytes (perStream : Z) : Z :=
  let slotBytes := (perStream - Ring.HeaderSize) / Ring.DefaultSlots in
  let slotBytes := if Ring.MaxSlotSize <? slotBytes then Ring.MaxSlotSize else slotBytes in
  slotBytes - slotBytes mod 4096.

(** ** Methods *)

Definition createTransaction (env : fs_env) (s : server) (id : string) (job rank : Z)
    (requests : list streamRequest) : server * result txn_error createTransactionResponse :=
  let n := Z.of_nat (length requests) in
  if (n <? 1) || (2 <? n) then (s, Err StreamCount) else
  let key := rank_key job rank in
  if bool_decide (is_Some (transactions s !! id)) then (s, Err AlreadyExists) else
  let current := default "" (active s !! key) in
  if negb (current =? "")%string then (s, Err (ActiveForRank current)) else
  let perStream := budget s / n in
  if perStream <=? Ring.HeaderSize + Ring.DefaultSlots * Ring.MinSlotSize
  then (s, Err BudgetTooSmall) else
  let slotBytes := slot_bytes perStream in
  let directory := filepath_join [sharedRoot s; clusterUID s; format_uint job; format_int rank; id] in
  if negb (mkdir_ok env) then (s, Err MkdirFailed) else
  match create_streams env directory slotBytes requests [] (files s) with
  | (Err e, fs) => (set_files s (remove_all directory fs), Err e)
  | (Ok strs, fs) =>
      (MkServer (sharedRoot s) (clusterUID s) (budget s)
         (<[id := MkTxn job rank directory strs]> (transactions s))
         (<[key := id]> (active s)) (runOwners s) fs,
       Ok (MkCreated id strs Ring.DefaultSlots slotBytes))
  end.

Definition owned_by (txn : transaction) (job rk : Z) : bool :=
  (jobID txn =? job) && (rank txn =? rk).

Definition deleteTransaction (env : fs_env) (s : server) (id : string) (job rank : Z)
    : server * result txn_error unit :=
  match transactions s !! id with
  | None => (s, Err NotOwned)
  | Some txn =>
      if negb (owned_by txn job rank) then (s, Err NotOwned) else
      let s' := MkServer (sharedRoot s) (clusterUID s) (budget s) (delete id (transactions s))
                  (delete (rank_key job rank) (active s)) (runOwners s) (files s) in
      if remove_ok env then (set_files s' (remove_all (dir txn) (files s)), Ok tt)
      else (s', Err RemoveFailed)
  end.

Definition transactionStream (s : server) (id name : string) (job rank : Z)
    : result txn_error string :=
  match transactions s !! id with
  | None => Err NotOwned
  | Some txn =>
      reject_if negb (owned_by txn job rank) with NotOwned in
      let path := default "" (map_get (streams txn) name) in
      reject_if (path =? "")%string with UnknownStream in
      Ok path
  end.

Definition claimRun (s : server) (run : string) (job : Z) : server * result txn_error unit :=
  let owner := default 0 (runOwners s !! run) in
  if negb (owner =? 0) && negb (owner =? job) then (s, Err (RunOwned owner)) else
  (MkServer (sharedRoot s) (clusterUID s) (budget s) (transactions s) (active s)
     (<[run := job]> (runOwners s)) (files s), Ok tt).

(** ** Requests and responses *)

Record request := MkRequest {
  Method : string; URLPath : string; Headers : gomap string; query_before : string;
  body : list Z; body_fails : bool }.

Definition header (r : request) (name : string) : string := default "" (map_get (Headers r) name).

Inductive payload :=
| PError (code : string) | PCreated (c : createTransactionResponse) | PDeleted
| PLatest (l : latestResult) | PMarker (m : CommitMarker) | PReceipt (r : Receipt).

Record response := MkResponse { Status : Z; Payload : payload }.

Definition writeError (status : Z) (code : string) : response := MkResponse status (PError code).

Definition requestIdentity (r : request) : result txn_error (Z * Z) :=
  match parse_uint64 (header r "X-Slurm-Job-Id") with
  | None => Err BadJob
  | Some job =>
      reject_if job =? 0 with BadJob in
      match parse_int64 (header r "X-Slurm-Proc-Id") with
      | None => Err BadRank
      | Some rank =>
          reject_if (rank <? 0) || (65535 <? rank) with BadRank in
          Ok (job, rank)
      end
  end.

(** [strings.Trim(path, "/")] *)
Fixpoint trim_left_slash (s : string) : string :=
  match s with
  | String c s' => if bool_decide (c = "/"%char) then trim_left_slash s' else s
  | "" => ""
  end%string.
Definition trim_slashes (s : string) : string :=
  String.rev (trim_left_slash (String.rev (trim_left_slash s))).

Section Handlers.
Variable sha256 : list Z -> string.
Variable json_manifest : list Z -> option Manifest.
Variable json_optimizer : list Z -> option OptimizerState.
Variable marker_json : CommitMarker -> list Z.
Variable json_marker : list Z -> option CommitMarker.
Variable json_create : list Z -> option (list streamRequest).
Variable json_compat : string -> option Compatibility.

(** What a request meets outside the process: the file system, the clock, and
    the rings it opens (as consumer: the bytes delivered and the declared
    total; as producer: the total and the bytes accepted). *)
Record world := MkWorldEnv {
  w_fs : fs_env; w_now : string;
  open_source : string -> option (reader * Z);
  open_target : string -> option (Z * Z) }.

Definition handleTransaction (w : world) (s : server) (r : request) (parts : list string)
    : server * response :=
  let id := nth 2 parts ""%string in
  if negb (length parts =? 3)%nat || negb (transactionPattern id)
  then (s, writeError 400 "invalid_transaction") else
  match requestIdentity r with
  | Err _ => (s, writeError 401 "invalid_identity")
  | Ok (job, rank) =>
      if (Method r =? "POST")%string then
        match json_create (take (Z.to_nat (Z.shiftl 64 10 + 1)) (body r)) with
        | None => (s, writeError 400 "invalid_request")
        | Some requests =>
            match createTransaction (w_fs w) s id job rank requests with
            | (s', Err _) => (s', writeError 409 "transaction_rejected")
            | (s', Ok created) => (s', MkResponse 201 (PCreated created))
            end
        end
      else if (Method r =? "DELETE")%string then
        match deleteTransaction (w_fs w) s id job rank with
        | (s', Err _) => (s', writeError 404 "transaction_not_found")
        | (s', Ok _) => (s', MkResponse 200 PDeleted)
        end
      else (s, writeError 405 "method_not_allowed")
  end.

Definition handleChunk (w : world) (s : server) (r : request) (run : string) (step : Z)
    (id : string) (job rank : Z) : prog response :=
  match transactionStream s (header r "X-Checkpoint-Transaction")
          (header r "X-Checkpoint-Stream") job rank with
  | Err _ => Ret (writeError 400 "invalid_transaction")
  | Ok streamPath =>
      if (Method r =? "PUT")%string then
        let storagePath := header r "X-Checkpoint-Storage-Path" in
        if negb (ValidStoragePath storagePath) then Ret (writeError 400 "invalid_storage_path") else
        match open_source w streamPath with
        | None => Ret (writeError 400 "invalid_ring")
        | Some (source, total) =>
            res <- upload sha256 run step storagePath source total;;
            match res with
            | Err _ => Ret (writeError 409 "upload_failed")
            | Ok receipt => Ret (MkResponse 200 (PReceipt receipt))
            end
        end
      else if (Method r =? "GET")%string then
        committed <- loadCommitted sha256 json_manifest json_marker run step;;
        match committed with
        | Err _ => Ret (writeError 404 "checkpoint_not_found")
        | Ok loaded =>
            match Object_of (l_Manifest loaded) id with
            | Err _ => Ret (writeError 403 "object_not_authorized")
            | Ok object =>
                if Length object =? 0 then Ret (writeError 400 "empty_object") else
                match open_target w streamPath with
                | None => Ret (writeError 400 "invalid_ring")
                | Some (total, accepts) =>
                    if negb (total =? Length object) then Ret (writeError 400 "invalid_ring") else
                    res <- restore sha256 run step object accepts;;
                    match fst res with
                    | Err _ => Ret (writeError 422 "restore_failed")
                    | Ok receipt => Ret (MkResponse 200 (PReceipt receipt))
                    end
                end
            end
        end
      else Ret (writeError 405 "method_not_allowed")
  end.

(** The coordinator of the world is a CPU. *)
Definition cpuCoordinator (m : Manifest) : bool :=
  existsb (fun r => (r_Rank r =? 0) && (Hardware r =? "cpu")%string) (Ranks (m_World m)).

Definition handleCommit (w : world) (r : request) (run : string) (step : Z) (job rank : Z)
    : prog response :=
  if negb (rank =? 0) then Ret (writeError 403 "rank_zero_required") else
  let data := take (Z.to_nat (MaxManifestBytes + 1)) (body r) in
  if body_fails r || (MaxManifestBytes <? Z.of_nat (length data))
  then Ret (writeError 400 "invalid_manifest") else
  match DecodeManifest json_manifest data with
  | Err _ => Ret (writeError 400 "invalid_manifest")
  | Ok manifest =>
      if negb (RunID manifest =? run)%string || negb (GlobalStep manifest =? step)
         || negb (cpuCoordinator manifest)
      then Ret (writeError 400 "invalid_manifest") else
      res <- commit sha256 json_optimizer marker_json json_marker (w_now w) data manifest job;;
      match res with
      | Err _ => Ret (writeError 409 "commit_rejected")
      | Ok marker => Ret (MkResponse 200 (PMarker marker))
      end
  end.

Definition handleLatest (r : request) (run : string) : prog response :=
  match json_compat (header r "X-Checkpoint-Compatibility") with
  | None => Ret (writeError 400 "invalid_compatibility")
  | Some compatibility =>
      let go before :=
        res <- latest sha256 json_manifest json_marker run compatibility before;;
        match res with
        | Err _ => Ret (writeError 404 "checkpoint_not_found")
        | Ok result => Ret (MkResponse 200 (PLatest result))
        end in
      if (query_before r =? "")%string then go None else
      match parse_uint64 (query_before r) with
      | None => Ret (writeError 400 "invalid_before_step")
      | Some parsed => go (Some parsed)
      end
  end.

Definition handleCheckpoint (w : world) (s : server) (r : request) (parts : list string)
    : prog (server * response) :=
  match requestIdentity r with
  | Err _ => Ret (s, writeError 401 "invalid_identity")
  | Ok (job, rank) =>
      let run := nth 2 parts ""%string in
      if negb (streamPattern run) then Ret (s, writeError 400 "invalid_run") else
      match claimRun s run job with
      | (s', Err _) => Ret (s', writeError 403 "run_owner_mismatch")
      | (s', Ok _) =>
          let p3 := nth 3 parts ""%string in
          let p4 := nth 4 parts ""%string in
          let p5 := nth 5 parts ""%string in
          let n := length parts in
          if (n =? 4)%nat && (p3 =? "latest")%string && (Method r =? "GET")%string then
            resp <- handleLatest r run;; Ret (s', resp)
          else if negb (n =? 5)%nat && negb (n =? 6)%nat then Ret (s', writeError 404 "not_found")
          else
            match parse_uint64 p3 with
            | None => Ret (s', writeError 400 "invalid_step")
            | Some step =>
                if (n =? 6)%nat && (p4 =? "chunks")%string && streamPattern p5 then
                  resp <- handleChunk w s' r run step p5 job rank;; Ret (s', resp)
                else if (n =? 5)%nat && (p4 =? "commit")%string && (Method r =? "POST")%string then
                  resp <- handleCommit w r run step job rank;; Ret (s', resp)
                else Ret (s', writeError 404 "not_found")
            end
      end
  end.

Definition ServeHTTP (w : world) (s : server) (r : request) : prog (server * response) :=
  let parts := split_on "/" (trim_slashes (URLPath r)) in
  let p0 := nth 0 parts ""%string in
  let p1 := nth 1 parts ""%string in
  if (3 <=? length parts)%nat && (p0 =? "v1")%string && (p1 =? "transactions")%string then
    Ret (handleTransaction w s r parts)
  else if (4 <=? length parts)%nat && (p0 =? "v1")%string && (p1 =? "checkpoints")%string then
    handleCheckpoint w s r parts
  else Ret (s, writeError 404 "not_found").

End Handlers.

(** ** Keys *)

Lemma format_int_nonneg n : 0 <= n -> format_int n = format_uint n.
Proof. intros Hn. unfold format_int. by rewrite ->(proj2 (Z.ltb_ge _ _)) by lia. Qed.

(** The key of a job and rank determines both. *)
Lemma rank_key_inj job rk job' rk' :
  0 <= job -> 0 <= rk -> 0 <= job' -> 0 <= rk' ->
  rank_key job rk = rank_key job' rk' -> job = job' /\ rk = rk'.
Proof.
  intros ? ? ? ?. unfold rank_key. rewrite ->!format_int_nonneg by done.
  intros [E1%format_uint_inj E2%format_uint_inj]%sep_inj; try done;
    by apply format_uint_no_sep.
Qed.

(** ** The invariant of the transaction tables *)

Record wf (s : server) : Prop := {
  wf_active : forall id t, transactions s !! id = Some t ->
    active s !! rank_key (jobID t) (rank t) = Some id;
  wf_txn : forall k id, active s !! k = Some id ->
    exists t, transactions s !! id = Some t /\ k = rank_key (jobID t) (rank t);
  wf_id : forall id t, transactions s !! id = Some t -> id <> "" /\ 0 <= jobID t /\ 0 <= rank t }.

Lemma set_files_wf s fs : wf s -> wf (set_files s fs).
Proof. intros []. by split. Qed.

Lemma createTransaction_wf env s id job rk reqs s' res :
  id <> "" -> 0 <= job -> 0 <= rk ->
  createTransaction env s id job rk reqs = (s', res) -> wf s -> wf s'.
Proof.
  intros Hid Hj Hr Hc Hwf. unfold createTransaction in Hc.
  repeat match type of Hc with
    | (if ?c then _ else _) = _ => let E := fresh "E" in destruct c eqn:E; [by simplify_eq|]
    end.
  destruct (create_streams _ _ _ _ _ _) as [[strs|e] fs]; simplify_eq; [|by apply set_files_wf].
  destruct Hwf as [Ha Ht Hi]. apply bool_decide_eq_false, eq_None_not_Some in E0. bool_hyps.
  assert (active s !! rank_key job rk = None) as Hn.
  { destruct (active s !! rank_key job rk) as [cur|] eqn:Ek; [|done]. simpl in *. subst.
    destruct (Ht _ _ Ek) as (t & Hlt & _). by destruct (Hi _ _ Hlt). }
  split; simpl.
  - intros id' t. rewrite ->lookup_insert_Some. intros [[<- <-]|[Hne Hl]]; simpl.
    + by rewrite ->lookup_insert_eq.
    + rewrite ->lookup_insert_ne; [by apply Ha|]. intros Ek. apply Ha in Hl. congruence.
  - intros k id'. rewrite ->lookup_insert_Some. intros [[<- <-]|[Hne Hl]].
    + eexists. by rewrite ->lookup_insert_eq.
    + destruct (Ht _ _ Hl) as (t & Hlt & ->). exists t. split; [|done].
      rewrite ->lookup_insert_ne; [done|]. congruence.
  - intros id' t. rewrite ->lookup_insert_Some. intros [[<- <-]|[_ Hl]]; [done|by apply Hi].
Qed.

Lemma deleteTransaction_wf env s id job rk s' res :
  deleteTransaction env s id job rk = (s', res) -> wf s -> wf s'.
Proof.
  intros Hd Hwf. unfold deleteTransaction in Hd.
  destruct (transactions s !! id) as [t|] eqn:El; [|by simplify_eq].
  destruct (negb _) eqn:Eo; [by simplify_eq|]. unfold owned_by in Eo. bool_hyps. subst.
  destruct Hwf as [Ha Ht Hi]. destruct (Hi _ _ El) as (_ & ? & ?).
  assert (wf (MkServer (sharedRoot s) (clusterUID s) (budget s) (delete id (transactions s))
    (delete (rank_key (jobID t) (rank t)) (active s)) (runOwners s) (files s))) as Hwf'.
  { split; simpl.
    - intros id' t'. rewrite ->lookup_delete_Some. intros [Hne Hl].
      rewrite ->lookup_delete_ne; [by apply Ha|]. intros Ek. apply Ha in Hl as Hl'.
      apply Ha in El. congruence.
    - intros k id'. rewrite ->lookup_delete_Some. intros [Hne Hl].
      destruct (Ht _ _ Hl) as (t' & Hlt & ->). exists t'. split; [|done].
      rewrite ->lookup_delete_ne; [done|]. intros <-. simplify_eq.
    - intros id' t'. rewrite ->lookup_delete_Some. intros [_ Hl]. by apply (Hi id'). }
  case_match; simplify_eq; [by apply set_files_wf|done].
Qed.

Lemma claimRun_wf s run job s' res : claimRun s run job = (s', res) -> wf s -> wf s'.
Proof. unfold claimRun. intros Hc []. case_match; simplify_eq; by split. Qed.

Lemma requestIdentity_range r job rk :
  requestIdentity r = Ok (job, rk) -> 0 < job <= uint64_max /\ 0 <= rk <= 65535.
Proof.
  unfold requestIdentity. destruct (parse_uint64 _) as [j|] eqn:Ej; [|done].
  destruct (j =? 0) eqn:E0; [done|]. destruct (parse_int64 _) as [k|]; [|done].
  destruct (_ || _) eqn:Ek; [done|]. intros [= <- <-]. bool_hyps.
  apply parse_uint64_range in Ej. lia.
Qed.

Lemma transactionPattern_nonempty id : transactionPattern id = true -> id <> "".
Proof. by intros H ->. Qed.

Lemma handleTransaction_wf json_create w s r parts s' resp :
  handleTransaction json_create w s r parts = (s', resp) -> wf s -> wf s'.
Proof.
  unfold handleTransaction. destruct (_ || _) eqn:E0; [by intros [= <- _]|]. bool_hyps.
  destruct (requestIdentity r) as [[job rk]|] eqn:Ei; [|by intros [= <- _]].
  apply requestIdentity_range in Ei as [? ?]. intros H' Hwf.
  destruct (Method r =? "POST")%string.
  - destruct (json_create _) as [reqs|]; [|by simplify_eq].
    destruct (createTransaction _ _ _ _ _ _) as [s1 [c|e]] eqn:Ec; simplify_eq;
      (eapply createTransaction_wf; [| | |exact Ec|done]; [by apply transactionPattern_nonempty|lia..]).
  - destruct (Method r =? "DELETE")%string; [|by simplify_eq].
    destruct (deleteTransaction _ _ _ _ _) as [s1 [[]|e]] eqn:Ed; simplify_eq;
      by eapply deleteTransaction_wf.
Qed.

(** ** The rings of a new transaction *)

Lemma slot_bytes_bounds perStream :
  Ring.HeaderSize + Ring.DefaultSlots * Ring.MinSlotSize < perStream ->
  Ring.MinSlotSize <= slot_bytes perStream <= Ring.MaxSlotSize
  /\ slot_bytes perStream mod 4096 = 0
  /\ Ring.HeaderSize + Ring.DefaultSlots * slot_bytes perStream <= perStream.
Proof.
  unfold slot_bytes, Ring.HeaderSize, Ring.DefaultSlots.
  change Ring.MinSlotSize with (256 * 4096). change Ring.MaxSlotSize with (4096 * 4096).
  intros Hp. set (q := (perStream - 4096) / 8).
  assert (256 * 4096 <= q) by (apply Z.div_le_lower_bound; lia).
  assert (8 * q <= perStream - 4096) by (apply Z.mul_div_le; lia).
  set (x := if 4096 * 4096 <? q then 4096 * 4096 else q).
  assert (256 * 4096 <= x <= 4096 * 4096 /\ x <= q) as [Hx Hxq] by (unfold x; case_match eqn:E; bool_hyps; lia).
  pose proof (Z.div_mod x 4096 ltac:(lia)) as Hd. pose proof (Z.mod_pos_bound x 4096 ltac:(lia)).
  replace (x - x mod 4096) with (x / 4096 * 4096) by lia.
  rewrite ->Z.mod_mul by lia. assert (256 <= x / 4096) by (apply Z.div_le_lower_bound; lia). lia.
Qed.

Lemma filepath_join_nonempty d name : filepath_join [d; name +:+ ".ring"] <> "".
Proof.
  unfold filepath_join.
  assert ((name +:+ ".ring" =? "")%string = false) as E by (apply String.eqb_neq; by destruct name).
  cbn [List.filter]. rewrite ->E. cbn [negb]. case_match eqn:Ef; [by destruct (d =? "")%string|].
  apply path_clean_nonempty.
Qed.

(** A stream's file holds a ring of the negotiated geometry. *)
Definition stream_ring (fs : gmap string Ring.mapping) (slotBytes : Z) (r : streamRequest)
    (e : string * string) : Prop :=
  fst e = Name r /\ snd e <> "" /\
  exists m, fs !! snd e = Some m /\ forall p,
    Ring.Open (Some (true, m)) p =
      Ok (Ring.MkRing Ring.DefaultSlots slotBytes (s_ByteLength r) 0 0 0 p).

Lemma stream_ring_mono fs fs' sb r e : fs ⊆ fs' -> stream_ring fs sb r e -> stream_ring fs' sb r e.
Proof. intros Hs (? & ? & m & ? & ?). split_and!; try done. exists m. split; [by eapply lookup_weaken|done]. Qed.

Lemma map_get_None {V} (m : gomap V) k : map_get m k = None <-> k ∉ m.*1.
Proof.
  induction m as [|[k' v] m IH]; cbn [map_get].
  { split; [|done]. intros _. apply not_elem_of_nil. }
  rw fmap_cons not_elem_of_cons -IH /=. destruct (k =? k')%string eqn:E; bool_hyps; naive_solver.
Qed.

Lemma map_get_Some {V} (m : gomap V) k v : NoDup m.*1 -> (k, v) ∈ m -> map_get m k = Some v.
Proof.
  induction m as [|[k' v'] m IH]; cbn [map_get]; intros Hn Hin; [by apply not_elem_of_nil in Hin|].
  apply NoDup_cons in Hn as [Hk Hn]. apply elem_of_cons in Hin as [[= -> ->]|Hin].
  - by rewrite ->String.eqb_refl.
  - destruct (k =? k')%string eqn:E; bool_hyps; [|by apply IH]. subst. exfalso. apply Hk. simpl.
    apply list_elem_of_fmap. by exists (k', v).
Qed.

Lemma create_streams_sound env d sb reqs acc fs strs fs' :
  Forall (fun r => 0 <= s_ByteLength r) reqs ->
  create_streams env d sb reqs acc fs = (Ok strs, fs') ->
  fs ⊆ fs' /\ (NoDup acc.*1 -> NoDup strs.*1) /\
  exists new, strs = acc ++ new /\ Forall2 (stream_ring fs' sb) reqs new.
Proof.
  revert acc fs. induction reqs as [|r reqs IH]; intros acc fs Ht; cbn [create_streams].
  { intros [= <- <-]. split_and!; [done..|]. exists []. by rw app_nil_r. }
  apply Forall_cons in Ht as [Hr Ht].
  destruct (_ || _) eqn:E1; [done|]. destruct (bool_decide _) eqn:E2; [done|].
  destruct (initialize_file _ _ _ _ _ _) as [fs1|] eqn:Ei; [|done].
  unfold initialize_file in Ei. destruct (Ring.Initialize _ _ _) as [m|] eqn:Er; [|done].
  destruct (bool_decide (is_Some (fs !! _)) || _) eqn:E3; simplify_eq. bool_hyps.
  intros (Hs & Hnd & new & -> & Hf)%IH; [|done].
  set (path := filepath_join _) in *.
  assert (fs !! path = None) as Hn by (by apply eq_None_not_Some).
  split_and!.
  - etrans; [by apply insert_subseteq|done].
  - intros Ha. apply Hnd. rewrite ->fmap_app, NoDup_app. split_and!; [done| |apply NoDup_singleton].
    intros k Hk ->%list_elem_of_singleton. apply eq_None_not_Some, map_get_None in E2. by simpl in *.
  - exists ((Name r, path) :: new). rewrite <-app_assoc. split; [done|]. constructor; [|done].
    split; [done|]. split; [apply filepath_join_nonempty|]. exists m. split.
    + eapply lookup_weaken; [|exact Hs]. by rewrite ->lookup_insert_eq.
    + intros p. by eapply Ring.initialize_open in Er as [? _].
Qed.

(** A transaction that is accepted gives every requested stream, under
    its own name, a ring that opens with the declared length and the reported
    geometry; the owner is served those paths; and all the rings together fit
    the shared-memory budget. *)
Theorem transaction_rings_ready env s id job rk reqs s' c :
  Forall (fun r => 0 <= s_ByteLength r) reqs ->
  createTransaction env s id job rk reqs = (s', Ok c) ->
  Forall2 (stream_ring (files s') (SlotBytes c)) reqs (c_Streams c) /\
  (forall name path, (name, path) ∈ c_Streams c -> transactionStream s' id name job rk = Ok path) /\
  Ring.MinSlotSize <= SlotBytes c <= Ring.MaxSlotSize /\ SlotBytes c mod 4096 = 0 /\
  Z.of_nat (length reqs) * (Ring.HeaderSize + Slots c * SlotBytes c) <= budget s.
Proof.
  intros Ht Hc. unfold createTransaction in Hc.
  repeat match type of Hc with
    | (if ?c then _ else _) = _ => let E := fresh "E" in destruct c eqn:E; [done|]
    end.
  destruct (create_streams _ _ _ _ _ _) as [[strs|e] fs] eqn:Es; simplify_eq/=. bool_hyps.
  apply create_streams_sound in Es as (_ & Hnd & new & -> & Hf); [|done]. simpl in *.
  pose proof (slot_bytes_bounds _ E2) as (Hb & Hm & Hfit). split_and!; try done; try lia.
  - intros name path Hin. unfold transactionStream. simpl. rewrite ->lookup_insert_eq.
    unfold owned_by. simpl. rewrite ->!Z.eqb_refl. simpl.
    rewrite ->(map_get_Some _ _ path) by (done || apply Hnd; constructor). simpl.
    destruct (path =? "")%string eqn:Ep; [|done]. bool_hyps. subst.
    apply list_elem_of_lookup in Hin as (i & Hi).
    destruct (Forall2_lookup_r _ _ _ _ _ Hf Hi) as (r & _ & _ & Hne & _). done.
  - pose proof (Z.mul_div_le (budget s) (Z.of_nat (length reqs)) ltac:(lia)). nia.
Qed.

(** ** Properties of the server *)

Section Server.
Context `{ObjectService}.
Variable sha256 : list Z -> string.
Variable json_manifest : list Z -> option Manifest.
Variable json_optimizer : list Z -> option OptimizerState.
Variable marker_json : CommitMarker -> list Z.
Variable json_marker : list Z -> option CommitMarker.
Variable json_create : list Z -> option (list streamRequest).
Variable json_compat : string -> option Compatibility.

Abbreviation serve_http :=
  (ServeHTTP sha256 json_manifest json_optimizer marker_json json_marker json_create json_compat).
Abbreviation handle_checkpoint :=
  (handleCheckpoint sha256 json_manifest json_optimizer marker_json json_marker json_compat).

(** The state a checkpoint request leaves is the one [claimRun] returned. *)
Lemma handleCheckpoint_state w s r parts b b' s' resp :
  exec (handle_checkpoint w s r parts) b b' (s', resp) ->
  s' = s \/ exists run job res, claimRun s run job = (s', res).
Proof.
  unfold handleCheckpoint. destruct (requestIdentity r) as [[job rk]|]; [|intros [_ [= ->]]; by left].
  destruct (negb _); [intros [_ [= ->]]; by left|].
  destruct (claimRun s (nth 2 parts ""%string) job) as [s1 [[]|e]] eqn:Ec;
    [|intros [_ [= -> _]]; right; eauto].
  intros He. right. exists (nth 2 parts ""%string), job, (Ok tt).
  repeat match type of He with
    | exec (if ?c then _ else _) _ _ _ => destruct c
    | exec (match ?c with _ => _ end) _ _ _ => destruct c
    | exec (bind _ _) _ _ _ => apply exec_bind in He as (? & ? & _ & He)
    end; destruct He as [_ [= -> _]]; done.
Qed.

(** C34: every request keeps the transaction tables consistent: a job's rank
    has at most one transaction, the table of active transactions and the
    table of transactions describe the same set, and identifiers are valid. *)
Theorem requests_keep_tables w s r b b' s' resp :
  wf s -> exec (serve_http w s r) b b' (s', resp) ->
  wf s' /\
  forall id1 id2 t1 t2, transactions s' !! id1 = Some t1 -> transactions s' !! id2 = Some t2 ->
    jobID t1 = jobID t2 -> rank t1 = rank t2 -> id1 = id2.
Proof.
  intros Hwf He. assert (wf s') as Hwf'.
  { unfold ServeHTTP in He. destruct (_ && _ && _).
    { destruct He as [_ He]. symmetry in He. by eapply handleTransaction_wf. }
    destruct (_ && _ && _); [|destruct He as [_ [= -> _]]; done].
    apply handleCheckpoint_state in He as [->|(run & job & res & Hc)]; [done|].
    by eapply claimRun_wf. }
  split; [done|]. intros id1 id2 t1 t2 H1 H2 Hj Hr.
  apply (wf_active _ Hwf') in H1, H2. congruence.
Qed.

(** ** Who may write what *)

Definition no_slash (s : string) : bool := string_forallb (fun c => negb (bool_decide (c = "/"%char))) s.

Lemma no_slash_app s t : no_slash (s +:+ t) = no_slash s && no_slash t.
Proof. apply string_forallb_app. Qed.

Lemma no_slash_char c : is_alnum c || one_of ["."; "_"; "-"]%char c = true ->
  negb (bool_decide (c = "/"%char)) = true.
Proof. intros Hc. apply negb_true_iff, bool_decide_eq_false. by intros ->. Qed.

Lemma streamPattern_no_slash run : streamPattern run = true -> no_slash run = true.
Proof.
  unfold streamPattern, idPattern, ident_pattern, no_slash. destruct run as [|c run]; [done|].
  intros. bool_hyps. cbn [string_forallb]. apply andb_true_iff. split.
  - apply no_slash_char. apply orb_true_iff. by left.
  - eapply string_forallb_impl; [|done]. apply no_slash_char.
Qed.

Lemma zeros_no_slash n : no_slash (zeros n) = true.
Proof. induction n; [done|]. by cbn. Qed.

Lemma pad_no_slash n : 0 <= n -> no_slash (pad_uint 8 n) = true.
Proof.
  intros Hn. unfold pad_uint. rewrite ->no_slash_app, zeros_no_slash. by apply format_uint_no_sep.
Qed.

Lemma pad_uint_inj n m :
  0 <= n <= uint64_max -> 0 <= m <= uint64_max -> pad_uint 8 n = pad_uint 8 m -> n = m.
Proof.
  intros Hn Hm E. apply (parse_pad_uint 8) in Hn, Hm. rewrite ->E in Hn. congruence.
Qed.

(** The part of a key behind [checkpoints/<run>/]. *)
Lemma key_split run run' rest rest' :
  no_slash run = true -> no_slash run' = true ->
  "checkpoints/" +:+ run +:+ String "/" rest = "checkpoints/" +:+ run' +:+ String "/" rest' ->
  run = run' /\ rest = rest'.
Proof. intros H1 H2 E%sapp_inj_l. by apply sep_inj in E. Qed.

Lemma stepKey_app run step tail :
  stepKey run step +:+ tail = "checkpoints/" +:+ run +:+ String "/" ("step_" +:+ pad_uint 8 step +:+ tail).
Proof. unfold stepKey. by rw !sapp_assoc. Qed.

Lemma markerKey_inj run step run' step' :
  no_slash run = true -> no_slash run' = true ->
  0 <= step <= uint64_max -> 0 <= step' <= uint64_max ->
  markerKey run step = markerKey run' step' -> run = run' /\ step = step'.
Proof.
  intros Hr Hr' Hs Hs'. unfold markerKey. rewrite ->!stepKey_app. intros E.
  apply key_split in E as [-> E%sapp_inj_l]; [|done..]. split; [done|].
  apply pad_uint_inj; [done..|].
  assert (cut_suffix ".complete" (pad_uint 8 step +:+ ".complete") =
          cut_suffix ".complete" (pad_uint 8 step' +:+ ".complete")) as E' by (by rewrite ->E).
  rewrite ->!cut_suffix_app in E'. congruence.
Qed.

(** No storage path makes an uploaded object take the key of a marker. *)
Lemma objectKey_not_marker run step path run' step' :
  no_slash run = true -> no_slash run' = true -> 0 <= step' ->
  objectKey run step path <> markerKey run' step'.
Proof.
  intros Hr Hr' Hs. unfold objectKey, markerKey. rewrite ->!stepKey_app. intros E.
  apply key_split in E as [_ E%sapp_inj_l]; [|done..].
  assert (no_slash (pad_uint 8 step' +:+ ".complete") = true) as Hn
    by (by rewrite ->no_slash_app, pad_no_slash).
  rewrite <-E, no_slash_app in Hn. bool_hyps. done.
Qed.

Lemma read_only_compareExistingHash key info path size hash :
  read_only (compareExistingHash sha256 key info path size hash).
Proof.
  unfold compareExistingHash. case_match; [done|].
  apply read_only_try; [apply read_only_hashRange|]. intros h. case_match; done.
Qed.

Lemma upload_issues run step path source size b key b1 :
  issues (upload sha256 run step path source size) b key b1 -> key = objectKey run step path.
Proof.
  unfold upload. intros [Hi|(b2 & r & _ & Hi)]%issues_bind.
  { apply issues_call in Hi as (? & ? & [=] & _). }
  destruct r as [info|e].
  { exfalso. revert Hi. apply read_only_issues. unfold compareExisting. case_match; [done|].
    apply read_only_compareExistingHash. }
  destruct (negb _); [done|]. apply issues_bind in Hi as [Hi|(b3 & put & _ & Hi)].
  { by apply issues_call in Hi as (? & ? & [=] & _). }
  exfalso. revert Hi. apply read_only_issues. destruct put as [|[e' c]]; [done|].
  case_match; [|done]. apply read_only_bind; [done|]. intros [info|]; [|done].
  apply read_only_compareExistingHash.
Qed.

Lemma read_only_first_valid run want steps :
  read_only (first_valid sha256 json_manifest json_marker run want steps).
Proof.
  induction steps as [|step steps IH]; cbn [first_valid]; [done|].
  apply read_only_bind; [apply read_only_loadCommitted|]. intros [res|]; [|done].
  case_match; [done|]. apply read_only_bind; [apply read_only_verifyObjects|]. by intros [[]|].
Qed.

Lemma read_only_handleLatest r run :
  read_only (handleLatest sha256 json_manifest json_marker json_compat r run).
Proof.
  assert (forall want before, read_only
    (res <- latest sha256 json_manifest json_marker run want before;;
     match res with
     | Err _ => Ret (writeError 404 "checkpoint_not_found")
     | Ok result => Ret (MkResponse 200 (PLatest result))
     end)) as Hgo.
  { intros want before. apply read_only_bind; [|by intros [|]].
    unfold latest. apply read_only_bind; [done|]. intros items. case_match; [|done].
    apply read_only_first_valid. }
  unfold handleLatest. repeat case_match; done.
Qed.

(** A chunk request puts at most the object it names. *)
Lemma handleChunk_issues w s r run step id job rk b key b1 :
  issues (handleChunk sha256 json_manifest json_marker w s r run step id job rk) b key b1 ->
  exists path, ValidStoragePath path = true /\ key = objectKey run step path.
Proof.
  unfold handleChunk. destruct (transactionStream _ _ _ _ _) as [sp|]; [|done].
  destruct (Method r =? "PUT")%string.
  - destruct (negb (ValidStoragePath _)) eqn:Ev; [done|].
    destruct (open_source w sp) as [[source total]|]; [|done].
    intros [Hi|(b2 & [rc|e] & _ & Hi)]%issues_bind; [|done|done].
    apply upload_issues in Hi. bool_hyps. eauto.
  - intros Hi. exfalso. revert Hi. apply read_only_issues. case_match; [|done].
    apply read_only_bind; [apply read_only_loadCommitted|]. intros [l|]; [|done].
    repeat (case_match; try done). apply read_only_bind; [by intros [d|]; simpl; repeat case_match|].
    intros [[|] ?]; done.
Qed.

(** The authority to commit a step of a run: the request authenticates as rank
    0 of a job to which the run belongs, and its manifest is a valid manifest
    of that run and step coordinated by a CPU. *)
Definition may_commit (s : server) (r : request) (run : string) (step : Z)
    (data : list Z) (m : Manifest) : Prop :=
  (exists job, requestIdentity r = Ok (job, 0) /\
     (runOwners s !! run = None \/ runOwners s !! run = Some 0 \/ runOwners s !! run = Some job)) /\
  Method r = "POST" /\ Validate m = Ok tt /\ json_manifest data = Some m /\
  RunID m = run /\ GlobalStep m = step /\ cpuCoordinator m = true.

Lemma claimRun_owner s run job s' :
  claimRun s run job = (s', Ok tt) ->
  runOwners s !! run = None \/ runOwners s !! run = Some 0 \/ runOwners s !! run = Some job.
Proof.
  unfold claimRun. destruct (_ && _) eqn:E; [done|]. intros _.
  destruct (runOwners s !! run) as [o|]; [|by left]. simpl in E.
  apply andb_false_iff in E as [E|E]; bool_hyps; subst; auto.
Qed.

(** C27: whatever requests arrive, a commit marker is only ever put on behalf
    of rank 0 of the job that owns the run, for a validated manifest of that
    run and step with a CPU coordinator, and at a moment when everything the
    manifest references is stored and verified; no upload can take the key of
    a marker. *)
Theorem only_commits_write_markers w s r run step b b1 :
  (forall d m, json_manifest d = Some m -> Forall object_typed (Objects m)) ->
  (forall d m, json_manifest d = Some m -> 0 <= GlobalStep m <= uint64_max) ->
  no_slash run = true -> 0 <= step <= uint64_max ->
  issues (serve_http w s r) b (markerKey run step) b1 ->
  exists data m, may_commit s r run step data m
    /\ committable sha256 json_optimizer b1 data m.
Proof.
  intros Hty Hst Hrun Hstep. unfold ServeHTTP.
  destruct (_ && _ && _); [done|]. destruct (_ && _ && _); [|done].
  unfold handleCheckpoint. destruct (requestIdentity r) as [[job rk]|] eqn:Ei; [|done].
  destruct (negb (streamPattern _)) eqn:Ep; [done|]. bool_hyps.
  set (run' := nth 2 _ ""%string) in *. apply streamPattern_no_slash in Ep.
  destruct (claimRun s run' job) as [s1 [[]|e]] eqn:Ec; [|done]. apply claimRun_owner in Ec.
  destruct (_ && _ && _).
  { intros [Hi|(? & ? & _ & [])]%issues_bind. exfalso. revert Hi.
    apply read_only_issues, read_only_handleLatest. }
  destruct (_ && _); [done|]. destruct (parse_uint64 _) as [step'|] eqn:Es; [|done].
  apply parse_uint64_range in Es. destruct (_ && _ && _).
  { intros [Hi|(? & ? & _ & [])]%issues_bind.
    apply handleChunk_issues in Hi as (path & _ & E). symmetry in E.
    by apply objectKey_not_marker in E; [..|lia]. }
  destruct (_ && _ && _) eqn:Em; [|done]. bool_hyps.
  intros [Hi|(? & ? & _ & [])]%issues_bind. unfold handleCommit in Hi.
  destruct (negb (rk =? 0)) eqn:Er; [done|]. bool_hyps. subst rk.
  set (data := take _ (body r)) in *. destruct (_ || _); [done|].
  destruct (DecodeManifest json_manifest data) as [m|] eqn:Ed; [|done].
  destruct (_ || _ || _) eqn:Eg; [done|]. bool_hyps.
  apply issues_bind in Hi as [Hi|(? & [mk|e] & _ & Hi)]; [|done|done].
  apply DecodeManifest_json in Ed as [Hj Hv].
  assert (markerKey run step = markerKey (RunID m) (GlobalStep m)) as E.
  { eapply commit_issues_key in Hi as [E|E]; [|done]. exfalso. symmetry in E.
    revert E. subst run'. unfold manifestKey. apply objectKey_not_marker; congruence || lia. }
  apply markerKey_inj in E as [-> ->]; [|done|congruence|done|by eapply Hst].
  exists data, m. split.
  - split_and!; try done; [|congruence..]. exists job. split; [done|]. congruence.
  - eapply marker_put_last; [by eapply Hty|exact Hi].
Qed.

End Server.
(** ** Witnesses *)

Module FlusherSamples.
Import Samples.

Definition id1 : string := "0123456789abcdef0123456789abcdef".
Definition fs : fs_env := MkFsEnv true (fun _ => true) true.
Definition start : server := MkServer "/dev/shm/ai-orch" "uid" 67108864 ∅ ∅ ∅ ∅.
Definition one_stream : list streamRequest := [MkStream "out" 100].

Definition w : world := MkWorldEnv fs now (fun _ => None) (fun _ => None).
Definition json_create (_ : list Z) : option (list streamRequest) := Some one_stream.
Definition json_compat (_ : string) : option Compatibility := Some want.
Definition identity : gomap string := [("X-Slurm-Job-Id", "9"); ("X-Slurm-Proc-Id", "0")]%string.

Definition create_request : request :=
  MkRequest "POST" ("/v1/transactions/" +:+ id1) identity "" [123] false.
Definition commit_request : request :=
  MkRequest "POST" "/v1/checkpoints/run/7/commit" identity "" manifest_bytes false.

Definition serve_sample (r : request) : prog (server * response) :=
  ServeHTTP sha256 json_manifest json_optimizer marker_json json_marker json_create json_compat w start r.

Lemma start_wf : wf start.
Proof. split; simpl; intros *; by rewrite ->lookup_empty. Qed.

End FlusherSamples.

Lemma transaction_rings_ready_witness :
  exists s' c, createTransaction FlusherSamples.fs FlusherSamples.start FlusherSamples.id1 9 0
                 FlusherSamples.one_stream = (s', Ok c)
    /\ 1 * (Ring.HeaderSize + Slots c * SlotBytes c) <= 67108864.
Proof.
  destruct (createTransaction FlusherSamples.fs FlusherSamples.start FlusherSamples.id1 9 0
              FlusherSamples.one_stream) as [s' [c|e]] eqn:E.
  - exists s', c. split; [reflexivity|].
    eapply (transaction_rings_ready FlusherSamples.fs FlusherSamples.start FlusherSamples.id1 9 0
              FlusherSamples.one_stream s' c); [|exact E].
    repeat constructor; simpl; lia.
  - exfalso. assert (is_ok (snd (createTransaction FlusherSamples.fs FlusherSamples.start
      FlusherSamples.id1 9 0 FlusherSamples.one_stream)) = true) as Hok by (vm_compute; reflexivity).
    rewrite ->E in Hok. discriminate.
Defined.

Lemma requests_keep_tables_witness :
  wf (fst (snd (run (FlusherSamples.serve_sample FlusherSamples.create_request) ∅))).
Proof.
  refine (proj1 (requests_keep_tables Samples.sha256 Samples.json_manifest Samples.json_optimizer
    Samples.marker_json Samples.json_marker FlusherSamples.json_create FlusherSamples.json_compat
    FlusherSamples.w FlusherSamples.start FlusherSamples.create_request ∅ _ _
    (snd (snd (run (FlusherSamples.serve_sample FlusherSamples.create_request) ∅)))
    FlusherSamples.start_wf _)).
  rewrite <-surjective_pairing. apply (run_exec (FlusherSamples.serve_sample FlusherSamples.create_request)).
Defined.

Lemma only_commits_write_markers_witness :
  exists data m, may_commit Samples.json_manifest FlusherSamples.start FlusherSamples.commit_request
                   "run" 7 data m
    /\ committable Samples.sha256 Samples.json_optimizer
         (<[manifestKey "run" 7 := Samples.manifest_bytes]> Samples.objects) data m.
Proof.
  eapply (only_commits_write_markers Samples.sha256 Samples.json_manifest Samples.json_optimizer
    Samples.marker_json Samples.json_marker FlusherSamples.json_create FlusherSamples.json_compat
    FlusherSamples.w FlusherSamples.start FlusherSamples.commit_request "run" 7 Samples.objects).
  - exact Samples.json_typed.
  - intros d m [= <-]. simpl. pow2. lia.
  - vm_compute. reflexivity.
  - pow2. lia.
  - apply run_puts_issues, (bool_decide_unpack _). vm_compute. reflexivity.
Defined.

End Flusher.
