(* ===== verification/SlurmClient.v ===== *)
(** * SlurmClient: the Slurm REST client
    ([src/slurm-operator/internal/slurm/client.go])

    The decoded responses of the REST API, the classification of job states,
    and hostlist expansion.  An HTTP exchange is a value ([exchange]); the
    requests are built in [SlurmRest], and the JSON decoder is outside. *)

From S2P Require Import Prelude GoStrings.

Module SlurmClient.

(** ** Data *)

Record PendingJob := MkPending {
  pj_ID : Z; pj_Partition : string; pj_Reason : string; Requeued : bool; Priority : Z;
  EligibleTime : Z; pj_HetJobID : Z; CPUs : Z; NodeCount : Z; Tasks : Z; CPUsPerTask : Z;
  TasksPerNode : Z; MemoryPerCPU : Z; MemoryPerNode : Z; CPUsPerTRES : string;
  MemoryPerTRES : string; TRESPerJob : string; TRESPerNode : string; TRESPerSocket : string;
  TRESPerTask : string; TRESRequested : string; RequiredNodes : string; Features : string }.

(** The job record of the API; [slurmNumber] fields are their [Value]. *)
Record job := MkJobRecord {
  ID : Z; Partition : string; State_Current : list string; JobState_Current : list string;
  Reason : string; j_Priority : Z; j_EligibleTime : Z; HetJobID : Z; j_CPUs : Z; j_NodeCount : Z;
  j_Tasks : Z; j_CPUsPerTask : Z; j_TasksPerNode : Z; j_MemoryPerCPU : Z; j_MemoryPerNode : Z;
  j_CPUsPerTRES : string; j_MemoryPerTRES : string; j_TRESPerJob : string; j_TRESPerNode : string;
  j_TRESPerSocket : string; j_TRESPerTask : string; j_TRESRequested : string;
  j_RequiredNodes : string; j_Features : string; j_Nodes : string }.

Record apiError := MkApiError { Description : string; Error : string }.

Record Job := MkJob {
  J_ID : Z; J_HetJobID : Z; J_State : list string; J_Reason : string; J_Nodes : list string }.

Record Node := MkNode {
  n_Name : string; n_State : list string; Reservation : string; AllocCPUs : Z; AllocMemory : Z;
  GRESUsed : string }.

Inductive client_error :=
| TransportFailed | HttpStatus (code : Z) | BadBody | ResponseTooLarge | ApiErrors (message : string)
| BadHostlist | BadRange (option : string) | HostlistTooLong | NotRegistered (cluster : string)
| BadSignal | LoopDoesNotEnd.

(** ** Requests *)

(** [json.Unmarshal] of a [slurmNumber]: a number, or an object with
    [number] and [infinite]. *)
Inductive number_json := NDirect (v : Z) | NWrapped (number : Z) (infinite : bool) | NInvalid.

Definition slurmNumber_UnmarshalJSON (j : number_json) : option Z :=
  match j with
  | NDirect v => Some v
  | NWrapped number infinite => if infinite then None else Some number
  | NInvalid => None
  end.

(** [json.Unmarshal] of a [jobState]: a list of states, or an object with
    [current]. *)
Inductive state_json := SDirect (current : list string) | SWrapped (current : list string) | SInvalid.

Definition jobState_UnmarshalJSON (j : state_json) : option (list string) :=
  match j with
  | SDirect current | SWrapped current => Some current
  | SInvalid => None
  end.

(** What the server answered: the status, the decoded body ([None] when it
    does not decode or has trailing data) and the number of body bytes. *)
Record exchange (A : Type) := MkExchange { x_status : Z; x_body : option A; x_length : Z }.
Arguments MkExchange {A} _ _ _.
Arguments x_status {A} _.
Arguments x_body {A} _.
Arguments x_length {A} _.

Definition maxResponseBytes : Z := Z.shiftl 8 20.

(** [request]: [None] inside [Ok] when the call has no output or the status is
    204 (the output keeps its zero value). *)
Definition request {A} (has_output : bool) (answer : option (exchange A))
    : result client_error (option A) :=
  match answer with
  | None => Err TransportFailed
  | Some x =>
      reject_if (x_status x <? 200) || (300 <=? x_status x) with HttpStatus (x_status x) in
      if negb has_output || (x_status x =? 204) then Ok None else
      match x_body x with
      | None => Err BadBody
      | Some a =>
          reject_if maxResponseBytes <? x_length x with ResponseTooLarge in
          Ok (Some a)
      end
  end.

Definition responseError (errs : list apiError) : result client_error unit :=
  match errs with
  | [] => Ok tt
  | _ => Err (ApiErrors (join "; " (map (fun e =>
           if (Description e =? "")%string then Error e else Description e) errs)))
  end.

(** ** Job states *)

Definition contains_state (states : list string) (st : string) : bool := bool_decide (st ∈ states).

Definition requeuedState (states : list string) (reason : string) : bool :=
  if contains_state states "PENDING" then false
  else contains_state states "REQUEUED" || contains_state states "REQUEUE_HOLD"
       || contains_state states "SPECIAL_EXIT"
       || (contains_state states "CANCELLED" && equal_fold reason "job_requeued_in_held_state").

Definition RootID (j : Job) : Z := if negb (J_HetJobID j =? 0) then J_HetJobID j else J_ID j.

Definition Pending (j : Job) : bool :=
  contains_state (J_State j) "PENDING" || requeuedState (J_State j) (J_Reason j).

Definition terminal_states : list string :=
  ["BOOT_FAIL"; "CANCELLED"; "COMPLETED"; "DEADLINE"; "FAILED"; "NODE_FAIL"; "OUT_OF_MEMORY";
   "PREEMPTED"; "REVOKED"; "TIMEOUT"]%string.

Definition Terminal (j : Job) : bool :=
  existsb (contains_state terminal_states) (J_State j) && negb (Pending j).

Definition UsesAnyNode (j : Job) (names : gset string) : bool :=
  existsb (fun n => bool_decide (n ∈ names)) (J_Nodes j).

(** [states := job.State.Current; if len(states) == 0 { ... }] *)
Definition states_of (j : job) : list string :=
  match State_Current j with [] => JobState_Current j | l => l end.

Definition fetchJobs (answer : option (exchange (list apiError * list job)))
    : result client_error (list job) :=
  let! out := request true answer in
  let '(errs, jobs) := default ([], []) out in
  let! _ := responseError errs in
  Ok jobs.

Definition pending_of (j : job) : PendingJob :=
  MkPending (ID j) (Partition j) (Reason j) (requeuedState (states_of j) (Reason j))
    (j_Priority j) (j_EligibleTime j) (wrapu32 (HetJobID j)) (j_CPUs j) (j_NodeCount j) (j_Tasks j)
    (j_CPUsPerTask j) (j_TasksPerNode j) (j_MemoryPerCPU j) (j_MemoryPerNode j) (j_CPUsPerTRES j)
    (j_MemoryPerTRES j) (j_TRESPerJob j) (j_TRESPerNode j) (j_TRESPerSocket j) (j_TRESPerTask j)
    (j_TRESRequested j) (j_RequiredNodes j) (j_Features j).

Definition PendingJobs (answer : option (exchange (list apiError * list job)))
    : result client_error (list PendingJob) :=
  let! jobs := fetchJobs answer in
  Ok (map pending_of (List.filter (fun j =>
        contains_state (states_of j) "PENDING" || requeuedState (states_of j) (Reason j)) jobs)).

(** ** Hostlists *)

Definition is_sep (c : ascii) : bool :=
  bool_decide (c = ","%char) || bool_decide (c = " "%char) || bool_decide (c = "009"%char).

(** A trimmed, non-empty group is appended. *)
Definition add_group (group : string) (groups : list string) : list string :=
  let g := trim_space group in
  if (g =? "")%string then groups else groups ++ [g].

(** [cur] is [value[start:index]]. *)
Fixpoint split_from (depth : Z) (cur : string) (groups : list string) (s : string)
    : result client_error (list string) :=
  match s with
  | "" => reject_if negb (depth =? 0) with BadHostlist in Ok (add_group cur groups)
  | String c s' =>
      if bool_decide (c = "["%char) then split_from (depth + 1) (cur +:+ String c "") groups s'
      else if bool_decide (c = "]"%char) then
        reject_if depth - 1 <? 0 with BadHostlist in
        split_from (depth - 1) (cur +:+ String c "") groups s'
      else if is_sep c && (depth =? 0) then split_from depth ""%string (add_group cur groups) s'
      else split_from depth (cur +:+ String c "") groups s'
  end.

Definition splitHostlist (value : string) : result client_error (list string) :=
  split_from 0 "" [] value.

(** [for number := start; number <= end; number++] with [int] arithmetic;
    [None] when the fuel does not suffice. *)
Fixpoint count_up (fuel : nat) (number stop : Z) : option (list Z) :=
  match fuel with
  | O => None
  | S fuel' =>
      if stop <? number then Some []
      else cons number <$> count_up fuel' (wrap64 (number + 1)) stop
  end.

(** One element between the brackets. *)
Definition expand_option (fuel : nat) (limit : Z) (option : string) : result client_error (list string) :=
  match split_on "-" option with
  | [p] => reject_if (p =? "")%string with BadRange option in Ok [p]
  | [p; q] =>
      match parse_int64 p, parse_int64 q with
      | Some start, Some stop =>
          reject_if (stop <? start) || (limit <? wrap64 (wrap64 (stop - start) + 1))
            with BadRange option in
          let width := Nat.max (String.length p) (String.length q) in
          match count_up fuel start stop with
          | Some numbers => Ok (map (pad_uint width) numbers)
          | None => Err LoopDoesNotEnd
          end
      | _, _ => Err (BadRange option)
      end
  | _ => Err (BadRange option)
  end.

Fixpoint expand_options (fuel : nat) (limit : Z) (options : list string)
    : result client_error (list string) :=
  match options with
  | [] => Ok []
  | o :: options' =>
      let! vs := expand_option fuel limit o in
      let! rest := expand_options fuel limit options' in
      Ok (vs ++ rest)
  end.

(** The two nested loops that build [next]; [count] is [len(result)]. *)
Fixpoint append_all (limit count : Z) (next : list string) (names : list string)
    : result client_error (list string) :=
  match names with
  | [] => Ok next
  | name :: names' =>
      let next := next ++ [name] in
      reject_if limit <? Z.of_nat (length next) + count with HostlistTooLong in
      append_all limit count next names'
  end.

Definition products (expanded : list string) (prefix : string) (values : list string) : list string :=
  base ← expanded; (fun option => base +:+ prefix +:+ option) <$> values.

(** [for len(group) != 0]: the fuel is at least the length of the group. *)
Fixpoint expand_group (fuel loop_fuel : nat) (limit count : Z) (expanded : list string) (group : string)
    : result client_error (list string) :=
  match fuel with
  | O => Ok expanded
  | S fuel' =>
      if (group =? "")%string then Ok expanded else
      match cut_on "[" group with
      | None => Ok (map (fun e => e +:+ group) expanded)
      | Some (prefix, rest) =>
          match cut_on "]" rest with
          | None => Err BadHostlist
          | Some (inner, rest') =>
              let! values := expand_options loop_fuel limit (split_on "," inner) in
              let! next := append_all limit count [] (products expanded prefix values) in
              expand_group fuel' loop_fuel limit count next rest'
          end
      end
  end.

Fixpoint expand_groups (loop_fuel : nat) (limit : Z) (groups result_ : list string)
    : result client_error (list string) :=
  match groups with
  | [] => Ok result_
  | g :: groups' =>
      let! expanded := expand_group (S (String.length g)) loop_fuel limit
                         (Z.of_nat (length result_)) [""%string] g in
      let r := result_ ++ expanded in
      reject_if limit <? Z.of_nat (length r) with HostlistTooLong in
      expand_groups loop_fuel limit groups' r
  end.

(** [expandHostlist]; [loop_fuel] bounds the iterations of one range loop. *)
Definition expandHostlist (loop_fuel : nat) (value : string) (limit : Z)
    : result client_error (list string) :=
  let! groups := splitHostlist value in
  expand_groups loop_fuel limit groups [].

(** A range that passes the guard has at most [limit] numbers, so the loop
    makes at most [limit + 1] tests. *)
Definition host_fuel (limit : Z) : nat := S (Z.to_nat limit).

Fixpoint decode_jobs (jobs : list job) : result client_error (list Job) :=
  match jobs with
  | [] => Ok []
  | j :: jobs' =>
      let! nodes := expandHostlist (host_fuel 10000) (j_Nodes j) 10000 in
      let! rest := decode_jobs jobs' in
      Ok (MkJob (ID j) (wrapu32 (HetJobID j)) (states_of j) (Reason j) nodes :: rest)
  end.

Definition Jobs (answer : option (exchange (list apiError * list job))) : result client_error (list Job) :=
  let! jobs := fetchJobs answer in
  decode_jobs jobs.

(** ** The other calls *)

Definition AccountingReady (clusterName : string)
    (answer : option (exchange (list apiError * list string))) : result client_error unit :=
  let! out := request true answer in
  let '(errs, clusters) := default ([], []) out in
  let! _ := responseError errs in
  reject_if negb (bool_decide (clusterName ∈ clusters)) with NotRegistered clusterName in
  Ok tt.

Definition Nodes (answer : option (exchange (list apiError * list Node)))
    : result client_error (list Node) :=
  let! out := request true answer in
  let '(errs, nodes) := default ([], []) out in
  let! _ := responseError errs in
  Ok nodes.

(** [DrainNode], [RequeueJob]: success is a 2xx answer without errors. *)
Definition acknowledge (answer : option (exchange (list apiError))) : result client_error unit :=
  let! out := request true answer in
  responseError (default [] out).

Definition DrainNode := acknowledge.
Definition RequeueJob := acknowledge.

Definition SignalJob (signal : string) (answer : option (exchange (list apiError)))
    : result client_error unit :=
  reject_if negb (signal =? "USR1")%string with BadSignal in
  acknowledge answer.

(** A node that is already gone counts as deleted. *)
Definition DeleteNode (answer : option (exchange unit)) : result client_error unit :=
  match request false answer with
  | Ok _ => Ok tt
  | Err (HttpStatus 404) => Ok tt
  | Err e => Err e
  end.

Example expand_ex :
  expandHostlist (host_fuel 100) "n[01-03,7]-x[a,b], login" 100 =
  Ok ["n01-xa"; "n01-xb"; "n02-xa"; "n02-xb"; "n03-xa"; "n03-xb"; "n7-xa"; "n7-xb"; "login"]%string.
Proof. vm_compute. reflexivity. Qed.

(** ** Hostlist expansion: bounds, termination and meaning *)

Lemma append_all_bound limit count next names res :
  append_all limit count next names = Ok res ->
  res = next ++ names /\ (names <> [] -> Z.of_nat (length res) + count <= limit).
Proof.
  revert next. induction names as [|n names IH]; intros next; cbn [append_all].
  { intros [= <-]. by rw app_nil_r. }
  case_match eqn:E; [done|]. bool_hyps. intros [-> Hb]%IH. rewrite <-app_assoc in *. simpl in *.
  split; [done|]. intros _. destruct names as [|m names]; [|by apply Hb].
  simpl. lia.
Qed.

Lemma append_all_complete limit count next names :
  Z.of_nat (length (next ++ names)) + count <= limit ->
  append_all limit count next names = Ok (next ++ names).
Proof.
  revert next. induction names as [|n names IH]; intros next Hl; cbn [append_all].
  { by rw app_nil_r. }
  rewrite ->(proj2 (Z.ltb_ge _ _)).
  - rewrite ->IH; rewrite <-app_assoc; done.
  - rewrite ->length_app in *. simpl in *. lia.
Qed.

(** An expanded hostlist never has more names than the limit. *)
Theorem hostlist_bounded fuel value limit hosts :
  0 <= limit -> expandHostlist fuel value limit = Ok hosts -> Z.of_nat (length hosts) <= limit.
Proof.
  intros Hl. unfold expandHostlist. destruct (splitHostlist value) as [groups|]; [|done].
  assert (forall acc, Z.of_nat (length acc) <= limit -> expand_groups fuel limit groups acc = Ok hosts ->
    Z.of_nat (length hosts) <= limit) as Hg.
  { induction groups as [|g groups IH]; intros acc Ha; cbn [expand_groups]; [by intros [= <-]|].
    destruct (expand_group _ _ _ _ _ _) as [e|]; [|done]. case_match eqn:E; [done|]. bool_hyps.
    by apply IH. }
  by apply Hg.
Qed.

Lemma hostlist_bounded_witness :
  Z.of_nat (length ["n01"; "n02"; "n03"]%string) <= 3.
Proof. apply (hostlist_bounded (host_fuel 3) "n[01-03]" 3); [lia|vm_compute; reflexivity]. Defined.

Lemma count_up_seqZ fuel a b :
  0 <= a -> b < int64_max -> Z.max 0 (b - a + 1) < Z.of_nat fuel ->
  count_up fuel a b = Some (seqZ a (b - a + 1)).
Proof.
  revert a. induction fuel as [|fuel IH]; intros a Ha Hb Hf; cbn [count_up]; [lia|].
  case_match eqn:E; bool_hyps.
  - by rewrite ->seqZ_nil by lia.
  - rewrite ->wrap64_id by (pow2; lia). rewrite ->IH by lia. rewrite ->(seqZ_cons a) by lia.
    cbn. do 2 f_equal. f_equal; lia.
Qed.

Lemma count_up_diverges fuel a : a <= int64_max -> count_up fuel a int64_max = None.
Proof.
  revert a. induction fuel as [|fuel IH]; intros a Ha; cbn [count_up]; [done|].
  rewrite ->(proj2 (Z.ltb_ge _ _)) by lia. rewrite ->IH; [done|]. apply wrap64_range.
Qed.

(** Strings without the characters hostlists give a meaning. *)
Definition plain_char (c : ascii) : bool :=
  negb (is_sep c) && negb (bool_decide (c = "["%char)) && negb (bool_decide (c = "]"%char))
  && negb (Ascii.is_space c).
Definition plain (s : string) : bool := string_forallb plain_char s.

Lemma split_from_plain depth cur groups s t :
  plain s = true -> split_from depth cur groups (s +:+ t) = split_from depth (cur +:+ s) groups t.
Proof.
  revert cur. induction s as [|c s IH]; intros cur Hs; [by rw sapp_nil_l sapp_nil_r|].
  rw sapp_cons. unfold plain in Hs. cbn [string_forallb] in Hs. bool_hyps.
  unfold plain_char in *. bool_hyps. cbn [split_from].
  rewrite ->!bool_decide_eq_false_2 by done. rewrite ->IH by done.
  match goal with H : is_sep c = false |- _ => rewrite ->H end. simpl.
  by rewrite ->sapp_assoc.
Qed.

Lemma trim_left_plain s : string_forallb (fun c => negb (Ascii.is_space c)) s = true -> trim_left s = s.
Proof. destruct s as [|c s]; [done|]. cbn. intros. bool_hyps. by case_match. Qed.

Lemma forallb_rev f s : string_forallb f (String.rev s) = string_forallb f s.
Proof.
  induction s as [|c s IH]; [done|]. unfold String.rev. cbn [String.rev_app].
  rewrite ->rev_app_spec, string_forallb_app, IH. cbn. rewrite ->andb_true_r. by rw andb_comm.
Qed.

Lemma trim_space_plain s : string_forallb (fun c => negb (Ascii.is_space c)) s = true -> trim_space s = s.
Proof.
  intros Hs. unfold trim_space. rewrite ->(trim_left_plain s) by done.
  rewrite ->trim_left_plain by (by rewrite ->forallb_rev). apply rev_involutive.
Qed.

Lemma plain_no_space s : plain s = true -> string_forallb (fun c => negb (Ascii.is_space c)) s = true.
Proof. apply string_forallb_impl. unfold plain_char. intros. bool_hyps. by apply negb_true_iff. Qed.

Lemma plain_no_char c s :
  plain_char c = false -> plain s = true -> string_forallb (fun x => negb (bool_decide (x = c))) s = true.
Proof.
  intros Hc. apply string_forallb_impl. intros x Hx. apply negb_true_iff, bool_decide_eq_false.
  intros ->. congruence.
Qed.

Lemma digit_plain c : is_digit c = true -> plain_char c = true.
Proof. destruct c as [[] [] [] [] [] [] [] []]; vm_compute; congruence. Qed.

Lemma zeros_digits n : string_forallb is_digit (zeros n) = true.
Proof. by induction n. Qed.

Lemma pad_digits w n : 0 <= n -> string_forallb is_digit (pad_uint w n) = true.
Proof.
  intros Hn. unfold pad_uint. by rewrite ->string_forallb_app, zeros_digits, format_uint_digits.
Qed.

Lemma split_on_plain sep s :
  string_forallb (fun x => negb (bool_decide (x = sep))) s = true -> split_on sep s = [s].
Proof.
  induction s as [|c s IH]; [done|]. cbn [string_forallb split_on]. intros. bool_hyps.
  rewrite ->IH by done. by rewrite ->decide_False.
Qed.

Lemma split_on_app sep s t :
  string_forallb (fun x => negb (bool_decide (x = sep))) s = true ->
  split_on sep (s +:+ String sep t) = s :: split_on sep t.
Proof.
  induction s as [|c s IH]; [intros _; rw sapp_nil_l; cbn [split_on]; by rewrite ->decide_True|].
  rw sapp_cons. cbn [string_forallb split_on]. intros. bool_hyps.
  rewrite ->IH by done. by rewrite ->decide_False.
Qed.

Lemma parse_int64_pad w n : 0 <= n <= int64_max -> parse_int64 (pad_uint w n) = Some n.
Proof.
  intros Hn. apply parse_int64_digits; [apply pad_digits; lia| |].
  - pose proof (parse_pad_uint w n) as Hp. unfold parse_uint64 in Hp.
    assert (0 <= n <= uint64_max) as Hu by (pow2; lia). specialize (Hp Hu).
    apply bind_Some in Hp as (z & -> & Hz). case_match; simplify_eq. done.
  - unfold is_int64. apply andb_true_iff. split; apply Z.leb_le; pow2; lia.
Qed.

Lemma digits_no_char c s : is_digit c = false ->
  string_forallb is_digit s = true -> string_forallb (fun x => negb (bool_decide (x = c))) s = true.
Proof.
  intros Hc. apply string_forallb_impl. intros x Hx. apply negb_true_iff, bool_decide_eq_false.
  intros ->. congruence.
Qed.

Lemma digits_plain s : string_forallb is_digit s = true -> plain s = true.
Proof. apply string_forallb_impl. apply digit_plain. Qed.

Lemma expand_option_range limit w a b :
  0 <= a <= b -> b < int64_max -> b - a + 1 <= limit ->
  expand_option (host_fuel limit) limit (pad_uint w a +:+ "-" +:+ pad_uint w b) =
  Ok (pad_uint (Nat.max (String.length (pad_uint w a)) (String.length (pad_uint w b)))
        <$> seqZ a (b - a + 1)).
Proof.
  intros Hab Hb Hl. unfold expand_option. change ("-" +:+ pad_uint w b) with (String "-" (pad_uint w b)).
  rewrite ->split_on_app, split_on_plain by (apply digits_no_char; [done|apply pad_digits; lia]).
  rewrite ->!parse_int64_pad by lia.
  rewrite ->(proj2 (Z.ltb_ge _ _)) by lia. rewrite ->(wrap64_id (b - a)), wrap64_id by (pow2; lia).
  rewrite ->(proj2 (Z.ltb_ge _ _)) by lia. cbn [orb].
  rewrite ->count_up_seqZ; [reflexivity|lia|done|]. unfold host_fuel. lia.
Qed.

Lemma split_hostlist_bracket prefix inner :
  plain prefix = true -> string_forallb plain_char inner = true ->
  splitHostlist (prefix +:+ "[" +:+ inner +:+ "]") = Ok [prefix +:+ "[" +:+ inner +:+ "]"].
Proof.
  intros Hp Hi. unfold splitHostlist. rewrite ->split_from_plain by done. rewrite ->sapp_nil_l.
  change ("[" +:+ ?t) with (String "[" t). cbn [split_from].
  rewrite ->bool_decide_eq_true_2 by done. rewrite ->split_from_plain by done.
  cbn -[trim_space bool_decide String.append]. rewrite ->bool_decide_eq_false_2 by done.
  rewrite ->bool_decide_eq_true_2 by done. cbn -[trim_space String.append].
  unfold add_group. rewrite ->!sapp_assoc.
  change (String "[" (inner +:+ "]")) with ("[" +:+ inner +:+ "]").
  rewrite ->trim_space_plain.
  - destruct (_ =? _)%string eqn:E; [|done]. bool_hyps. by destruct prefix.
  - rewrite ->!string_forallb_app. rewrite ->(plain_no_space prefix), (plain_no_space inner) by done. done.
Qed.

(** A compressed range expands to its members, in order and zero-padded
    to the width of the bounds: the hosts [<prefix><a> .. <prefix><b>]. *)
Theorem hostlist_range prefix w a b limit :
  plain prefix = true -> 0 <= a <= b -> b < int64_max -> b - a + 1 <= limit ->
  expandHostlist (host_fuel limit)
    (prefix +:+ "[" +:+ (pad_uint w a +:+ "-" +:+ pad_uint w b) +:+ "]") limit =
  Ok ((fun n => prefix +:+ pad_uint (Nat.max (String.length (pad_uint w a))
                                             (String.length (pad_uint w b))) n)
        <$> seqZ a (b - a + 1)).
Proof.
  intros Hp Hab Hb Hl. set (inner := pad_uint w a +:+ "-" +:+ pad_uint w b).
  assert (string_forallb plain_char inner = true) as Hin.
  { unfold inner. rewrite ->!string_forallb_app.
    rewrite ->!(digits_plain (pad_uint w _)) by (apply pad_digits; lia). done. }
  assert (string_forallb (fun x => negb (bool_decide (x = ","%char))) inner = true) as Hcomma
    by (by apply plain_no_char).
  unfold expandHostlist. rewrite ->split_hostlist_bracket by done. cbn [expand_groups].
  set (width := Nat.max _ _). set (names := _ <$> seqZ a _).
  assert (expand_group (S (String.length (prefix +:+ "[" +:+ inner +:+ "]"))) (host_fuel limit) limit
            (Z.of_nat (length (@nil string))) [""%string] (prefix +:+ "[" +:+ inner +:+ "]") = Ok names) as ->.
  { cbn [expand_group]. destruct (_ =? "")%string eqn:E; [bool_hyps; by destruct prefix|].
    change ("[" +:+ inner +:+ "]") with (String "[" (inner +:+ String "]" "")).
    rewrite ->cut_on_app by (by apply plain_no_char). rewrite ->cut_on_app by (by apply plain_no_char).
    rewrite ->split_on_plain by done. cbn [expand_options].
    unfold inner at 1. rewrite ->expand_option_range by done. cbn [expand_options].
    rewrite ->app_nil_r, append_all_complete; cycle 1.
    { unfold products. rewrite ->app_nil_l. simpl. rewrite ->app_nil_r, !length_fmap, length_seqZ. lia. }
    rewrite ->app_nil_l. fold width. assert (products [""%string] prefix (pad_uint width <$> seqZ a (b - a + 1)) = names) as ->.
    { unfold products, names. cbn. by rewrite ->app_nil_r, <-list_fmap_compose. }
    by destruct (String.length (prefix +:+ String "[" (inner +:+ String "]" ""))). }
  rewrite ->app_nil_l, (proj2 (Z.ltb_ge _ _)); [done|].
  unfold names. rewrite ->length_fmap, length_seqZ. lia.
Qed.

Lemma hostlist_range_witness :
  expandHostlist (host_fuel 10) ("gpu-" +:+ "[" +:+ (pad_uint 3 8 +:+ "-" +:+ pad_uint 3 10) +:+ "]") 10 =
  Ok ["gpu-008"; "gpu-009"; "gpu-010"]%string.
Proof. apply (hostlist_range "gpu-" 3 8 10 10); [reflexivity|lia|pow2; lia|lia]. Defined.

(** C40: the guard that bounds a range overflows for the range of all
    non-negative integers: it is let through and its loop never ends, whatever
    number of iterations is allowed. *)
Theorem hostlist_overflow_diverges fuel :
  expandHostlist fuel "n[0-9223372036854775807]" 10000 = Err LoopDoesNotEnd.
Proof.
  unfold expandHostlist.
  replace (splitHostlist "n[0-9223372036854775807]") with
    (Ok (E := client_error) ["n[0-9223372036854775807]"%string]) by (vm_compute; reflexivity).
  cbn [expand_groups expand_group].
  replace (_ =? _)%string with false by (vm_compute; reflexivity).
  replace (cut_on "[" "n[0-9223372036854775807]") with
    (Some ("n"%string, "0-9223372036854775807]"%string)) by (vm_compute; reflexivity).
  replace (cut_on "]" "0-9223372036854775807]") with
    (Some ("0-9223372036854775807"%string, ""%string)) by (vm_compute; reflexivity).
  replace (split_on "," "0-9223372036854775807") with ["0-9223372036854775807"%string]
    by (vm_compute; reflexivity).
  cbn [expand_options]. unfold expand_option.
  replace (split_on "-" "0-9223372036854775807") with ["0"; "9223372036854775807"]%string
    by (vm_compute; reflexivity).
  replace (parse_int64 "0") with (Some 0) by (vm_compute; reflexivity).
  replace (parse_int64 "9223372036854775807") with (Some int64_max) by (vm_compute; reflexivity).
  replace (_ || _) with false by (vm_compute; reflexivity).
  by rewrite ->count_up_diverges.
Qed.

(** A job is never pending and terminal at once, and a job Slurm holds
    after a requeue counts as pending even when its state is [CANCELLED]. *)
Theorem pending_terminal_exclusive j :
  (Pending j = true -> Terminal j = false) /\
  (contains_state (J_State j) "CANCELLED" = true ->
   equal_fold (J_Reason j) "job_requeued_in_held_state" = true -> Pending j = true).
Proof.
  unfold Terminal. split; [intros ->; by rewrite ->andb_false_r|].
  intros Hc Hr. unfold Pending, requeuedState. rewrite ->Hc, Hr.
  destruct (contains_state (J_State j) "PENDING"); [done|]. by rewrite ->!orb_true_r.
Qed.

End SlurmClient.
