(* ===== verification/Api.v ===== *)
(** * Api: the custom resource
    ([src/slurm-operator/api/v1alpha1/heterogeneouscluster_types.go])

    The spec and status types the operator works on, and the admission rules
    the API server enforces from the kubebuilder markers ([valid_spec]): what
    the controllers may rely on. *)

From S2P Require Import Prelude GoStrings Manifest.

Module Api.

Record ScalingSpec := MkScaling { MinReady : Z; MaxWorkers : Z; IdleTimeout : Z }.

Record WorkerProfile := MkProfile { wp_Name : string; Gres : string; DeviceClassName : string }.

Record WorkerPoolSpec := MkPool {
  Name : string; Partition : string; NodeSelector : gomap string; MemoryUnit : string;
  Scaling : ScalingSpec; Profiles : list WorkerProfile }.

Record ControllersSpec := MkControllers { Image : string; StateSaveClaim : string }.
Record ControlPlaneSpec := MkControlPlane {
  Controllers : ControllersSpec; DatabaseSecretRef : string; Login_Replicas : Z }.
Record AuthenticationSpec := MkAuthentication { MungeKeySecretRef : string; JWTKeySecretRef : string }.

(** [Checkpointing] is the [ObjectStoreSecretRef] when the field is set. *)
Record HeterogeneousClusterSpec := MkSpec {
  ControlPlane : ControlPlaneSpec; Authentication : AuthenticationSpec;
  Checkpointing : option string; WorkerPools : list WorkerPoolSpec }.

Record HeterogeneousCluster := MkCluster {
  cl_Name : string; Namespace : string; UID : string; Spec : HeterogeneousClusterSpec }.

Record WorkerPoolStatus := MkPoolStatus { ps_Name : string; Ready : Z; ps_Pending : Z; Draining : Z }.

(** ** Admission rules *)

(** [^[a-z][chars]{0,n}$] *)
Definition lower_ident (extra : ascii -> bool) (n : Z) (s : string) : bool :=
  match s with
  | "" => false
  | String c s' => is_lower c && string_forallb (fun c => is_lower c || is_digit c || extra c) s'
                   && (slen s' <=? n)
  end.

Definition valid_name (s : string) : bool := lower_ident (fun c => bool_decide (c = "-"%char)) 62 s.
Definition valid_partition (s : string) : bool := lower_ident (fun c => bool_decide (c = "_"%char)) 63 s.

Definition valid_scaling (s : ScalingSpec) : bool :=
  (0 <=? MinReady s) && (MinReady s <=? MaxWorkers s) && (1 <=? MaxWorkers s)
  && (MaxWorkers s <=? 8191) && (0 <? IdleTimeout s).

(** [^(gpu|tpu):[a-z0-9_]+$], at most 64 bytes. *)
Definition valid_gres (s : string) : bool :=
  match cut_on ":" s with
  | Some (kind, model) =>
      ((kind =? "gpu")%string || (kind =? "tpu")%string)
      && string_forallb (fun c => is_lower c || is_digit c || bool_decide (c = "_"%char)) model
      && negb (model =? "")%string && (slen s <=? 64)
  | None => false
  end.

(** [^[a-z0-9]([a-z0-9.-]*[a-z0-9])?$], at most 253 bytes. *)
Definition valid_class (s : string) : bool :=
  let edge t := match t with String c _ => is_lower c || is_digit c | EmptyString => false end in
  edge s && edge (String.rev s) && (slen s <=? 253)
  && string_forallb (fun c => is_lower c || is_digit c || bool_decide (c = "."%char) || bool_decide (c = "-"%char)) s.

Definition valid_profile (p : WorkerProfile) : bool :=
  valid_name (wp_Name p) && valid_gres (Gres p) && valid_class (DeviceClassName p).

(** [^[1-9][0-9]*(Mi|Gi)$], at most 12 bytes. *)
Definition valid_unit (s : string) : bool :=
  match (match cut_suffix "Mi" s with Some d => Some d | None => cut_suffix "Gi" s end) with
  | Some (String c d) => is_digit c && bool_decide (c <> "0"%char) && string_forallb is_digit d && (slen s <=? 12)
  | _ => false
  end.

Definition valid_pool (p : WorkerPoolSpec) : bool :=
  valid_name (Name p) && valid_partition (Partition p) && valid_unit (MemoryUnit p) && valid_scaling (Scaling p)
  && (length (Profiles p) <=? 8)%nat && forallb valid_profile (Profiles p) && bool_decide (NoDup (Gres <$> Profiles p)).

(** [MinLength] and [MaxLength] count characters: bytes that do not continue a
    UTF-8 sequence. *)
Definition characters (s : string) : Z :=
  Z.of_nat (length (List.filter (fun c => negb (code c / 64 =? 2)) (String.list_ascii_of_string s))).
Definition bounded (n : Z) (s : string) : bool := (1 <=? characters s) && (characters s <=? n).

Definition valid_control_plane (c : ControlPlaneSpec) : bool :=
  bounded 512 (Image (Controllers c)) && bounded 253 (StateSaveClaim (Controllers c))
  && bounded 253 (DatabaseSecretRef c) && (1 <=? Login_Replicas c) && (Login_Replicas c <=? 32).
Definition valid_authentication (a : AuthenticationSpec) : bool :=
  bounded 253 (MungeKeySecretRef a) && bounded 253 (JWTKeySecretRef a).

Definition valid_spec (s : HeterogeneousClusterSpec) : bool :=
  valid_control_plane (ControlPlane s) && valid_authentication (Authentication s)
  && match Checkpointing s with None => true | Some secret => bounded 253 secret end
  && (1 <=? length (WorkerPools s))%nat && (length (WorkerPools s) <=? 8)%nat
  && forallb valid_pool (WorkerPools s)
  && bool_decide (NoDup (Name <$> WorkerPools s)) && bool_decide (NoDup (Partition <$> WorkerPools s)).

End Api.
