(* ===== verification/Demand.v ===== *)
(** * Demand: from pending Slurm jobs to worker demands
    ([src/slurm-operator/internal/resources/demand.go])

    [resource.ParseQuantity] is outside the repository and is the parameter
    [parse_quantity].  A [range] over a map visits the entries in the order
    [order] picks; the results are shown not to depend on it. *)

From S2P Require Import Prelude GoStrings SlurmClient Api.

Module Demand.
Import SlurmClient.

Record Footprint := MkFootprint { fp_CPUs : Z; fp_MemoryBytes : Z; fp_SharedMemory : Z }.

Record Shape := MkShape {
  sh_CPUs : Z; MemoryBytes : Z; SharedMemoryBytes : Z; GRES : gmap string Z }.

Record Demand := MkDemand { JobID : Z; GroupID : Z; PoolName : string; Count : Z; d_Shape : Shape }.

#[global] Instance Footprint_eq_dec : EqDecision Footprint.
Proof. solve_decision. Defined.
#[global] Instance Shape_eq_dec : EqDecision Shape.
Proof. solve_decision. Defined.

#[global] Instance Demand_eq_dec : EqDecision Demand.
Proof. solve_decision. Defined.

Inductive demand_error :=
| RequiredNodesUnsupported (job : Z) | NoPool (job : Z) | BadFeature (job : Z)
| BadTRES (item : string) | BadTRESValue (key : string) | NonPositiveGRES (name : string)
| NoProfile (name : string) | BadMemoryUnit.

(** ** Helpers *)

Definition not_alnum_lower (c : ascii) : bool := negb (is_lower c) && negb (is_digit c).

Definition normalize (value : string) : string := join "_" (fields_func not_alnum_lower (to_lower value)).

Definition divRoundUp (value divisor : Z) : Z :=
  if value <=? 0 then 0 else Z.quot (wrap64 (wrap64 (value + divisor) - 1)) divisor.

Section Demand.
Variable parse_quantity : string -> option Z.
Variable order : gmap string Z -> list (string * Z).

Definition last_char (s : string) : option (string * ascii) :=
  match String.rev s with
  | "" => None
  | String c s' => Some (String.rev s', c)
  end.

Definition parseTRESValue (key raw : string) : option Z :=
  if negb (key =? "mem")%string then parse_int64 raw
  else
    match parse_int64 raw with
    | Some _ => parse_quantity (raw +:+ "Mi")
    | None =>
        if slen raw <? 2 then None else
        match last_char raw with
        | None => None
        | Some (front, c) =>
            let suffix := upper_char c in
            if bool_decide (suffix ∈ ["K"; "M"; "G"; "T"]%char)
            then parse_quantity (front +:+ String suffix "i")
            else None
        end
    end.

(** [key, valueRaw, ok] of one item. *)
Definition split_item (item : string) : option (string * string) :=
  match cut_on "=" item with
  | Some kv => Some kv
  | None =>
      if has_prefix "gres/" item then
        match cut_last (fun c => bool_decide (c = ":"%char)) item with
        | Some (key, value) => if 5 <? slen key then Some (key, value) else None
        | None => None
        end
      else None
  end.

Definition canonical_key (key : string) : string :=
  match cut_prefix "gres:" key with Some rest => "gres/" +:+ rest | None => key end.

Definition add_to (m : gmap string Z) (key : string) (value : Z) : gmap string Z :=
  <[key := wrap64 (default 0 (m !! key) + value)]> m.

Fixpoint parse_items (items : list string) (acc : gmap string Z) : result demand_error (gmap string Z) :=
  match items with
  | [] => Ok acc
  | item :: items' =>
      let item := trim_space item in
      if (item =? "")%string then parse_items items' acc else
      match split_item item with
      | None => Err (BadTRES item)
      | Some (key, valueRaw) =>
          let key := canonical_key (trim_space key) in
          if negb (key =? "cpu")%string && negb (key =? "mem")%string && negb (has_prefix "gres/" key)
          then parse_items items' acc else
          match parseTRESValue key (trim_space valueRaw) with
          | None => Err (BadTRESValue key)
          | Some value => parse_items items' (add_to acc key value)
          end
      end
  end.

Definition parseTRES (raw : string) : result demand_error (gmap string Z) :=
  parse_items (split_on "," raw) ∅.

(** ** [shapeFor] *)

(** The share of one node of a TRES value. *)
Definition scale (multiplier value : Z) : Z :=
  if 0 <? multiplier then wrap64 (value * multiplier) else divRoundUp value (wrap64 (- multiplier)).

(** The accumulators [cpus], [memory] and [gres] of the first loop. *)
Definition tres_step (multiplier : Z) (acc : Z * Z * gmap string Z) (e : string * Z)
    : Z * Z * gmap string Z :=
  let '(cpus, memory, gres) := acc in
  let '(key, value) := e in
  let value := scale multiplier value in
  if (key =? "cpu")%string then (Z.max cpus value, memory, gres)
  else if (key =? "mem")%string then (cpus, Z.max memory value, gres)
  else match cut_prefix "gres/" key with
       | Some name => (cpus, memory, add_to gres name value)
       | None => (cpus, memory, gres)
       end.

Definition gres_error (profiles : list string) (e : string * Z) : option demand_error :=
  if snd e <? 1 then Some (NonPositiveGRES (fst e))
  else if bool_decide (fst e ∈ profiles) then None else Some (NoProfile (fst e)).

(** [cpus], [memory] and [sharedMemory] of the loop over [gres]. *)
Definition footprint_step (footprints : gmap string Footprint) (acc : Z * Z * Z) (e : string * Z)
    : Z * Z * Z :=
  let '(cpus, memory, shared) := acc in
  let '(name, count) := e in
  match footprints !! name with
  | None => acc
  | Some f =>
      (Z.max cpus (wrap64 (fp_CPUs f * count)),
       Z.max memory (wrap64 (wrap64 (fp_MemoryBytes f + fp_SharedMemory f) * count)),
       wrap64 (shared + wrap64 (fp_SharedMemory f * count)))
  end.

Fixpoint gres_loop (profiles : list string) (footprints : gmap string Footprint)
    (entries : list (string * Z)) (acc : Z * Z * Z) : result demand_error (Z * Z * Z) :=
  match entries with
  | [] => Ok acc
  | e :: entries' =>
      match gres_error profiles e with
      | Some err => Err err
      | None => gres_loop profiles footprints entries' (footprint_step footprints acc e)
      end
  end.

(** [x = max(x, constraints["gres/"+name]*count)] over [gres]. *)
Definition constraint_step (constraints : gmap string Z) (acc : Z) (e : string * Z) : Z :=
  Z.max acc (wrap64 (default 0 (constraints !! ("gres/" +:+ fst e)) * snd e)).

(** Which TRES string applies, and the multiplier. *)
Definition tres_source (job : PendingJob) (nodes : Z) : string * Z :=
  if negb (TRESPerNode job =? "")%string then (TRESPerNode job, 1)
  else if negb (TRESPerTask job =? "")%string
  then (TRESPerTask job, Z.max (Z.max (TasksPerNode job) (divRoundUp (Tasks job) nodes)) 1)
  else if negb (TRESPerSocket job =? "")%string then (TRESPerSocket job, 1)
  else if negb (TRESPerJob job =? "")%string then (TRESPerJob job, wrap64 (- nodes))
  else (TRESRequested job, wrap64 (- nodes)).

(** [cpus] and [memory] before the TRES are read. *)
Definition base_cpus (job : PendingJob) (nodes : Z) : Z :=
  let cpus := Z.max (Z.max (divRoundUp (CPUs job) nodes) (CPUsPerTask job)) 1 in
  if (0 <? TasksPerNode job) && (0 <? CPUsPerTask job)
  then Z.max cpus (wrap64 (TasksPerNode job * CPUsPerTask job)) else cpus.

Definition base_memory (job : PendingJob) (cpus : Z) : Z :=
  let memory := wrap64 (Z.shiftl (MemoryPerNode job) 20) in
  if (memory =? 0) && (0 <? MemoryPerCPU job)
  then wrap64 (Z.shiftl (wrap64 (MemoryPerCPU job * cpus)) 20) else memory.

Definition shapeFor (job : PendingJob) (pool : Api.WorkerPoolSpec) (footprints : gmap string Footprint)
    : result demand_error Shape :=
  let nodes := Z.max (NodeCount job) 1 in
  let cpus := base_cpus job nodes in
  let memory := base_memory job cpus in
  let '(source, multiplier) := tres_source job nodes in
  let! values := parseTRES source in
  let '(cpus, memory, gres) := foldl (tres_step multiplier) (cpus, memory, ∅) (order values) in
  let! (cpus, memory, sharedMemory) :=
    gres_loop (Api.Gres <$> Api.Profiles pool) footprints (order gres) (cpus, memory, 0) in
  let! constraints := parseTRES (CPUsPerTRES job) in
  let cpus := foldl (constraint_step constraints) cpus (order gres) in
  let! constraints := parseTRES (MemoryPerTRES job) in
  let memory := foldl (constraint_step constraints) memory (order gres) in
  match parse_quantity (Api.MemoryUnit pool) with
  | None => Err BadMemoryUnit
  | Some unit =>
      reject_if unit <? 1 with BadMemoryUnit in
      Ok (MkShape cpus (Z.max memory unit) sharedMemory gres)
  end.

(** ** [Demands] *)

(** The order of [slices.SortFunc]: priority descending, then eligible time,
    then identifier. *)
Definition job_le (a b : PendingJob) : Prop :=
  Priority b < Priority a \/
  (Priority a = Priority b /\ (EligibleTime a < EligibleTime b \/
    (EligibleTime a = EligibleTime b /\ pj_ID a <= pj_ID b))).

#[global] Instance job_le_dec a b : Decision (job_le a b).
Proof. unfold job_le. apply _. Defined.

(** A later pool of the same partition replaces an earlier one. *)
Definition byPartition (pools : list Api.WorkerPoolSpec) (partition : string) : option Api.WorkerPoolSpec :=
  List.find (fun p => (Api.Partition p =? partition)%string) (rev pools).

Definition relevant (job : PendingJob) : bool :=
  Requeued job || (pj_Reason job =? "Resources")%string
  || (pj_Reason job =? "ReqNodeNotAvail")%string || (pj_Reason job =? "PartitionConfig")%string.

(** The body of the loop for a relevant job. *)
Definition demand_of (pools : list Api.WorkerPoolSpec) (footprints : gmap string Footprint)
    (job : PendingJob) : result demand_error Demand :=
  reject_if negb (RequiredNodes job =? "")%string with RequiredNodesUnsupported (pj_ID job) in
  match byPartition pools (pj_Partition job) with
  | None => Err (NoPool (pj_ID job))
  | Some pool =>
      reject_if negb (Features job =? "")%string
                && negb (Features job =? "pool_" +:+ normalize (Api.Name pool))%string
        with BadFeature (pj_ID job) in
      let! shape := shapeFor job pool footprints in
      let group := if pj_HetJobID job =? 0 then pj_ID job else pj_HetJobID job in
      Ok (MkDemand (pj_ID job) group (Api.Name pool) (Z.max (NodeCount job) 1) shape)
  end.

Fixpoint demand_loop (pools : list Api.WorkerPoolSpec) (footprints : gmap string Footprint)
    (jobs : list PendingJob) : list Demand * list demand_error :=
  match jobs with
  | [] => ([], [])
  | job :: jobs' =>
      let '(output, rejected) := demand_loop pools footprints jobs' in
      if negb (relevant job) then (output, rejected)
      else match demand_of pools footprints job with
           | Ok d => (d :: output, rejected)
           | Err e => (output, e :: rejected)
           end
  end.

Definition Demands (jobs : list PendingJob) (pools : list Api.WorkerPoolSpec)
    (footprints : gmap string Footprint) : list Demand * list demand_error :=
  demand_loop pools footprints (merge_sort job_le jobs).

End Demand.

(** ** Independence of the iteration order *)

Lemma add_to_comm m k v k' v' : add_to (add_to m k v) k' v' = add_to (add_to m k' v') k v.
Proof.
  unfold add_to. destruct (decide (k = k')) as [<-|Hne].
  - rewrite ->!lookup_insert_eq, !insert_insert_eq. cbn [default id from_option].
    rewrite ->!wrap64_add_l. f_equal. f_equal. lia.
  - rewrite ->!lookup_insert_ne by done. by rewrite ->insert_insert_ne.
Qed.

Lemma tres_step_comm mult a x y :
  tres_step mult (tres_step mult a x) y = tres_step mult (tres_step mult a y) x.
Proof.
  destruct a as [[c m] g], x as [k v], y as [k' v']. unfold tres_step.
  generalize (scale mult v) as x, (scale mult v') as y. intros x y.
  repeat case_match; simplify_eq/=; try done;
    first [by rewrite ->add_to_comm | f_equal; f_equal; lia].
Qed.

Lemma footprint_step_comm fps a x y :
  footprint_step fps (footprint_step fps a x) y = footprint_step fps (footprint_step fps a y) x.
Proof.
  destruct a as [[c m] s], x as [k v], y as [k' v']. unfold footprint_step.
  destruct (fps !! k) as [f|], (fps !! k') as [f'|]; try done.
  rewrite ->!wrap64_add_l. f_equal; [f_equal; lia|]. f_equal. lia.
Qed.

Lemma constraint_step_comm cs a x y :
  constraint_step cs (constraint_step cs a x) y = constraint_step cs (constraint_step cs a y) x.
Proof. unfold constraint_step. lia. Qed.

Lemma gres_loop_spec profiles fps es acc :
  (forall e, e ∈ es -> gres_error profiles e = None) /\
    gres_loop profiles fps es acc = Ok (foldl (footprint_step fps) acc es)
  \/ (exists e, e ∈ es /\ gres_error profiles e <> None) /\
    exists err, gres_loop profiles fps es acc = Err err.
Proof.
  revert acc. induction es as [|e es IH]; intros acc; cbn [gres_loop].
  { left. split; [by intros ? ?%not_elem_of_nil|done]. }
  destruct (gres_error profiles e) as [err|] eqn:E.
  - right. split; [|eauto]. exists e. split; [left|congruence].
  - destruct (IH (footprint_step fps acc e)) as [[Hall ->]|[(e' & Hin & He') [err ->]]].
    + left. split; [|done]. intros e' [->|Hin]%elem_of_cons; auto.
    + right. split; [|eauto]. exists e'. split; [by right|done].
Qed.

Lemma gres_loop_perm profiles fps es es' acc r :
  Permutation es es' -> gres_loop profiles fps es acc = Ok r -> gres_loop profiles fps es' acc = Ok r.
Proof.
  intros Hp Hr. destruct (gres_loop_spec profiles fps es acc) as [[Hall E]|[_ [err E]]];
    rewrite ->E in Hr; simplify_eq.
  destruct (gres_loop_spec profiles fps es' acc) as [[_ ->]|[(e & Hin & He) _]].
  - f_equal. symmetry. apply foldl_perm; [apply footprint_step_comm|done].
  - exfalso. apply He, Hall. by rewrite ->Hp.
Qed.

(** An iteration order visits every entry once. *)
Definition valid_order (order : gmap string Z -> list (string * Z)) : Prop :=
  forall m, Permutation (order m) (map_to_list m).

Section Orders.
Variable parse_quantity : string -> option Z.

Lemma shapeFor_order o1 o2 job pool fps s :
  valid_order o1 -> valid_order o2 ->
  shapeFor parse_quantity o1 job pool fps = Ok s -> shapeFor parse_quantity o2 job pool fps = Ok s.
Proof.
  intros H1 H2. assert (forall m, Permutation (o1 m) (o2 m)) as Hp
    by (intros; unfold valid_order in *; by rewrite ->H1, H2).
  unfold shapeFor. destruct (tres_source _ _) as [source mult].
  destruct (parseTRES _ source) as [values|]; [|done].
  rewrite ->(foldl_perm _ _ _ _ (tres_step_comm mult) (Hp values)).
  destruct (foldl _ _ _) as [[cpus memory] gres].
  destruct (gres_loop _ _ (o1 gres) _) as [[[c m] sh]|] eqn:E; [|done].
  rewrite ->(gres_loop_perm _ _ _ _ _ _ (Hp gres) E).
  destruct (parseTRES _ (CPUsPerTRES job)) as [cs|]; [|done].
  destruct (parseTRES _ (MemoryPerTRES job)) as [ms|]; [|done].
  by rewrite ->!(foldl_perm _ _ _ _ (constraint_step_comm _) (Hp gres)).
Qed.

Lemma demand_of_order o1 o2 pools fps job d :
  valid_order o1 -> valid_order o2 ->
  demand_of parse_quantity o1 pools fps job = Ok d -> demand_of parse_quantity o2 pools fps job = Ok d.
Proof.
  intros H1 H2. unfold demand_of. case_match; [done|]. destruct (byPartition _ _) as [pool|]; [|done].
  case_match; [done|]. destruct (shapeFor _ o1 _ _ _) as [s|] eqn:E; [|done].
  by rewrite ->(shapeFor_order _ _ _ _ _ _ H1 H2 E).
Qed.

(** The loop as a map over the relevant jobs. *)
Lemma demand_loop_spec order pools fps jobs :
  let results := demand_of parse_quantity order pools fps <$> List.filter relevant jobs in
  demand_loop parse_quantity order pools fps jobs =
  (omap (fun r => match r with Ok d => Some d | Err _ => None end) results,
   omap (fun r => match r with Ok _ => None | Err e => Some e end) results).
Proof.
  induction jobs as [|job jobs IH]; [done|]. cbn [demand_loop]. rewrite ->IH. cbn [List.filter].
  destruct (relevant job); [|done]. cbn. by destruct (demand_of _ _ _ _ _).
Qed.

Lemma job_le_total : Total job_le.
Proof. intros a b. unfold job_le. lia. Qed.

Lemma job_le_trans : Transitive job_le.
Proof. intros a b c. unfold job_le. lia. Qed.

Lemma sorted_jobs_unique jobs jobs' :
  NoDup (pj_ID <$> jobs) -> Permutation jobs jobs' -> merge_sort job_le jobs = merge_sort job_le jobs'.
Proof.
  intros Hnd Hp. assert (Total job_le) by apply job_le_total.
  assert (Transitive job_le) by apply job_le_trans.
  apply (merge_sort_perm job_le); [|done].
  intros a b Ha Hb Hab Hba. assert (pj_ID a = pj_ID b) as E by (unfold job_le in *; lia).
  by apply (NoDup_fmap_eq pj_ID jobs).
Qed.

(** Planning is deterministic: neither the order in which Slurm lists the
    jobs nor the iteration order of the Go maps changes the demands or how many
    jobs are rejected. *)
Theorem demands_deterministic o1 o2 jobs jobs' pools fps :
  valid_order o1 -> valid_order o2 -> NoDup (pj_ID <$> jobs) -> Permutation jobs jobs' ->
  fst (Demands parse_quantity o1 jobs pools fps) = fst (Demands parse_quantity o2 jobs' pools fps) /\
  length (snd (Demands parse_quantity o1 jobs pools fps)) =
  length (snd (Demands parse_quantity o2 jobs' pools fps)).
Proof.
  intros H1 H2 Hnd Hp. unfold Demands. rewrite ->(sorted_jobs_unique jobs jobs') by done.
  rewrite ->!demand_loop_spec. simpl.
  induction (List.filter relevant (merge_sort job_le jobs')) as [|job l IH]; [done|]. cbn.
  destruct IH as [IH1 IH2].
  destruct (demand_of parse_quantity o1 pools fps job) as [d|e1] eqn:E1.
  - rewrite ->(demand_of_order _ _ _ _ _ _ H1 H2 E1). split; [by f_equal|done].
  - destruct (demand_of parse_quantity o2 pools fps job) as [d|e2] eqn:E2.
    + rewrite ->(demand_of_order _ _ _ _ _ _ H2 H1 E2) in E1. done.
    + split; [done|]. simpl. by f_equal.
Qed.

(** No pending job is lost: the demands and the rejections together
    account for exactly the jobs that wait for resources, each demand comes
    from one of them, and the demands are listed by descending priority. *)
Theorem demands_account_for_jobs order jobs pools fps output rejected :
  Demands parse_quantity order jobs pools fps = (output, rejected) ->
  (length output + length rejected = length (List.filter relevant jobs))%nat /\
  (forall d, d ∈ output -> exists job, job ∈ jobs /\ relevant job = true /\ JobID d = pj_ID job
     /\ demand_of parse_quantity order pools fps job = Ok d) /\
  exists served, StronglySorted job_le served /\ JobID <$> output = pj_ID <$> served.
Proof.
  unfold Demands. rewrite ->demand_loop_spec. simpl. intros [= <- <-].
  pose proof (@StronglySorted_merge_sort _ job_le _ job_le_trans job_le_total jobs) as Hs.
  assert (Permutation (merge_sort job_le jobs) jobs) as Hp by apply merge_sort_Permutation.
  assert (forall job d, demand_of parse_quantity order pools fps job = Ok d -> JobID d = pj_ID job) as Hid.
  { intros job d. unfold demand_of. repeat case_match; try done; by intros [= <-]. }
  split_and!.
  - assert (length (List.filter relevant jobs) = length (List.filter relevant (merge_sort job_le jobs))) as ->.
    { clear -Hp. induction Hp; simpl; repeat case_match; simpl; lia. }
    clear. induction (List.filter relevant _) as [|job l IH]; [done|]. cbn.
    destruct (demand_of _ _ _ _ _); simpl; lia.
  - intros d (r & (job & -> & Hj)%list_elem_of_fmap & Hr)%list_elem_of_omap.
    destruct (demand_of _ _ _ _ job) as [d'|] eqn:E; simplify_eq.
    apply list_elem_of_In, filter_In in Hj as [Hin%list_elem_of_In Hrel]. exists job.
    rewrite ->Hp in Hin. eauto.
  - exists (List.filter (fun j => is_ok (demand_of parse_quantity order pools fps j))
              (List.filter relevant (merge_sort job_le jobs))).
    split; [by repeat apply StronglySorted_list_filter|]. clear -Hid.
    induction (List.filter relevant _) as [|job l IH]; [done|]. cbn.
    destruct (demand_of _ _ _ _ job) as [d|] eqn:E; cbn; [|done].
    f_equal; [by apply Hid|done].
Qed.

(** ** What a shape provides *)

(** What the job asks for is stated in unbounded integers; [fits64] says that
    an intermediate value does not leave the range of int64. *)
Definition fits64 (z : Z) : Prop := int64_min <= z <= int64_max.
Definition mebi : Z := 2 ^ 20.

(** The share of one of [n] nodes, rounded up. *)
Definition share (v n : Z) : Z := Z.max 0 ((v + n - 1) / n).

Lemma share_covers v n : 0 < n -> v <= n * share v n.
Proof.
  intros Hn. unfold share. pose proof (Z.mul_succ_div_gt (v + n - 1) n Hn). nia.
Qed.

Lemma share_le v n : 0 < n -> 0 <= v -> share v n <= v.
Proof.
  intros Hn Hv. unfold share. apply Z.max_lub; [done|]. destruct (decide (v = 0)) as [->|].
  - rewrite ->Z.div_small; lia.
  - apply Z.div_le_upper_bound; [done|]. nia.
Qed.

Lemma divRoundUp_share v n : 0 < n -> v + n <= int64_max -> divRoundUp v n = share v n.
Proof.
  intros Hn Hv. unfold divRoundUp, share. case_match eqn:E; bool_hyps.
  - assert ((v + n - 1) / n < 1) by (apply Z.div_lt_upper_bound; lia). lia.
  - rewrite ->(wrap64_id (v + n)) by (pow2; lia). rewrite ->wrap64_id by (pow2; lia).
    rewrite ->Z.quot_div_nonneg by lia.
    assert (0 <= (v + n - 1) / n) by (apply Z.div_pos; lia). lia.
Qed.

Lemma tres_step_gres mult acc l name :
  NoDup l.*1 ->
  snd (foldl (tres_step mult) acc l) !! name =
  match list_find (fun e => fst e = "gres/" +:+ name) l with
  | Some (_, (_, v)) => Some (wrap64 (default 0 (snd acc !! name) + scale mult v))
  | None => snd acc !! name
  end.
Proof.
  revert acc. induction l as [|[k v] l IH]; intros acc Hnd; cbn [foldl list_find]; [done|].
  apply NoDup_cons in Hnd as [Hk Hnd]. simpl in Hk. rewrite ->IH by done.
  destruct acc as [[c m] g]. case_decide as Hkey; cbn [fst snd] in *.
  - subst k. assert (list_find (fun e : string * Z => fst e = "gres/" +:+ name) l = None) as ->.
    { apply list_find_None, Forall_forall. intros [k' v'] Hin E. apply Hk. simpl in E. subst k'.
      apply list_elem_of_fmap. by exists ("gres/" +:+ name, v'). }
    unfold tres_step.
    replace ("gres/" +:+ name =? "cpu")%string with false by done.
    replace ("gres/" +:+ name =? "mem")%string with false by done.
    rewrite ->cut_prefix_app. unfold add_to. simpl. by rewrite ->lookup_insert_eq.
  - assert (snd (tres_step mult (c, m, g) (k, v)) !! name = g !! name) as ->.
    { unfold tres_step. destruct (k =? "cpu")%string, (k =? "mem")%string; try done.
      destruct (cut_prefix "gres/" k) as [n|] eqn:Ek; [|done].
      unfold add_to. apply lookup_insert_ne. intros ->. by apply cut_prefix_Some in Ek. }
    by destruct (list_find _ l) as [[? [? ?]]|].
Qed.

(** [scale] multiplies by the tasks of a node or divides among the nodes. *)
Lemma scale_times m v : 0 < m -> fits64 (v * m) -> scale m v = v * m.
Proof.
  intros Hm Hf. unfold scale. rewrite ->(proj2 (Z.ltb_lt _ _)) by done. by apply wrap64_id.
Qed.

Lemma scale_share nodes v : 0 < nodes -> nodes <= int64_max -> v + nodes <= int64_max ->
  scale (wrap64 (- nodes)) v = share v nodes.
Proof.
  intros Hn Hm Hv. unfold scale. rewrite ->(wrap64_id (- nodes)) by (pow2; lia).
  rewrite ->(proj2 (Z.ltb_ge _ _)) by lia. rewrite ->Z.opp_involutive, wrap64_id by (pow2; lia).
  by apply divRoundUp_share.
Qed.

Lemma tres_step_mono mult acc x :
  acc.1.1 <= (tres_step mult acc x).1.1 /\ acc.1.2 <= (tres_step mult acc x).1.2.
Proof.
  destruct acc as [[c m] g], x as [k v]. unfold tres_step. repeat case_match; simpl; lia.
Qed.

Lemma footprint_step_mono fps acc x :
  acc.1.1 <= (footprint_step fps acc x).1.1 /\ acc.1.2 <= (footprint_step fps acc x).1.2.
Proof. destruct acc as [[c m] sh], x as [k v]. unfold footprint_step. case_match; simpl; lia. Qed.

Lemma constraint_mono cs l c : c <= foldl (constraint_step cs) c l.
Proof. apply (foldl_mono (constraint_step cs) (fun a => a)). intros a x. unfold constraint_step. lia. Qed.

Lemma constraint_covers cs l c e :
  e ∈ l -> wrap64 (default 0 (cs !! ("gres/" +:+ e.1)) * e.2) <= foldl (constraint_step cs) c l.
Proof.
  intros He. apply (foldl_reach _ _ l e); [done|..]; intros a; unfold constraint_step; [lia|]. intros y _. lia.
Qed.

Lemma footprint_covers fps l acc e f :
  e ∈ l -> fps !! e.1 = Some f ->
  wrap64 (fp_CPUs f * e.2) <= (foldl (footprint_step fps) acc l).1.1 /\
  wrap64 (wrap64 (fp_MemoryBytes f + fp_SharedMemory f) * e.2) <= (foldl (footprint_step fps) acc l).1.2.
Proof.
  intros He Hf. apply (foldl_reach (footprint_step fps) (fun a => _ <= a.1.1 /\ _ <= a.1.2) l e); [done|..].
  - intros [[c m] sh]. destruct e as [k n]. unfold footprint_step. simpl in Hf. rewrite ->Hf. simpl. lia.
  - intros a y _ [H1 H2]. pose proof (footprint_step_mono fps a y). lia.
Qed.

(** The shared memory of the accelerators of a worker. *)
Definition shared_of (fps : gmap string Footprint) (gres : list (string * Z)) : Z :=
  foldr Z.add 0 ((fun e => match fps !! e.1 with Some f => fp_SharedMemory f * e.2 | None => 0 end) <$> gres).

Lemma footprint_shared fps l c m x :
  (foldl (footprint_step fps) (c, m, wrap64 x) l).2 = wrap64 (x + shared_of fps l).
Proof.
  revert c m x. induction l as [|[k n] l IH]; intros c m x; cbn [foldl].
  { unfold shared_of. simpl. by rewrite ->Z.add_0_r. }
  unfold shared_of. rewrite ->fmap_cons. cbn [foldr fst snd]. fold (shared_of fps l).
  unfold footprint_step at 2. destruct (fps !! k) as [f|]; [|by rewrite ->IH].
  rewrite ->wrap64_add_l, (Z.add_comm x), wrap64_add_l, IH. f_equal. lia.
Qed.

(** The parts of a successful [shapeFor]. *)
Lemma shapeFor_inv order job pool fps s :
  shapeFor parse_quantity order job pool fps = Ok s ->
  let nodes := Z.max (NodeCount job) 1 in
  exists values cs ms unit,
    parseTRES parse_quantity (tres_source job nodes).1 = Ok values /\
    parseTRES parse_quantity (CPUsPerTRES job) = Ok cs /\ parseTRES parse_quantity (MemoryPerTRES job) = Ok ms /\
    parse_quantity (Api.MemoryUnit pool) = Some unit /\ 1 <= unit /\
    let acc := foldl (tres_step (tres_source job nodes).2)
                 (base_cpus job nodes, base_memory job (base_cpus job nodes), ∅) (order values) in
    let held := foldl (footprint_step fps) (acc.1.1, acc.1.2, 0) (order acc.2) in
    (forall e, e ∈ order acc.2 -> gres_error (Api.Gres <$> Api.Profiles pool) e = None) /\
    s = MkShape (foldl (constraint_step cs) held.1.1 (order acc.2))
          (Z.max (foldl (constraint_step ms) held.1.2 (order acc.2)) unit) held.2 acc.2.
Proof.
  unfold shapeFor. destruct (tres_source _ _) as [source mult]. cbn [fst snd].
  destruct (parseTRES _ source) as [values|] eqn:Ev; [|done].
  destruct (foldl _ _ (order values)) as [[cpus memory] gres] eqn:Ef.
  destruct (gres_loop_spec (Api.Gres <$> Api.Profiles pool) fps (order gres) (cpus, memory, 0))
    as [[Hall ->]|[_ [err ->]]]; [|done].
  destruct (foldl _ _ (order gres)) as [[c m] sh] eqn:Eh.
  destruct (parseTRES _ (CPUsPerTRES job)) as [cs|]; [|done].
  destruct (parseTRES _ (MemoryPerTRES job)) as [ms|]; [|done].
  destruct (parse_quantity _) as [unit|]; [|done]. destruct (unit <? 1) eqn:Eu; [done|].
  intros [= <-]. bool_hyps. exists values, cs, ms, unit. rewrite ->Ef. cbn [fst snd]. rewrite ->Eh.
  by split_and!.
Qed.

(** The amount of one kind of resource in a shape. *)
Definition amount (s : Shape) (key : string) : Z :=
  if (key =? "cpu")%string then sh_CPUs s
  else if (key =? "mem")%string then MemoryBytes s
  else match cut_prefix "gres/" key with Some name => default 0 (GRES s !! name) | None => 0 end.

Lemma parse_items_keys items acc values key :
  parse_items parse_quantity items acc = Ok values -> is_Some (values !! key) ->
  is_Some (acc !! key) \/ key = "cpu"%string \/ key = "mem"%string \/ has_prefix "gres/" key = true.
Proof.
  revert acc. induction items as [|item items IH]; intros acc; cbn [parse_items].
  { intros [= <-]. by left. }
  destruct (_ =? "")%string; [by apply IH|]. destruct (split_item _) as [[k raw]|]; [|done].
  set (ck := canonical_key _). destruct (_ && _ && _) eqn:Ek; [by apply IH|].
  destruct (parseTRESValue _ _ _) as [v|]; [|done]. intros Hp Hs.
  destruct (IH _ Hp Hs) as [Hacc|]; [|by right]. unfold add_to in Hacc.
  destruct (decide (ck = key)) as [<-|Hne]; [|by rewrite ->lookup_insert_ne in Hacc; [left|]].
  right. apply andb_false_iff in Ek as [[Ek|Ek]%andb_false_iff|Ek]; bool_hyps; auto.
Qed.

(** Every TRES value, scaled to one node, is provided by the shape. *)
Lemma shape_provides order job pool fps s values key v :
  valid_order order -> shapeFor parse_quantity order job pool fps = Ok s ->
  let source := tres_source job (Z.max (NodeCount job) 1) in
  parseTRES parse_quantity source.1 = Ok values -> values !! key = Some v ->
  fits64 (scale source.2 v) -> scale source.2 v <= amount s key.
Proof.
  intros Ho Hs source Hv Hl Hf.
  apply shapeFor_inv in Hs as (values' & cs & ms & unit & Hv' & _ & _ & _ & _ & _ & ->).
  fold source in Hv' |- *. rewrite ->Hv in Hv'. injection Hv' as <-. set (acc0 := (_, _, ∅)).
  set (acc := foldl _ acc0 _).
  assert ((key, v) ∈ order values) as Hin by (rewrite ->(Ho values); by apply elem_of_map_to_list).
  assert (NoDup (order values).*1) as Hnd by (rewrite ->(Ho values); apply NoDup_fst_map_to_list).
  pose proof (foldl_mono (footprint_step fps) (fun a => a.1.1) (order acc.2) (acc.1.1, acc.1.2, 0)
    (fun a x => proj1 (footprint_step_mono fps a x))) as Hc.
  pose proof (foldl_mono (footprint_step fps) (fun a => a.1.2) (order acc.2) (acc.1.1, acc.1.2, 0)
    (fun a x => proj2 (footprint_step_mono fps a x))) as Hm. cbn [fst snd] in Hc, Hm.
  unfold amount. destruct (key =? "cpu")%string eqn:Ecpu; [|destruct (key =? "mem")%string eqn:Emem]; bool_hyps;
    cbn [sh_CPUs MemoryBytes GRES].
  - etrans; [|apply constraint_mono]. etrans; [|exact Hc]. subst key.
    apply (foldl_reach (tres_step source.2) (fun a => _ <= a.1.1) (order values) ("cpu"%string, v)); [done|..].
    + intros [[c m] g]. simpl. lia.
    + intros a y _ H. etrans; [exact H|]. apply tres_step_mono.
  - etrans; [|apply Z.le_max_l]. etrans; [|apply constraint_mono]. etrans; [|exact Hm]. subst key.
    apply (foldl_reach (tres_step source.2) (fun a => _ <= a.1.2) (order values) ("mem"%string, v)); [done|..].
    + intros [[c m] g]. simpl. lia.
    + intros a y _ H. etrans; [exact H|]. apply tres_step_mono.
  - unfold parseTRES in Hv. destruct (parse_items_keys _ _ _ key Hv) as [He|[->|[->|Hp]]]; [by rewrite ->Hl| |done..|].
    { destruct He as [? He]. by rewrite ->lookup_empty in He. }
    unfold has_prefix in Hp. destruct (cut_prefix "gres/" key) as [name|] eqn:Ek; [|done].
    apply cut_prefix_Some in Ek as ->. unfold acc. rewrite ->tres_step_gres by done.
    destruct (list_find _ (order values)) as [[i [k v']]|] eqn:Ef.
    + apply list_find_Some in Ef as (Hi & Hk & _). simpl in Hk. subst k.
      apply list_elem_of_lookup_2 in Hi. rewrite ->(Ho values) in Hi.
      apply elem_of_map_to_list in Hi. rewrite ->Hl in Hi. injection Hi as <-.
      simpl. rewrite ->lookup_empty. simpl. by rewrite ->wrap64_id.
    + apply list_find_None in Ef. exfalso. rewrite ->Forall_forall in Ef. by apply (Ef _ Hin).
Qed.

(** *** What a job asks of one node *)

Definition node_count (job : PendingJob) : Z := Z.max (NodeCount job) 1.

(** The larger of: one, the CPUs of a task, the node's share of the job's
    CPUs, and the CPUs of the tasks of a node. *)
Definition cpus_asked (job : PendingJob) : Z :=
  Z.max 1 (Z.max (CPUsPerTask job)
    (Z.max (share (CPUs job) (node_count job)) (Z.max 0 (TasksPerNode job) * Z.max 0 (CPUsPerTask job)))).

Definition cpus_fit (job : PendingJob) : Prop :=
  CPUs job + node_count job <= int64_max /\ fits64 (TasksPerNode job * CPUsPerTask job).

Definition tasks_on_node (job : PendingJob) : Z :=
  Z.max 1 (Z.max (TasksPerNode job) (share (Tasks job) (node_count job))).

Lemma base_cpus_asked job : cpus_fit job -> base_cpus job (node_count job) = cpus_asked job.
Proof.
  intros [Hc Ht]. unfold base_cpus, cpus_asked.
  rewrite ->divRoundUp_share by (unfold node_count in *; lia).
  pose proof (Z.le_max_l 0 ((CPUs job + node_count job - 1) / node_count job)) as H0.
  unfold share in *. set (x := Z.max 0 _) in *.
  destruct ((0 <? TasksPerNode job) && (0 <? CPUsPerTask job)) eqn:E.
  - apply andb_true_iff in E as [E1 E2]. bool_hyps. rewrite ->wrap64_id by done.
    rewrite ->!(Z.max_r 0) by lia. lia.
  - assert (Z.max 0 (TasksPerNode job) * Z.max 0 (CPUsPerTask job) = 0) as -> by (bool_hyps; nia). lia.
Qed.

(** What a worker of the shape [s] provides.  A list of TRES counts for a
    node, for each of its tasks, or for the job; only the first list given, in
    this order, counts. *)
Record sufficient (order : gmap string Z -> list (string * Z)) (job : PendingJob) (pool : Api.WorkerPoolSpec)
    (fps : gmap string Footprint) (s : Shape) : Prop := {
  su_cpus : cpus_fit job -> cpus_asked job <= sh_CPUs s;
  su_memory_node : fits64 (MemoryPerNode job * mebi) -> MemoryPerNode job * mebi <= MemoryBytes s;
  su_memory_cpu : MemoryPerNode job = 0 -> cpus_fit job ->
    fits64 (MemoryPerCPU job * cpus_asked job * mebi) -> fits64 (MemoryPerCPU job * cpus_asked job) ->
    MemoryPerCPU job * cpus_asked job * mebi <= MemoryBytes s;
  su_per_node : forall values key v,
    TRESPerNode job <> ""%string -> parseTRES parse_quantity (TRESPerNode job) = Ok values ->
    values !! key = Some v -> fits64 v -> v <= amount s key;
  su_per_task : forall values key v,
    TRESPerNode job = ""%string -> TRESPerTask job <> ""%string ->
    parseTRES parse_quantity (TRESPerTask job) = Ok values -> values !! key = Some v ->
    Tasks job + node_count job <= int64_max -> fits64 (v * tasks_on_node job) ->
    v * tasks_on_node job <= amount s key;
  su_per_job : forall values key v,
    TRESPerNode job = ""%string -> TRESPerTask job = ""%string -> TRESPerSocket job = ""%string ->
    parseTRES parse_quantity (if (TRESPerJob job =? "")%string then TRESRequested job else TRESPerJob job) = Ok values ->
    values !! key = Some v -> 0 <= v -> v + node_count job <= int64_max ->
    v <= node_count job * amount s key;
  su_profile : forall name n, GRES s !! name = Some n -> 1 <= n /\ name ∈ Api.Gres <$> Api.Profiles pool;
  su_footprint : forall name n f, GRES s !! name = Some n -> fps !! name = Some f ->
    (fits64 (fp_CPUs f * n) -> fp_CPUs f * n <= sh_CPUs s) /\
    (fits64 (fp_MemoryBytes f + fp_SharedMemory f) -> fits64 ((fp_MemoryBytes f + fp_SharedMemory f) * n) ->
     (fp_MemoryBytes f + fp_SharedMemory f) * n <= MemoryBytes s);
  su_shared : SharedMemoryBytes s = wrap64 (shared_of fps (order (GRES s)));
  su_cpus_per_tres : exists cs, parseTRES parse_quantity (CPUsPerTRES job) = Ok cs /\
    forall name n c, GRES s !! name = Some n -> cs !! ("gres/" +:+ name) = Some c ->
      fits64 (c * n) -> c * n <= sh_CPUs s;
  su_memory_per_tres : exists ms, parseTRES parse_quantity (MemoryPerTRES job) = Ok ms /\
    forall name n m, GRES s !! name = Some n -> ms !! ("gres/" +:+ name) = Some m ->
      fits64 (m * n) -> m * n <= MemoryBytes s;
  su_unit : exists unit, parse_quantity (Api.MemoryUnit pool) = Some unit /\ 1 <= unit <= MemoryBytes s }.

Section Sufficient.
Context (order : gmap string Z -> list (string * Z)) (job : PendingJob) (pool : Api.WorkerPoolSpec)
  (fps : gmap string Footprint) (s : Shape).
Context (Ho : valid_order order) (Hs : shapeFor parse_quantity order job pool fps = Ok s).

Lemma shape_base :
  base_cpus job (node_count job) <= sh_CPUs s /\
  base_memory job (base_cpus job (node_count job)) <= MemoryBytes s.
Proof.
  apply shapeFor_inv in Hs as (values & cs & ms & unit & _ & _ & _ & _ & _ & _ & ->).
  set (acc0 := (_, _, ∅)). set (acc := foldl _ acc0 _).
  pose proof (foldl_mono (tres_step (tres_source job (Z.max (NodeCount job) 1)).2) (fun a => a.1.1) (order values)
    acc0 (fun a x => proj1 (tres_step_mono _ a x))) as H1.
  pose proof (foldl_mono (tres_step (tres_source job (Z.max (NodeCount job) 1)).2) (fun a => a.1.2) (order values)
    acc0 (fun a x => proj2 (tres_step_mono _ a x))) as H2.
  pose proof (foldl_mono (footprint_step fps) (fun a => a.1.1) (order acc.2) (acc.1.1, acc.1.2, 0)
    (fun a x => proj1 (footprint_step_mono fps a x))) as H3.
  pose proof (foldl_mono (footprint_step fps) (fun a => a.1.2) (order acc.2) (acc.1.1, acc.1.2, 0)
    (fun a x => proj2 (footprint_step_mono fps a x))) as H4.
  cbn [fst snd sh_CPUs MemoryBytes] in *. split.
  - etrans; [exact H1|]. etrans; [exact H3|apply constraint_mono].
  - etrans; [exact H2|]. etrans; [exact H4|]. etrans; [apply constraint_mono|apply Z.le_max_l].
Qed.

Lemma shape_memory_cpu :
  MemoryPerNode job = 0 -> cpus_fit job -> fits64 (MemoryPerCPU job * cpus_asked job * mebi) ->
  fits64 (MemoryPerCPU job * cpus_asked job) -> MemoryPerCPU job * cpus_asked job * mebi <= MemoryBytes s.
Proof.
  intros Hz Hf H1 H2. destruct shape_base as [_ Hm]. rewrite ->(base_cpus_asked _ Hf) in Hm.
  unfold base_memory in Hm. rewrite ->Hz in Hm. change (wrap64 (Z.shiftl 0 20)) with 0 in Hm.
  cbn [Z.eqb andb] in Hm. destruct (0 <? MemoryPerCPU job) eqn:E; bool_hyps.
  - rewrite ->(wrap64_id _ H2), Z.shiftl_mul_pow2 in Hm by lia. fold mebi in Hm. by rewrite ->wrap64_id in Hm.
  - etrans; [|exact Hm]. unfold cpus_asked, mebi in *. nia.
Qed.

Lemma shape_gres name n :
  GRES s !! name = Some n ->
  gres_error (Api.Gres <$> Api.Profiles pool) (name, n) = None /\ (name, n) ∈ order (GRES s).
Proof.
  intros Hl. assert ((name, n) ∈ order (GRES s)) as Hin by (rewrite ->(Ho (GRES s)); by apply elem_of_map_to_list).
  split; [|done]. apply shapeFor_inv in Hs as (values & cs & ms & unit & _ & _ & _ & _ & _ & Hall & E).
  rewrite ->E in Hin. by apply Hall.
Qed.

Lemma shape_footprint name n f :
  GRES s !! name = Some n -> fps !! name = Some f ->
  wrap64 (fp_CPUs f * n) <= sh_CPUs s /\
  wrap64 (wrap64 (fp_MemoryBytes f + fp_SharedMemory f) * n) <= MemoryBytes s.
Proof.
  intros [_ Hin]%shape_gres Hf.
  apply shapeFor_inv in Hs as (values & cs & ms & unit & _ & _ & _ & _ & _ & _ & E). rewrite ->E in Hin |- *.
  cbn [sh_CPUs MemoryBytes GRES] in *. clear E. set (acc := foldl _ _ (order values)) in *.
  destruct (footprint_covers fps _ (acc.1.1, acc.1.2, 0) _ f Hin Hf) as [H1 H2]. split.
  - etrans; [exact H1|apply constraint_mono].
  - etrans; [exact H2|]. etrans; [apply constraint_mono|apply Z.le_max_l].
Qed.

Lemma shape_constraints :
  exists cs ms, parseTRES parse_quantity (CPUsPerTRES job) = Ok cs /\
    parseTRES parse_quantity (MemoryPerTRES job) = Ok ms /\
    forall name n, GRES s !! name = Some n ->
      wrap64 (default 0 (cs !! ("gres/" +:+ name)) * n) <= sh_CPUs s /\
      wrap64 (default 0 (ms !! ("gres/" +:+ name)) * n) <= MemoryBytes s.
Proof.
  destruct (shapeFor_inv _ _ _ _ _ Hs) as (values & cs & ms & unit & _ & Hc & Hm & _ & _ & _ & E).
  exists cs, ms. split_and!; [done..|]. intros name n [_ Hin]%shape_gres. rewrite ->E in Hin |- *.
  cbn [sh_CPUs MemoryBytes GRES] in *. split; [by apply (constraint_covers cs _ _ (name, n))|].
  etrans; [|apply Z.le_max_l]. by apply (constraint_covers ms _ _ (name, n)).
Qed.

Lemma shape_unit : exists unit, parse_quantity (Api.MemoryUnit pool) = Some unit /\ 1 <= unit <= MemoryBytes s.
Proof.
  apply shapeFor_inv in Hs as (values & ? & ? & unit & _ & _ & _ & Hu & Hu1 & _ & ->). exists unit.
  cbn [MemoryBytes]. split; [done|]. lia.
Qed.

Lemma shape_per_job values key v :
  TRESPerNode job = ""%string -> TRESPerTask job = ""%string -> TRESPerSocket job = ""%string ->
  parseTRES parse_quantity (if (TRESPerJob job =? "")%string then TRESRequested job else TRESPerJob job) = Ok values ->
  values !! key = Some v -> 0 <= v -> v + node_count job <= int64_max -> v <= node_count job * amount s key.
Proof.
  intros E1 E2 E3 Hp Hl Hv0 Hv. pose proof (shape_provides _ _ _ _ _ values key v Ho Hs) as H.
  assert (tres_source job (node_count job) =
          (if (TRESPerJob job =? "")%string then TRESRequested job else TRESPerJob job, wrap64 (- node_count job))) as Et.
  { unfold tres_source. rewrite ->E1, E2, E3. simpl. by destruct (TRESPerJob job =? "")%string. }
  fold (node_count job) in H. rewrite ->Et in H. cbn [fst snd] in H.
  assert (0 < node_count job) as Hpos by (unfold node_count; lia).
  rewrite ->scale_share in H by lia. specialize (H Hp Hl).
  pose proof (share_le v _ Hpos Hv0). pose proof (share_covers v _ Hpos). unfold fits64, share in *.
  assert (int64_min <= 0) by (by apply Z.leb_le). nia.
Qed.

Lemma shape_per_task values key v :
  TRESPerNode job = ""%string -> TRESPerTask job <> ""%string ->
  parseTRES parse_quantity (TRESPerTask job) = Ok values -> values !! key = Some v ->
  Tasks job + node_count job <= int64_max -> fits64 (v * tasks_on_node job) ->
  v * tasks_on_node job <= amount s key.
Proof.
  intros E1 E2 Hp Hl Ht Hf. pose proof (shape_provides _ _ _ _ _ values key v Ho Hs) as H.
  assert (tres_source job (node_count job) = (TRESPerTask job, tasks_on_node job)) as Et.
  { unfold tres_source, tasks_on_node. rewrite ->E1. apply String.eqb_neq in E2. rewrite ->E2. simpl.
    rewrite ->divRoundUp_share by (unfold node_count in *; lia). f_equal. lia. }
  fold (node_count job) in H. rewrite ->Et in H. cbn [fst snd] in H.
  rewrite ->scale_times in H by (done || unfold tasks_on_node; lia). by apply H.
Qed.

Lemma shape_per_node values key v :
  TRESPerNode job <> ""%string -> parseTRES parse_quantity (TRESPerNode job) = Ok values ->
  values !! key = Some v -> fits64 v -> v <= amount s key.
Proof.
  intros E1 Hp Hl Hf. pose proof (shape_provides _ _ _ _ _ values key v Ho Hs) as H.
  assert (tres_source job (Z.max (NodeCount job) 1) = (TRESPerNode job, 1)) as Et.
  { unfold tres_source. apply String.eqb_neq in E1. by rewrite ->E1. }
  rewrite ->Et in H. cbn [fst snd] in H. rewrite ->scale_times, Z.mul_1_r in H by (rw ?Z.mul_1_r; done).
  by apply H.
Qed.

End Sufficient.

(** C39: a worker of the shape computed for a job can hold what the job asks of
    one node, as long as the products involved fit int64: the CPUs of its
    tasks and its share of the job's CPUs; the memory per node, or per CPU for
    these CPUs; the TRES given per node, per task (for all tasks of the node)
    or, by the nodes together, per job; for every accelerator, which is
    positive in number and has a profile of the pool, the CPUs and the memory
    of its published footprint, of CPUsPerTRES and of MemoryPerTRES, and the
    shared memory of all accelerators together; and the pool's memory unit. *)
Theorem shape_sufficient order job pool fps s :
  valid_order order -> shapeFor parse_quantity order job pool fps = Ok s -> sufficient order job pool fps s.
Proof.
  intros Ho Hs. destruct (shape_base order job pool fps s Hs) as [Hc Hm].
  destruct (shape_constraints order job pool fps s Ho Hs) as (cs & ms & Ecs & Ems & Hcm).
  destruct (shape_unit order job pool fps s Hs) as (unit & Hu & Hu1). split.
  - intros Hf. by rewrite <-base_cpus_asked.
  - intros Hf. unfold base_memory in Hm. rewrite ->Z.shiftl_mul_pow2 in Hm by lia. fold mebi in Hm.
    rewrite ->(wrap64_id _ Hf) in Hm.
    destruct (MemoryPerNode job * mebi =? 0) eqn:E; [|exact Hm]. bool_hyps. lia.
  - by apply (shape_memory_cpu order _ pool fps).
  - by apply (shape_per_node order job pool fps).
  - by apply (shape_per_task order job pool fps).
  - by apply (shape_per_job order job pool fps).
  - intros name n [He _]%(shape_gres order job pool fps s Ho Hs). unfold gres_error in He. simpl in He.
    repeat case_match; try done. bool_hyps. split; [lia|done].
  - intros name n f Hn Hf. destruct (shape_footprint order job pool fps s Ho Hs name n f Hn Hf) as [H1 H2]. split.
    + intros Hi. by rewrite ->wrap64_id in H1.
    + intros Hi Hi'. by rewrite ->(wrap64_id _ Hi), (wrap64_id _ Hi') in H2.
  - apply shapeFor_inv in Hs as (values & ? & ? & ? & _ & _ & _ & _ & _ & _ & ->). cbn [SharedMemoryBytes GRES].
    exact (footprint_shared fps _ _ _ 0).
  - exists cs. split; [done|]. intros name n c [H1 _]%Hcm Hc' Hf. rewrite ->Hc' in H1. simpl in H1.
    by rewrite ->(wrap64_id _ Hf) in H1.
  - exists ms. split; [done|]. intros name n c [_ H2]%Hcm Hc' Hf. rewrite ->Hc' in H2. simpl in H2.
    by rewrite ->(wrap64_id _ Hf) in H2.
  - by exists unit.
Qed.

End Orders.

(** ** Witnesses *)

Module DemandSamples.

(** Quantities in Mi and Gi. *)
Definition parse_quantity (s : string) : option Z :=
  match cut_suffix "Mi" s with
  | Some n => (fun z => z * 2 ^ 20) <$> parse_int64 n
  | None => match cut_suffix "Gi" s with
            | Some n => (fun z => z * 2 ^ 30) <$> parse_int64 n
            | None => None end
  end.

Definition pool : Api.WorkerPoolSpec :=
  Api.MkPool "gpu-pool" "gpu" [] "1Gi" (Api.MkScaling 0 4 1) [Api.MkProfile "a" "gpu:a100" "c"].

Definition pending (id prio : Z) (tres : string) : PendingJob :=
  MkPending id "gpu" "Resources" false prio 0 0 9 2 2 4 1 0 0 "" "" tres "" "" "" "" "" "pool_gpu_pool".

Definition footprints : gmap string Footprint := {["gpu:a100" := MkFootprint 2 (2 ^ 30) 0]}.
Definition jobs : list PendingJob := [pending 1 5 "gres/gpu:a100=3"; pending 2 9 "gres/tpu:x=1"; pending 3 9 "cpu=4"].

Lemma order_valid : valid_order map_to_list.
Proof. by intros m. Qed.

End DemandSamples.

Lemma demands_deterministic_witness :
  fst (Demands DemandSamples.parse_quantity map_to_list DemandSamples.jobs [DemandSamples.pool] DemandSamples.footprints) =
  fst (Demands DemandSamples.parse_quantity map_to_list (rev DemandSamples.jobs) [DemandSamples.pool] DemandSamples.footprints).
Proof.
  apply (demands_deterministic DemandSamples.parse_quantity map_to_list map_to_list DemandSamples.jobs
    (rev DemandSamples.jobs) [DemandSamples.pool] DemandSamples.footprints
    DemandSamples.order_valid DemandSamples.order_valid).
  - apply (bool_decide_unpack _). vm_compute. reflexivity.
  - apply Permutation_rev.
Defined.

Lemma demands_account_for_jobs_witness :
  (2 + 1 = length (List.filter relevant DemandSamples.jobs))%nat.
Proof.
  destruct (Demands DemandSamples.parse_quantity map_to_list DemandSamples.jobs [DemandSamples.pool]
              DemandSamples.footprints) as [out rej] eqn:E.
  pose proof (demands_account_for_jobs _ _ _ _ _ _ _ E) as [H _].
  assert (length out = 2%nat /\ length rej = 1%nat) as [H1 H2].
  { replace out with (fst (out, rej)) by reflexivity. replace rej with (snd (out, rej)) at 2 by reflexivity.
    rewrite <-E. split; vm_compute; reflexivity. }
  rewrite ->H1, H2 in H. exact H.
Defined.

(** A job of two nodes: three tasks of four CPUs and two GPUs on each, memory
    per CPU. *)
Definition per_node_job : PendingJob :=
  MkPending 1 "gpu" "Resources" false 5 0 0 9 2 6 4 3 1024 0 "" "" "" "gres/gpu:a100=2,cpu=8" "" "" "" "" "pool_gpu_pool".

Lemma shape_sufficient_witness :
  exists s, shapeFor DemandSamples.parse_quantity map_to_list per_node_job DemandSamples.pool DemandSamples.footprints
              = Ok s /\ 12 <= sh_CPUs s /\ 1024 * 12 * mebi <= MemoryBytes s /\ 2 <= amount s "gres/gpu:a100".
Proof.
  destruct (shapeFor DemandSamples.parse_quantity map_to_list per_node_job DemandSamples.pool DemandSamples.footprints)
    as [s|e] eqn:E.
  - exists s. split; [reflexivity|].
    destruct (shape_sufficient _ _ _ _ _ _ DemandSamples.order_valid E) as [Hc _ Hm Hn _ _ _ _ _ _ _ _].
    assert (cpus_fit per_node_job) as Hf.
    { split; [apply Z.leb_le|split; apply Z.leb_le]; vm_compute; reflexivity. }
    split; [exact (Hc Hf)|]. split.
    + apply (Hm eq_refl Hf); split; apply Z.leb_le; vm_compute; reflexivity.
    + apply (Hn {["gres/gpu:a100"%string := 2; "cpu"%string := 8]}); [discriminate| |reflexivity|].
      * vm_compute. reflexivity.
      * split; apply Z.leb_le; vm_compute; reflexivity.
  - exfalso. assert (is_ok (shapeFor DemandSamples.parse_quantity map_to_list per_node_job DemandSamples.pool
      DemandSamples.footprints) = true) as Hok by (vm_compute; reflexivity).
    rewrite ->E in Hok. discriminate.
Defined.

End Demand.
