(* ===== verification/WorkerPlan.v ===== *)
(** * WorkerPlan: matching demands with workers
    ([src/slurm-operator/controllers/workers.go], the parts without effects)

    Which existing worker serves a demand, which workers a job group needs,
    whether they fit the limits of the pools, and the devices a worker claims.
    [Workers] composes these parts in [reconcileWorkers]. *)

From S2P Require Import Prelude GoStrings SlurmClient Api Demand.

Module WorkerPlan.
Import Demand.

Definition driverName : string := "orchestration.gputpu.io".

(** ** Candidates *)

(** The fields of the candidate's Pod the planner reads. *)
Record workerCandidate := MkCandidate { c_name : string; c_pool : string; c_shape : Shape }.

Definition shapeFits (candidate wanted : Shape) : bool :=
  negb ((sh_CPUs candidate <? sh_CPUs wanted) || (MemoryBytes candidate <? MemoryBytes wanted)
        || negb (size (GRES candidate) =? size (GRES wanted))%nat)
  && forallb (fun e => default 0 (GRES candidate !! fst e) =? snd e) (map_to_list (GRES wanted)).

(** [a < b] on strings, bytewise. *)
Definition compare_ltb (a b : string) : bool := negb (String.leb b a).

Definition lessWaste (a b : workerCandidate) (wanted : Shape) : bool :=
  let aWaste := wrap64 (sh_CPUs (c_shape a) - sh_CPUs wanted) in
  let bWaste := wrap64 (sh_CPUs (c_shape b) - sh_CPUs wanted) in
  if negb (aWaste =? bWaste) then aWaste <? bWaste
  else
    let aMem := wrap64 (MemoryBytes (c_shape a) - MemoryBytes wanted) in
    let bMem := wrap64 (MemoryBytes (c_shape b) - MemoryBytes wanted) in
    if negb (aMem =? bMem) then aMem <? bMem else compare_ltb (c_name a) (c_name b).

Definition eligible (used localUsed : gset string) (d : Demand) (c : workerCandidate) : bool :=
  negb (bool_decide (c_name c ∈ used) || bool_decide (c_name c ∈ localUsed)
        || negb (c_pool c =? PoolName d)%string || negb (shapeFits (c_shape c) (d_Shape d))).

(** The loop of [bestCandidate]: [i] is the index of the head of [rest],
    [best] the best index so far with its candidate. *)
Fixpoint best_from (used localUsed : gset string) (d : Demand) (i : nat)
    (rest : list workerCandidate) (best : option (nat * workerCandidate)) : option (nat * workerCandidate) :=
  match rest with
  | [] => best
  | c :: rest' =>
      let best' :=
        if negb (eligible used localUsed d c) then best
        else match best with
             | None => Some (i, c)
             | Some (_, b) => if lessWaste c b (d_Shape d) then Some (i, c) else best
             end in
      best_from used localUsed d (S i) rest' best'
  end.

(** [None] is the index -1. *)
Definition bestCandidate (candidates : list workerCandidate) (used localUsed : gset string) (d : Demand)
    : option (nat * workerCandidate) :=
  best_from used localUsed d 0 candidates None.

(** ** Job groups *)

(** [groups] and [byGroup]: the groups in the order of their first demand. *)
Fixpoint group_ids (demands : list Demand) (seen : list Z) : list Z :=
  match demands with
  | [] => seen
  | d :: demands' =>
      group_ids demands' (if bool_decide (GroupID d ∈ seen) then seen else seen ++ [GroupID d])
  end.

Definition byGroup (demands : list Demand) (g : Z) : list Demand :=
  List.filter (fun d => GroupID d =? g) demands.

(** [for range demand.Count] *)
Fixpoint fill (n : nat) (candidates : list workerCandidate) (used localUsed : gset string) (d : Demand)
    (creates : list Demand) : gset string * list Demand :=
  match n with
  | O => (localUsed, creates)
  | S n' =>
      match bestCandidate candidates used localUsed d with
      | Some (_, c) => fill n' candidates used ({[c_name c]} ∪ localUsed) d creates
      | None =>
          fill n' candidates used localUsed d
            (creates ++ [MkDemand (JobID d) (GroupID d) (PoolName d) 1 (d_Shape d)])
      end
  end.

Fixpoint fill_group (ds : list Demand) (candidates : list workerCandidate) (used localUsed : gset string)
    (creates : list Demand) : gset string * list Demand :=
  match ds with
  | [] => (localUsed, creates)
  | d :: ds' =>
      let '(localUsed, creates) := fill (Z.to_nat (Count d)) candidates used localUsed d creates in
      fill_group ds' candidates used localUsed creates
  end.

Definition count_pool (creates : list Demand) (pool : string) : Z :=
  Z.of_nat (length (List.filter (fun d => (PoolName d =? pool)%string) creates)).

Definition pool_of (pools : list Api.WorkerPoolSpec) (name : string) : option Api.WorkerPoolSpec :=
  List.find (fun p => (Api.Name p =? name)%string) (rev pools).

(** ** Claims *)

Record DeviceRequest := MkDeviceRequest {
  rq_Name : string; rq_Class : string; rq_Count : Z; rq_Selector : string }.

Inductive claim_error := BadUnit | NoGresProfile (gres : string) | TooManyDevices (total : Z).

Definition exactRequest (name class : string) (count : Z) (selector : string) : DeviceRequest :=
  MkDeviceRequest name class count selector.

(** [%q] and [strconv.Quote] on strings without characters that need escaping. *)
Definition quote (s : string) : string := String (chr 34) s +:+ String (chr 34) "".

Definition kindSelector (kind : string) : string :=
  "device.driver == " +:+ quote driverName +:+ " && device.attributes[" +:+ quote driverName
  +:+ "].kind == " +:+ quote kind.

Definition kindAndValueSelector (kind attribute value : string) (quoted : bool) : string :=
  kindSelector kind +:+ " && device.attributes[" +:+ quote driverName +:+ "][" +:+ quote attribute
  +:+ "] == " +:+ (if quoted then quote value else value).

Section Claims.
Variable parse_quantity : string -> option Z.
Variable AllocationResultsMaxSize : Z.

(** The loop over the sorted GRES names: the total and the requests. *)
Fixpoint gres_requests (pool : Api.WorkerPoolSpec) (gres : gmap string Z) (names : list string)
    (total : Z) (requests : list DeviceRequest) : result claim_error (Z * list DeviceRequest) :=
  match names with
  | [] => Ok (total, requests)
  | g :: names' =>
      match List.find (fun p => (Api.Gres p =? g)%string) (rev (Api.Profiles pool)) with
      | None => Err (NoGresProfile g)
      | Some profile =>
          let '(kind, model) := default (g, ""%string) (cut_on ":" g) in
          let attribute := if (kind =? "tpu")%string then "profile"%string else "model"%string in
          let count := default 0 (gres !! g) in
          let device := if (kind =? "gpu")%string then "gpu"%string
                        else if (kind =? "tpu")%string then "opentpu"%string else ""%string in
          gres_requests pool gres names' (wrap64 (total + count))
            (requests ++ [exactRequest ("accelerator-" +:+ Api.wp_Name profile) (Api.DeviceClassName profile)
                            count (kindAndValueSelector device attribute model true)])
      end
  end.

(** [slices.Sorted(maps.Keys(m))] *)
Definition sorted_keys (m : gmap string Z) : list string :=
  merge_sort String.le (map fst (map_to_list m)).

(** The requests of the claim. *)
Definition resourceClaim (shape : Shape) (pool : Api.WorkerPoolSpec) (headroom : Z)
    : result claim_error (list DeviceRequest) :=
  match parse_quantity (Api.MemoryUnit pool) with
  | None => Err BadUnit
  | Some unit =>
      reject_if unit <? 1 with BadUnit in
      let memoryCount :=
        Z.quot (wrap64 (wrap64 (wrap64 (MemoryBytes shape + headroom) + unit) - 1)) unit in
      let total := wrap64 (sh_CPUs shape + memoryCount) in
      let requests :=
        [exactRequest "cpu" "cpu.orchestration.gputpu.io" (sh_CPUs shape) (kindSelector "cpu");
         exactRequest "memory" "memory.orchestration.gputpu.io" memoryCount
           (kindAndValueSelector "memory" "unitBytes" (format_int unit) false)] in
      let! (total, requests) :=
        gres_requests pool (GRES shape) (sorted_keys (GRES shape)) total requests in
      reject_if AllocationResultsMaxSize <? total with TooManyDevices total in
      Ok requests
  end.

(** ** The limits of a group *)

(** The creations of one group fit: each has a valid claim and no pool
    exceeds its limit. *)
Definition group_fits (pools : list Api.WorkerPoolSpec) (headroom : Z) (counts : gmap string Z)
    (creates : list Demand) : bool :=
  forallb (fun d => match pool_of pools (PoolName d) with
                    | Some pool => is_ok (resourceClaim (d_Shape d) pool headroom)
                    | None => false
                    end) creates
  && forallb (fun d => default 0 (counts !! PoolName d) + count_pool creates (PoolName d) <=?
                       match pool_of pools (PoolName d) with
                       | Some pool => Api.MaxWorkers (Api.Scaling pool)
                       | None => 0
                       end) creates.

Definition add_count (counts : gmap string Z) (pool : string) : gmap string Z :=
  <[pool := default 0 (counts !! pool) + 1]> counts.

End Claims.

(** ** The best candidate *)

(** [lessWaste] is the strict lexicographic order of this key. *)
Definition waste (wanted : Shape) (c : workerCandidate) : Z * Z * string :=
  (wrap64 (sh_CPUs (c_shape c) - sh_CPUs wanted),
   wrap64 (MemoryBytes (c_shape c) - MemoryBytes wanted), c_name c).

Definition key_lt (a b : Z * Z * string) : Prop :=
  a.1.1 < b.1.1 \/ (a.1.1 = b.1.1 /\ (a.1.2 < b.1.2 \/ (a.1.2 = b.1.2 /\ ~ String.le b.2 a.2))).

Lemma lessWaste_spec wanted a b : lessWaste a b wanted = true <-> key_lt (waste wanted a) (waste wanted b).
Proof.
  unfold lessWaste, key_lt, waste, compare_ltb. simpl.
  destruct (_ =? _) eqn:E1; simpl; [|bool_hyps; rewrite ->Z.ltb_lt; lia].
  bool_hyps. rewrite ->E1. destruct (_ =? _) eqn:E2; simpl; [|bool_hyps; rewrite ->Z.ltb_lt; lia].
  bool_hyps. rewrite ->E2, negb_true_iff. unfold String.le.
  split.
  - intros Hf. right. split; [done|]. right. split; [done|]. rewrite ->Hf. by intros [].
  - intros [?|[_ [?|[_ Hn]]]]; [lia|lia|]. apply not_true_iff_false. intros E. apply Hn. by rewrite ->E.
Qed.

Lemma key_lt_trans a b c : key_lt a b -> key_lt b c -> key_lt a c.
Proof.
  destruct a as [[a1 a2] a3], b as [[b1 b2] b3], c as [[c1 c2] c3]. unfold key_lt. simpl.
  assert (~ String.le b3 a3 -> ~ String.le c3 b3 -> ~ String.le c3 a3) as Ht.
  { intros H1 H2 H3. destruct (total String.le a3 b3) as [H4|H4]; [|done]. apply H2. by etrans. }
  intros [Ha|[Ha [Hb|[Hb Hc]]]] [Ha'|[Ha' [Hb'|[Hb' Hc']]]]; try (left; lia); right; (split; [lia|]);
    try (left; lia); right; split; [lia|auto].
Qed.

Definition no_better (d : Demand) (b c : workerCandidate) : Prop :=
  lessWaste c b (d_Shape d) = false.

Lemma no_better_trans d b b' c :
  no_better d b c -> lessWaste b' b (d_Shape d) = true -> no_better d b' c.
Proof.
  unfold no_better. intros H1 H2. apply not_true_iff_false. intros H3.
  apply lessWaste_spec in H2, H3. apply not_true_iff_false in H1. apply H1, lessWaste_spec.
  by eapply key_lt_trans.
Qed.

Lemma lessWaste_irrefl d c : no_better d c c.
Proof.
  unfold no_better, lessWaste. rewrite ->!Z.eqb_refl. simpl. unfold compare_ltb.
  assert (String.le (c_name c) (c_name c)) as Hle by done. unfold String.le in Hle.
  apply Is_true_true in Hle. by rewrite ->Hle.
Qed.

(** What the loop of [bestCandidate] has established after [done]. *)
Definition best_ok used localUsed d (done_ : list workerCandidate)
    (best : option (nat * workerCandidate)) : Prop :=
  match best with
  | None => forall c, c ∈ done_ -> eligible used localUsed d c = false
  | Some (i, b) =>
      done_ !! i = Some b /\ eligible used localUsed d b = true /\
      forall c, c ∈ done_ -> eligible used localUsed d c = true -> no_better d b c
  end.

Lemma best_from_ok used localUsed d done_ rest best :
  best_ok used localUsed d done_ best ->
  best_ok used localUsed d (done_ ++ rest) (best_from used localUsed d (length done_) rest best).
Proof.
  revert done_ best. induction rest as [|c rest IH]; intros done_ best Hok; cbn [best_from].
  { by rw app_nil_r. }
  replace (S (length done_)) with (length (done_ ++ [c])) by (rewrite ->length_app; simpl; lia).
  replace (done_ ++ c :: rest) with ((done_ ++ [c]) ++ rest) by (by rewrite <-app_assoc).
  apply IH. destruct (eligible used localUsed d c) eqn:Ec; simpl.
  - destruct best as [[i b]|]; simpl in *.
    + destruct Hok as (Hi & Hb & Hmin). destruct (lessWaste c b (d_Shape d)) eqn:El; simpl.
      * split_and!; [apply list_lookup_middle; lia|done|].
        intros c' [Hin| ->%list_elem_of_singleton]%elem_of_app He; [|apply lessWaste_irrefl].
        eapply no_better_trans; [by apply Hmin|done].
      * split_and!; [by apply lookup_app_l_Some|done|].
        intros c' [Hin| ->%list_elem_of_singleton]%elem_of_app He; [by apply Hmin|done].
    + split_and!; [apply list_lookup_middle; lia|done|].
      intros c' [Hin| ->%list_elem_of_singleton]%elem_of_app He; [|apply lessWaste_irrefl].
      by rewrite ->(Hok _ Hin) in He.
  - destruct best as [[i b]|]; simpl in *.
    + destruct Hok as (Hi & Hb & Hmin). split_and!; [by apply lookup_app_l_Some|done|].
      intros c' [Hin| ->%list_elem_of_singleton]%elem_of_app He; [by apply Hmin|congruence].
    + intros c' [Hin| ->%list_elem_of_singleton]%elem_of_app; auto.
Qed.

Lemma bestCandidate_ok candidates used localUsed d :
  best_ok used localUsed d candidates (bestCandidate candidates used localUsed d).
Proof.
  apply (best_from_ok used localUsed d [] candidates None). by intros c ?%not_elem_of_nil.
Qed.

(** [bestCandidate] returns a free worker of the demanded pool whose
    shape fits, and none that fits wastes less (CPUs first, then memory, then
    the name decides); it reports none exactly when no free worker fits. *)
Theorem best_candidate_optimal candidates used localUsed d :
  match bestCandidate candidates used localUsed d with
  | Some (i, b) =>
      candidates !! i = Some b /\ c_name b ∉ used /\ c_name b ∉ localUsed /\
      c_pool b = PoolName d /\ shapeFits (c_shape b) (d_Shape d) = true /\
      forall c, c ∈ candidates -> eligible used localUsed d c = true ->
        ~ key_lt (waste (d_Shape d) c) (waste (d_Shape d) b)
  | None => forall c, c ∈ candidates -> eligible used localUsed d c = false
  end.
Proof.
  pose proof (bestCandidate_ok candidates used localUsed d) as Hok.
  destruct (bestCandidate _ _ _ _) as [[i b]|]; simpl in Hok; [|done].
  destruct Hok as (Hi & He & Hmin). unfold eligible in He. bool_hyps.
  split_and!; try done. intros c Hc Hec Hlt. apply lessWaste_spec in Hlt.
  specialize (Hmin _ Hc Hec). unfold no_better in Hmin. congruence.
Qed.

(** ** Serving a group *)

(** One worker asked for, and the workers a list of demands asks for. *)
Definition unit_of (d : Demand) : Demand := MkDemand (JobID d) (GroupID d) (PoolName d) 1 (d_Shape d).
Definition units (ds : list Demand) : list Demand :=
  concat ((fun d => replicate (Z.to_nat (Count d)) (unit_of d)) <$> ds).

(** Who serves each worker asked for: an existing one, or ([None]) a new one. *)
Abbreviation assignment := (list (Demand * option workerCandidate)).
Definition reused (a : assignment) : list string := c_name <$> omap snd a.
Definition fresh (a : assignment) : list Demand :=
  omap (fun e => match snd e with Some _ => None | None => Some (fst e) end) a.

Lemma reused_app a b : reused (a ++ b) = reused a ++ reused b.
Proof. unfold reused. by rewrite ->omap_app, fmap_app. Qed.

Lemma fresh_workers_app a b : fresh (a ++ b) = fresh a ++ fresh b.
Proof. apply omap_app. Qed.

Definition fits_unit (d : Demand) (c : workerCandidate) : Prop :=
  c_pool c = PoolName d /\ shapeFits (c_shape c) (d_Shape d) = true.

(** The reused workers are different fitting candidates outside [taken], and
    a new worker is planned only where no such candidate is left. *)
Record serves (candidates : list workerCandidate) (taken : gset string) (a : assignment) : Prop := {
  sv_fits : forall d c, (d, Some c) ∈ a -> c ∈ candidates /\ fits_unit d c;
  sv_once : NoDup (reused a);
  sv_free : forall n, n ∈ reused a -> n ∉ taken;
  sv_new : forall d c, (d, None) ∈ a -> c ∈ candidates -> fits_unit d c ->
    c_name c ∈ taken \/ c_name c ∈ reused a }.

Lemma serves_nil candidates taken : serves candidates taken [].
Proof. split; [set_solver|constructor|set_solver..]. Qed.

Lemma reused_elem d c a : (d, Some c) ∈ a -> c_name c ∈ reused a.
Proof.
  intros H. apply list_elem_of_fmap. exists c. split; [done|]. apply list_elem_of_omap. by exists (d, Some c).
Qed.

Lemma serves_app candidates taken a b :
  serves candidates taken a -> serves candidates (list_to_set (reused a) ∪ taken) b ->
  serves candidates taken (a ++ b).
Proof.
  intros [A1 A2 A3 A4] [B1 B2 B3 B4]. split.
  - intros d c [H|H]%elem_of_app; auto.
  - rewrite ->reused_app. apply NoDup_app. split_and!; [done| |done].
    intros n Hn Hb. apply B3 in Hb. set_solver.
  - intros n. rewrite ->reused_app. intros [H|H]%elem_of_app; [by apply A3|].
    apply B3 in H. set_solver.
  - intros d c [H|H]%elem_of_app Hc Hf; rewrite ->reused_app.
    + destruct (A4 _ _ H Hc Hf); [by left|]. right. apply elem_of_app. by left.
    + destruct (B4 _ _ H Hc Hf) as [Ht|Ht]; [|right; apply elem_of_app; by right].
      apply elem_of_union in Ht as [Ht|Ht]; [|by left]. right. apply elem_of_app. left. set_solver.
Qed.

Lemma eligible_iff used lu d c :
  eligible used lu d c = true <-> c_name c ∉ used ∪ lu /\ fits_unit d c.
Proof.
  unfold eligible, fits_unit. rewrite ->negb_true_iff, !orb_false_iff, !bool_decide_eq_false, !negb_false_iff.
  rewrite ->String.eqb_eq. set_solver.
Qed.

(** One worker of a demand. *)
Definition serve_one (candidates : list workerCandidate) (used lu : gset string) (d : Demand) : assignment :=
  [(unit_of d, snd <$> bestCandidate candidates used lu d)].

Lemma serve_one_serves candidates used lu d :
  serves candidates (lu ∪ used) (serve_one candidates used lu d).
Proof.
  unfold serve_one. pose proof (bestCandidate_ok candidates used lu d) as Hb.
  destruct (bestCandidate candidates used lu d) as [[j c]|]; simpl in *.
  - destruct Hb as (Hj & He & _). apply eligible_iff in He as [Hn Hf]. split; unfold reused; simpl.
    + intros d' c' [= -> ->]%list_elem_of_singleton. split; [by eapply list_elem_of_lookup_2|done].
    + apply NoDup_singleton.
    + intros n ->%list_elem_of_singleton. set_solver.
    + intros d' c' [=]%list_elem_of_singleton.
  - split; unfold reused; simpl; [|constructor|set_solver|].
    + intros d' c' [=]%list_elem_of_singleton.
    + intros d' c [= ->]%list_elem_of_singleton Hc Hf. left.
      destruct (decide (c_name c ∈ lu ∪ used)) as [|Hn]; [done|].
      assert (eligible used lu d c = true) as He by (apply eligible_iff; split; [set_solver|done]).
      by rewrite ->(Hb _ Hc) in He.
Qed.

(** [fill] serves [n] workers of one demand. *)
Lemma fill_serves n candidates used lu d creates lu' creates' :
  fill n candidates used lu d creates = (lu', creates') ->
  exists a, a.*1 = replicate n (unit_of d) /\ serves candidates (lu ∪ used) a /\
    lu' = list_to_set (reused a) ∪ lu /\ creates' = creates ++ fresh a.
Proof.
  revert lu creates. induction n as [|n IH]; intros lu creates; cbn [fill].
  { intros [= <- <-]. exists []. split_and!; [done|apply serves_nil|set_solver|by rw app_nil_r]. }
  pose proof (serve_one_serves candidates used lu d) as Hone. unfold serve_one in Hone.
  destruct (bestCandidate candidates used lu d) as [[j c]|]; simpl in Hone; intros H';
    apply IH in H' as (a & Ha & Hs & -> & ->).
  - exists ([(unit_of d, Some c)] ++ a). rewrite ->reused_app, fresh_workers_app. split_and!.
    + by rewrite ->fmap_app, Ha.
    + eapply serves_app; [done|]. unfold reused at 1; simpl.
      by replace ({[c_name c]} ∪ ∅ ∪ (lu ∪ used)) with ({[c_name c]} ∪ lu ∪ used) by set_solver.
    + unfold reused at 1; simpl. set_solver.
    + done.
  - exists ([(unit_of d, None)] ++ a). rewrite ->reused_app, fresh_workers_app. split_and!.
    + by rewrite ->fmap_app, Ha.
    + eapply serves_app; [done|]. unfold reused at 1; simpl. by rewrite ->union_empty_l_L.
    + done.
    + by rewrite <-app_assoc.
Qed.

(** [fill_group] serves every worker the demands of the group ask for. *)
Lemma fill_group_serves ds candidates used lu creates lu' creates' :
  fill_group ds candidates used lu creates = (lu', creates') ->
  exists a, a.*1 = units ds /\ serves candidates (lu ∪ used) a /\
    lu' = list_to_set (reused a) ∪ lu /\ creates' = creates ++ fresh a.
Proof.
  revert lu creates. induction ds as [|d ds IH]; intros lu creates; cbn [fill_group].
  { intros [= <- <-]. exists []. split_and!; [done|apply serves_nil|set_solver|by rw app_nil_r]. }
  destruct (fill _ _ _ _ _ _) as [lu1 creates1] eqn:Ef. intros H'.
  apply fill_serves in Ef as (a & Ha & Hs & -> & ->).
  apply IH in H' as (b & Hb & Hs' & -> & ->). exists (a ++ b). rewrite ->reused_app, fresh_workers_app. split_and!.
  - rewrite ->fmap_app, Ha, Hb. unfold units. done.
  - eapply serves_app; [done|]. by rewrite ->union_assoc_L.
  - rewrite ->list_to_set_app_L. set_solver.
  - by rewrite ->app_assoc.
Qed.

(** ** Groups and pool counts *)

Lemma group_ids_spec demands seen :
  NoDup seen -> NoDup (group_ids demands seen) /\
  forall g, g ∈ group_ids demands seen <-> g ∈ seen \/ exists d, d ∈ demands /\ GroupID d = g.
Proof.
  revert seen. induction demands as [|d demands IH]; intros seen Hnd; cbn [group_ids].
  { split; [done|]. set_solver. }
  case_bool_decide as Hd.
  - destruct (IH seen Hnd) as [Hn Hg]. split; [done|]. set_solver.
  - destruct (IH (seen ++ [GroupID d])) as [Hn Hg].
    { apply NoDup_app. split_and!; [done|set_solver|apply NoDup_singleton]. }
    split; [done|]. set_solver.
Qed.

Lemma count_pool_app l k p : count_pool (l ++ k) p = count_pool l p + count_pool k p.
Proof. unfold count_pool. rewrite ->List.filter_app, length_app. lia. Qed.

Lemma add_counts_spec counts creates p :
  default 0 (foldl add_count counts (map PoolName creates) !! p) =
  default 0 (counts !! p) + count_pool creates p.
Proof.
  revert counts. induction creates as [|d creates IH]; intros counts; simpl.
  { unfold count_pool. simpl. lia. }
  rewrite ->IH. unfold add_count, count_pool. simpl.
  destruct (PoolName d =? p)%string eqn:E; bool_hyps.
  - subst. rewrite ->lookup_insert_eq. simpl. lia.
  - by rewrite ->lookup_insert_ne.
Qed.

Section Plan.
Variable parse_quantity : string -> option Z.
Variable AllocationResultsMaxSize : Z.
Variable pools : list Api.WorkerPoolSpec.
Variable headroom : Z.

(** Counting the workers of the pool [p] from [counts] on. *)
Definition within_limits (counts counts' : gmap string Z) (created : list Demand) (p : string) : Prop :=
  default 0 (counts' !! p) = default 0 (counts !! p) + count_pool created p /\
  (0 < count_pool created p ->
   exists pool, pool_of pools p = Some pool /\
     default 0 (counts !! p) + count_pool created p <= Api.MaxWorkers (Api.Scaling pool)) /\
  (forall d, d ∈ created -> exists pool requests, pool_of pools (PoolName d) = Some pool /\
     resourceClaim parse_quantity AllocationResultsMaxSize (d_Shape d) pool headroom = Ok requests).

Lemma group_fits_limits counts counts0 created creates p :
  group_fits parse_quantity AllocationResultsMaxSize pools headroom counts0 creates = true ->
  within_limits counts counts0 created p ->
  within_limits counts (foldl add_count counts0 (map PoolName creates)) (created ++ creates) p.
Proof.
  intros [Hf1 Hf2]%andb_true_iff (H1 & H2 & H3).
  rewrite ->List.forallb_forall in Hf1. rewrite ->List.forallb_forall in Hf2. split_and!.
  - rewrite ->add_counts_spec, count_pool_app, H1. lia.
  - rewrite ->count_pool_app. intros Hpos.
    destruct (decide (0 < count_pool creates p)) as [Hc|Hc].
    + unfold count_pool in Hc. destruct (List.filter _ creates) as [|d l] eqn:El; [simpl in Hc; lia|].
      assert (In d (List.filter (fun d => (PoolName d =? p)%string) creates)) as Hin by (rewrite ->El; by left).
      apply filter_In in Hin as [Hin Hp]. bool_hyps. subst p.
      specialize (Hf2 _ Hin). bool_hyps. destruct (pool_of pools (PoolName d)) as [pool|] eqn:Epool.
      * exists pool. split; [done|]. lia.
      * specialize (Hf1 _ Hin). by rewrite ->Epool in Hf1.
    + destruct H2 as (pool & Hpool & Hle); [unfold count_pool in *; lia|].
      exists pool. split; [done|]. unfold count_pool in *. lia.
  - intros d [Hd|Hd]%elem_of_app; [by apply H3|]. apply list_elem_of_In, Hf1 in Hd.
    destruct (pool_of pools (PoolName d)) as [pool|]; [|done]. exists pool.
    destruct (resourceClaim parse_quantity AllocationResultsMaxSize (d_Shape d) pool headroom) as [rs|];
      [by exists rs|done].
Qed.

End Plan.

(** ** Claims *)

Definition claim_total (requests : list DeviceRequest) : Z := foldr Z.add 0 (rq_Count <$> requests).

Lemma claim_total_cons r l : claim_total (r :: l) = rq_Count r + claim_total l.
Proof. done. Qed.

Lemma claim_total_app l k : claim_total (l ++ k) = claim_total l + claim_total k.
Proof.
  induction l as [|r l IH]; [done|]. rewrite <-app_comm_cons, !claim_total_cons, IH. lia.
Qed.

Definition gres_total (gres : gmap string Z) (names : list string) : Z :=
  foldr Z.add 0 ((fun g => default 0 (gres !! g)) <$> names).

Lemma gres_total_nonneg (gres : gmap string Z) names :
  (forall g n, gres !! g = Some n -> 0 <= n) -> 0 <= gres_total gres names.
Proof.
  intros H. induction names as [|g names IH]; [done|].
  change (gres_total gres (g :: names)) with (default 0 (gres !! g) + gres_total gres names).
  destruct (gres !! g) as [n|] eqn:E; simpl; [specialize (H _ _ E)|]; lia.
Qed.

Lemma gres_requests_sound pool gres names total requests total' requests' :
  (forall g n, gres !! g = Some n -> 0 <= n) -> 0 <= total ->
  total + gres_total gres names <= int64_max ->
  gres_requests pool gres names total requests = Ok (total', requests') ->
  total' = total + gres_total gres names /\
  exists new, requests' = requests ++ new /\ claim_total new = gres_total gres names.
Proof.
  intros Hg. revert total requests.
  induction names as [|g names IH]; intros total requests Ht Hmax; cbn [gres_requests].
  { intros [= <- <-]. split; [unfold gres_total; simpl; lia|]. exists []. by rw app_nil_r. }
  destruct (List.find _ _) as [profile|]; [|done].
  destruct (default _ (cut_on ":" g)) as [kind model].
  pose proof (gres_total_nonneg gres names Hg) as Hnn.
  assert (gres_total gres (g :: names) = default 0 (gres !! g) + gres_total gres names) as Hc by done.
  assert (0 <= default 0 (gres !! g)) as Hn0.
  { destruct (gres !! g) as [n|] eqn:E; simpl; [by apply (Hg g)|lia]. }
  rewrite ->wrap64_id by (pow2; lia). intros H'. apply IH in H' as (-> & new & -> & Hnew); [|lia..].
  split; [lia|]. rewrite <-app_assoc. eexists. split; [done|].
  rewrite ->claim_total_app, Hnew, Hc, claim_total_cons. simpl. unfold claim_total. simpl. lia.
Qed.

(** A worker's claim asks for its CPUs, for enough memory units to hold
    its memory and the headroom, and for its accelerators; and the devices
    requested never exceed what one allocation can hold. *)
Theorem claim_covers_shape parse_quantity limit shape pool headroom requests unit :
  resourceClaim parse_quantity limit shape pool headroom = Ok requests ->
  parse_quantity (Api.MemoryUnit pool) = Some unit ->
  0 <= sh_CPUs shape -> 0 <= MemoryBytes shape + headroom ->
  (forall g n, GRES shape !! g = Some n -> 0 <= n) ->
  MemoryBytes shape + headroom + unit <= int64_max ->
  sh_CPUs shape + (MemoryBytes shape + headroom + unit)
    + gres_total (GRES shape) (sorted_keys (GRES shape)) <= int64_max ->
  claim_total requests <= limit /\
  exists cpu memory accelerators,
    requests = cpu :: memory :: accelerators /\ rq_Count cpu = sh_CPUs shape /\
    MemoryBytes shape + headroom <= rq_Count memory * unit /\
    claim_total accelerators = gres_total (GRES shape) (sorted_keys (GRES shape)).
Proof.
  intros Hc Hu Hcpu Hmem Hg Hm1 Hm2. unfold resourceClaim in Hc. rewrite ->Hu in Hc.
  destruct (unit <? 1) eqn:Eu; [done|]. bool_hyps.
  pose proof (gres_total_nonneg _ (sorted_keys (GRES shape)) Hg) as Hnn.
  rewrite ->(wrap64_id (MemoryBytes shape + headroom)) in Hc by (pow2; lia).
  rewrite ->(wrap64_id (MemoryBytes shape + headroom + unit)) in Hc by (pow2; lia).
  rewrite ->(wrap64_id (MemoryBytes shape + headroom + unit - 1)) in Hc by (pow2; lia).
  rewrite ->Z.quot_div_nonneg in Hc by lia. set (q := (_ - 1) / unit) in *.
  assert (unit * q <= MemoryBytes shape + headroom + unit - 1) as Hq1 by (apply Z.mul_div_le; lia).
  assert (MemoryBytes shape + headroom + unit - 1 < unit * Z.succ q) as Hq2 by (apply Z.mul_succ_div_gt; lia).
  assert (0 <= q) by (apply Z.div_pos; lia).
  assert (q <= MemoryBytes shape + headroom + unit - 1) by nia.
  rewrite ->wrap64_id in Hc by (pow2; lia).
  destruct (gres_requests _ _ _ _ _) as [[total rs]|] eqn:Er; [|done].
  apply gres_requests_sound in Er as (-> & new & -> & Hnew); [|done|lia|lia].
  destruct (limit <? _) eqn:El; [done|]. injection Hc as <-. bool_hyps. split.
  - cbn [app]. rewrite ->!claim_total_cons, Hnew. simpl. lia.
  - eexists _, _, new. split; [done|]. simpl. split; [done|]. split; [nia|done].
Qed.

(** ** Witnesses *)

Module PlanSamples.
Import DemandSamples.

Definition shape (cpus : Z) : Shape := MkShape cpus (2 ^ 30) 0 {["gpu:a100" := 2]}.
End PlanSamples.

Lemma claim_covers_shape_witness :
  exists requests, resourceClaim DemandSamples.parse_quantity 32 (PlanSamples.shape 5) DemandSamples.pool 1 = Ok requests
    /\ claim_total requests <= 32.
Proof.
  destruct (resourceClaim DemandSamples.parse_quantity 32 (PlanSamples.shape 5) DemandSamples.pool 1)
    as [requests|e] eqn:E.
  - exists requests. split; [reflexivity|].
    refine (proj1 (claim_covers_shape _ _ _ _ _ _ (2 ^ 30) E eq_refl _ _ _ _ _)).
    1, 2, 4, 5: apply Z.leb_le; vm_compute; reflexivity.
    intros g n Hn. unfold PlanSamples.shape in Hn. simpl in Hn.
    apply lookup_singleton_Some in Hn as [_ <-]. lia.
  - exfalso. assert (is_ok (resourceClaim DemandSamples.parse_quantity 32 (PlanSamples.shape 5)
      DemandSamples.pool 1) = true) as Hok by (vm_compute; reflexivity).
    rewrite ->E in Hok. discriminate.
Defined.

End WorkerPlan.
