(* ===== verification/Effects.v ===== *)
(** * Effects: controller code as programs that leave a trace

    A controller method reads an environment, issues calls to the API server
    or to Slurm and stops at the first error.  [eff] is the monad of such
    methods: every call is appended to a trace, and the environment decides
    its answer from the whole trace so far, so nothing is assumed about
    failures, other clients or the state of the cluster.  [spec] is the
    program logic the components use: what holds of the result together with
    the calls the program issued. *)

From S2P Require Import Prelude.

Section Effects.
Context {Env Event E : Type}.

Definition eff (A : Type) : Type := Env -> list Event -> result E A * list Event.

Definition ret {A} (a : A) : eff A := fun _ tr => (Ok a, tr).
Definition throw {A} (e : E) : eff A := fun _ tr => (Err e, tr).
Definition bind {A B} (m : eff A) (k : A -> eff B) : eff B := fun env tr =>
  match m env tr with
  | (Ok a, tr') => k a env tr'
  | (Err e, tr') => (Err e, tr')
  end.
Definition ask {A} (f : Env -> list Event -> A) : eff A := fun env tr => (Ok (f env tr), tr).

(** Issue the call [e]; [f] is the environment's answer to it. *)
Definition call {A} (f : Env -> list Event -> A) (e : Event) : eff A := fun env tr => (Ok (f env tr), tr ++ [e]).

(** A call recorded together with its answer. *)
Definition observe {A} (f : Env -> list Event -> A) (mk : A -> Event) : eff A := fun env tr =>
  (Ok (f env tr), tr ++ [mk (f env tr)]).

Definition lift {A} (r : result E A) : eff A :=
  match r with Ok a => ret a | Err e => throw e end.

(** Go on with the error of [m] as a value. *)
Definition attempt {A} (m : eff A) : eff (result E A) := fun env tr => (Ok (fst (m env tr)), snd (m env tr)).

(** [defer]: the call [e] follows [m] on every return. *)
Definition finally {A} (e : Event) (m : eff A) : eff A :=
  bind (attempt m) (fun r => bind (call (fun _ _ => tt) e) (fun _ => lift r)).

(** [m] returns [r] having issued the calls [new], for some pair that
    satisfies [Q]. *)
Definition spec {A} (m : eff A) (Q : result E A -> list Event -> Prop) : Prop :=
  forall env tr, exists new, snd (m env tr) = tr ++ new /\ Q (fst (m env tr)) new.

Lemma spec_ret {A} (a : A) (Q : result E A -> list Event -> Prop) : Q (Ok a) [] -> spec (ret a) Q.
Proof. intros H env tr. exists []. split; [by rewrite ->app_nil_r|apply H]. Qed.

Lemma spec_throw {A} e (Q : result E A -> list Event -> Prop) : Q (Err e) [] -> spec (throw e) Q.
Proof. intros H env tr. exists []. split; [by rewrite ->app_nil_r|apply H]. Qed.

Lemma spec_ask {A} (f : Env -> list Event -> A) (Q : result E A -> list Event -> Prop) :
  (forall a, Q (Ok a) []) -> spec (ask f) Q.
Proof. intros H env tr. exists []. split; [by rewrite ->app_nil_r|apply H]. Qed.

Lemma spec_call {A} (f : Env -> list Event -> A) e (Q : result E A -> list Event -> Prop) :
  (forall a, Q (Ok a) [e]) -> spec (call f e) Q.
Proof. intros H env tr. exists [e]. split; [done|apply H]. Qed.

Lemma spec_bind {A B} (m : eff A) (k : A -> eff B) P Q :
  spec m P ->
  (forall a new, P (Ok a) new -> spec (k a) (fun r new' => Q r (new ++ new'))) ->
  (forall e new, P (Err e) new -> Q (Err e) new) ->
  spec (bind m k) Q.
Proof.
  intros Hm Hk He env tr. unfold bind. destruct (Hm env tr) as (new & Htr & HP).
  destruct (m env tr) as [[a|e] tr']; simpl in *; subst tr'.
  - destruct (Hk a new HP env (tr ++ new)) as (new' & -> & HQ). exists (new ++ new').
    split; [by rewrite ->app_assoc|done].
  - exists new. split; [done|by apply He].
Qed.

(** Reading the environment leaves no trace. *)
Lemma spec_ask_bind {A B} (f : Env -> list Event -> A) (k : A -> eff B) Q :
  (forall a, spec (k a) Q) -> spec (bind (ask f) k) Q.
Proof. intros H env tr. apply H. Qed.

Lemma spec_mono {A} (m : eff A) (P Q : result E A -> list Event -> Prop) :
  spec m P -> (forall r new, P r new -> Q r new) -> spec m Q.
Proof. intros Hm H env tr. destruct (Hm env tr) as (new & ? & ?). exists new. auto. Qed.

Lemma spec_and {A} (m : eff A) (P Q : result E A -> list Event -> Prop) :
  spec m P -> spec m Q -> spec m (fun r new => P r new /\ Q r new).
Proof.
  intros HP HQ env tr. destruct (HP env tr) as (new & E1 & ?). destruct (HQ env tr) as (new' & E2 & ?).
  rewrite ->E1 in E2. apply app_inv_head in E2 as ->. exists new'. auto.
Qed.

(** ** Calls that all satisfy a predicate *)

Definition emits {A} (P : Event -> Prop) (m : eff A) : Prop := spec m (fun _ new => Forall P new).

Lemma emits_ret {A} P (a : A) : emits P (ret a).
Proof. apply spec_ret. constructor. Qed.

Lemma emits_throw {A} P e : emits P (throw (A := A) e).
Proof. apply spec_throw. constructor. Qed.

Lemma emits_lift {A} P (r : result E A) : emits P (lift r).
Proof. destruct r; [apply emits_ret|apply emits_throw]. Qed.

Lemma emits_ask {A} P (f : Env -> list Event -> A) : emits P (ask f).
Proof. apply spec_ask. constructor. Qed.

Lemma emits_call {A} (P : Event -> Prop) (f : Env -> list Event -> A) e : P e -> emits P (call f e).
Proof. intros H. apply spec_call. repeat constructor. done. Qed.

Lemma emits_bind {A B} P (m : eff A) (k : A -> eff B) :
  emits P m -> (forall a, emits P (k a)) -> emits P (bind m k).
Proof.
  intros Hm Hk. eapply spec_bind; [exact Hm| |done]. intros a new Hn.
  eapply spec_mono; [apply Hk|]. intros r new' Hn'. apply Forall_app. by split.
Qed.

Lemma emits_mono {A} (P Q : Event -> Prop) (m : eff A) : emits P m -> (forall e, P e -> Q e) -> emits Q m.
Proof. intros Hm H. eapply spec_mono; [exact Hm|]. intros r new Hn. eapply Forall_impl; [exact Hn|exact H]. Qed.

(** ** Results that all satisfy a predicate *)

Definition returns {A} (R : A -> Prop) (m : eff A) : Prop := forall env tr a, fst (m env tr) = Ok a -> R a.

Lemma returns_ret {A} (R : A -> Prop) a : R a -> returns R (ret a).
Proof. intros H env tr a' [= <-]. done. Qed.

Lemma returns_throw {A} (R : A -> Prop) e : returns R (throw e).
Proof. by intros env tr a. Qed.

Lemma returns_bind {A B} (R : B -> Prop) (m : eff A) (k : A -> eff B) :
  (forall a, returns R (k a)) -> returns R (bind m k).
Proof.
  intros Hk env tr b. unfold bind. destruct (m env tr) as [[a|e] tr']; simpl; [apply Hk|done].
Qed.

Lemma spec_returns {A} (m : eff A) P (R : A -> Prop) :
  spec m P -> returns R m -> spec m (fun res new => P res new /\ forall a, res = Ok a -> R a).
Proof. intros Hm Hr env tr. destruct (Hm env tr) as (new & ? & ?). exists new. split_and!; [done..|]. apply Hr. Qed.

(** ** Loops *)

(** A loop over [l] that rewrites each element. *)
Fixpoint mapM_eff {A B} (f : A -> eff B) (l : list A) : eff (list B) :=
  match l with
  | [] => ret []
  | x :: l' => bind (f x) (fun y => bind (mapM_eff f l') (fun ys => ret (y :: ys)))
  end.

(** A loop over [l] that carries a state. *)
Fixpoint foldM_eff {A S} (f : S -> A -> eff S) (s : S) (l : list A) : eff S :=
  match l with
  | [] => ret s
  | x :: l' => bind (f s x) (fun s' => foldM_eff f s' l')
  end.

Lemma emits_mapM {A B} P (f : A -> eff B) l :
  (forall x, x ∈ l -> emits P (f x)) -> emits P (mapM_eff f l).
Proof.
  induction l as [|x l IH]; intros H; simpl; [apply emits_ret|].
  apply emits_bind; [apply H; set_solver|]. intros y. apply emits_bind; [apply IH; set_solver|].
  intros ys. apply emits_ret.
Qed.

Lemma returns_mapM {A B} (R : A -> B -> Prop) (f : A -> eff B) l :
  (forall x, x ∈ l -> returns (R x) (f x)) -> returns (Forall2 R l) (mapM_eff f l).
Proof.
  induction l as [|x l IH]; intros H; simpl; [by apply returns_ret; constructor|].
  intros env tr ys. unfold bind. destruct (f x env tr) as [[y|] tr1] eqn:Ef; [|done].
  destruct (mapM_eff f l env tr1) as [[ys'|] tr2] eqn:El; [|done]. intros [= <-]. constructor.
  - apply (H x ltac:(set_solver) env tr). by rewrite ->Ef.
  - apply (IH ltac:(set_solver) env tr1). by rewrite ->El.
Qed.

Lemma emits_foldM {A S} P (f : S -> A -> eff S) s l :
  (forall s x, x ∈ l -> emits P (f s x)) -> emits P (foldM_eff f s l).
Proof.
  revert s. induction l as [|x l IH]; intros s H; simpl; [apply emits_ret|].
  apply emits_bind; [apply H; set_solver|]. intros s'. apply IH. set_solver.
Qed.

(** ** Invariants of the whole history

    [ok h e] says that the call [e], the last one of [h], was permitted by what
    had happened until then; [good h] that all calls of [h] were.  [keeps m h Q]:
    from the good history [h] the program leads to a good one, in which [Q]
    holds of a returned value, in every environment that satisfies [honest]. *)

Section History.
Variable honest : Env -> Prop.
Variable ok : list Event -> Event -> Prop.

Inductive good : list Event -> Prop :=
| good_nil : good []
| good_snoc h e : good h -> ok (h ++ [e]) e -> good (h ++ [e]).

Definition keeps {A} (m : eff A) (h : list Event) (Q : A -> list Event -> Prop) : Prop :=
  forall env, honest env ->
    good (snd (m env h)) /\ h `prefix_of` snd (m env h) /\ forall a, fst (m env h) = Ok a -> Q a (snd (m env h)).

Lemma good_split h1 e h2 : good (h1 ++ e :: h2) -> ok (h1 ++ [e]) e.
Proof.
  revert e. induction h2 as [|e2 h2 IH] using rev_ind; intros e H; inversion H as [Heq|h e' Hg Ho Heq].
  - by destruct h1.
  - apply app_inj_tail in Heq as [-> ->]. done.
  - by destruct h1.
  - rewrite ->app_comm_cons, app_assoc in Heq. apply app_inj_tail in Heq as [-> ->]. by apply IH.
Qed.

Lemma good_prefix h h' : h `prefix_of` h' -> good h' -> good h.
Proof.
  intros [k ->]. induction k as [|e k IH] using rev_ind; [by rewrite ->app_nil_r|].
  rewrite ->app_assoc. inversion 1 as [Heq|h1 e' Hg Ho Heq]; [by destruct (h ++ k)|].
  apply app_inj_tail in Heq as [-> ->]. auto.
Qed.

Lemma prefix_sub (h h' : list Event) : h `prefix_of` h' -> h ⊆ h'.
Proof. intros [k ->] x Hx. apply elem_of_app. by left. Qed.

Lemma keeps_ret {A} (a : A) h Q : good h -> Q a h -> keeps (ret a) h Q.
Proof. intros Hg HQ env _. split_and!; [done..|]. by intros ? [= <-]. Qed.

Lemma keeps_throw {A} e h (Q : A -> list Event -> Prop) : good h -> keeps (throw e) h Q.
Proof. intros Hg env _. by split_and!. Qed.

Lemma keeps_lift {A} (x : result E A) h (Q : A -> list Event -> Prop) :
  good h -> (forall a, x = Ok a -> Q a h) -> keeps (lift x) h Q.
Proof. intros Hg HQ. destruct x; [by apply keeps_ret, HQ|by apply keeps_throw]. Qed.

Lemma keeps_ask {A} (f : Env -> list Event -> A) h Q :
  good h -> (forall env, honest env -> Q (f env h) h) -> keeps (ask f) h Q.
Proof. intros Hg HQ env Hh. split_and!; [done..|]. intros ? [= <-]. by apply HQ. Qed.

Lemma keeps_observe {A} (f : Env -> list Event -> A) mk h Q :
  good h -> (forall env, honest env -> ok (h ++ [mk (f env h)]) (mk (f env h))) ->
  (forall env, honest env -> Q (f env h) (h ++ [mk (f env h)])) -> keeps (observe f mk) h Q.
Proof.
  intros Hg Ho HQ env Hh. split_and!; simpl; [by apply good_snoc, Ho|by apply prefix_app_r|].
  intros a [= <-]. by apply HQ.
Qed.

Lemma keeps_bind {A B} (m : eff A) (k : A -> eff B) h P Q :
  keeps m h P -> (forall a h', good h' -> h ⊆ h' -> P a h' -> keeps (k a) h' Q) -> keeps (bind m k) h Q.
Proof.
  intros Hm Hk env Hh. destruct (Hm env Hh) as (Hg & Hs & HP). unfold bind.
  destruct (m env h) as [[a|e] h']; simpl in *.
  - destruct (Hk a h' Hg (prefix_sub _ _ Hs) (HP a eq_refl) env Hh) as (? & ? & ?). split_and!; [done|by etrans|done].
  - by split_and!.
Qed.

(** [h'] continues [h]; the inclusion is what most evidence needs, the prefix
    what evidence about the order of events needs. *)
Definition extends (h h' : list Event) : Prop := h ⊆ h' /\ h `prefix_of` h'.

#[global] Instance extends_preorder : PreOrder extends.
Proof. split; [by intros h|]. intros a b c [? ?] [? ?]. split; by etrans. Qed.

Lemma prefix_extends h h' : h `prefix_of` h' -> extends h h'.
Proof. intros Hp. split; [by apply prefix_sub|done]. Qed.

Lemma keeps_bind_ext {A B} (m : eff A) (k : A -> eff B) h P Q :
  keeps m h P -> (forall a h', good h' -> extends h h' -> P a h' -> keeps (k a) h' Q) -> keeps (bind m k) h Q.
Proof.
  intros Hm Hk env Hh. destruct (Hm env Hh) as (Hg & Hs & HP). unfold bind.
  destruct (m env h) as [[a|e] h']; simpl in *.
  - destruct (Hk a h' Hg (prefix_extends _ _ Hs) (HP a eq_refl) env Hh) as (? & ? & ?). split_and!; [done|by etrans|done].
  - by split_and!.
Qed.

Lemma keeps_mono_ext {A} (m : eff A) h (P Q : A -> list Event -> Prop) :
  keeps m h P -> (forall a h', extends h h' -> P a h' -> Q a h') -> keeps m h Q.
Proof.
  intros Hm H env Hh. destruct (Hm env Hh) as (? & ? & ?). split_and!; [done..|]. intros a Ha.
  apply H; [by apply prefix_extends|auto].
Qed.

Lemma keeps_mono {A} (m : eff A) h (P Q : A -> list Event -> Prop) :
  keeps m h P -> (forall a h', h ⊆ h' -> P a h' -> Q a h') -> keeps m h Q.
Proof.
  intros Hm H env Hh. destruct (Hm env Hh) as (? & ? & ?). split_and!; [done..|]. intros a Ha.
  apply H; [by apply prefix_sub|auto].
Qed.

Lemma keeps_attempt {A} (m : eff A) h (Q : A -> list Event -> Prop) :
  keeps m h Q -> keeps (attempt m) h (fun r h' => forall a, r = Ok a -> Q a h').
Proof. intros Hm env Hh. destruct (Hm env Hh) as (? & ? & HQ). split_and!; [done..|]. by intros r [= <-] a Ha; apply HQ. Qed.

Lemma keeps_call {A} (f : Env -> list Event -> A) e h (Q : A -> list Event -> Prop) :
  good h -> ok (h ++ [e]) e -> (forall a, Q a (h ++ [e])) -> keeps (call f e) h Q.
Proof. intros Hg Ho HQ env _. split_and!; [by apply good_snoc|by apply prefix_app_r|]. by intros a [= <-]. Qed.

Lemma keeps_finally {A} (m : eff A) e h (Q : A -> list Event -> Prop) :
  keeps m h Q -> (forall h', ok h' e) -> keeps (finally e m) h (fun _ _ => True).
Proof.
  intros Hm Ho. eapply keeps_bind; [by apply keeps_attempt|]. intros r h' Hg _ _.
  eapply keeps_bind; [by apply (keeps_call _ _ _ (fun _ _ => True))|]. intros _ h'' Hg' _ _. by apply keeps_lift.
Qed.

Lemma keeps_foldM {A S} (f : S -> A -> eff S) (I : S -> Prop) l s h :
  good h -> I s -> (forall s x h, good h -> I s -> keeps (f s x) h (fun s' _ => I s')) ->
  keeps (foldM_eff f s l) h (fun s' _ => I s').
Proof.
  intros Hg Hi Hf. revert s h Hg Hi. induction l as [|x l IH]; intros s h Hg Hi; simpl; [by apply keeps_ret|].
  eapply keeps_bind; [by apply Hf|]. intros s' h' Hg' _ Hi'. by apply IH.
Qed.

Lemma keeps_good {A} (m : eff A) h Q env : keeps m h Q -> honest env -> good (snd (m env h)).
Proof. intros Hm Hh. by destruct (Hm env Hh). Qed.

Lemma keeps_prefix {A} (m : eff A) h Q env : keeps m h Q -> honest env -> h `prefix_of` snd (m env h).
Proof. intros Hm Hh. by destruct (Hm env Hh) as (_ & ? & _). Qed.

End History.

End Effects.

Arguments eff : clear implicits.

Notation "'let*' x ':=' e 'in' k" := (bind e (fun x => k))
  (at level 10, x pattern, e at level 100, k at level 200) : go_scope.

Create HintDb effects.
#[export] Hint Resolve emits_ret emits_throw emits_ask emits_lift : effects.

(** Walk through a method whose every call must satisfy the predicate; the
    calls themselves are left. *)
Ltac emits_step :=
  match goal with
  | |- emits _ (ret _) => apply emits_ret
  | |- emits _ (throw _) => apply emits_throw
  | |- emits _ (ask _) => apply emits_ask
  | |- emits _ (lift _) => apply emits_lift
  | |- emits _ (bind _ _) => apply emits_bind; [|intros ?]
  | |- emits _ (if ?b then _ else _) => destruct b eqn:?
  | |- emits _ (match ?x with _ => _ end) => destruct x eqn:?
  end.
Ltac emits_walk := repeat emits_step.

(** The same for the returned value. *)
Ltac returns_walk :=
  repeat match goal with
  | |- returns _ (ret _) => apply returns_ret
  | |- returns _ (throw _) => apply returns_throw
  | |- returns _ (bind _ _) => apply returns_bind; intros ?
  | |- returns _ (if ?b then _ else _) => destruct b eqn:?
  | |- returns _ (match ?x with _ => _ end) => destruct x eqn:?
  end.
