(* ===== verification/Hardware.v ===== *)
(** * Hardware: the inventory a DRA driver publishes
    ([src/shared/hardware/inventory.go])

    The records that the DRA driver writes, that the recovery controller and
    the watchdog read back, and the normalisation of GPU models. *)

From S2P Require Import Prelude GoStrings.

Module Hardware.

Record GPU := MkGPU { UUID : string; Model : string; PCI : string }.
Record OpenTPU := MkOpenTPU {
  Profile : string; t_Count : Z; MatrixSize : Z; CPUCores : Z; t_MemoryBytes : Z; SharedMemory : Z }.
Record Cell := MkCell {
  NUMA : Z; c_CPUs : Z; MemoryUnits : Z; MemoryUnitBytes : Z; GPUs : list GPU; OpenTPUs : list OpenTPU }.
Record Inventory := MkInventory { Version : Z; BootID : string; Cells : list Cell }.

#[global] Instance GPU_eq_dec : EqDecision GPU.
Proof. solve_decision. Defined.
#[global] Instance OpenTPU_eq_dec : EqDecision OpenTPU.
Proof. solve_decision. Defined.
#[global] Instance Cell_eq_dec : EqDecision Cell.
Proof. solve_decision. Defined.

Definition separator (c : ascii) : bool := negb (is_lower c) && negb (is_digit c).

Definition NormalizeGPU (value : string) : string :=
  let value := foldl (fun value word => replace_all word " " value) (to_lower value)
                     ["nvidia"; "geforce"; "laptop"; "gpu"]%string in
  join "_" (fields_func separator value).

End Hardware.

Example normalize_model : Hardware.NormalizeGPU "NVIDIA GeForce RTX 4070 Laptop GPU" = "rtx_4070"%string.
Proof. reflexivity. Qed.
