(* ===== verification/ResourceApi.v ===== *)
(** * ResourceApi: the devices of the Kubernetes resource API

    The parts of [resource.k8s.io/v1] the drivers publish and their consumers
    read: devices with attributes and capacities, grouped in slices. *)

From S2P Require Import Prelude.

Module ResourceApi.

Inductive Attribute := StringValue (s : string) | IntValue (i : Z) | BoolValue (b : bool) | OtherValue.
Record Device := MkDevice {
  dev_Name : string; Attributes : gmap string Attribute; Capacity : gmap string Z }.
(** A slice with the node that publishes it, if any. *)
Record ResourceSlice := MkSlice {
  sl_Driver : string; sl_Node : option string; sl_Pool : string; Generation : Z; ResourceSliceCount : Z;
  Devices : list Device }.

#[global] Instance Attribute_eq_dec : EqDecision Attribute.
Proof. solve_decision. Defined.

(** [stringAttr] and [intAttr]: the value, if the attribute has that type. *)
Definition stringAttr (d : Device) (name : string) : option string :=
  match Attributes d !! name with Some (StringValue s) => Some s | _ => None end.
Definition intAttr (d : Device) (name : string) : option Z :=
  match Attributes d !! name with Some (IntValue i) => Some i | _ => None end.
Definition capacityBytes (d : Device) (name : string) : option Z := Capacity d !! name.

(** [intAttribute], [stringAttribute] and [capacityValue] of the drivers. *)
Definition intAttribute (value : Z) : Attribute := IntValue value.
Definition stringAttribute (value : string) : Attribute := StringValue value.
Definition capacityValue (bytes : Z) : Z := bytes.

(** The slices of a pool: at most [n] devices each, and at least one slice. *)
Fixpoint chunks {A} (fuel n : nat) (l : list A) : list (list A) :=
  match fuel, l with
  | S fuel, _ :: _ => take n l :: chunks fuel n (drop n l)
  | _, _ => []
  end.
Definition split_slices {A} (n : nat) (l : list A) : list (list A) :=
  match chunks (length l) n l with [] => [[]] | out => out end.

(** Nothing is lost, split twice or reordered, and no slice is too long. *)
Lemma chunks_concat {A} fuel n (l : list A) :
  (0 < n)%nat -> (length l <= fuel)%nat ->
  concat (chunks fuel n l) = l /\ Forall (fun s => s <> [] /\ (length s <= n)%nat) (chunks fuel n l).
Proof.
  intros Hn. revert l. induction fuel as [|fuel IH]; intros [|x l] Hl; cbn; cbn in Hl; try (by split); [lia|].
  destruct n as [|n]; [lia|]. cbn. destruct (IH (drop n l)) as [H1 H2]; [rewrite ->length_drop; lia|].
  rewrite ->H1, take_drop. split; [done|]. constructor; [|done]. split; [done|].
  cbn. rewrite ->length_take. lia.
Qed.

Lemma split_slices_partition {A} n (l : list A) :
  (0 < n)%nat -> concat (split_slices n l) = l /\ Forall (fun s => (length s <= n)%nat) (split_slices n l) /\
  split_slices n l <> [].
Proof.
  intros Hn. destruct (chunks_concat (length l) n l Hn) as [H1 H2]; [done|]. unfold split_slices.
  destruct (chunks (length l) n l) as [|s out] eqn:E.
  - cbn in H1. subst l. split_and!; [done| |done]. constructor; [cbn; lia|done].
  - rewrite ->H1. split_and!; [done| |done]. eapply Forall_impl; [exact H2|]. by intros x [_ ?].
Qed.

End ResourceApi.
