(* ===== verification/Workers.v ===== *)
(** * Workers: the reconciliation of elastic workers
    ([src/slurm-operator/controllers/workers.go], the parts with effects)

    [reconcileWorkers] with everything it calls: cleaning up workers, orphaned
    Slurm nodes, creating workers for the planned job groups and scaling down.
    Every call to the API server and to the Slurm REST server is an [event];
    the listed Pods, Slurm nodes and resource slices are inputs. *)

From S2P Require Import Prelude GoStrings GoTime Manifest SlurmClient Api Demand WorkerPlan Effects ResourceApi.

Module Workers.
Import GoTime SlurmClient Demand WorkerPlan ResourceApi.

Definition workerComponent : string := "slurmd".
Definition workerFinalizer : string := "orchestration.gputpu.io/slurm-node-cleanup".
Definition workerPoolLabel : string := "orchestration.gputpu.io/worker-pool".
Definition workerShapeAnnotation : string := "orchestration.gputpu.io/worker-shape".
Definition workerClaimAnnotation : string := "orchestration.gputpu.io/resource-claim".
Definition workerIdleAnnotation : string := "orchestration.gputpu.io/idle-since".
Definition workerDrainAnnotation : string := "orchestration.gputpu.io/draining".
Definition workerRecoveryAnnotation : string := "orchestration.gputpu.io/recovery-incident".
Definition mungeKey : string := "munge.key".
Definition SlurmctldPort : Z := 6817.

(** ** Pods *)

(** The metadata and status the controller reads; [Controller] is the UID of
    the controlling owner, [Conditions] the pairs of type and status. *)
Record Pod := MkPod {
  p_Name : string; p_UID : string; Labels : gmap string string; Annotations : gmap string string;
  Finalizers : list string; Controller : option string; Deleting : bool; Failed : bool;
  Conditions : list (string * string) }.

Definition with_annotations (p : Pod) (a : gmap string string) : Pod :=
  MkPod (p_Name p) (p_UID p) (Labels p) a (Finalizers p) (Controller p) (Deleting p) (Failed p) (Conditions p).
Definition with_finalizers (p : Pod) (f : list string) : Pod :=
  MkPod (p_Name p) (p_UID p) (Labels p) (Annotations p) f (Controller p) (Deleting p) (Failed p) (Conditions p).

(** Reading a Go map gives the zero value for a missing key. *)
Definition annotation (p : Pod) (key : string) : string := default ""%string (Annotations p !! key).
Definition pool_label (p : Pod) : string := default ""%string (Labels p !! workerPoolLabel).
Definition draining (p : Pod) : bool := (annotation p workerDrainAnnotation =? "true")%string.
Definition recovering (p : Pod) : bool := negb (annotation p workerRecoveryAnnotation =? "")%string.

Definition podReady (p : Pod) : bool :=
  existsb (fun c => (fst c =? "Ready")%string && (snd c =? "True")%string) (Conditions p).

Record Quantities := MkQuantities { MilliCPU : Z; MemoryQuantity : Z }.
Record VolumeMount := MkMount { vm_Name : string; MountPath : string; SubPath : string; ReadOnly : bool }.
Inductive EnvVar := EnvValue (name value : string) | EnvField (name path : string).
Inductive Security := Privileged | Restricted.
Record Container := MkContainer {
  c_Name : string; c_Image : string; Command : list string; Args : list string; Env : list EnvVar;
  Resources : Quantities; VolumeMounts : list VolumeMount; SecurityContext : Security;
  ReadinessProbe : list string; Claims : list string }.
Inductive VolumeSource :=
| EmptyDir | MemoryDir (sizeLimit : Z) | SecretVolume (secret : string) (items : list (string * string * Z))
| HostPath (path type_ : string).
Record PodSpec := MkPodSpec {
  Hostname : string; ServiceAccountName : string; RestartPolicy : string;
  ps_NodeSelector : gmap string string; Tolerations : list (string * string * string);
  ResourceClaims : list (string * string); InitContainers : list Container; Containers : list Container;
  Volumes : list (string * VolumeSource) }.

Record Claim := MkClaim { Allocated : bool; cm_Controller : option string }.

(** ** Calls *)

Inductive outcome := Done | NotFound | AlreadyExists | CallFailed.

Inductive event :=
| EDrainNode (name reason : string)
| EDeleteNode (name : string)
| EUpdatePod (pod : Pod)
| EDeletePod (name : string)
| ECreatePod (pod : Pod) (spec : PodSpec)
| EGetClaim (cached : bool) (name : string)
| ECreateClaim (name : string) (controller : string) (requests : list DeviceRequest)
| ERecord (reason : string).

(** Every answer may depend on the calls before it. *)
Record env := MkEnv {
  respond : event -> list event -> outcome;
  drain_answer : string -> list event -> option (exchange (list apiError));
  delete_answer : string -> list event -> option (exchange unit);
  get_claim : string -> list event -> result outcome Claim;
  now : list event -> Z;
  random_text : list event -> string;
  (** the UID the API server gave to the object just created *)
  new_uid : list event -> string }.

Inductive worker_error :=
| Rest (e : client_error) | Kube (o : outcome) | NotControlled (pod : string) | BadShape
| NoClaimAnnotation (pod : string) | ClaimNotControlled (claim : string) | UnknownPool (pod : string)
| ClaimRejected (e : claim_error) | IncompletePool (pool : string) | InconsistentCounts (pool : string)
| IncompleteFootprint (device : string) | InconsistentFootprints (profile : string)
| ImageRequired | ListFailed.

Abbreviation W := (eff env event worker_error).

Definition kube (e : event) : W outcome := call (fun env tr => respond env e tr) e.
Definition drain_node (name reason : string) : W unit :=
  let* a := call (fun env tr => drain_answer env name tr) (EDrainNode name reason) in
  match DrainNode a with Ok _ => ret tt | Err e => throw (Rest e) end.
Definition delete_node (name : string) : W unit :=
  let* a := call (fun env tr => delete_answer env name tr) (EDeleteNode name) in
  match DeleteNode a with Ok _ => ret tt | Err e => throw (Rest e) end.
Definition read_claim (cached : bool) (name : string) : W (result outcome Claim) :=
  call (fun env tr => get_claim env name tr) (EGetClaim cached name).

#[local] Set Default Proof Using "Type".

Section Workers.
Variable parse_quantity : string -> option Z.
Variable AllocationResultsMaxSize : Z.
Variable order : gmap string Z -> list (string * Z).
(** [json.Unmarshal] and [json.Marshal] of a shape. *)
Variable decode_shape : string -> option Shape.
Variable encode_shape : Shape -> string.

Record ClusterReconciler := MkReconciler {
  WorkerImage : string; WorkerMemoryHeadroom : Z; Recorder : bool }.
Variable r : ClusterReconciler.

Definition record_event (reason : string) : W unit :=
  if Recorder r then let* _ := kube (ERecord reason) in ret tt else ret tt.

(** ** One worker *)

Definition gres_item_idle (item : string) : bool :=
  let item := trim_space item in
  let item := match cut_on "(" item with Some (before, _) => before | None => item end in
  match cut_last (fun c => bool_decide (c = ":"%char) || bool_decide (c = "="%char)) item with
  | None => false
  | Some (_, digits) => match parse_int64 digits with Some count => count =? 0 | None => false end
  end.

Definition gresIdle (raw : string) : bool :=
  let raw := trim_space raw in
  (raw =? "")%string || (raw =? "(null)")%string || (raw =? "N/A")%string
  || forallb gres_item_idle (split_on "," raw).

Definition nodeIdle (node : Node) : bool :=
  contains_state (n_State node) "IDLE" && (Reservation node =? "")%string
  && (AllocCPUs node =? 0) && (AllocMemory node =? 0) && gresIdle (GRESUsed node).

Definition drained (node : Node) : bool := contains_state (n_State node) "DRAIN".

(** [nodeByName[name]], a map that keeps the last node of a name. *)
Definition node_by_name (nodes : list Node) (name : string) : option Node :=
  List.find (fun n => (n_Name n =? name)%string) (rev nodes).
Definition zero_node : Node := MkNode "" [] "" 0 0 "".

Definition podShape (p : Pod) : result worker_error Shape :=
  match decode_shape (annotation p workerShapeAnnotation) with
  | None => Err BadShape
  | Some shape => reject_if (sh_CPUs shape <? 1) || (MemoryBytes shape <? 1) with BadShape in Ok shape
  end.

Definition validateWorkerPod (cluster : Api.HeterogeneousCluster) (p : Pod) : result worker_error unit :=
  reject_if negb (bool_decide (Controller p = Some (Api.UID cluster))) with NotControlled (p_Name p) in Ok tt.

Definition managedWorkerNode (cluster : Api.HeterogeneousCluster) (name : string) : bool :=
  existsb (fun pool => has_prefix (Api.cl_Name cluster +:+ "-" +:+ Api.Name pool +:+ "-") name)
    (Api.WorkerPools (Api.Spec cluster)).

(** The Pod is returned as the method leaves it. *)
Definition setWorkerAnnotation (p : Pod) (key value : string) : W Pod :=
  let copy := with_annotations p (if (value =? "")%string then delete key (Annotations p)
                                  else <[key := value]> (Annotations p)) in
  let* o := kube (EUpdatePod copy) in
  match o with Done => ret copy | _ => throw (Kube o) end.

Definition tolerate_missing (o : outcome) : W unit :=
  match o with Done | NotFound => ret tt | _ => throw (Kube o) end.

(** The tail of [cleanupWorker], once Slurm no longer knows the node. *)
Definition release_pod (p : Pod) : W Pod :=
  let p' := with_finalizers p (List.filter (fun f => negb (f =? workerFinalizer)%string) (Finalizers p)) in
  let* _ := if bool_decide (workerFinalizer ∈ Finalizers p)
            then let* o := kube (EUpdatePod p') in tolerate_missing o
            else ret tt in
  let* _ := if Deleting p then ret tt
            else let* o := kube (EDeletePod (p_Name p)) in tolerate_missing o in
  ret p'.

Definition cleanupWorker (p : Pod) (node : Node) : W Pod :=
  if (n_Name node =? "")%string then release_pod p
  else if negb (draining p) then
    let* _ := drain_node (p_Name p) "elastic worker removal" in
    setWorkerAnnotation p workerDrainAnnotation "true"
  else if negb (nodeIdle node) || negb (drained node) then ret p
  else
    let* _ := delete_node (p_Name p) in
    release_pod p.

Definition find_pool (cluster : Api.HeterogeneousCluster) (name : string) : option Api.WorkerPoolSpec :=
  List.find (fun pool => (Api.Name pool =? name)%string) (Api.WorkerPools (Api.Spec cluster)).

Definition ensureWorkerClaim (cluster : Api.HeterogeneousCluster) (p : Pod) : W unit :=
  let claimName := annotation p workerClaimAnnotation in
  if (claimName =? "")%string then throw (NoClaimAnnotation (p_Name p)) else
  let* existing := read_claim true claimName in
  match existing with
  | Ok claim =>
      if negb (bool_decide (cm_Controller claim = Some (p_UID p))) then throw (ClaimNotControlled claimName)
      else ret tt
  | Err NotFound =>
      let* shape := lift (podShape p) in
      match find_pool cluster (pool_label p) with
      | None => throw (UnknownPool (p_Name p))
      | Some pool =>
          match resourceClaim parse_quantity AllocationResultsMaxSize shape pool (WorkerMemoryHeadroom r) with
          | Err e => throw (ClaimRejected e)
          | Ok requests =>
              let* o := kube (ECreateClaim claimName (p_UID p) requests) in
              match o with Done | AlreadyExists => ret tt | _ => throw (Kube o) end
          end
      end
  | Err o => throw (Kube o)
  end.

(** ** Creating a worker *)

Definition labels (cluster : Api.HeterogeneousCluster) (component : string) : gmap string string :=
  <["app.kubernetes.io/name" := "heterogeneous-cluster"]>
  (<["app.kubernetes.io/instance" := Api.cl_Name cluster]>
  (<["app.kubernetes.io/component" := component]>
  (<["app.kubernetes.io/managed-by" := "slurm-operator"]> ∅)))%string.

Definition slurmConfigServers (cluster : Api.HeterogeneousCluster) : string :=
  let service := Api.cl_Name cluster +:+ "-slurmctld" in
  let host i := service +:+ "-" +:+ i +:+ "." +:+ service +:+ "." +:+ Api.Namespace cluster +:+ ".svc:"
                +:+ format_int SlurmctldPort in
  host "0" +:+ "," +:+ host "1".

(** Requests and limits are the same quantities. *)
Definition workerResources (shape : Shape) (headroom : Z) : result worker_error Quantities :=
  reject_if (sh_CPUs shape <? 1) || (MemoryBytes shape <? 1) with BadShape in
  Ok (MkQuantities (1000 * sh_CPUs shape) (wrap64 (MemoryBytes shape + headroom))).

Definition workerEnv (cluster : Api.HeterogeneousCluster) (pool : Api.WorkerPoolSpec) (claim : string)
    : list EnvVar :=
  [EnvField "POD_NAME" "metadata.name"; EnvField "POD_NAMESPACE" "metadata.namespace";
   EnvField "POD_IP" "status.podIP"; EnvValue "RESOURCE_CLAIM" claim;
   EnvValue "WORKER_POOL" (Api.Name pool); EnvValue "SLURM_CONF_SERVER" (slurmConfigServers cluster)].

Definition workerMounts : list VolumeMount :=
  [MkMount "worker-config" "/etc/slurm" "" false; MkMount "slurm-spool" "/var/lib/slurmd" "" false;
   MkMount "shared-memory" "/dev/shm" "" false;
   MkMount "munge-key" "/etc/munge/munge.key" mungeKey true; MkMount "munge-run" "/run/munge" "" false;
   MkMount "cgroup" "/sys/fs/cgroup" "" false].

Definition munged : string :=
  "munged --force --key-file=/etc/munge/munge.key --socket=/run/munge/munge.socket.2; ".
Definition dq (s : string) : string := quote s.

Definition checkpoint_mounts : list VolumeMount :=
  [MkMount "checkpoint-socket" "/run/gputpu-checkpoint" "" false;
   MkMount "checkpoint-shm" "/dev/shm/ai-orch" "" false;
   MkMount "quantization-socket" "/run/gputpu-quantization" "" false].

Definition gres_init (cluster : Api.HeterogeneousCluster) (pool : Api.WorkerPoolSpec) (claim : string)
    (resources : Quantities) : Container :=
  MkContainer "gres-init" (WorkerImage r) ["/bin/sh"; "-ec"]%string
    [munged +:+ "exec /usr/local/bin/gres-init"] (workerEnv cluster pool claim) resources workerMounts
    Privileged [] ["allocation"%string].

Definition slurmd (cluster : Api.HeterogeneousCluster) (pool : Api.WorkerPoolSpec) (claim : string)
    (resources : Quantities) : Container :=
  MkContainer "slurmd" (WorkerImage r) ["/bin/sh"; "-ec"]%string
    [munged +:+ ". /etc/slurm/worker.env; exec slurmd -D -Z --conf " +:+ dq "$SLURMD_CONF"]
    (workerEnv cluster pool claim) resources
    (workerMounts ++ (if Api.Checkpointing (Api.Spec cluster) is Some _ then checkpoint_mounts else [])) Privileged
    ["/bin/sh"; "-ec"; ". /etc/slurm/worker.env; scontrol show node " +:+ dq "$HOSTNAME" +:+ " >/dev/null"]%string
    ["allocation"%string].

Definition checkpoint_flusher (cluster : Api.HeterogeneousCluster) (sharedMemory : Z) : Container :=
  MkContainer "checkpoint-flusher" (WorkerImage r) ["/usr/local/bin/checkpoint-flusher"]%string []
    [EnvValue "CHECKPOINT_CLUSTER_UID" (Api.UID cluster);
     EnvValue "CHECKPOINT_SHM_BUDGET_BYTES" (format_int sharedMemory)]
    (MkQuantities 100 (128 * 2 ^ 20))
    [MkMount "checkpoint-socket" "/run/gputpu-checkpoint" "" false;
     MkMount "checkpoint-shm" "/dev/shm/ai-orch" "" false;
     MkMount "checkpoint-store" "/run/secrets/checkpoint-store" "" true]
    Restricted ["test"; "-S"; "/run/gputpu-checkpoint/flusher.sock"]%string [].

(** [pod.Spec] as [createWorker] builds it. *)
Definition worker_spec (cluster : Api.HeterogeneousCluster) (pool : Api.WorkerPoolSpec) (shape : Shape)
    (podName claimName : string) (resources : Quantities) : PodSpec :=
  let sharedMemory := Z.max (SharedMemoryBytes shape) (Z.shiftl 64 20) in
  let checkpointing := Api.Checkpointing (Api.Spec cluster) in
  MkPodSpec podName "slurm-worker" "Never"
    (foldl (fun m e => <[fst e := snd e]> m) {["orchestration.gputpu.io/compute"%string := "true"%string]}
       (Api.NodeSelector pool))
    [("orchestration.gputpu.io/compute", "Exists", "NoSchedule")]%string
    [("allocation"%string, claimName)]
    [gres_init cluster pool claimName resources]
    (slurmd cluster pool claimName resources
     :: (if checkpointing is Some _ then [checkpoint_flusher cluster sharedMemory] else []))
    ([("worker-config", EmptyDir); ("slurm-spool", EmptyDir);
      ("munge-key", SecretVolume (Api.MungeKeySecretRef (Api.Authentication (Api.Spec cluster)))
                      [(mungeKey, mungeKey, 256)]);
      ("munge-run", EmptyDir); ("cgroup", HostPath "/sys/fs/cgroup" "Directory");
      ("shared-memory", MemoryDir sharedMemory)]%string
     ++ match checkpointing with
        | None => []
        | Some secret =>
            [("checkpoint-socket", EmptyDir);
             ("checkpoint-shm", HostPath "/dev/shm/ai-orch" "DirectoryOrCreate");
             ("quantization-socket", HostPath "/run/gputpu-quantization" "DirectoryOrCreate");
             ("checkpoint-store", SecretVolume secret [])]%string
        end).

(** The Pod before the API server has completed it: its UID is the server's. *)
Definition worker_pod (cluster : Api.HeterogeneousCluster) (pool : Api.WorkerPoolSpec) (shape : Shape)
    (podName claimName uid : string) : Pod :=
  MkPod podName uid (<[workerPoolLabel := Api.Name pool]> (labels cluster workerComponent))
    (<[workerShapeAnnotation := encode_shape shape]> (<[workerClaimAnnotation := claimName]> ∅))
    [workerFinalizer] (Some (Api.UID cluster)) false false [].

Definition first_chars (n : nat) (s : string) : string := String.substring 0 n s.

Definition createWorker (cluster : Api.HeterogeneousCluster) (pool : Api.WorkerPoolSpec) (d : Demand) : W Pod :=
  let* text := ask random_text in
  let podName := Api.cl_Name cluster +:+ "-" +:+ Api.Name pool +:+ "-" +:+ to_lower (first_chars 10 text) in
  let claimName := podName +:+ "-resources" in
  let pod := worker_pod cluster pool (d_Shape d) podName claimName in
  let* resources := lift (workerResources (d_Shape d) (WorkerMemoryHeadroom r)) in
  let create := ECreatePod (pod ""%string) (worker_spec cluster pool (d_Shape d) podName claimName resources) in
  let* o := kube create in
  match o with
  | Done =>
      let* uid := ask new_uid in
      let* _ := ensureWorkerClaim cluster (pod uid) in
      let* _ := record_event "WorkerCreated" in
      ret (pod uid)
  | _ => throw (Kube o)
  end.

(** ** Device footprints *)

(** [generations[pool]]: the newest generation, 0 for an unknown pool. *)
Definition generation_of (slices : list ResourceSlice) (pool : string) : Z :=
  foldl (fun g s => if (sl_Driver s =? driverName)%string && (sl_Pool s =? pool)%string && (g <? Generation s)
                    then Generation s else g) 0 slices.

(** [byPool]: the pools in the order of their first current slice, each with
    its current slices.  Go visits the pools in any order. *)
Definition current_slice (slices : list ResourceSlice) (s : ResourceSlice) : bool :=
  (sl_Driver s =? driverName)%string && (Generation s =? generation_of slices (sl_Pool s)).

Definition pool_slices (slices : list ResourceSlice) (pool : string) : list ResourceSlice :=
  List.filter (fun s => current_slice slices s && (sl_Pool s =? pool)%string) slices.

Definition check_pool (pool : string) (current : list ResourceSlice) : result worker_error unit :=
  let expected := match current with s :: _ => ResourceSliceCount s | [] => 0 end in
  reject_if existsb (fun s => negb (ResourceSliceCount s =? expected)) current with InconsistentCounts pool in
  reject_if (expected <? 1) || negb (Z.of_nat (length current) =? expected) with IncompletePool pool in
  Ok tt.

Fixpoint select_pools (slices : list ResourceSlice) (pools : list string) (acc : list ResourceSlice)
    : result worker_error (list ResourceSlice) :=
  match pools with
  | [] => Ok acc
  | pool :: pools' =>
      let current := pool_slices slices pool in
      let! _ := check_pool pool current in
      select_pools slices pools' (acc ++ current)
  end.

(** The order in which [range] visits the pools. *)
Variable pool_order : list string -> list string.

Definition current_pools (slices : list ResourceSlice) : list string :=
  remove_dups (map sl_Pool (List.filter (current_slice slices) slices)).

Definition completeDriverSlices (slices : list ResourceSlice) : result worker_error (list ResourceSlice) :=
  select_pools slices (pool_order (current_pools slices)) [].

Definition attr (name : string) : string := driverName +:+ "/" +:+ name.

(** One device of the loop: the footprints so far. *)
Definition add_footprint (d : Device) (footprints : gmap string Footprint)
    : result worker_error (gmap string Footprint) :=
  if negb (bool_decide (stringAttr d (attr "kind") = Some "opentpu"%string)) then Ok footprints else
  match stringAttr d (attr "profile"), intAttr d (attr "cpuCores"),
        capacityBytes d (attr "memory"), capacityBytes d (attr "sharedMemory") with
  | Some profile, Some cpus, Some memory, Some shared =>
      let key := "tpu:" +:+ profile in
      let footprint := MkFootprint cpus memory shared in
      match footprints !! key with
      | Some old =>
          reject_if negb (bool_decide (old = footprint)) with InconsistentFootprints profile in
          Ok (<[key := footprint]> footprints)
      | None => Ok (<[key := footprint]> footprints)
      end
  | _, _, _, _ => Err (IncompleteFootprint (dev_Name d))
  end.

Fixpoint add_footprints (ds : list Device) (footprints : gmap string Footprint)
    : result worker_error (gmap string Footprint) :=
  match ds with
  | [] => Ok footprints
  | d :: ds' => let! footprints := add_footprint d footprints in add_footprints ds' footprints
  end.

Definition openTPUFootprints (list_answer : option (list ResourceSlice))
    : result worker_error (gmap string Footprint) :=
  match list_answer with
  | None => Err ListFailed
  | Some slices =>
      let! selected := completeDriverSlices slices in
      add_footprints (concat (map Devices selected)) ∅
  end.

(** ** Status *)

Definition status_le (a b : Api.WorkerPoolStatus) : Prop := String.le (Api.ps_Name a) (Api.ps_Name b).
#[local] Instance status_le_dec a b : Decision (status_le a b) := decide (String.le _ _).

Definition poolStatus (pools : list Api.WorkerPoolSpec) : list Api.WorkerPoolStatus :=
  merge_sort status_le (map (fun pool => Api.MkPoolStatus (Api.Name pool) 0 0 0) pools).

Definition count_status (p : Pod) (s : Api.WorkerPoolStatus) : Api.WorkerPoolStatus :=
  if Deleting p || draining p then Api.MkPoolStatus (Api.ps_Name s) (Api.Ready s) (Api.ps_Pending s) (Api.Draining s + 1)
  else if podReady p then Api.MkPoolStatus (Api.ps_Name s) (Api.Ready s + 1) (Api.ps_Pending s) (Api.Draining s)
  else Api.MkPoolStatus (Api.ps_Name s) (Api.Ready s) (Api.ps_Pending s + 1) (Api.Draining s).

(** Pool names are unique in an admitted cluster. *)
Definition statuses (pools : list Api.WorkerPoolSpec) (pods : list Pod) : list Api.WorkerPoolStatus :=
  foldl (fun l p => map (fun s => if (Api.ps_Name s =? pool_label p)%string then count_status p s else s) l)
    (poolStatus pools) pods.

Inductive message := MRest (e : client_error) | MReconciled | MRejected (e : demand_error).
Record workerResult := MkWorkerResult {
  wr_Status : list Api.WorkerPoolStatus; wr_Ready : bool; wr_Reason : string; wr_Message : message }.

(** ** The loops of [reconcileWorkers] *)

Section Reconcile.
Variable cluster : Api.HeterogeneousCluster.
Variable nodes : list Node.

Definition node_of (p : Pod) : Node := default zero_node (node_by_name nodes (p_Name p)).

(** The claim of a registered worker has disappeared, is not allocated or
    belongs to another Pod. *)
Definition claim_lost (p : Pod) : W bool :=
  let claimName := annotation p workerClaimAnnotation in
  if (claimName =? "")%string then ret true
  else
    let* answer := read_claim false claimName in
    match answer with
    | Ok claim => ret (negb (Allocated claim) || negb (bool_decide (cm_Controller claim = Some (p_UID p))))
    | Err NotFound => ret true
    | Err o => throw (Kube o)
    end.

Definition with_finalizer (p : Pod) : Pod :=
  if bool_decide (workerFinalizer ∈ Finalizers p) then p
  else with_finalizers p (Finalizers p ++ [workerFinalizer]).

(** The body of the first loop. *)
Definition reconcile_pod (p : Pod) : W Pod :=
  let* _ := lift (validateWorkerPod cluster p) in
  if recovering p then ret p
  else if Deleting p then cleanupWorker p (node_of p)
  else
    let* _ :=
      if bool_decide (workerFinalizer ∈ Finalizers p) then ret tt
      else let* o := kube (EUpdatePod (with_finalizer p)) in
           match o with Done => ret tt | _ => throw (Kube o) end in
    let p := with_finalizer p in
    if draining p || Failed p then cleanupWorker p (node_of p)
    else
      let* lost := if negb (n_Name (node_of p) =? "")%string then claim_lost p else ret false in
      if lost : bool then cleanupWorker p (node_of p)
      else
        let* _ := ensureWorkerClaim cluster p in
        ret p.

(** The second loop: Slurm nodes without a Pod. *)
Definition orphan (podNames : list string) (node : Node) : bool :=
  negb (bool_decide (n_Name node ∈ podNames)) && managedWorkerNode cluster (n_Name node).

Definition reconcile_orphan (podNames : list string) (node : Node) : W unit :=
  if negb (orphan podNames node) then ret tt
  else if drained node && nodeIdle node then delete_node (n_Name node)
  else drain_node (n_Name node) "orphaned elastic worker".

Fixpoint reconcile_orphans (podNames : list string) (l : list Node) : W unit :=
  match l with
  | [] => ret tt
  | n :: l' => let* _ := reconcile_orphan podNames n in reconcile_orphans podNames l'
  end.

Definition pools : list Api.WorkerPoolSpec := Api.WorkerPools (Api.Spec cluster).

(** Workers that count against the pool limits. *)
Definition counted (p : Pod) : bool :=
  negb (bool_decide (pool_of pools (pool_label p) = None)) && negb (Deleting p) && negb (Failed p)
  && negb (recovering p).

(** A counted worker a demand may use. *)
Definition available (p : Pod) : bool :=
  let ready := podReady p in
  let node := node_by_name nodes (p_Name p) in
  let registered := bool_decide (is_Some node) in
  let idle := ready && registered && nodeIdle (default zero_node node) in
  negb ready || negb registered || idle.

Fixpoint candidates_of (pods : list Pod) (counts : gmap string Z) (acc : list workerCandidate)
    : result worker_error (list workerCandidate * gmap string Z) :=
  match pods with
  | [] => Ok (acc, counts)
  | p :: pods' =>
      if negb (counted p) then candidates_of pods' counts acc
      else
        let! shape := podShape p in
        candidates_of pods' (add_count counts (pool_label p))
          (if available p then acc ++ [MkCandidate (p_Name p) (pool_label p) shape] else acc)
  end.

(** Creating the workers of one group. *)
Fixpoint create_workers (creates : list Demand) (counts : gmap string Z) : W (gmap string Z) :=
  match creates with
  | [] => ret counts
  | d :: creates' =>
      if (WorkerImage r =? "")%string then throw ImageRequired
      else
        match pool_of pools (PoolName d) with
        | None => throw (UnknownPool (PoolName d))
        | Some pool =>
            let* _ := createWorker cluster pool d in
            create_workers creates' (add_count counts (PoolName d))
        end
  end.

Definition claim_fits (d : Demand) : bool :=
  match pool_of pools (PoolName d) with
  | Some pool => is_ok (resourceClaim parse_quantity AllocationResultsMaxSize (d_Shape d) pool (WorkerMemoryHeadroom r))
  | None => false
  end.

Fixpoint report_rejected (creates : list Demand) : W unit :=
  match creates with
  | [] => ret tt
  | d :: creates' =>
      let* _ := if claim_fits d then ret tt else record_event "WorkerDemandRejected" in
      report_rejected creates'
  end.

(** The body of the loop over the groups; [assigned] and [used] are the same set. *)
Definition reconcile_group (candidates : list workerCandidate) (demands : list Demand)
    (st : gset string * gmap string Z) (g : Z) : W (gset string * gmap string Z) :=
  let '(used, counts) := st in
  let '(localUsed, creates) := fill_group (byGroup demands g) candidates used ∅ [] in
  let* _ := report_rejected creates in
  if negb (group_fits parse_quantity AllocationResultsMaxSize pools (WorkerMemoryHeadroom r) counts creates) then
    let* _ := record_event "WorkerPoolLimit" in ret (used, counts)
  else
    let* counts := create_workers creates counts in
    ret (localUsed ∪ used, counts).

(** The last loop: removing idle capacity.  [ready] is [readyByPool]. *)
Definition skipped (p : Pod) : bool :=
  bool_decide (pool_of pools (pool_label p) = None) || Deleting p || draining p || recovering p.

Definition idle_capacity (assigned : gset string) (p : Pod) : bool :=
  let node := node_by_name nodes (p_Name p) in
  negb (bool_decide (p_Name p ∈ assigned))
  && (negb (podReady p) || (bool_decide (is_Some node) && nodeIdle (default zero_node node))).

Definition count_of (ready : gmap string Z) (pool : string) : Z := default 0 (ready !! pool).

Definition scale_down_pod (assigned : gset string) (ready : gmap string Z) (p : Pod)
    : W (Pod * gmap string Z) :=
  match pool_of pools (pool_label p) with
  | None => ret (p, ready)
  | Some pool =>
      if Deleting p || draining p || recovering p then ret (p, ready)
      else
        let name := Api.Name pool in
        let ready := if podReady p then add_count ready name else ready in
        let node := node_by_name nodes (p_Name p) in
        if negb (idle_capacity assigned p) then
          if negb (annotation p workerIdleAnnotation =? "")%string then
            let* p := setWorkerAnnotation p workerIdleAnnotation "" in ret (p, ready)
          else ret (p, ready)
        else if negb (podReady p) || negb (bool_decide (is_Some node)) then
          let* p := cleanupWorker p (default zero_node node) in ret (p, ready)
        else if count_of ready name <=? Api.MinReady (Api.Scaling pool) then ret (p, ready)
        else
          match parse_rfc3339 (annotation p workerIdleAnnotation) with
          | None =>
              let* t := ask now in
              let* p := setWorkerAnnotation p workerIdleAnnotation (format_rfc3339 t) in
              ret (p, ready)
          | Some idleSince =>
              let* t := ask now in
              if Api.IdleTimeout (Api.Scaling pool) <=? sub_saturated t idleSince then
                let* p := cleanupWorker p (default zero_node node) in
                ret (p, <[name := count_of ready name - 1]> ready)
              else ret (p, ready)
          end
  end.

Fixpoint scale_down (assigned : gset string) (ready : gmap string Z) (pods : list Pod) : W (list Pod) :=
  match pods with
  | [] => ret []
  | p :: pods' =>
      let* (p', ready') := scale_down_pod assigned ready p in
      let* rest := scale_down assigned ready' pods' in
      ret (p' :: rest)
  end.

End Reconcile.

(** ** The handlers *)

Fixpoint record_rejections (n : nat) : W unit :=
  match n with
  | O => ret tt
  | S n' => let* _ := record_event "WorkerDemandRejected" in record_rejections n'
  end.

(** [pods_answer], [nodes_answer] and [slices_answer] are what the listings
    returned. *)
Definition reconcileWorkers (cluster : Api.HeterogeneousCluster) (jobs : list PendingJob)
    (pods_answer : option (list Pod)) (nodes_answer : option (exchange (list apiError * list Node)))
    (slices_answer : option (list ResourceSlice)) : W workerResult :=
  match pods_answer with
  | None => throw ListFailed
  | Some pods =>
      match Nodes nodes_answer with
      | Err e => ret (MkWorkerResult (statuses (pools cluster) pods) false "RESTUnavailable" (MRest e))
      | Ok nodes =>
          let podNames := p_Name <$> pods in
          let* pods := mapM_eff (reconcile_pod cluster nodes) pods in
          let* _ := reconcile_orphans cluster podNames nodes in
          let* footprints := lift (openTPUFootprints slices_answer) in
          let '(demands, rejected) := Demands parse_quantity order jobs (pools cluster) footprints in
          let* _ := record_rejections (length rejected) in
          let* (candidates, counts) := lift (candidates_of cluster nodes pods ∅ []) in
          let* (assigned, _) :=
            foldM_eff (reconcile_group cluster candidates demands) (∅, counts) (group_ids demands []) in
          let* pods := scale_down cluster nodes assigned ∅ pods in
          ret (match rejected with
               | [] => MkWorkerResult (statuses (pools cluster) pods) true "Ready" MReconciled
               | e :: _ => MkWorkerResult (statuses (pools cluster) pods) false "DemandRejected" (MRejected e)
               end)
      end
  end.

(** The workers of a cluster that is being deleted. *)
Fixpoint cleanup_pods (cluster : Api.HeterogeneousCluster) (nodes : list Node) (pods : list Pod) : W bool :=
  match pods with
  | [] => ret false
  | p :: pods' =>
      let* _ := lift (validateWorkerPod cluster p) in
      let* _ := cleanupWorker p (node_of nodes p) in
      cleanup_pods cluster nodes pods'
  end.

Definition cleanupClusterWorkers (cluster : Api.HeterogeneousCluster) (pods_answer : option (list Pod))
    (nodes_answer : option (exchange (list apiError * list Node))) : W bool :=
  match pods_answer with
  | None => throw ListFailed
  | Some [] => ret true
  | Some pods =>
      match Nodes nodes_answer with
      | Err e => throw (Rest e)
      | Ok nodes => cleanup_pods cluster nodes pods
      end
  end.

(** ** Which calls a method can issue *)

Lemma kube_emits (P : event -> Prop) e : P e -> emits P (kube e).
Proof. apply emits_call. Qed.

Lemma drain_node_emits (P : event -> Prop) n reason : P (EDrainNode n reason) -> emits P (drain_node n reason).
Proof. intros H. apply emits_bind; [by apply emits_call|]. intros a. by emits_walk. Qed.

Lemma delete_node_emits (P : event -> Prop) n : P (EDeleteNode n) -> emits P (delete_node n).
Proof. intros H. apply emits_bind; [by apply emits_call|]. intros a. by emits_walk. Qed.

Lemma read_claim_emits (P : event -> Prop) c n : P (EGetClaim c n) -> emits P (read_claim c n).
Proof. apply emits_call. Qed.

Lemma record_emits (P : event -> Prop) reason : P (ERecord reason) -> emits P (record_event reason).
Proof. intros H. unfold record_event. emits_walk. by apply kube_emits. Qed.

(** Calls that neither touch a Slurm node nor create or delete a Pod. *)
Definition harmless (e : event) : Prop :=
  match e with
  | EDrainNode _ _ | EDeleteNode _ | EDeletePod _ | ECreatePod _ _ => False
  | _ => True
  end.

Ltac calls :=
  emits_walk;
  try (first [apply kube_emits | apply drain_node_emits | apply delete_node_emits
             | apply read_claim_emits | apply record_emits]; first [done | idtac]).

Lemma setWorkerAnnotation_emits p k v : emits harmless (setWorkerAnnotation p k v).
Proof. unfold setWorkerAnnotation. calls. Qed.

Lemma ensureWorkerClaim_emits cluster p : emits harmless (ensureWorkerClaim cluster p).
Proof. unfold ensureWorkerClaim. calls. Qed.

Lemma tolerate_missing_emits P o : emits P (tolerate_missing o).
Proof. unfold tolerate_missing. calls. Qed.

Lemma report_rejected_emits cluster creates : emits harmless (report_rejected cluster creates).
Proof. induction creates as [|d creates IH]; simpl; [calls|]. apply emits_bind; [calls|done]. Qed.

Lemma record_rejections_emits n : emits harmless (record_rejections n).
Proof. induction n as [|n IH]; simpl; [calls|]. apply emits_bind; [calls|done]. Qed.

Lemma harmless_or (P : event -> Prop) {A} (m : W A) :
  emits harmless m -> (forall e, harmless e -> P e) -> emits P m.
Proof. apply emits_mono. Qed.

(** [release_pod] and [cleanupWorker] issue these calls and harmless ones. *)
Lemma release_pod_emits (P : event -> Prop) p :
  (forall e, harmless e -> P e) -> (Deleting p = false -> P (EDeletePod (p_Name p))) -> emits P (release_pod p).
Proof.
  intros Hh Hd. unfold release_pod.
  emits_walk; try apply tolerate_missing_emits; apply kube_emits; [by apply Hh|auto].
Qed.

Lemma cleanupWorker_emits (P : event -> Prop) p node :
  (forall e, harmless e -> P e) ->
  ((n_Name node = ""%string \/ draining p = true) -> Deleting p = false -> P (EDeletePod (p_Name p))) ->
  (n_Name node <> ""%string -> draining p = false -> P (EDrainNode (p_Name p) "elastic worker removal")) ->
  (n_Name node <> ""%string -> draining p = true -> drained node = true -> nodeIdle node = true ->
   P (EDeleteNode (p_Name p))) ->
  emits P (cleanupWorker p node).
Proof.
  intros Hh Hdel Hdrain Hnode. unfold cleanupWorker.
  emits_walk; bool_hyps.
  - apply release_pod_emits; auto.
  - apply drain_node_emits; auto.
  - eapply harmless_or; [apply setWorkerAnnotation_emits|done].
  - match goal with H : _ || _ = false |- _ => apply orb_false_iff in H as [? ?] | _ => idtac end. bool_hyps.
    apply delete_node_emits; auto.
  - apply release_pod_emits; auto.
Qed.

Lemma node_by_name_spec nodes name node :
  node_by_name nodes name = Some node -> node ∈ nodes /\ n_Name node = name.
Proof.
  unfold node_by_name. intros [Hin Hn]%find_some. rewrite <-in_rev in Hin. bool_hyps.
  split; [by apply list_elem_of_In|done].
Qed.

(** ** Deleting Slurm nodes *)

(** The listed node [n] is drained and idle, and it belongs to a Pod already
    marked as draining or to a worker whose Pod is gone. *)
Definition deletable (cluster : Api.HeterogeneousCluster) (pods : list Pod) (nodes : list Node) (n : string) : Prop :=
  exists node, node ∈ nodes /\ n_Name node = n /\ drained node = true /\ nodeIdle node = true /\
    ((exists p, p ∈ pods /\ p_Name p = n /\ draining p = true) \/
     (n ∉ p_Name <$> pods /\ managedWorkerNode cluster n = true)).

Definition deletes_ok (cluster : Api.HeterogeneousCluster) (pods : list Pod) (nodes : list Node) (e : event) : Prop :=
  match e with EDeleteNode n => deletable cluster pods nodes n | _ => True end.

Lemma harmless_deletes cluster pods nodes e : harmless e -> deletes_ok cluster pods nodes e.
Proof. by destruct e. Qed.

Lemma node_of_spec nodes p : n_Name (node_of nodes p) <> ""%string ->
  node_of nodes p ∈ nodes /\ n_Name (node_of nodes p) = p_Name p.
Proof.
  unfold node_of. destruct (node_by_name nodes (p_Name p)) as [node|] eqn:E; simpl; [|done].
  intros _. by apply node_by_name_spec.
Qed.

Lemma cleanup_deletes cluster pods nodes p :
  p ∈ pods -> emits (deletes_ok cluster pods nodes) (cleanupWorker p (node_of nodes p)).
Proof.
  intros Hp. apply cleanupWorker_emits; [by apply harmless_deletes|done..|].
  intros Hn Hd Hdr Hi. destruct (node_of_spec nodes p Hn) as [Hin En].
  exists (node_of nodes p). split_and!; [done..|]. left. by exists p.
Qed.

(** Cleaning up depends on the Pod's annotations, not on its finalizers. *)
Lemma cleanup_deletes_finalizer cluster pods nodes p :
  p ∈ pods -> emits (deletes_ok cluster pods nodes) (cleanupWorker (with_finalizer p) (node_of nodes (with_finalizer p))).
Proof.
  intros Hp. unfold with_finalizer. destruct (bool_decide _); [by apply cleanup_deletes|].
  apply cleanupWorker_emits; [by apply harmless_deletes|done..|].
  intros Hn Hd Hdr Hi. destruct (node_of_spec nodes p Hn) as [Hin En].
  exists (node_of nodes p). split_and!; [done..|]. left. by exists p.
Qed.

Lemma reconcile_pod_deletes cluster pods nodes p :
  p ∈ pods -> emits (deletes_ok cluster pods nodes) (reconcile_pod cluster nodes p).
Proof.
  intros Hp. unfold reconcile_pod, claim_lost.
  emits_walk; try by apply cleanup_deletes; try by apply cleanup_deletes_finalizer.
  all: try (apply kube_emits; done).
  all: try (apply read_claim_emits; done).
  all: try by apply cleanup_deletes_finalizer.
  eapply harmless_or; [apply ensureWorkerClaim_emits|apply harmless_deletes].
Qed.

Lemma orphans_delete cluster pods nodes l :
  (forall n, n ∈ l -> n ∈ nodes) ->
  emits (deletes_ok cluster pods nodes) (reconcile_orphans cluster (p_Name <$> pods) l).
Proof.
  induction l as [|n l IH]; intros Hl; simpl; [calls|].
  apply emits_bind; [|intros []; apply IH; set_solver]. unfold reconcile_orphan, orphan.
  destruct (negb (negb _ && _)) eqn:Eo; [calls|]. bool_hyps.
  destruct (drained n && nodeIdle n) eqn:Ed; [|calls]. bool_hyps.
  apply delete_node_emits. exists n. split_and!; [set_solver|done..|]. right. by split.
Qed.

(** Calls of the creation and scale-down loops: no Slurm node is deleted. *)
Definition not_delete_node (e : event) : Prop := match e with EDeleteNode _ => False | _ => True end.

Lemma harmless_not_delete e : harmless e -> not_delete_node e.
Proof. by destruct e. Qed.

Lemma createWorker_emits (P : event -> Prop) cluster pool d :
  (forall e, harmless e -> P e) ->
  (forall pod spec, pool_label pod = Api.Name pool -> P (ECreatePod pod spec)) ->
  emits P (createWorker cluster pool d).
Proof.
  intros Hh Hc. unfold createWorker. emits_walk.
  - apply kube_emits, Hc. unfold pool_label, worker_pod; simpl. by rewrite ->lookup_insert_eq.
  - eapply harmless_or; [apply ensureWorkerClaim_emits|done].
  - apply record_emits, Hh. done.
Qed.

Lemma groups_delete cluster candidates demands st g :
  emits not_delete_node (reconcile_group cluster candidates demands st g).
Proof.
  unfold reconcile_group. destruct st as [used counts].
  destruct (fill_group _ _ _ _ _) as [lu creates].
  apply emits_bind; [eapply harmless_or; [apply report_rejected_emits|apply harmless_not_delete]|intros _].
  destruct (negb _); [calls|]. apply emits_bind; [|intros; calls].
  generalize counts. induction creates as [|d creates IH]; intros cs; simpl; [calls|].
  emits_walk; [|apply IH]. apply createWorker_emits; [apply harmless_not_delete|done].
Qed.

Lemma scale_down_delete cluster nodes assigned ready pods :
  emits not_delete_node (scale_down cluster nodes assigned ready pods).
Proof.
  revert ready. induction pods as [|p pods IH]; intros ready; simpl; [calls|].
  apply emits_bind; [|intros [p' ready']; apply emits_bind; [apply IH|intros; calls]].
  unfold scale_down_pod. destruct (pool_of _ _) as [pool|]; [|calls].
  destruct (Deleting p || draining p || recovering p) eqn:Ed; [calls|]. bool_hyps.
  emits_walk.
  all: try (eapply harmless_or; [apply setWorkerAnnotation_emits|apply harmless_not_delete]).
  all: apply cleanupWorker_emits; [apply harmless_not_delete|done..|congruence].
Qed.

(** What [reconcileWorkers] issues, from what its loops issue. *)
Lemma emits_elem {A} (P : event -> Prop) (m : W A) env e : emits P m -> e ∈ snd (m env []) -> P e.
Proof.
  intros Hm He. destruct (Hm env []) as (new & E & Hn). rewrite ->E in He. simpl in He.
  rewrite ->Forall_forall in Hn. auto.
Qed.

Lemma reconcile_deletes cluster jobs pods nodes_answer nodes slices_answer :
  Nodes nodes_answer = Ok nodes ->
  emits (deletes_ok cluster pods nodes) (reconcileWorkers cluster jobs (Some pods) nodes_answer slices_answer).
Proof.
  intros En. unfold reconcileWorkers. rewrite ->En.
  assert (forall e, not_delete_node e -> deletes_ok cluster pods nodes e) as Hnd by (by intros []).
  apply emits_bind; [by apply emits_mapM; intros p Hp; apply reconcile_pod_deletes|intros pods'].
  apply emits_bind; [by apply orphans_delete|intros _].
  apply emits_bind; [apply emits_lift|intros fps].
  destruct (Demands _ _ _ _ _) as [demands rejected].
  apply emits_bind; [eapply harmless_or; [apply record_rejections_emits|apply harmless_deletes]|intros _].
  apply emits_bind; [apply emits_lift|intros [candidates counts]].
  apply emits_bind; [apply emits_foldM; intros; eapply emits_mono; [apply groups_delete|done]|].
  intros [assigned counts']. apply emits_bind; [eapply emits_mono; [apply scale_down_delete|done]|].
  intros pods2. apply emits_ret.
Qed.

(** C36: whatever the API server and Slurm answer, reconciling the workers only
    deletes a Slurm node that was listed as drained and idle, and only one whose
    Pod had already been marked as draining by an earlier pass, or that carries
    the name of a worker of this cluster without having a Pod. *)
Theorem node_deletion_safe cluster jobs pods nodes_answer nodes slices_answer env n :
  Nodes nodes_answer = Ok nodes ->
  EDeleteNode n ∈ snd (reconcileWorkers cluster jobs (Some pods) nodes_answer slices_answer env []) ->
  deletable cluster pods nodes n.
Proof.
  intros En He. by eapply (emits_elem (deletes_ok cluster pods nodes)) in He; [|apply reconcile_deletes].
Qed.

(** ** Pool limits *)

(** Pools of the Pods created. *)
Definition created (trace : list event) : list string :=
  omap (fun e => match e with ECreatePod p _ => Some (pool_label p) | _ => None end) trace.

Definition in_pool (q : string) (l : list string) : Z :=
  Z.of_nat (length (List.filter (fun x => (x =? q)%string) l)).

Lemma in_pool_app q l k : in_pool q (l ++ k) = in_pool q l + in_pool q k.
Proof. unfold in_pool. rewrite ->List.filter_app, length_app. lia. Qed.

Lemma in_pool_prefix q l k : l `prefix_of` k -> in_pool q l <= in_pool q k.
Proof. intros [k' ->]. rewrite ->in_pool_app. unfold in_pool. lia. Qed.

Lemma in_pool_count q creates : in_pool q (PoolName <$> creates) = count_pool creates q.
Proof.
  unfold in_pool, count_pool. f_equal. induction creates as [|d l IH]; [done|].
  rewrite ->fmap_cons. simpl. destruct (PoolName d =? q)%string; simpl; by rewrite ->IH.
Qed.

Lemma created_app t u : created (t ++ u) = created t ++ created u.
Proof. apply omap_app. Qed.

(** The Pods created: their pools and the shapes they are annotated with. *)
Definition created_pods (trace : list event) : list (string * string) :=
  omap (fun e => match e with
                 | ECreatePod p _ => Some (pool_label p, annotation p workerShapeAnnotation)
                 | _ => None end) trace.

Definition order_of (d : Demand) : string * string := (PoolName d, encode_shape (d_Shape d)).

Lemma created_pods_app t u : created_pods (t ++ u) = created_pods t ++ created_pods u.
Proof. apply omap_app. Qed.

Lemma created_pools t : created t = (created_pods t).*1.
Proof. induction t as [|e t IH]; [done|]. simpl. destruct e; simpl; by rewrite ->IH. Qed.

Lemma orders_pools l : (order_of <$> l).*1 = PoolName <$> l.
Proof. by rewrite <-list_fmap_compose. Qed.

Lemma created_pods_nil t : created t = [] -> created_pods t = [].
Proof. rewrite ->created_pools. by destruct (created_pods t). Qed.

Lemma created_nil P t : (forall e, P e -> match e with ECreatePod _ _ => False | _ => True end) ->
  Forall P t -> created t = [].
Proof.
  intros HP. induction 1 as [|e t He Ht IH]; [done|]. apply HP in He. simpl. by destruct e.
Qed.

Lemma pool_of_name ps name pool : pool_of ps name = Some pool -> Api.Name pool = name /\ pool ∈ ps.
Proof.
  unfold pool_of. intros [Hin Hn]%find_some. rewrite <-in_rev in Hin. bool_hyps.
  split; [done|by apply list_elem_of_In].
Qed.

(** At most one Pod is created by [createWorker]; exactly one, of the shape
    asked for, when it succeeds. *)
Lemma createWorker_spec cluster pool d :
  spec (createWorker cluster pool d) (fun res new =>
    created_pods new `prefix_of` [(Api.Name pool, encode_shape (d_Shape d))] /\
    (is_ok res = true -> created_pods new = [(Api.Name pool, encode_shape (d_Shape d))])).
Proof.
  unfold createWorker. eapply spec_bind with (P := fun _ new => new = []); [by apply spec_ask| |].
  2:{ intros e new ->. split; [apply prefix_nil|done]. }
  intros text new ->. eapply spec_bind with (P := fun _ new => new = []).
  { destruct (workerResources _ _); [by apply spec_ret|by apply spec_throw]. }
  2:{ intros e new ->. split; [apply prefix_nil|done]. }
  intros res new ->.
  set (podName := _ +:+ _). set (pod := worker_pod _ _ _ _ _ _). set (sp := worker_spec _ _ _ _ _ _).
  eapply spec_bind with (P := fun res new => is_ok res = true /\ new = [ECreatePod pod sp]);
    [by apply spec_call| |by intros e new [? _]].
  intros o new [_ ->].
  assert (created_pods [ECreatePod pod sp] = [(Api.Name pool, encode_shape (d_Shape d))]) as Ec.
  { done. }
  destruct o; try (apply spec_throw; simpl app; by rewrite ->Ec).
  eapply spec_mono with (P := fun _ new => Forall harmless new).
  - change (spec ?m _) with (emits harmless m). emits_walk; [apply ensureWorkerClaim_emits|by apply record_emits].
  - intros r' new Hn. change ([] ++ [] ++ [ECreatePod pod sp] ++ new) with ([ECreatePod pod sp] ++ new).
    rewrite ->created_pods_app, Ec.
    rewrite ->(created_pods_nil new) by (apply (created_nil harmless); [by intros []|done]). done.
Qed.

(** The workers created are a prefix of the planned ones, and all of them when
    nothing failed; the counts follow. *)
Lemma create_workers_spec cluster creates counts :
  spec (create_workers cluster creates counts) (fun res new =>
    created_pods new `prefix_of` (order_of <$> creates) /\
    forall counts', res = Ok counts' ->
      created_pods new = order_of <$> creates /\ counts' = foldl add_count counts (map PoolName creates)).
Proof.
  revert counts. induction creates as [|d creates IH]; intros counts; simpl.
  { apply spec_ret. split; [done|]. by intros ? [= <-]. }
  destruct (_ =? _)%string; [apply spec_throw; split; [apply prefix_nil|done]|].
  destruct (pool_of _ _) as [pool|] eqn:Ep; [|apply spec_throw; split; [apply prefix_nil|done]].
  apply pool_of_name in Ep as [En _]. eapply spec_bind; [apply createWorker_spec| |].
  - intros pod new [_ Hc]. specialize (Hc eq_refl). rewrite ->En in Hc.
    eapply spec_mono; [apply IH|]. intros res new' [Hpre Hok]. rewrite ->created_pods_app, Hc. split.
    + by apply prefix_cons.
    + intros counts' ->. destruct (Hok counts' eq_refl) as [-> ->]. done.
  - intros e new [Hpre _]. split; [|done]. rewrite ->En in Hpre. etrans; [exact Hpre|].
    apply prefix_cons, prefix_nil.
Qed.

(** No pool in which something is created ends above its limit. *)
Definition limited (cluster : Api.HeterogeneousCluster) (counts : gmap string Z) (made : list string) (q : string) : Prop :=
  0 < in_pool q made -> exists pool, pool_of (pools cluster) q = Some pool /\
    count_of counts q + in_pool q made <= Api.MaxWorkers (Api.Scaling pool).

Lemma limited_nil cluster counts q : limited cluster counts [] q.
Proof. unfold limited, in_pool. simpl. lia. Qed.

Lemma group_fits_limited cluster counts creates q :
  group_fits parse_quantity AllocationResultsMaxSize (pools cluster) (WorkerMemoryHeadroom r) counts creates = true ->
  limited cluster counts (PoolName <$> creates) q.
Proof.
  intros Hf. unfold limited. rewrite ->in_pool_count. intros Hpos.
  destruct (group_fits_limits parse_quantity AllocationResultsMaxSize (pools cluster) (WorkerMemoryHeadroom r)
              counts counts [] creates q Hf) as (_ & Hlim & _).
  - split_and!; [unfold count_pool; simpl; lia..|set_solver].
  - simpl app in Hlim. by apply Hlim.
Qed.

Lemma limited_prefix cluster counts made made' q :
  made' `prefix_of` made -> limited cluster counts made q -> limited cluster counts made' q.
Proof.
  intros Hpre Hl Hpos. apply (in_pool_prefix q) in Hpre. destruct Hl as (pool & Hp & Hle); [lia|].
  exists pool. split; [done|lia].
Qed.

Definition group_spec (cluster : Api.HeterogeneousCluster) (counts : gmap string Z) (q : string)
    (res : result worker_error (gset string * gmap string Z)) (new : list event) : Prop :=
  limited cluster counts (created new) q /\
  forall used' counts', res = Ok (used', counts') -> count_of counts' q = count_of counts q + in_pool q (created new).

(** A group is left out without a creation, or served by reused workers and by
    creations, of which a failing call leaves the last ones out. *)
Definition group_outcome (cluster : Api.HeterogeneousCluster) (candidates : list workerCandidate)
    (ds : list Demand) (used : gset string) (counts : gmap string Z)
    (res : result worker_error (gset string * gmap string Z)) (new : list event) : Prop :=
  exists a, a.*1 = units ds /\ serves candidates used a /\
    if group_fits parse_quantity AllocationResultsMaxSize (pools cluster) (WorkerMemoryHeadroom r) counts (fresh a)
    then created_pods new `prefix_of` (order_of <$> fresh a) /\
         forall st, res = Ok st -> created_pods new = order_of <$> fresh a /\
           st = (list_to_set (reused a) ∪ used, foldl add_count counts (map PoolName (fresh a)))
    else created_pods new = [] /\ forall st, res = Ok st -> st = (used, counts).

Lemma reconcile_group_outcome cluster candidates demands used counts g :
  spec (reconcile_group cluster candidates demands (used, counts) g)
    (group_outcome cluster candidates (byGroup demands g) used counts).
Proof.
  unfold reconcile_group. destruct (fill_group _ _ _ _ _) as [lu creates] eqn:Ef.
  apply fill_group_serves in Ef as (a & Ha & Hs & -> & ->). rewrite ->app_nil_l.
  rewrite ->!union_empty_l_L in Hs.
  assert (forall t, Forall harmless t -> created_pods t = []) as Hnil.
  { intros t Ht. eapply created_pods_nil, created_nil; [|exact Ht]. by intros []. }
  unfold group_outcome.
  eapply spec_bind; [apply report_rejected_emits| |].
  2:{ intros e new Hn. exists a. rewrite ->(Hnil _ Hn). split_and!; [done..|].
      destruct (group_fits _ _ _ _ _ _); (split; [|done]); [apply prefix_nil|done]. }
  intros u new Hn. destruct (group_fits _ _ _ _ _ _) eqn:Ef; cbn [negb].
  - eapply spec_bind; [apply create_workers_spec| |].
    + intros counts' new' [Hpre Hok]. destruct (Hok counts' eq_refl) as [Hall ->]. apply spec_ret.
      exists a. split_and!; [done..|]. rewrite ->Ef, !created_pods_app, (Hnil new), Hall by done.
      rewrite ->app_nil_l, app_nil_r. split; [done|]. intros ? [= <-]. by rewrite ->union_empty_r_L.
    + intros e new' [Hpre _]. exists a. split_and!; [done..|].
      by rewrite ->Ef, created_pods_app, (Hnil new) by done.
  - eapply spec_bind; [apply (record_emits harmless); done| |].
    + intros u' new' Hn'. apply spec_ret. exists a. split_and!; [done..|].
      rewrite ->Ef, !created_pods_app, !Hnil by done. split; [done|]. by intros ? [= <-].
    + intros e new' Hn'. exists a. split_and!; [done..|]. by rewrite ->Ef, created_pods_app, !Hnil by done.
Qed.

Lemma reconcile_group_spec cluster candidates demands used counts g q :
  spec (reconcile_group cluster candidates demands (used, counts) g) (group_spec cluster counts q).
Proof.
  eapply spec_mono; [apply reconcile_group_outcome|]. intros res new (a & _ & _ & Ho). unfold group_spec.
  rewrite ->created_pools. destruct (group_fits _ _ _ _ _ _) eqn:Ef; destruct Ho as [Hc Hok].
  - apply (group_fits_limited _ _ _ q) in Ef. split.
    + eapply limited_prefix; [|exact Ef]. rewrite <-orders_pools. destruct Hc as [k Hk].
      rewrite ->Hk, fmap_app. by apply prefix_app_r.
    + intros used' counts' E. destruct (Hok _ E) as [-> [= -> ->]].
      rewrite ->orders_pools, in_pool_count. apply add_counts_spec.
  - rewrite ->Hc. split; [apply limited_nil|]. intros used' counts' [= -> ->]%Hok.
    unfold in_pool; simpl. lia.
Qed.

Lemma groups_spec cluster candidates demands gs used counts q :
  spec (foldM_eff (reconcile_group cluster candidates demands) (used, counts) gs) (group_spec cluster counts q).
Proof.
  revert used counts. induction gs as [|g gs IH]; intros used counts; simpl.
  { apply spec_ret. split; [apply limited_nil|]. intros ? ? [= <- <-]. unfold in_pool; simpl. lia. }
  eapply spec_bind; [apply (reconcile_group_spec _ _ _ _ _ _ q)| |].
  - intros [used1 counts1] new [Hl Hc]. specialize (Hc _ _ eq_refl).
    eapply spec_mono; [apply IH|]. intros res new' [Hl' Hc']. unfold group_spec. rewrite ->created_app. split.
    + intros Hpos. rewrite ->in_pool_app in *.
      destruct (decide (0 < in_pool q (created new'))) as [H'|H'].
      * destruct (Hl' H') as (pool & Hp & Hle). exists pool. split; [done|lia].
      * destruct Hl as (pool & Hp & Hle); [lia|]. exists pool. split; [done|]. unfold in_pool in *. lia.
    + intros used' counts' E. rewrite ->in_pool_app, (Hc' _ _ E). lia.
  - intros e new [Hl _]. by split.
Qed.

(** The first loop only changes the drain annotation and the finalizers. *)
Definition same_worker (p p' : Pod) : Prop :=
  p_Name p' = p_Name p /\ pool_label p' = pool_label p /\ Deleting p' = Deleting p /\ Failed p' = Failed p /\
  recovering p' = recovering p /\ podShape p' = podShape p /\ podReady p' = podReady p.

Lemma annotation_insert p k v k' : k <> k' ->
  annotation (with_annotations p (<[k := v]> (Annotations p))) k' = annotation p k'.
Proof. intros H. unfold annotation; simpl. by rewrite ->lookup_insert_ne. Qed.

Lemma cleanup_same p node : returns (same_worker p) (cleanupWorker p node).
Proof.
  unfold cleanupWorker, release_pod, setWorkerAnnotation. returns_walk; try done.
  repeat split; unfold recovering, podShape; simpl; by rewrite ->annotation_insert.
Qed.

Lemma reconcile_pod_same cluster nodes p : returns (same_worker p) (reconcile_pod cluster nodes p).
Proof.
  unfold reconcile_pod, with_finalizer. destruct (bool_decide _); returns_walk; try done;
    first [apply cleanup_same | exact (cleanup_same (with_finalizers p _) _)].
Qed.

Lemma same_worker_counted cluster p p' : same_worker p p' -> counted cluster p' = counted cluster p.
Proof. intros (_ & El & Ed & Ef & Er & _). unfold counted. by rewrite ->El, Ed, Ef, Er. Qed.

(** The workers of a pool that count against its limit. *)
Definition pool_size (cluster : Api.HeterogeneousCluster) (q : string) (pods : list Pod) : Z :=
  in_pool q (map pool_label (List.filter (counted cluster) pods)).

Lemma pool_size_same cluster q pods pods' :
  Forall2 same_worker pods pods' -> pool_size cluster q pods' = pool_size cluster q pods.
Proof.
  unfold pool_size. intros H. f_equal. induction H as [|p p' l l' Hp _ IH]; [done|]. simpl.
  rewrite ->(same_worker_counted _ _ _ Hp). destruct (counted cluster p); simpl; [|done].
  destruct Hp as (_ & -> & _). by rewrite ->IH.
Qed.

Lemma candidates_count cluster nodes pods counts acc candidates counts' q :
  candidates_of cluster nodes pods counts acc = Ok (candidates, counts') ->
  count_of counts' q = count_of counts q + pool_size cluster q pods.
Proof.
  revert counts acc. induction pods as [|p pods IH]; intros counts acc; simpl.
  { intros [= <- <-]. unfold pool_size, in_pool; simpl. lia. }
  unfold pool_size. simpl. destruct (counted cluster p); simpl; [|by apply IH].
  destruct (podShape p); [|done]. intros H%IH. rewrite ->H. unfold count_of, add_count, pool_size.
  destruct (decide (pool_label p = q)) as [->|Hne].
  - rewrite ->lookup_insert_eq. unfold in_pool; simpl. rewrite ->String.eqb_refl; simpl. lia.
  - rewrite ->lookup_insert_ne by done. unfold in_pool; simpl.
    apply String.eqb_neq in Hne. by rewrite ->Hne.
Qed.

Definition no_create (e : event) : Prop := match e with ECreatePod _ _ => False | _ => True end.

Lemma harmless_no_create e : harmless e -> no_create e.
Proof. by destruct e. Qed.

Lemma cleanup_no_create p node : emits no_create (cleanupWorker p node).
Proof. apply cleanupWorker_emits; [apply harmless_no_create|done..]. Qed.

Lemma reconcile_pod_no_create cluster nodes p : emits no_create (reconcile_pod cluster nodes p).
Proof.
  unfold reconcile_pod, claim_lost. emits_walk; try apply cleanup_no_create.
  all: try (apply kube_emits; done). all: try (apply read_claim_emits; done).
  eapply harmless_or; [apply ensureWorkerClaim_emits|apply harmless_no_create].
Qed.

Lemma orphans_no_create cluster names l : emits no_create (reconcile_orphans cluster names l).
Proof.
  induction l as [|n l IH]; simpl; [calls|]. apply emits_bind; [|done]. unfold reconcile_orphan. calls.
Qed.

Lemma scale_down_no_create cluster nodes assigned ready pods :
  emits no_create (scale_down cluster nodes assigned ready pods).
Proof.
  revert ready. induction pods as [|p pods IH]; intros ready; simpl; [calls|].
  apply emits_bind; [|intros [p' ready']; apply emits_bind; [apply IH|intros; calls]].
  unfold scale_down_pod. emits_walk; try apply cleanup_no_create.
  all: eapply harmless_or; [apply setWorkerAnnotation_emits|apply harmless_no_create].
Qed.

Lemma no_create_nil t : Forall no_create t -> created t = [].
Proof. by apply created_nil. Qed.

(** Programs that create no Pod can be skipped. *)
Lemma spec_quiet {A B} (m : W A) (k : A -> W B) (R : A -> Prop) (Q : bool -> list (string * string) -> Prop) :
  emits no_create m -> returns R m -> Q false [] ->
  (forall a, R a -> spec (k a) (fun res new => Q (is_ok res) (created_pods new))) ->
  spec (bind m k) (fun res new => Q (is_ok res) (created_pods new)).
Proof.
  intros Hm Hr Hq Hk.
  assert (forall t, Forall no_create t -> created_pods t = []) as Hnil.
  { intros t Ht. by apply created_pods_nil, no_create_nil. }
  eapply spec_bind; [exact (spec_returns _ _ _ Hm Hr)| |].
  - intros a new [Hn Ha]. eapply spec_mono; [by apply Hk, Ha|]. intros res new' HQ.
    by rewrite ->created_pods_app, Hnil.
  - intros e new [Hn _]. by rewrite ->Hnil.
Qed.

Lemma returns_lift {A} (x : result worker_error A) (R : A -> Prop) : (forall a, x = Ok a -> R a) -> returns R (lift x : W A).
Proof. destruct x; simpl; intros H; [by apply returns_ret, H|apply returns_throw]. Qed.

Lemma returns_any {A} (m : W A) : returns (fun _ => True) m.
Proof. by intros env tr a. Qed.

(** The creations of a pass are those of the loop over the groups, from the
    workers listed. *)
Lemma reconcile_creations cluster jobs pods nodes_answer nodes slices_answer
    (Q : bool -> list (string * string) -> Prop) :
  Nodes nodes_answer = Ok nodes -> Q false [] -> (forall orders, Q true orders -> Q false orders) ->
  (forall pods1 fps candidates counts,
     Forall2 same_worker pods pods1 -> openTPUFootprints slices_answer = Ok fps ->
     candidates_of cluster nodes pods1 ∅ [] = Ok (candidates, counts) ->
     let demands := fst (Demands parse_quantity order jobs (pools cluster) fps) in
     spec (foldM_eff (reconcile_group cluster candidates demands) (∅, counts) (group_ids demands []))
       (fun res new => Q (is_ok res) (created_pods new))) ->
  spec (reconcileWorkers cluster jobs (Some pods) nodes_answer slices_answer)
    (fun res new => Q (is_ok res) (created_pods new)).
Proof.
  intros En Hnil Hdown Hgroups. unfold reconcileWorkers. rewrite ->En.
  eapply spec_quiet; [by apply emits_mapM; intros; apply reconcile_pod_no_create
                     |by apply (returns_mapM same_worker); intros; apply reconcile_pod_same|done|].
  intros pods1 Hsame. eapply spec_quiet; [apply orphans_no_create|apply returns_any|done|].
  intros _ _. eapply spec_quiet; [apply emits_lift|by apply returns_lift; intros a; apply id|done|].
  intros fps Hfps. specialize (Hgroups pods1 fps).
  destruct (Demands _ _ _ _ _) as [demands rejected]. simpl in Hgroups.
  eapply spec_quiet; [eapply harmless_or; [apply record_rejections_emits|apply harmless_no_create]
                     |apply returns_any|done|].
  intros _ _. eapply spec_quiet; [apply emits_lift|by apply returns_lift; intros a; apply id|done|].
  intros [candidates counts] Hc.
  eapply spec_bind; [by apply (Hgroups candidates counts)| |by intros e new H].
  intros [assigned counts'] new HQ.
  eapply spec_mono with (P := fun _ new' => created_pods new' = []).
  - eapply spec_mono with (P := fun _ new' => Forall no_create new');
      [|intros; by apply created_pods_nil, no_create_nil].
    change (spec ?m _) with (emits no_create m). emits_walk; apply scale_down_no_create.
  - intros res new' E. rewrite ->created_pods_app, E, app_nil_r. destruct (is_ok res); [done|by apply Hdown].
Qed.

Lemma reconcile_limited cluster jobs pods nodes_answer slices_answer q :
  spec (reconcileWorkers cluster jobs (Some pods) nodes_answer slices_answer) (fun _ new =>
    0 < in_pool q (created new) -> exists pool, pool_of (pools cluster) q = Some pool /\
      pool_size cluster q pods + in_pool q (created new) <= Api.MaxWorkers (Api.Scaling pool)).
Proof.
  set (Q := fun made => 0 < in_pool q made -> exists pool, pool_of (pools cluster) q = Some pool /\
    pool_size cluster q pods + in_pool q made <= Api.MaxWorkers (Api.Scaling pool)).
  assert (Q []) as Hnil by (unfold Q, in_pool; simpl; lia).
  destruct (Nodes nodes_answer) as [nodes|e] eqn:En.
  2:{ unfold reconcileWorkers. rewrite ->En. by apply spec_ret. }
  eapply spec_mono; [apply (reconcile_creations _ _ _ _ nodes _ (fun _ orders => Q orders.*1)); try done|].
  2:{ intros res new HQ. rewrite ->created_pools. exact HQ. }
  intros pods1 fps candidates counts Hsame _ Hc demands. apply (candidates_count _ _ _ _ _ _ _ q) in Hc.
  rewrite ->(pool_size_same _ _ _ _ Hsame) in Hc. unfold count_of at 2 in Hc. simpl in Hc.
  eapply spec_mono; [apply (groups_spec _ _ _ _ _ _ q)|]. intros res new [Hl _].
  rewrite <-created_pools. intros Hpos. unfold limited in Hl. rewrite ->Hc in Hl. auto.
Qed.

(** The limit of a pool holds across a pass: whenever a worker of a pool is
    created, the pool's workers that were running before (whatever happened to
    them earlier in the pass) and those created so far do not exceed
    [maxWorkers], also when a call fails half way. *)
Theorem workers_within_limits cluster jobs pods nodes_answer slices_answer env q :
  0 < in_pool q (created (snd (reconcileWorkers cluster jobs (Some pods) nodes_answer slices_answer env []))) ->
  exists pool, pool ∈ pools cluster /\ Api.Name pool = q /\
    pool_size cluster q pods
    + in_pool q (created (snd (reconcileWorkers cluster jobs (Some pods) nodes_answer slices_answer env [])))
    <= Api.MaxWorkers (Api.Scaling pool).
Proof.
  intros Hpos. destruct (reconcile_limited cluster jobs pods nodes_answer slices_answer q env []) as (new & E & HQ).
  rewrite ->E in *. simpl app in *.
  destruct (HQ Hpos) as (pool & [Hn Hin]%pool_of_name & Hle). by exists pool.
Qed.

(** ** Whole groups *)

(** The workers a pass may reuse: of a pool of the cluster, not on their way
    out, and idle or not yet running. *)
Definition worker_for (cluster : Api.HeterogeneousCluster) (nodes : list Node) (p : Pod) : option workerCandidate :=
  if counted cluster p && available nodes p then
    match podShape p with
    | Ok shape => Some (MkCandidate (p_Name p) (pool_label p) shape)
    | Err _ => None
    end
  else None.
Definition workers_for (cluster : Api.HeterogeneousCluster) (nodes : list Node) (pods : list Pod)
    : list workerCandidate := omap (worker_for cluster nodes) pods.

Lemma workers_for_same cluster nodes pods pods' :
  Forall2 same_worker pods pods' -> workers_for cluster nodes pods' = workers_for cluster nodes pods.
Proof.
  unfold workers_for. induction 1 as [|p p' l l' Hp _ IH]; [done|]. csimpl. rewrite ->IH.
  replace (worker_for cluster nodes p') with (worker_for cluster nodes p); [done|].
  unfold worker_for, available. rewrite ->(same_worker_counted _ _ _ Hp).
  destruct Hp as (-> & -> & _ & _ & _ & -> & ->). done.
Qed.

Lemma candidates_workers cluster nodes pods counts acc candidates counts' :
  candidates_of cluster nodes pods counts acc = Ok (candidates, counts') ->
  candidates = acc ++ workers_for cluster nodes pods.
Proof.
  unfold workers_for. revert counts acc. induction pods as [|p pods IH]; intros counts acc; csimpl.
  { intros [= <- <-]. by rewrite ->app_nil_r. }
  unfold worker_for at 1. destruct (counted cluster p); simpl; [|by apply IH].
  destruct (podShape p) as [shape|]; [|done]. intros ->%IH. destruct (available nodes p); [|done].
  by rewrite <-app_assoc.
Qed.

(** The groups served, in order, with their assignments. *)
Abbreviation plan := (list (Z * assignment)).
Definition whole (p : plan) : assignment := concat p.*2.

Lemma whole_snoc p g a : whole (p ++ [(g, a)]) = whole p ++ a.
Proof. unfold whole. rewrite ->fmap_app, concat_app. simpl. by rewrite ->app_nil_r. Qed.

Lemma whole_app p q : whole (p ++ q) = whole p ++ whole q.
Proof. unfold whole. by rewrite ->fmap_app, concat_app. Qed.

(** Serving the group [g] after the groups of [before] needs a worker whose
    claim cannot be built or for which its pool has no room. *)
Definition left_out (cluster : Api.HeterogeneousCluster) (candidates : list workerCandidate)
    (size : string -> Z) (demands : list Demand) (before : plan) (g : Z) : Prop :=
  exists a d, a.*1 = units (byGroup demands g) /\
    serves candidates (list_to_set (reused (whole before))) a /\ d ∈ fresh a /\
    (claim_fits cluster d = false \/
     exists pool, pool_of (pools cluster) (PoolName d) = Some pool /\
       Api.MaxWorkers (Api.Scaling pool) < size (PoolName d) + count_pool (fresh (whole before) ++ fresh a) (PoolName d)).

Lemma group_unfit cluster candidates size demands before g counts a :
  a.*1 = units (byGroup demands g) -> serves candidates (list_to_set (reused (whole before))) a ->
  (forall q, count_of counts q = size q + count_pool (fresh (whole before)) q) ->
  group_fits parse_quantity AllocationResultsMaxSize (pools cluster) (WorkerMemoryHeadroom r) counts (fresh a) = false ->
  left_out cluster candidates size demands before g.
Proof.
  intros Ha Hs Hc [Hf|Hf]%andb_false_iff; apply forallb_false_elem in Hf as (d & Hd & Hf);
    exists a, d; (split_and!; [done..|]); [by left|].
  destruct (pool_of (pools cluster) (PoolName d)) as [pool|] eqn:Ep.
  - right. exists pool. bool_hyps. rewrite ->count_pool_app. split; [done|].
    specialize (Hc (PoolName d)). unfold count_of in Hc. lia.
  - left. unfold claim_fits. by rewrite ->Ep.
Qed.

(** What the loop over the groups [gs] adds to the plan [before]. *)
Record extends_plan (cluster : Api.HeterogeneousCluster) (candidates : list workerCandidate)
    (size : string -> Z) (demands : list Demand) (gs : list Z) (before : plan) (complete : bool)
    (orders : list (string * string)) (p : plan) : Prop := {
  xp_groups : p.*1 `sublist_of` gs;
  xp_units : forall g a, (g, a) ∈ p -> a.*1 = units (byGroup demands g);
  xp_serves : serves candidates (list_to_set (reused (whole before))) (whole p);
  xp_prefix : orders `prefix_of` (order_of <$> fresh (whole p));
  xp_all : complete = true -> orders = order_of <$> fresh (whole p);
  xp_left : complete = true -> forall g, g ∈ gs -> g ∈ p.*1 \/
    exists p1 p2, p = p1 ++ p2 /\ left_out cluster candidates size demands (before ++ p1) g }.

Lemma groups_plan cluster candidates size demands gs before counts :
  (forall q, count_of counts q = size q + count_pool (fresh (whole before)) q) ->
  spec (foldM_eff (reconcile_group cluster candidates demands) (list_to_set (reused (whole before)), counts) gs)
    (fun res new => exists p,
       extends_plan cluster candidates size demands gs before (is_ok res) (created_pods new) p).
Proof.
  revert before counts. induction gs as [|g gs IH]; intros before counts Hc; simpl.
  { apply spec_ret. exists []. split; try done; [set_solver|apply serves_nil|set_solver]. }
  eapply spec_bind; [apply reconcile_group_outcome| |].
  2:{ intros e new (a & Ha & Hs & Ho). destruct (group_fits _ _ _ _ _ _) eqn:Ef; destruct Ho as [Hn _].
      - exists [(g, a)]. split; try done; unfold whole; simpl; rw ?app_nil_r; try done.
        + apply sublist_skip, sublist_nil_l.
        + by intros g' a' [= -> ->]%list_elem_of_singleton.
      - exists []. rewrite ->Hn. split; try done; [apply sublist_nil_l|set_solver|apply serves_nil]. }
  intros st new (a & Ha & Hs & Ho). destruct (group_fits _ _ _ _ _ _) eqn:Ef; destruct Ho as [Hn Hst].
  - destruct (Hst _ eq_refl) as [Hall ->]. eapply spec_mono.
    { replace (list_to_set (reused a) ∪ list_to_set (reused (whole before)) : gset string)
        with (list_to_set (reused (whole (before ++ [(g, a)]))) : gset string)
        by (rewrite ->whole_snoc, reused_app, list_to_set_app_L; apply union_comm_L).
      apply (IH (before ++ [(g, a)])). intros q. rewrite ->whole_snoc, fresh_workers_app, count_pool_app.
      unfold count_of in *. rewrite ->add_counts_spec, Hc. lia. }
    intros res new' (p & [P1 P2 P3 P4 P5 P6]). exists ((g, a) :: p).
    assert (whole ((g, a) :: p) = a ++ whole p) as Ew by done.
    split; rw ?Ew ?fresh_workers_app ?fmap_app ?created_pods_app ?Hall.
    + simpl. by apply sublist_skip.
    + intros g' a' [[= -> ->]|H]%elem_of_cons; [done|by apply P2].
    + apply serves_app; [done|]. rewrite ->whole_snoc, reused_app, list_to_set_app_L in P3.
      by rewrite ->union_comm_L.
    + by apply prefix_app.
    + intros H. by rewrite ->(P5 H).
    + intros H g' [->|Hg]%elem_of_cons; [left; left|].
      destruct (P6 H _ Hg) as [Hin|(p1 & p2 & -> & Hl)]; [left; by right|].
      right. exists ((g, a) :: p1), p2. split; [done|]. by rewrite <-app_assoc in Hl.
  - rewrite ->(Hst _ eq_refl). eapply spec_mono; [apply (IH before counts Hc)|].
    intros res new' (p & [P1 P2 P3 P4 P5 P6]). exists p. rewrite ->created_pods_app, Hn.
    split; try done; [by apply sublist_cons|].
    intros H g' [->|Hg]%elem_of_cons; [|by apply P6]. right. exists [], p. split; [done|].
    rewrite ->app_nil_r. by eapply group_unfit.
Qed.

(** C38: when Slurm's nodes and the device slices can be read, a pass serves a
    job group whole or not at all.  There is a plan for some of the groups, in
    the order in which the jobs name them, that assigns every worker the
    demands of these groups ask for to an existing worker of the demanded pool
    whose shape fits, no worker twice, or to a new one, and to a new one only
    when no such worker is left.  The Pods created, by pool and shape, are the
    new ones of the plan in order; when a call fails the pass stops, so that
    they are a prefix of them.  When the pass succeeds, a group that is not in
    the plan needs a new worker whose device claim cannot be built, or one that
    its pool has no room for beside its workers and those planned before. *)
Theorem groups_served_whole cluster jobs pods nodes_answer nodes slices_answer fps env res trace :
  Nodes nodes_answer = Ok nodes -> openTPUFootprints slices_answer = Ok fps ->
  reconcileWorkers cluster jobs (Some pods) nodes_answer slices_answer env [] = (res, trace) ->
  let demands := fst (Demands parse_quantity order jobs (pools cluster) fps) in
  let idle := workers_for cluster nodes pods in
  exists p : plan,
    p.*1 `sublist_of` group_ids demands [] /\
    (forall g a, (g, a) ∈ p -> a.*1 = units (byGroup demands g)) /\
    serves idle ∅ (whole p) /\
    created_pods trace `prefix_of` (order_of <$> fresh (whole p)) /\
    (is_ok res = true ->
       created_pods trace = order_of <$> fresh (whole p) /\
       forall d, d ∈ demands -> GroupID d ∈ p.*1 \/
         exists before after, p = before ++ after /\
           left_out cluster idle (fun q => pool_size cluster q pods) demands before (GroupID d)).
Proof.
  intros En Hfps Erun demands idle.
  set (Q := fun ok orders => exists p,
    extends_plan cluster idle (fun q => pool_size cluster q pods) demands (group_ids demands []) [] ok orders p).
  destruct (reconcile_creations cluster jobs pods nodes_answer nodes slices_answer Q En) with (env := env) (tr := @nil event)
    as (new & Etr & p & [P1 P2 P3 P4 P5 P6]).
  - exists []. split; try done; [apply sublist_nil_l|set_solver|apply serves_nil].
  - intros orders (p & []). by exists p.
  - intros pods1 fps' candidates counts Hsame Hfps' Hc. rewrite ->Hfps in Hfps'. injection Hfps' as <-.
    replace candidates with idle.
    + apply (groups_plan cluster idle _ demands _ []). intros q.
      rewrite ->(candidates_count _ _ _ _ _ _ _ q Hc), (pool_size_same _ _ _ _ Hsame).
      change (count_of ∅ q) with 0. change (count_pool (fresh (whole [])) q) with 0. lia.
    + rewrite ->(candidates_workers _ _ _ _ _ _ _ Hc). symmetry. by apply workers_for_same.
  - rewrite ->Erun in *. simpl in *. subst trace.
    exists p. split_and!; [done..|]. intros Hok. split; [by apply P5|]. intros d Hd. apply P6; [done|].
    apply group_ids_spec; [constructor|]. right. by exists d.
Qed.

End Workers.

(** ** Scaling down *)

(** A ready worker of the pool [q] that is not on its way out. *)
Definition serving (cluster : Api.HeterogeneousCluster) (q : string) (p : Pod) : bool :=
  negb (skipped cluster p) && podReady p && (pool_label p =? q)%string.

Definition serving_count (cluster : Api.HeterogeneousCluster) (q : string) (pods : list Pod) : Z :=
  Z.of_nat (length (List.filter (serving cluster q) pods)).

(** Drains of the serving workers of [q]. *)
Definition drains_serving (cluster : Api.HeterogeneousCluster) (q : string) (pods : list Pod) (e : event) : bool :=
  match e with
  | EDrainNode n _ => existsb (fun p => (p_Name p =? n)%string && serving cluster q p) pods
  | _ => false
  end.

Definition drain_count (cluster : Api.HeterogeneousCluster) (q : string) (pods : list Pod) (trace : list event) : Z :=
  Z.of_nat (length (List.filter (drains_serving cluster q pods) trace)).

Lemma drain_count_app cluster q pods t u :
  drain_count cluster q pods (t ++ u) = drain_count cluster q pods t + drain_count cluster q pods u.
Proof. unfold drain_count. rewrite ->List.filter_app, length_app. lia. Qed.

Lemma drain_count_zero cluster q pods t :
  Forall (fun e => drains_serving cluster q pods e = false) t -> drain_count cluster q pods t = 0.
Proof.
  unfold drain_count. induction 1 as [|e t He _ IH]; [done|]. simpl. by rewrite ->He.
Qed.

(** A node is drained for the Pod at hand only. *)
Definition drains_only (names : list string) (e : event) : Prop :=
  match e with EDrainNode n _ => n ∈ names | _ => True end.

Lemma harmless_drains names e : harmless e -> drains_only names e.
Proof. by destruct e. Qed.

Lemma scale_down_pod_drains cluster nodes assigned ready p :
  emits (drains_only [p_Name p]) (scale_down_pod cluster nodes assigned ready p).
Proof.
  unfold scale_down_pod. emits_walk.
  all: try (eapply harmless_or; [apply setWorkerAnnotation_emits|apply harmless_drains]).
  all: apply cleanupWorker_emits; [apply harmless_drains|done|intros; simpl; set_solver|done].
Qed.

Lemma scale_down_drains cluster nodes assigned ready pods :
  emits (drains_only (p_Name <$> pods)) (scale_down cluster nodes assigned ready pods).
Proof.
  revert ready. induction pods as [|p pods IH]; intros ready; simpl; [emits_walk|].
  apply emits_bind; [eapply emits_mono; [apply scale_down_pod_drains|]|].
  - intros []; simpl; set_solver.
  - intros [p' ready']. apply emits_bind; [eapply emits_mono; [apply IH|]|intros; emits_walk].
    intros []; simpl; set_solver.
Qed.

(** One Pod of the loop: what it adds to the ready workers and takes away. *)
Definition pod_step (cluster : Api.HeterogeneousCluster) (q : string) (pool : Api.WorkerPoolSpec)
    (ready : gmap string Z) (p : Pod) (res : result worker_error (Pod * gmap string Z)) (new : list event) : Prop :=
  let d := drain_count cluster q [p] new in
  (forall p' ready', res = Ok (p', ready') -> count_of ready' q <= count_of ready q + serving_count cluster q [p] - d) /\
  (0 < d -> d = 1 /\ serving_count cluster q [p] = 1 /\ Api.MinReady (Api.Scaling pool) <= count_of ready q).

Lemma serving_count_one cluster q p : serving_count cluster q [p] = if serving cluster q p then 1 else 0.
Proof. unfold serving_count. simpl. by destruct (serving cluster q p). Qed.

Lemma drain_count_idle cluster q p t : serving cluster q p = false -> drain_count cluster q [p] t = 0.
Proof.
  intros Hs. apply drain_count_zero, Forall_forall. intros [] _; try done. simpl.
  by rewrite ->Hs, andb_false_r.
Qed.

(** Programs without drains keep the account. *)
Lemma pod_step_quiet {A} cluster q pool ready ready' p (m : W A) (f : A -> Pod) :
  emits harmless m -> count_of ready' q <= count_of ready q + serving_count cluster q [p] ->
  spec (let* x := m in ret (f x, ready')) (pod_step cluster q pool ready p).
Proof.
  intros Hm Hr.
  assert (forall t, Forall harmless t -> drain_count cluster q [p] t = 0) as H0.
  { intros t Ht. apply drain_count_zero. eapply Forall_impl; [exact Ht|]. by intros []. }
  eapply spec_bind; [exact Hm| |].
  - intros a new Hn. apply spec_ret. unfold pod_step. rewrite ->app_nil_r, H0 by done.
    split; [|lia]. intros ? ? [= <- <-]. lia.
  - intros e new Hn. unfold pod_step. rewrite ->H0 by done. split; [done|lia].
Qed.

Lemma pod_step_ret cluster q pool ready ready' p p' :
  count_of ready' q <= count_of ready q + serving_count cluster q [p] ->
  spec (ret (p', ready') : W _) (pod_step cluster q pool ready p).
Proof. intros Hr. apply (pod_step_quiet _ _ _ _ _ _ (ret tt) (fun _ => p')); [apply emits_ret|done]. Qed.

(** A worker is drained at most once. *)
Lemma cleanup_drains_once cluster q p node :
  spec (cleanupWorker p node) (fun _ new => drain_count cluster q [p] new <= 1).
Proof.
  assert (forall m : W Pod, emits (fun e => drains_serving cluster q [p] e = false) m ->
            spec m (fun _ new => drain_count cluster q [p] new <= 1)) as Hq.
  { intros m Hm. eapply spec_mono; [exact Hm|]. intros res new Hn. rewrite ->drain_count_zero by done. lia. }
  unfold cleanupWorker. destruct (_ =? _)%string.
  { by apply Hq, release_pod_emits; [intros []|]. }
  destruct (negb (draining p)).
  - eapply spec_bind with (P := fun _ new => length new = 1%nat).
    + unfold drain_node. eapply spec_bind with (P := fun _ new => length new = 1%nat); [by apply spec_call| |done].
      intros a new Hn. destruct (DrainNode a); [apply spec_ret|apply spec_throw]; by rewrite ->length_app, Hn.
    + intros u new Hn. eapply spec_mono; [apply setWorkerAnnotation_emits|]. intros res new' Hn'.
      rewrite ->drain_count_app, (drain_count_zero _ _ _ new').
      * unfold drain_count. destruct new as [|e [|]]; simplify_eq/=. destruct (drains_serving _ _ _ _); simpl; lia.
      * eapply Forall_impl; [exact Hn'|]. by intros [].
    + intros e new Hn. unfold drain_count. destruct new as [|e' [|]]; simplify_eq/=.
      destruct (drains_serving _ _ _ _); simpl; lia.
  - apply Hq. emits_walk; [by apply delete_node_emits|by apply release_pod_emits; [intros []|]].
Qed.

(** The counter of the loop after visiting [p]. *)
Lemma ready_counted cluster q ready p pool : pool_of (pools cluster) (pool_label p) = Some pool ->
  Deleting p || draining p || recovering p = false ->
  count_of (if podReady p then add_count ready (Api.Name pool) else ready) q =
  count_of ready q + serving_count cluster q [p].
Proof.
  intros Hp Hs. rewrite ->serving_count_one. unfold serving, skipped. rewrite ->Hp. simpl.
  rewrite ->Hs. simpl.
  apply pool_of_name in Hp as [-> _]. destruct (podReady p); simpl; [|lia].
  unfold count_of, add_count. destruct (String.eqb_spec (pool_label p) q) as [->|Hne].
  - by rewrite ->lookup_insert_eq.
  - rewrite ->lookup_insert_ne by done. lia.
Qed.

(** The arithmetic of a scale-down: the counter was above the minimum. *)
Lemma scale_down_account cluster q pool pool' ready ready1 p p' new :
  pool_of (pools cluster) q = Some pool -> pool_of (pools cluster) (pool_label p) = Some pool' ->
  Api.Name pool' = pool_label p ->
  count_of ready1 q = count_of ready q + serving_count cluster q [p] ->
  Api.MinReady (Api.Scaling pool') < count_of ready1 (Api.Name pool') ->
  drain_count cluster q [p] new <= 1 ->
  pod_step cluster q pool ready p
    (Ok (p', <[Api.Name pool' := count_of ready1 (Api.Name pool') - 1]> ready1)) new.
Proof.
  intros Hq Hp Hn Hc Hm Hd. unfold pod_step. rewrite ->Hn in *.
  destruct (serving cluster q p) eqn:Es.
  - pose proof (serving_count_one cluster q p) as Hone. rewrite ->Es in Hone.
    unfold serving in Es. bool_hyps. subst q. rewrite ->Hp in Hq. simplify_eq.
    split; [|lia]. intros ? ? [= <- <-]. unfold count_of at 1. rewrite ->lookup_insert_eq. simpl. lia.
  - rewrite ->(drain_count_idle _ _ _ _ Es). rewrite ->serving_count_one, Es in *. split; [|lia].
    intros ? ? [= <- <-]. unfold count_of at 1. destruct (decide (pool_label p = q)) as [->|Hne].
    + rewrite ->lookup_insert_eq. simpl. lia.
    + rewrite ->lookup_insert_ne by done. fold (count_of ready1 q). lia.
Qed.

Lemma scale_down_pod_step cluster nodes assigned ready p q pool :
  pool_of (pools cluster) q = Some pool ->
  spec (scale_down_pod cluster nodes assigned ready p) (pod_step cluster q pool ready p).
Proof.
  intros Hq. unfold scale_down_pod. destruct (pool_of (pools cluster) (pool_label p)) as [pool'|] eqn:Ep.
  2:{ apply pod_step_ret. unfold serving_count. lia. }
  destruct (Deleting p || draining p || recovering p) eqn:Es.
  { apply pod_step_ret. unfold serving_count. lia. }
  pose proof (ready_counted cluster q ready p pool' Ep Es) as Hc.
  set (ready1 := if podReady p then add_count ready (Api.Name pool') else ready) in *.
  destruct (negb (idle_capacity nodes assigned p)) eqn:Ei.
  { destruct (negb (_ =? _)%string); [apply (pod_step_quiet _ _ _ _ _ _ _ id)|apply pod_step_ret]; [|lia..].
    apply setWorkerAnnotation_emits. }
  destruct (negb (podReady p) || _) eqn:Er.
  { assert (serving cluster q p = false) as Hs.
    { unfold idle_capacity in Ei. unfold serving. destruct (podReady p); [|by rewrite ->andb_false_r].
      simpl in *. by bool_hyps. }
    eapply spec_bind; [apply (cleanup_drains_once cluster q)| |]; intros; [apply spec_ret|];
      unfold pod_step; rewrite ->!drain_count_idle by done; (split; [|lia]); [|done].
    intros ? ? [= <- <-]. lia. }
  destruct (_ <=? _) eqn:Em; [apply pod_step_ret; lia|]. bool_hyps.
  destruct (parse_rfc3339 _) as [since|]; apply spec_ask_bind; intros t.
  2:{ apply (pod_step_quiet _ _ _ _ _ _ _ id); [apply setWorkerAnnotation_emits|lia]. }
  destruct (_ <=? _); [|apply pod_step_ret; lia].
  apply pool_of_name in Ep as Hname. destruct Hname as [Hname _].
  eapply spec_bind; [apply (cleanup_drains_once cluster q)| |].
  - intros p' new Hd. apply spec_ret. rewrite ->app_nil_r. by eapply (scale_down_account cluster q pool pool' ready ready1).
  - intros e new Hd. split; [done|]. exact (proj2 (scale_down_account cluster q pool pool' ready ready1 p p new Hq Ep Hname Hc Em Hd)).
Qed.

(** Drains of other Pods do not count. *)
Lemma drain_count_cons cluster q p pods t u :
  NoDup (p_Name <$> p :: pods) -> Forall (drains_only [p_Name p]) t -> Forall (drains_only (p_Name <$> pods)) u ->
  drain_count cluster q (p :: pods) (t ++ u) = drain_count cluster q [p] t + drain_count cluster q pods u.
Proof.
  rewrite ->fmap_cons, NoDup_cons. intros [Hnin _] Ht Hu. rewrite ->drain_count_app. f_equal; unfold drain_count.
  - f_equal. f_equal. apply List.filter_ext_in. intros e He%list_elem_of_In.
    rewrite ->Forall_forall in Ht. specialize (Ht e He). destruct e as [n ?| | | | | | |]; simpl in *; try done.
    f_equal. apply not_true_iff_false. intros (p' & Hp' & Hn)%existsb_exists. bool_hyps.
    apply Hnin, list_elem_of_fmap. exists p'. split; [set_solver|by apply list_elem_of_In].
  - f_equal. f_equal. apply List.filter_ext_in. intros e He%list_elem_of_In.
    rewrite ->Forall_forall in Hu. specialize (Hu e He). destruct e as [n ?| | | | | | |]; simpl in *; try done.
    destruct (String.eqb_spec (p_Name p) n) as [Heq|]; [by rewrite ->Heq in Hnin|done].
Qed.

Lemma serving_count_cons cluster q p pods :
  serving_count cluster q (p :: pods) = serving_count cluster q [p] + serving_count cluster q pods.
Proof. unfold serving_count. simpl. destruct (serving cluster q p); simpl; lia. Qed.

(** The loop keeps the minimum, from any value of its counters. *)
Lemma scale_down_spec cluster nodes assigned ready pods q pool :
  pool_of (pools cluster) q = Some pool -> NoDup (p_Name <$> pods) ->
  spec (scale_down cluster nodes assigned ready pods) (fun _ new =>
    0 < drain_count cluster q pods new ->
    Api.MinReady (Api.Scaling pool) <=
      count_of ready q + serving_count cluster q pods - drain_count cluster q pods new).
Proof.
  intros Hq. revert ready. induction pods as [|p pods IH]; intros ready Hnd; cbn [scale_down].
  { apply spec_ret. unfold drain_count; simpl; lia. }
  assert (0 <= serving_count cluster q pods) as Hpos by (unfold serving_count; lia).
  pose proof (scale_down_pod_step cluster nodes assigned ready p q pool Hq) as Hstep.
  eapply spec_bind; [exact (spec_and _ _ _ Hstep (scale_down_pod_drains cluster nodes assigned ready p))| |].
  - intros [p' ready'] new [[Hr Hd] Ho]. specialize (Hr _ _ eq_refl).
    assert (NoDup (p_Name <$> pods)) as Hnd' by (by apply NoDup_cons in Hnd as [_ ?]).
    pose proof (spec_and _ _ _ (IH ready' Hnd') (scale_down_drains cluster nodes assigned ready' pods)) as Hrest.
    eapply spec_bind; [exact Hrest| |].
    + intros rest new' [HQ Ho']. apply spec_ret. rewrite ->app_nil_r, drain_count_cons, serving_count_cons by done.
      intros Hp. destruct (decide (0 < drain_count cluster q pods new')); [specialize (HQ l); lia|].
      unfold drain_count in *. lia.
    + intros e new' [HQ Ho']. rewrite ->drain_count_cons, serving_count_cons by done.
      intros Hp. destruct (decide (0 < drain_count cluster q pods new')); [specialize (HQ l); lia|].
      unfold drain_count in *. lia.
  - intros e new [[_ Hd] Ho]. rewrite <-(app_nil_r new), drain_count_cons, serving_count_cons by done.
    change (drain_count cluster q pods []) with 0. rewrite ->Z.add_0_r. intros Hp.
    destruct (Hd Hp) as (H1 & H2 & H3). lia.
Qed.

(** C37: scaling down never takes a pool below its minimum: if the pass drains
    ready workers of the pool [q], the ready workers that remain are at least
    [minReady], whichever calls fail. *)
Theorem scale_down_keeps_minimum cluster nodes assigned pods q pool env :
  pool_of (pools cluster) q = Some pool -> NoDup (p_Name <$> pods) ->
  let trace := snd (scale_down cluster nodes assigned ∅ pods env []) in
  0 < drain_count cluster q pods trace ->
  Api.MinReady (Api.Scaling pool) <= serving_count cluster q pods - drain_count cluster q pods trace.
Proof.
  intros Hq Hnd. simpl. destruct (scale_down_spec cluster nodes assigned ∅ pods q pool Hq Hnd env []) as (new & E & H).
  rewrite ->E. simpl app. intros Hp. specialize (H Hp).
  change (count_of ∅ q) with 0 in H. lia.
Qed.

(** ** Which workers are removed *)

(** Why a pass may remove the worker [n]: no job group was assigned to it, and
    either it is not ready, or its node is registered and idle and it has been
    idle for the pool's timeout. *)
Definition removable (cluster : Api.HeterogeneousCluster) (nodes : list Node) (assigned : gset string)
    (pods : list Pod) (n : string) : Prop :=
  exists p pool, p ∈ pods /\ p_Name p = n /\ n ∉ assigned /\
    pool_of (pools cluster) (pool_label p) = Some pool /\
    Deleting p = false /\ draining p = false /\ recovering p = false /\
    (podReady p = false \/
     exists node since t, node_by_name nodes n = Some node /\ nodeIdle node = true /\
       parse_rfc3339 (annotation p workerIdleAnnotation) = Some since /\
       Api.IdleTimeout (Api.Scaling pool) <= sub_saturated t since).

Definition removes_ok (cluster : Api.HeterogeneousCluster) (nodes : list Node) (assigned : gset string)
    (pods : list Pod) (e : event) : Prop :=
  match e with
  | EDrainNode n _ | EDeletePod n => removable cluster nodes assigned pods n
  | EDeleteNode _ | ECreatePod _ _ => False
  | _ => True
  end.

Lemma scale_down_pod_removes cluster nodes assigned ready p pods :
  p ∈ pods -> emits (removes_ok cluster nodes assigned pods) (scale_down_pod cluster nodes assigned ready p).
Proof.
  intros Hp. unfold scale_down_pod.
  destruct (pool_of (pools cluster) (pool_label p)) as [pool|] eqn:Epool; [|emits_walk].
  destruct (Deleting p || draining p || recovering p) eqn:Es; [emits_walk|]. bool_hyps.
  assert (forall e, harmless e -> removes_ok cluster nodes assigned pods e) as Hh by (by intros []).
  destruct (negb (idle_capacity nodes assigned p)) eqn:Ei.
  { emits_walk. eapply harmless_or; [apply setWorkerAnnotation_emits|done]. }
  unfold idle_capacity in Ei. bool_hyps.
  destruct (negb (podReady p) || negb _) eqn:Er.
  - assert (podReady p = false) as Hready.
    { destruct (podReady p); [|done]. simpl in *. bool_hyps. done. }
    emits_walk. apply cleanupWorker_emits; [done| | |congruence]; intros; exists p, pool; split_and!; try done; by left.
  - apply orb_false_iff in Er as [Er1 Er2]. bool_hyps. destruct (node_by_name nodes (p_Name p)) as [node|] eqn:En.
    2:{ by destruct Er2. }
    rewrite ->Er1 in *. simpl in *. bool_hyps.
    destruct (_ <=? _); [emits_walk|]. destruct (parse_rfc3339 _) as [since|] eqn:Et.
    2:{ emits_walk. eapply harmless_or; [apply setWorkerAnnotation_emits|done]. }
    apply emits_bind; [apply emits_ask|intros t]. destruct (_ <=? _) eqn:El; [|emits_walk]. bool_hyps.
    emits_walk. apply cleanupWorker_emits; [done| | |congruence]; intros; exists p, pool; split_and!; try done;
      right; exists node, since, t; done.
Qed.

Lemma scale_down_removes cluster nodes assigned ready pods all :
  (forall p, p ∈ pods -> p ∈ all) ->
  emits (removes_ok cluster nodes assigned all) (scale_down cluster nodes assigned ready pods).
Proof.
  revert ready. induction pods as [|p pods IH]; intros ready Hall; simpl; [emits_walk|].
  apply emits_bind; [apply scale_down_pod_removes; set_solver|]. intros [p' ready'].
  apply emits_bind; [apply IH; set_solver|intros; emits_walk].
Qed.

(** Scaling down leaves busy and assigned workers alone: every Slurm node
    it drains and every Pod it deletes is [removable], and it deletes no Slurm
    node and creates nothing. *)
Theorem scale_down_spares_assigned cluster nodes assigned pods env e :
  e ∈ snd (scale_down cluster nodes assigned ∅ pods env []) -> removes_ok cluster nodes assigned pods e.
Proof. intros He. eapply emits_elem; [|exact He]. by apply scale_down_removes. Qed.

(** ** Examples *)

Module WorkerSamples.
Import DemandSamples.

Definition shape_text : string := "gpu-worker".
Definition worker_shape : Shape := MkShape 8 (4 * 2 ^ 30) 0 {["gpu:a100" := 3]}.
Definition decode (s : string) : option Shape := if (s =? shape_text)%string then Some worker_shape else None.
Definition encode (_ : Shape) : string := shape_text.

Definition small_pool : Api.WorkerPoolSpec :=
  Api.MkPool "gpu-pool" "gpu" [] "1Gi" (Api.MkScaling 1 8 60000000000) [Api.MkProfile "a" "gpu:a100" "c"].
Definition cluster : Api.HeterogeneousCluster :=
  Api.MkCluster "lab" "default" "uid-1"
    (Api.MkSpec (Api.MkControlPlane (Api.MkControllers "img" "pvc") "db" 1) (Api.MkAuthentication "munge" "jwt")
       None [small_pool]).

Definition worker (name : string) (idle drain : string) : Pod :=
  MkPod name ("pod-" +:+ name) {[workerPoolLabel := "gpu-pool"%string]}
    (<[workerShapeAnnotation := shape_text]> (<[workerClaimAnnotation := name +:+ "-resources"]>
      (<[workerIdleAnnotation := idle]> (<[workerDrainAnnotation := drain]> ∅))))
    [workerFinalizer] (Some "uid-1"%string) false false [("Ready", "True")]%string.
Definition node (name : string) (state : list string) : Node := MkNode name state "" 0 0 "gpu:a100:0(IDX:)".
Definition nodes_answer (nodes : list Node) : option (exchange (list apiError * list Node)) :=
  Some (MkExchange 200 (Some ([], nodes)) 100).

(** Every call succeeds; each worker's claim is allocated to it. *)
Definition calm : env :=
  MkEnv (fun _ _ => Done) (fun _ _ => Some (MkExchange 200 (Some []) 2)) (fun _ _ => Some (MkExchange 200 (Some tt) 2))
    (fun name _ => match cut_suffix "-resources" name with
                   | Some pod => Ok (MkClaim true (Some ("pod-" +:+ pod)))
                   | None => Err NotFound end)
    (fun _ => 4102444800 * second) (fun _ => "ABCDEFGHIJKLM"%string) (fun _ => "pod-lab-gpu-pool-abcdefghij"%string).

Definition reconciler : ClusterReconciler := MkReconciler "worker:1" 0 true.
Definition old : string := "2026-01-01T00:00:00Z".
Definition pods : list Pod :=
  [worker "lab-gpu-pool-a" old ""; worker "lab-gpu-pool-b" old ""; worker "lab-gpu-pool-c" old "true"].
Definition nodes : list Node :=
  [node "lab-gpu-pool-a" ["IDLE"]%string; node "lab-gpu-pool-b" ["IDLE"]%string;
   node "lab-gpu-pool-c" ["IDLE"; "DRAIN"]%string].

(** A pass without demand deletes the drained node and scales down one worker. *)
Definition pass (jobs : list PendingJob) : result worker_error workerResult * list event :=
  reconcileWorkers parse_quantity 32 map_to_list decode encode reconciler id cluster jobs (Some pods)
    (nodes_answer nodes) (Some []) calm [].

Definition event_name (e : event) : string :=
  match e with
  | EDrainNode n _ => "drain " +:+ n | EDeleteNode n => "delete-node " +:+ n
  | EDeletePod n => "delete-pod " +:+ n | ECreatePod p _ => "create-pod " +:+ p_Name p
  | ECreateClaim n _ _ => "create-claim " +:+ n | ERecord s => s | _ => ""%string
  end.

Definition visible (t : list event) : list string :=
  List.filter (fun s => negb (s =? "")%string) (map event_name t).

Definition busy_trace : list event := snd (pass jobs).

End WorkerSamples.

(** A pass without pending jobs. *)
Example idle_pass :
  WorkerSamples.visible (snd (WorkerSamples.pass [])) =
  ["delete-node lab-gpu-pool-c"; "delete-pod lab-gpu-pool-c"; "drain lab-gpu-pool-b"]%string.
Proof. vm_compute. reflexivity. Qed.

Lemma node_deletion_safe_witness :
  deletable WorkerSamples.cluster WorkerSamples.pods WorkerSamples.nodes "lab-gpu-pool-c".
Proof.
  apply (node_deletion_safe DemandSamples.parse_quantity 32 map_to_list WorkerSamples.decode WorkerSamples.encode
    WorkerSamples.reconciler id WorkerSamples.cluster [] WorkerSamples.pods
    (WorkerSamples.nodes_answer WorkerSamples.nodes) WorkerSamples.nodes (Some []) WorkerSamples.calm).
  - vm_compute. reflexivity.
  - apply (list_elem_of_lookup_2 _ 4). vm_compute. reflexivity.
Defined.

Lemma workers_within_limits_witness :
  exists pool, pool ∈ pools WorkerSamples.cluster /\ Api.Name pool = "gpu-pool"%string /\
    pool_size WorkerSamples.cluster "gpu-pool" WorkerSamples.pods
    + in_pool "gpu-pool" (created WorkerSamples.busy_trace) <= Api.MaxWorkers (Api.Scaling pool).
Proof.
  apply (workers_within_limits DemandSamples.parse_quantity 32 map_to_list WorkerSamples.decode WorkerSamples.encode
    WorkerSamples.reconciler id WorkerSamples.cluster DemandSamples.jobs WorkerSamples.pods
    (WorkerSamples.nodes_answer WorkerSamples.nodes) (Some []) WorkerSamples.calm).
  vm_compute. reflexivity.
Defined.

(** Two groups of two workers each that no existing worker fits. *)
Lemma groups_served_whole_witness :
  exists p : list (Z * assignment),
    serves (workers_for WorkerSamples.decode WorkerSamples.cluster WorkerSamples.nodes WorkerSamples.pods) ∅ (whole p) /\
    created_pods WorkerSamples.busy_trace = order_of WorkerSamples.encode <$> fresh (whole p) /\
    length (fresh (whole p)) = 4%nat.
Proof.
  destruct (groups_served_whole DemandSamples.parse_quantity 32 map_to_list WorkerSamples.decode WorkerSamples.encode
    WorkerSamples.reconciler id WorkerSamples.cluster DemandSamples.jobs WorkerSamples.pods
    (WorkerSamples.nodes_answer WorkerSamples.nodes) WorkerSamples.nodes (Some []) ∅ WorkerSamples.calm
    (fst (WorkerSamples.pass DemandSamples.jobs)) WorkerSamples.busy_trace)
    as (p & _ & _ & Hs & _ & Hok).
  - vm_compute. reflexivity.
  - vm_compute. reflexivity.
  - exact (surjective_pairing (WorkerSamples.pass DemandSamples.jobs)).
  - exists p. destruct Hok as [Hc _]; [vm_compute; reflexivity|]. split; [exact Hs|]. split; [exact Hc|].
    rewrite <-(length_fmap (order_of WorkerSamples.encode)), <-Hc. vm_compute. reflexivity.
Defined.

Lemma scale_down_keeps_minimum_witness :
  Api.MinReady (Api.Scaling WorkerSamples.small_pool) <=
    serving_count WorkerSamples.cluster "gpu-pool" WorkerSamples.pods
    - drain_count WorkerSamples.cluster "gpu-pool" WorkerSamples.pods
        (snd (scale_down WorkerSamples.cluster WorkerSamples.nodes ∅ ∅ WorkerSamples.pods WorkerSamples.calm [])).
Proof.
  apply (scale_down_keeps_minimum WorkerSamples.cluster WorkerSamples.nodes ∅ WorkerSamples.pods "gpu-pool"
    WorkerSamples.small_pool WorkerSamples.calm).
  - reflexivity.
  - apply (bool_decide_unpack _). vm_compute. reflexivity.
  - vm_compute. reflexivity.
Defined.

Lemma scale_down_spares_assigned_witness :
  removable WorkerSamples.cluster WorkerSamples.nodes {["lab-gpu-pool-a"%string]} WorkerSamples.pods "lab-gpu-pool-b".
Proof.
  apply (scale_down_spares_assigned WorkerSamples.cluster WorkerSamples.nodes {["lab-gpu-pool-a"%string]}
    WorkerSamples.pods WorkerSamples.calm (EDrainNode "lab-gpu-pool-b" "elastic worker removal")).
  apply (list_elem_of_lookup_2 _ 1). vm_compute. reflexivity.
Defined.

End Workers.
