(* ===== verification/Recovery.v ===== *)
(** * Recovery: the hardware recovery controller
    ([src/slurm-operator/controllers/recovery.go], [recovery_evacuation.go],
    [recovery_verifier.go], [recovery_checkpoint.go])

    [Reconcile] with everything it calls.  A call to the API server, to Slurm
    or to the object store is recorded with its answer ([event]); the durable
    state is what [saveState] writes and [loadState] reads.  [history] are the
    traces of all sequences of passes, cut short anywhere. *)

From S2P Require Import Prelude GoStrings GoTime Manifest Store SlurmClient Api WorkerPlan Effects Hardware Workers.

Module Recovery.
Import GoTime SlurmClient WorkerPlan Hardware.

Definition hardwareFaultCondition : string := "HardwareFaultDetected".
Definition hardwareDegradedCondition : string := "HardwareDegraded".
Definition hardwareDegradedTaint : string := "orchestration.gputpu.io/hardware-degraded".
Definition recoveryIncidentKey : string := "orchestration.gputpu.io/recovery-incident".
Definition recoveryPhaseKey : string := "orchestration.gputpu.io/recovery-phase".
Definition recoveryRequestKey : string := "orchestration.gputpu.io/recovery-request".
Definition rebootRequestKey : string := "orchestration.gputpu.io/reboot-request".
Definition rebootAckKey : string := "orchestration.gputpu.io/reboot-ack".
Definition inventoryKey : string := "orchestration.gputpu.io/inventory-v1".
Definition inventoryHashKey : string := "orchestration.gputpu.io/inventory-hash".
Definition inventoryBootIDKey : string := "orchestration.gputpu.io/inventory-boot-id".
Definition recoveryStateVersion : Z := 1.
Definition checkpointGrace : Z := 120 * second.
Definition readyStabilization : Z := 30 * second.
Definition verifierTimeout : Z := 120 * second.

(** ** State *)

Inductive recoveryPhase :=
| Isolated | Draining | Checkpointing | Requeued | RebootRequested | Rebooting | Verifying | ManualRepair
| OtherPhase (s : string).

#[global] Instance recoveryPhase_eq_dec : EqDecision recoveryPhase.
Proof. solve_decision. Defined.

Definition phase_name (p : recoveryPhase) : string :=
  match p with
  | Isolated => "Isolated" | Draining => "Draining" | Checkpointing => "Checkpointing"
  | Requeued => "Requeued" | RebootRequested => "RebootRequested" | Rebooting => "Rebooting"
  | Verifying => "Verifying" | ManualRepair => "ManualRepair" | OtherPhase s => s
  end%string.

Record recoveryCluster := MkRecoveryCluster { rc_Namespace : string; rc_Name : string; rc_UID : string }.
Record recoveryWorker := MkRecoveryWorker {
  ClusterNamespace : string; ClusterName : string; rw_Namespace : string; rw_Name : string; rw_Claim : string }.
Record recoveryJob := MkRecoveryJob {
  rj_ClusterNamespace : string; rj_ClusterName : string; rj_ID : Z; SignalRequestedAt : option Z;
  SignalSent : bool; CheckpointSeen : bool; RequeueRequestedAt : option Z; RequeueSent : bool; Evacuated : bool }.

Record recoveryState := MkState {
  s_Version : Z; Incident : string; NodeName : string; NodeUID : string; Phase : recoveryPhase;
  StartedAt : Z; PhaseStartedAt : Z; PreBootID : string; PreInventory : string; PreInventoryHash : string;
  Clusters : list recoveryCluster; s_Workers : list recoveryWorker; s_Jobs : list recoveryJob;
  RebootRequestedAt : option Z; NewBootID : string; ReadySince : option Z; VerificationStarted : option Z;
  VerificationPassed : bool; TerminalReason : string; ManualRequest : string }.

(** The assignments of the code, one field each. *)
Definition set_phase (p : recoveryPhase) (t : Z) (s : recoveryState) : recoveryState :=
  MkState (s_Version s) (Incident s) (NodeName s) (NodeUID s) p (StartedAt s) t (PreBootID s) (PreInventory s)
    (PreInventoryHash s) (Clusters s) (s_Workers s) (s_Jobs s) (RebootRequestedAt s) (NewBootID s) (ReadySince s)
    (VerificationStarted s) (VerificationPassed s) (TerminalReason s) (ManualRequest s).
Definition set_fleet (cs : list recoveryCluster) (ws : list recoveryWorker) (s : recoveryState) : recoveryState :=
  MkState (s_Version s) (Incident s) (NodeName s) (NodeUID s) (Phase s) (StartedAt s) (PhaseStartedAt s)
    (PreBootID s) (PreInventory s) (PreInventoryHash s) cs ws (s_Jobs s) (RebootRequestedAt s) (NewBootID s)
    (ReadySince s) (VerificationStarted s) (VerificationPassed s) (TerminalReason s) (ManualRequest s).
Definition set_jobs (js : list recoveryJob) (s : recoveryState) : recoveryState :=
  MkState (s_Version s) (Incident s) (NodeName s) (NodeUID s) (Phase s) (StartedAt s) (PhaseStartedAt s)
    (PreBootID s) (PreInventory s) (PreInventoryHash s) (Clusters s) (s_Workers s) js (RebootRequestedAt s)
    (NewBootID s) (ReadySince s) (VerificationStarted s) (VerificationPassed s) (TerminalReason s) (ManualRequest s).
Definition set_reboot_requested (t : Z) (s : recoveryState) : recoveryState :=
  MkState (s_Version s) (Incident s) (NodeName s) (NodeUID s) (Phase s) (StartedAt s) (PhaseStartedAt s)
    (PreBootID s) (PreInventory s) (PreInventoryHash s) (Clusters s) (s_Workers s) (s_Jobs s) (Some t)
    (NewBootID s) (ReadySince s) (VerificationStarted s) (VerificationPassed s) (TerminalReason s) (ManualRequest s).
Definition set_boot (new : string) (ready : option Z) (s : recoveryState) : recoveryState :=
  MkState (s_Version s) (Incident s) (NodeName s) (NodeUID s) (Phase s) (StartedAt s) (PhaseStartedAt s)
    (PreBootID s) (PreInventory s) (PreInventoryHash s) (Clusters s) (s_Workers s) (s_Jobs s)
    (RebootRequestedAt s) new ready (VerificationStarted s) (VerificationPassed s) (TerminalReason s)
    (ManualRequest s).
Definition set_verification (started : option Z) (passed : bool) (s : recoveryState) : recoveryState :=
  MkState (s_Version s) (Incident s) (NodeName s) (NodeUID s) (Phase s) (StartedAt s) (PhaseStartedAt s)
    (PreBootID s) (PreInventory s) (PreInventoryHash s) (Clusters s) (s_Workers s) (s_Jobs s)
    (RebootRequestedAt s) (NewBootID s) (ReadySince s) started passed (TerminalReason s) (ManualRequest s).
Definition set_terminal (reason request : string) (s : recoveryState) : recoveryState :=
  MkState (s_Version s) (Incident s) (NodeName s) (NodeUID s) (Phase s) (StartedAt s) (PhaseStartedAt s)
    (PreBootID s) (PreInventory s) (PreInventoryHash s) (Clusters s) (s_Workers s) (s_Jobs s)
    (RebootRequestedAt s) (NewBootID s) (ReadySince s) (VerificationStarted s) (VerificationPassed s) reason request.
Definition set_incident (incident request : string) (s : recoveryState) : recoveryState :=
  MkState (s_Version s) incident (NodeName s) (NodeUID s) (Phase s) (StartedAt s) (PhaseStartedAt s)
    (PreBootID s) (PreInventory s) (PreInventoryHash s) (Clusters s) (s_Workers s) (s_Jobs s)
    (RebootRequestedAt s) (NewBootID s) (ReadySince s) (VerificationStarted s) (VerificationPassed s)
    (TerminalReason s) request.

(** [metav1.Time] is stored with a resolution of one second. *)
Definition stored_time (t : Z) : Z := t / second * second.
Definition stored_job (j : recoveryJob) : recoveryJob :=
  MkRecoveryJob (rj_ClusterNamespace j) (rj_ClusterName j) (rj_ID j) (stored_time <$> SignalRequestedAt j)
    (SignalSent j) (CheckpointSeen j) (stored_time <$> RequeueRequestedAt j) (RequeueSent j) (Evacuated j).
Definition stored (s : recoveryState) : recoveryState :=
  MkState (s_Version s) (Incident s) (NodeName s) (NodeUID s) (Phase s) (stored_time (StartedAt s))
    (stored_time (PhaseStartedAt s)) (PreBootID s) (PreInventory s) (PreInventoryHash s) (Clusters s) (s_Workers s)
    (stored_job <$> s_Jobs s) (stored_time <$> RebootRequestedAt s) (NewBootID s) (stored_time <$> ReadySince s)
    (stored_time <$> VerificationStarted s) (VerificationPassed s) (TerminalReason s) (ManualRequest s).

(** ** API objects *)

Record Taint := MkTaint { tn_Key : string; tn_Value : string; Effect : string }.
#[global] Instance Taint_eq_dec : EqDecision Taint.
Proof. solve_decision. Defined.

(** [Conditions]: type, status, reason and message. *)
Record KNode := MkKNode {
  kn_Name : string; kn_UID : string; kn_Labels : gmap string string; kn_Annotations : gmap string string;
  Taints : list Taint; kn_Conditions : list (string * (string * string * string)); kn_BootID : string }.

Definition note (n : KNode) (key : string) : string := default ""%string (kn_Annotations n !! key).

Record OwnerRef := MkOwner { ow_Kind : string; APIVersion : string; ow_Name : string; ow_UID : string }.
Record KPod := MkKPod {
  kp_Namespace : string; kp_Name : string; kp_Labels : gmap string string; kp_Annotations : gmap string string;
  kp_Finalizers : list string; kp_Deleting : bool; kp_Controller : option OwnerRef }.

(** An existing verifier object: the incident label, whether it has the state
    object as controller, and the counters of a Job. *)
Record Verifier := MkVerifier { v_Incident : string; v_Controlled : bool; Succeeded : Z; JobFailed : Z }.

Record VerifierPod := MkVerifierPod {
  v_Requests : list DeviceRequest; v_MilliCPU : Z; v_Memory : Z; v_SharedMemory : Z;
  v_Env : list (string * string); v_NodeSelector : list (string * string); v_DeadlineSeconds : Z }.

(** A listed object with the contents a later read gives ([None]: the read
    fails or is too long). *)
Record MarkerObject := MkMarkerObject {
  mo_Key : string; LastModified : option Z; Contents : result unit (option (list Z)) }.

Inductive outcome := Done | NotFound | AlreadyExists | Failed.

Inductive load_answer := LMissing | LFailed | LCorrupt | LState (s : recoveryState).

Inductive event :=
| ENow (t : Z)
| EGetNode (name : string) (a : result outcome KNode)
| ELoad (name : string) (a : load_answer)
| ESave (s : recoveryState) (o : outcome)
| EDeleteState (uid : string) (o : outcome)
| EPatchNode (node : KNode) (a : result outcome KNode)
| EPatchCondition (node status reason message : string) (o : outcome)
| EListPods (node : string) (a : option (list KPod))
| EPatchPod (ns name incident : string) (o : outcome)
| EGetCluster (ns name : string) (a : result outcome Api.HeterogeneousCluster)
| EJwtKey (key : string) (ok : bool)
| ERestNodes (key : string) (a : result client_error (list Node))
| ERestJobs (key : string) (a : result client_error (list Job))
| EDrainNode (key name reason : string) (a : result client_error unit)
| ESignalJob (key : string) (id : Z) (a : result client_error unit)
| ERequeueJob (key : string) (id : Z) (a : result client_error unit)
| EDeleteNode (key name : string) (a : result client_error unit)
| EListMarkers (key : string) (a : option (list (result unit MarkerObject)))
| EGetPod (ns name : string) (a : result outcome KPod)
| EUpdatePod (ns name : string) (o : outcome)
| EDeletePod (ns name : string) (o : outcome)
| EDeleteClaim (ns name : string) (o : outcome)
| EGetVerifierClaim (name : string) (a : result outcome Verifier)
| ECreateVerifierClaim (name : string) (requests : list DeviceRequest) (o : outcome)
| EGetVerifierJob (name : string) (a : result outcome Verifier)
| ECreateVerifierJob (name : string) (pod : VerifierPod) (o : outcome)
| EDeleteVerifierJob (name : string) (o : outcome)
| EDeleteVerifierClaim (name : string) (o : outcome)
| ERecord (reason : string).

(** The answers; each may depend on everything that happened before. *)
Record env := MkEnv {
  now_ : list event -> Z;
  new_incident : list event -> option string;
  node_ : string -> list event -> result outcome KNode;
  (** the Node the API server answers to a patch towards the given one *)
  patch_ : KNode -> list event -> result outcome KNode;
  load_ : string -> list event -> load_answer;
  (** the outcome of a write, given the call as an event with outcome [Done] *)
  outcome_ : event -> list event -> outcome;
  pods_ : string -> list event -> option (list KPod);
  cluster_ : string -> string -> list event -> result outcome Api.HeterogeneousCluster;
  jwt_ : string -> list event -> bool;
  rest_nodes_ : string -> list event -> option (exchange (list apiError * list Node));
  rest_jobs_ : string -> list event -> option (exchange (list apiError * list job));
  ack_ : list event -> option (exchange (list apiError));
  delete_node_ : list event -> option (exchange unit);
  markers_ : string -> list event -> option (list (result unit MarkerObject));
  pod_ : string -> string -> list event -> result outcome KPod;
  verifier_ : string -> list event -> result outcome Verifier }.

Inductive recovery_error :=
| Kube (o : outcome) | Rest (e : client_error) | ListFailed | StateUnreadable | StateInvalid | StateTooLarge
| NoIncident | NoController (pod : string) | ReplacedCluster (name : string) | UnsupportedPhase (s : string)
| NoJwtKey | InventoryInvalid | BadCell (numa : Z) | BadProfile (profile : string) | TooFewCPUs (numa : Z)
| TooLittleMemory (numa : Z) | OtherIncident (name : string).

Abbreviation R := (eff env event recovery_error).

Definition now : R Z := observe now_ ENow.
Definition get_node (name : string) : R (result outcome KNode) := observe (fun e => node_ e name) (EGetNode name).
Definition do (mk : outcome -> event) : R outcome := observe (fun e => outcome_ e (mk Done)) mk.
(** Errors other than those in [ignored] are returned. *)
Definition must (ignored : list outcome) (mk : outcome -> event) : R unit :=
  let* o := do mk in
  match o with
  | Done => ret tt
  | NotFound => if existsb (fun i => match i with NotFound => true | _ => false end) ignored then ret tt else throw (Kube o)
  | AlreadyExists =>
      if existsb (fun i => match i with AlreadyExists => true | _ => false end) ignored then ret tt else throw (Kube o)
  | Failed => throw (Kube o)
  end.
Definition rest (answer : env -> list event -> result client_error unit) (mk : result client_error unit -> event) : R unit :=
  let* a := observe answer mk in
  match a with Ok _ => ret tt | Err e => throw (Rest e) end.

Record RecoveryReconciler := MkReconciler {
  Namespace : string; WorkerImage : string; RebootTimeout : Z; BootIDAnnotation : string; Recorder : bool }.

Section Recovery.
Variable r : RecoveryReconciler.
(** [uuid.Parse(value)] succeeds and prints as [value]. *)
Variable valid_incident : string -> bool.
(** The encoded state is longer than [maxRecoveryStateBytes]. *)
Variable oversized : recoveryState -> bool.
(** [json.Unmarshal] of an inventory and of a commit marker, [json.Marshal] of profiles. *)
Variable decode_inventory : string -> option Inventory.
Variable decode_marker : list Z -> option Store.CommitMarker.
Variable encode_profiles : list OpenTPU -> string.

Definition record_event (reason : string) : R unit :=
  if Recorder r then observe (fun _ _ => tt) (fun _ => ERecord reason) else ret tt.

(** ** Durable state *)

Definition bootID (n : KNode) : string :=
  if negb (BootIDAnnotation r =? "")%string && negb (note n (BootIDAnnotation r) =? "")%string
  then note n (BootIDAnnotation r) else kn_BootID n.

Definition newRecoveryState (n : KNode) : R recoveryState :=
  let* t := now in
  let* id := ask new_incident in
  match id with
  | None => throw NoIncident
  | Some incident =>
      ret (MkState recoveryStateVersion incident (kn_Name n) (kn_UID n) Isolated t t (kn_BootID n)
             (note n inventoryKey) (note n inventoryHashKey) [] [] [] None "" None None false "" "")
  end.

Definition recoveryStateName (n : KNode) : string := "hardware-recovery-" +:+ to_lower (kn_UID n).

Definition loadState (n : KNode) : R (option recoveryState) :=
  let* a := observe (fun e => load_ e (recoveryStateName n)) (ELoad (recoveryStateName n)) in
  match a with
  | LMissing => ret None
  | LFailed => throw (Kube Failed)
  | LCorrupt => throw StateUnreadable
  | LState s =>
      if negb (s_Version s =? recoveryStateVersion) || negb (NodeName s =? kn_Name n)%string
         || negb (NodeUID s =? kn_UID n)%string || negb (valid_incident (Incident s))
      then throw StateInvalid else ret (Some s)
  end.

Definition saveState (s : recoveryState) : R unit :=
  if oversized s then throw StateTooLarge else must [] (ESave s).

(** ** The node *)

Definition nodeConditionStatus (n : KNode) (type_ : string) : string :=
  match List.find (fun c => (fst c =? type_)%string) (kn_Conditions n) with
  | Some (_, (status, _, _)) => status
  | None => "Unknown"
  end.

Definition with_notes (n : KNode) (a : gmap string string) (t : list Taint) : KNode :=
  MkKNode (kn_Name n) (kn_UID n) (kn_Labels n) a t (kn_Conditions n) (kn_BootID n).

(** The node is patched only when the annotations or the taints change; a
    successful patch leaves the server's answer in [copy]. *)
Definition patch_node (n copy : KNode) : R KNode :=
  if negb (bool_decide (kn_Annotations copy = kn_Annotations n)) || negb (bool_decide (Taints copy = Taints n)) then
    let* a := observe (fun e => patch_ e copy) (EPatchNode copy) in
    match a with Ok n' => ret n' | Err o => throw (Kube o) end
  else ret n.

(** Whether the condition already reads so; [Some] of the new list otherwise. *)
Definition update_conditions (conditions : list (string * (string * string * string))) (v : string * string * string)
    : option (list (string * (string * string * string))) :=
  match List.find (fun c => (fst c =? hardwareDegradedCondition)%string) conditions with
  | None => Some (conditions ++ [(hardwareDegradedCondition, v)])
  | Some (_, old) =>
      if bool_decide (old = v) then None
      else Some (map (fun c => if (fst c =? hardwareDegradedCondition)%string then (fst c, v) else c) conditions)
  end.

Definition setNodeCondition (name status reason message : string) : R unit :=
  let* a := get_node name in
  match a with
  | Err o => throw (Kube o)
  | Ok n =>
      let* _ := now in
      match update_conditions (kn_Conditions n) (status, reason, message) with
      | None => ret tt
      | Some _ => must [] (EPatchCondition name status reason message)
      end
  end.

Definition degraded : Taint := MkTaint hardwareDegradedTaint "true" "NoSchedule".

Definition isolated_node (n : KNode) (s : recoveryState) : KNode :=
  let a := <[recoveryPhaseKey := phase_name (Phase s)]> (<[recoveryIncidentKey := Incident s]> (kn_Annotations n)) in
  let a := match Phase s with RebootRequested | Rebooting => <[rebootRequestKey := Incident s]> a | _ => a end in
  with_notes n a (if bool_decide (degraded ∈ Taints n) then Taints n else Taints n ++ [degraded]).

(** Returns the node as the caller's variable is left. *)
Definition ensureIsolation (n : KNode) (s : recoveryState) : R KNode :=
  let* n' := patch_node n (isolated_node n s) in
  let '(reason, message) :=
    match Phase s with
    | ManualRepair => ("ManualRepair"%string, TerminalReason s)
    | _ => ("RecoveryInProgress"%string,
            "hardware recovery incident " +:+ Incident s +:+ " is " +:+ phase_name (Phase s))
    end in
  let* _ := setNodeCondition (kn_Name n') "True" reason message in
  ret n'.

Definition healthy_node (n : KNode) : KNode :=
  with_notes n
    (foldr delete (kn_Annotations n)
       [recoveryIncidentKey; recoveryPhaseKey; recoveryRequestKey; rebootRequestKey; rebootAckKey])
    (List.filter (fun t => negb (tn_Key t =? hardwareDegradedTaint)%string) (Taints n)).

Definition setHealthy (n : KNode) : R unit :=
  let* _ := patch_node n (healthy_node n) in
  setNodeCondition (kn_Name n) "False" "HardwareHealthy" "hardware recovery is not active".

Definition setPhase (n : KNode) (s : recoveryState) (p : recoveryPhase) : R recoveryState :=
  let* t := now in
  let s := set_phase p t s in
  let* _ := saveState s in
  let* _ := ensureIsolation n s in
  ret s.

(** The handlers return whether to run again after five seconds. *)
Definition enterManualRepair (n : KNode) (s : recoveryState) (reason : string) : R bool :=
  let* _ := setPhase n (set_terminal reason (note n recoveryRequestKey) s) ManualRepair in
  let* _ := record_event "HardwareRecoveryStopped" in
  ret false.

(** ** Evacuation *)

Definition clusterKey (namespace name : string) : string := namespace +:+ "/" +:+ name.

Definition worker_key (w : recoveryWorker) : string := clusterKey (ClusterNamespace w) (ClusterName w).
Definition job_key (j : recoveryJob) : string := clusterKey (rj_ClusterNamespace j) (rj_ClusterName j).

Definition workerNames (s : recoveryState) (cluster : string) : gset string :=
  list_to_set (map rw_Name (List.filter (fun w => (worker_key w =? cluster)%string) (s_Workers s))).

Definition GroupVersion : string := "orchestration.gputpu.io/v1alpha1".

Definition managed_worker (p : KPod) : bool :=
  (default "" (kp_Labels p !! "app.kubernetes.io/component") =? Workers.workerComponent)%string
  && (default "" (kp_Labels p !! "app.kubernetes.io/managed-by") =? "slurm-operator")%string.

Definition pod_note (p : KPod) (key : string) : string := default ""%string (kp_Annotations p !! key).

Definition add_cluster (c : Api.HeterogeneousCluster) (l : list recoveryCluster) : list recoveryCluster :=
  if existsb (fun i => (rc_Namespace i =? Api.Namespace c)%string && (rc_Name i =? Api.cl_Name c)%string) l then l
  else l ++ [MkRecoveryCluster (Api.Namespace c) (Api.cl_Name c) (Api.UID c)].

Definition add_worker (c : Api.HeterogeneousCluster) (p : KPod) (l : list recoveryWorker) : list recoveryWorker :=
  if existsb (fun i => (rw_Namespace i =? kp_Namespace p)%string && (rw_Name i =? kp_Name p)%string) l then l
  else l ++ [MkRecoveryWorker (Api.Namespace c) (Api.cl_Name c) (kp_Namespace p) (kp_Name p)
               (pod_note p Workers.workerClaimAnnotation)].

(** One Pod of [discoverWorkers]; the third component is [changed]. *)
Definition discover_pod (incident : string) (st : list recoveryCluster * list recoveryWorker * bool) (p : KPod)
    : R (list recoveryCluster * list recoveryWorker * bool) :=
  let '(cs, ws, changed) := st in
  if negb (managed_worker p) then ret (cs, ws, changed)
  else
    match kp_Controller p with
    | None => throw (NoController (kp_Name p))
    | Some owner =>
        if negb (ow_Kind owner =? "HeterogeneousCluster")%string || negb (APIVersion owner =? GroupVersion)%string
        then throw (NoController (kp_Name p))
        else
          let* a := observe (fun e => cluster_ e (kp_Namespace p) (ow_Name owner))
                            (EGetCluster (kp_Namespace p) (ow_Name owner)) in
          match a with
          | Err o => throw (Kube o)
          | Ok c =>
              if negb (Api.UID c =? ow_UID owner)%string then throw (ReplacedCluster (kp_Name p))
              else
                let cs' := add_cluster c cs in
                let ws' := add_worker c p ws in
                let* _ :=
                  if (pod_note p Workers.workerRecoveryAnnotation =? incident)%string then ret tt
                  else must [NotFound] (EPatchPod (kp_Namespace p) (kp_Name p) incident) in
                ret (cs', ws', changed || negb (length cs' =? length cs)%nat || negb (length ws' =? length ws)%nat)
          end
    end.

Definition cluster_le (a b : recoveryCluster) : Prop :=
  String.le (clusterKey (rc_Namespace a) (rc_Name a)) (clusterKey (rc_Namespace b) (rc_Name b)).
#[local] Instance cluster_le_dec a b : Decision (cluster_le a b) := decide (String.le _ _).
Definition worker_le (a b : recoveryWorker) : Prop :=
  String.le (clusterKey (rw_Namespace a) (rw_Name a)) (clusterKey (rw_Namespace b) (rw_Name b)).
#[local] Instance worker_le_dec a b : Decision (worker_le a b) := decide (String.le _ _).

Definition discoverWorkers (n : KNode) (s : recoveryState) : R (recoveryState * bool) :=
  let* pods := observe (fun e => pods_ e (kn_Name n)) (EListPods (kn_Name n)) in
  match pods with
  | None => throw ListFailed
  | Some pods =>
      let* (cs, ws, changed) := foldM_eff (discover_pod (Incident s)) (Clusters s, s_Workers s, false) pods in
      ret (set_fleet (merge_sort cluster_le cs) (merge_sort worker_le ws) s, changed)
  end.

Record clusterSnapshot := MkSnapshot {
  sn_cluster : Api.HeterogeneousCluster; sn_nodes : list Node; sn_jobs : list Job }.

(** The map of snapshots, keyed by cluster. *)
Fixpoint slurmSnapshots (cs : list recoveryCluster) (acc : gmap string clusterSnapshot)
    : R (gmap string clusterSnapshot) :=
  match cs with
  | [] => ret acc
  | ref :: cs' =>
      let key := clusterKey (rc_Namespace ref) (rc_Name ref) in
      let* a := observe (fun e => cluster_ e (rc_Namespace ref) (rc_Name ref))
                        (EGetCluster (rc_Namespace ref) (rc_Name ref)) in
      match a with
      | Err o => throw (Kube o)
      | Ok c =>
          if negb (Api.UID c =? rc_UID ref)%string then throw (ReplacedCluster (rc_Name ref))
          else
            let* jwt := observe (fun e => jwt_ e key) (EJwtKey key) in
            if negb jwt then throw NoJwtKey
            else
              let* nodes := observe (fun e tr => Nodes (rest_nodes_ e key tr)) (ERestNodes key) in
              match nodes with
              | Err e => throw (Rest e)
              | Ok nodes =>
                  let* jobs := observe (fun e tr => Jobs (rest_jobs_ e key tr)) (ERestJobs key) in
                  match jobs with
                  | Err e => throw (Rest e)
                  | Ok jobs => slurmSnapshots cs' (<[key := MkSnapshot c nodes jobs]> acc)
                  end
              end
      end
  end.

Definition snapshot_jobs (snapshots : gmap string clusterSnapshot) (key : string) : list Job :=
  match snapshots !! key with Some sn => sn_jobs sn | None => [] end.
Definition snapshot_node (snapshots : gmap string clusterSnapshot) (key name : string) : option Node :=
  match snapshots !! key with Some sn => Workers.node_by_name (sn_nodes sn) name | None => None end.

Definition new_job (key : string) (root : Z) : recoveryJob :=
  let '(namespace, name) := default (key, ""%string) (cut_on "/" key) in
  MkRecoveryJob namespace name root None false false None false false.

(** The jobs of one snapshot. *)
Definition add_job (s : recoveryState) (key : string) (st : list recoveryJob * bool) (j : Job)
    : list recoveryJob * bool :=
  let '(jobs, changed) := st in
  if Terminal j || negb (UsesAnyNode j (workerNames s key)) then (jobs, changed)
  else if existsb (fun i => (job_key i =? key)%string && (rj_ID i =? RootID j)) jobs then (jobs, changed)
  else (jobs ++ [new_job key (RootID j)], true).

Definition job_le (a b : recoveryJob) : Prop :=
  if (job_key a =? job_key b)%string then rj_ID a <= rj_ID b else String.le (job_key a) (job_key b).
#[local] Instance job_le_dec a b : Decision (job_le a b).
Proof. unfold job_le. case_match; apply _. Defined.

(** Go visits the snapshots in any order; the jobs are sorted afterwards. *)
Definition addAffectedJobs (s : recoveryState) (snapshots : gmap string clusterSnapshot) : recoveryState * bool :=
  let '(jobs, changed) :=
    foldl (fun st e => foldl (add_job s (fst e)) st (sn_jobs (snd e))) (s_Jobs s, false) (map_to_list snapshots) in
  (set_jobs (merge_sort job_le jobs) s, changed).

Fixpoint drainRecoveryWorkers (incident : string) (ws : list recoveryWorker)
    (snapshots : gmap string clusterSnapshot) : R unit :=
  match ws with
  | [] => ret tt
  | w :: ws' =>
      let* _ :=
        match snapshot_node snapshots (worker_key w) (rw_Name w) with
        | None => ret tt
        | Some node =>
            if Workers.drained node then ret tt
            else rest (fun e tr => DrainNode (ack_ e tr))
                      (EDrainNode (worker_key w) (rw_Name w) ("hardware incident " +:+ incident))
        end in
      drainRecoveryWorkers incident ws' snapshots
  end.

(** [for ... { if Pending || Terminal continue; active = true; if uses return
    false }; return RequeueSent || !active] *)
Definition jobEvacuated (j : recoveryJob) (s : recoveryState) (jobs : list Job) : bool :=
  let wanted := workerNames s (job_key j) in
  let active := List.filter (fun c => (RootID c =? rj_ID j) && negb (Pending c || Terminal c)) jobs in
  if existsb (fun c => UsesAnyNode c wanted) active then false
  else RequeueSent j || bool_decide (active = []).

Definition mark_evacuated (j : recoveryJob) : recoveryJob :=
  MkRecoveryJob (rj_ClusterNamespace j) (rj_ClusterName j) (rj_ID j) (SignalRequestedAt j) (SignalSent j)
    (CheckpointSeen j) (RequeueRequestedAt j) (RequeueSent j) true.
Definition mark_signal_requested (t : Z) (j : recoveryJob) : recoveryJob :=
  MkRecoveryJob (rj_ClusterNamespace j) (rj_ClusterName j) (rj_ID j) (Some t) (SignalSent j)
    (CheckpointSeen j) (RequeueRequestedAt j) (RequeueSent j) (Evacuated j).
Definition mark_signal_sent (j : recoveryJob) : recoveryJob :=
  MkRecoveryJob (rj_ClusterNamespace j) (rj_ClusterName j) (rj_ID j) (SignalRequestedAt j) true
    (CheckpointSeen j) (RequeueRequestedAt j) (RequeueSent j) (Evacuated j).
Definition mark_checkpoint_seen (j : recoveryJob) : recoveryJob :=
  MkRecoveryJob (rj_ClusterNamespace j) (rj_ClusterName j) (rj_ID j) (SignalRequestedAt j) (SignalSent j)
    true (RequeueRequestedAt j) (RequeueSent j) (Evacuated j).
Definition mark_requeue_requested (t : Z) (j : recoveryJob) : recoveryJob :=
  MkRecoveryJob (rj_ClusterNamespace j) (rj_ClusterName j) (rj_ID j) (SignalRequestedAt j) (SignalSent j)
    (CheckpointSeen j) (Some t) (RequeueSent j) (Evacuated j).
Definition mark_requeue_sent (j : recoveryJob) : recoveryJob :=
  MkRecoveryJob (rj_ClusterNamespace j) (rj_ClusterName j) (rj_ID j) (SignalRequestedAt j) (SignalSent j)
    (CheckpointSeen j) (RequeueRequestedAt j) true (Evacuated j).

(** Saving the state with the job at hand replaced: [before] and [after] are
    the other jobs. *)
Definition save_job (s : recoveryState) (before : list recoveryJob) (j : recoveryJob) (after : list recoveryJob)
    : R unit := saveState (set_jobs (before ++ j :: after) s).

(** The loop of [signalJobs] at the job [j]. *)
Definition signal_job (s : recoveryState) (snapshots : gmap string clusterSnapshot)
    (before : list recoveryJob) (j : recoveryJob) (after : list recoveryJob) : R recoveryJob :=
  if jobEvacuated j s (snapshot_jobs snapshots (job_key j)) then
    let j := mark_evacuated j in
    let* _ := save_job s before j after in ret j
  else if SignalSent j then ret j
  else
    let* j :=
      match SignalRequestedAt j with
      | Some _ => ret j
      | None =>
          let* t := now in
          let j := mark_signal_requested t j in
          let* _ := save_job s before j after in ret j
      end in
    let* _ := rest (fun e tr => SignalJob "USR1" (ack_ e tr)) (ESignalJob (job_key j) (rj_ID j)) in
    let j := mark_signal_sent j in
    let* _ := save_job s before j after in
    ret j.

Fixpoint signalJobs (s : recoveryState) (snapshots : gmap string clusterSnapshot)
    (before todo : list recoveryJob) : R recoveryState :=
  match todo with
  | [] => ret (set_jobs before s)
  | j :: after =>
      let* j := signal_job s snapshots before j after in
      signalJobs s snapshots (before ++ [j]) after
  end.

(** ** Checkpoints *)

(** The marker proves a checkpoint of [job] committed at [since] or later. *)
Definition commits (job since : Z) (data : list Z) : bool :=
  (Z.of_nat (length data) <=? 65536) &&
  match decode_marker data with
  | None => false
  | Some m =>
      (Store.mk_CheckpointVersion m =? Manifest.Version) && (Store.SlurmJobID m =? job)
      && (slen (Store.ManifestSHA256 m) =? 64)
      && match parse_rfc3339 (Store.CommittedAt m) with Some t => since <=? t | None => false end
  end.

(** The loop over the listing; [None] is an error. *)
Fixpoint committed_in (job since : Z) (count : Z) (objects : list (result unit MarkerObject)) : option bool :=
  match objects with
  | [] => Some false
  | Err _ :: _ => None
  | Ok o :: objects' =>
      if negb (has_suffix ".complete" (mo_Key o)) then committed_in job since count objects'
      else
        let count := count + 1 in
        if 10000 <? count then None
        else if match LastModified o with Some t => t <? since - second | None => false end
        then committed_in job since count objects'
        else
          match Contents o with
          | Err _ => None
          | Ok None => committed_in job since count objects'
          | Ok (Some data) => if commits job since data then Some true else committed_in job since count objects'
          end
  end.

Definition committed_answer (job since : Z) (listing : option (list (result unit MarkerObject))) : option bool :=
  match listing with None => None | Some objects => committed_in job since 0 objects end.

Definition checkpointCommittedSince (key : string) (job since : Z) : R (option bool) :=
  let* listing := observe (fun e => markers_ e key) (EListMarkers key) in
  ret (committed_answer job since listing).

(** The part of [checkpointAndRequeue] for a job that is not evacuated: has a
    checkpoint been seen by now? *)
Definition look_for_checkpoint (s : recoveryState) (snapshots : gmap string clusterSnapshot)
    (before : list recoveryJob) (j : recoveryJob) (after : list recoveryJob) (signalled : Z) : R recoveryJob :=
  let enabled := match snapshots !! job_key j with
                 | Some sn => bool_decide (is_Some (Api.Checkpointing (Api.Spec (sn_cluster sn))))
                 | None => false end in
  if CheckpointSeen j || negb enabled then ret j
  else
    let* seen := checkpointCommittedSince (job_key j) (rj_ID j) signalled in
    match seen with
    | Some true =>
        let j := mark_checkpoint_seen j in
        let* _ := save_job s before j after in ret j
    | _ => ret j
    end.

Definition requeue_job (s : recoveryState) (before : list recoveryJob) (j : recoveryJob) (after : list recoveryJob)
    : R recoveryJob :=
  let* j :=
    match RequeueRequestedAt j with
    | Some _ => ret j
    | None =>
        let* t := now in
        let j := mark_requeue_requested t j in
        let* _ := save_job s before j after in ret j
    end in
  let* _ := rest (fun e tr => RequeueJob (ack_ e tr)) (ERequeueJob (job_key j) (rj_ID j)) in
  let j := mark_requeue_sent j in
  let* _ := save_job s before j after in
  ret j.

(** The loop of [checkpointAndRequeue] at the job [j]: [None] stops the loop,
    the boolean tells that the job is evacuated. *)
Definition checkpoint_job (s : recoveryState) (snapshots : gmap string clusterSnapshot)
    (before : list recoveryJob) (j : recoveryJob) (after : list recoveryJob) : R (option (recoveryJob * bool)) :=
  if jobEvacuated j s (snapshot_jobs snapshots (job_key j)) then
    if Evacuated j then ret (Some (j, true))
    else
      let j := mark_evacuated j in
      let* _ := save_job s before j after in ret (Some (j, true))
  else
    match SignalRequestedAt j with
    | None => ret None
    | Some signalled =>
        if negb (SignalSent j) then ret None
        else
          let* j := look_for_checkpoint s snapshots before j after signalled in
          let* wait := if CheckpointSeen j then ret false
                       else let* t := now in ret (t <? signalled + checkpointGrace) in
          if (wait : bool) || RequeueSent j then ret (Some (j, false))
          else
            let* j := requeue_job s before j after in
            ret (Some (j, false))
    end.

Fixpoint checkpointAndRequeue (s : recoveryState) (snapshots : gmap string clusterSnapshot)
    (before todo : list recoveryJob) (allEvacuated : bool) : R (recoveryState * bool) :=
  match todo with
  | [] => ret (set_jobs before s, allEvacuated)
  | j :: after =>
      let* step := checkpoint_job s snapshots before j after in
      match step with
      | None => ret (set_jobs (before ++ j :: after) s, false)
      | Some (j, evacuated) =>
          checkpointAndRequeue s snapshots (before ++ [j]) after (allEvacuated && evacuated)
      end
  end.

(** ** Removing the workers *)

Fixpoint delete_slurm_nodes (ws : list recoveryWorker) (snapshots : gmap string clusterSnapshot) : R unit :=
  match ws with
  | [] => ret tt
  | w :: ws' =>
      let* _ :=
        match snapshot_node snapshots (worker_key w) (rw_Name w) with
        | None => ret tt
        | Some _ => rest (fun e tr => DeleteNode (delete_node_ e tr)) (EDeleteNode (worker_key w) (rw_Name w))
        end in
      delete_slurm_nodes ws' snapshots
  end.

(** Whether the Pod and the claim of [w] are gone. *)
Definition remove_worker (w : recoveryWorker) : R bool :=
  let ns := rw_Namespace w in
  let* a := observe (fun e => pod_ e ns (rw_Name w)) (EGetPod ns (rw_Name w)) in
  match a with
  | Ok pod =>
      let* _ := if bool_decide (Workers.workerFinalizer ∈ kp_Finalizers pod)
                then must [NotFound] (EUpdatePod ns (rw_Name w)) else ret tt in
      let* _ := if kp_Deleting pod then ret tt else must [NotFound] (EDeletePod ns (rw_Name w)) in
      ret false
  | Err NotFound =>
      if (rw_Claim w =? "")%string then ret true
      else
        let* o := do (EDeleteClaim ns (rw_Claim w)) in
        match o with
        | Done => ret false
        | NotFound => ret true
        | _ => throw (Kube o)
        end
  | Err o => throw (Kube o)
  end.

Fixpoint remove_workers (ws : list recoveryWorker) (complete : bool) : R bool :=
  match ws with
  | [] => ret complete
  | w :: ws' => let* gone := remove_worker w in remove_workers ws' (complete && gone)
  end.

Definition cleanupEvacuatedWorkers (s : recoveryState) (snapshots : gmap string clusterSnapshot) : R bool :=
  if negb (forallb (fun j => jobEvacuated j s (snapshot_jobs snapshots (job_key j))) (s_Jobs s)) then ret false
  else
    let* _ := delete_slurm_nodes (s_Workers s) snapshots in
    remove_workers (s_Workers s) true.

Definition reconcile_phase (n : KNode) (s : recoveryState) (snapshots : gmap string clusterSnapshot) : R unit :=
  match Phase s with
  | Isolated => let* _ := setPhase n s Draining in ret tt
  | Draining =>
      let* s := signalJobs s snapshots [] (s_Jobs s) in
      let next := match s_Jobs s with [] => Requeued | _ => Checkpointing end in
      let* _ := setPhase n s next in ret tt
  | Checkpointing =>
      let* (s, complete) := checkpointAndRequeue s snapshots [] (s_Jobs s) true in
      if complete : bool then let* _ := setPhase n s Requeued in ret tt else ret tt
  | Requeued =>
      let* complete := cleanupEvacuatedWorkers s snapshots in
      if complete : bool then
        let* t := now in
        let* _ := setPhase n (set_reboot_requested t s) RebootRequested in
        record_event "RebootRequested"
      else ret tt
  | _ => ret tt
  end.

(** An unreadable Slurm state leaves the node as it is. *)
Definition try {A} (m : R A) : R (option A) := fun env tr =>
  match m env tr with
  | (Ok a, tr') => (Ok (Some a), tr')
  | (Err _, tr') => (Ok None, tr')
  end.

Definition reconcileEvacuation (n : KNode) (s : recoveryState) : R bool :=
  let* (s, changed) := discoverWorkers n s in
  let* _ := if changed : bool then saveState s else ret tt in
  let* snapshots := try (slurmSnapshots (Clusters s) ∅) in
  match snapshots with
  | None => let* _ := record_event "SlurmRESTUnavailable" in ret true
  | Some snapshots =>
      let '(s, addedJobs) := addAffectedJobs s snapshots in
      let* _ := if addedJobs then saveState s else ret tt in
      let* _ := drainRecoveryWorkers (Incident s) (s_Workers s) snapshots in
      if addedJobs && negb (bool_decide (Phase s = Isolated)) && negb (bool_decide (Phase s = Draining)) then
        let* _ := setPhase n s Draining in ret true
      else
        let* _ := reconcile_phase n s snapshots in
        ret true
  end.

(** ** Verification *)

Definition valid_cell (c : Cell) : bool :=
  negb ((NUMA c <? 0) || (c_CPUs c <? 1) || (MemoryUnits c <? 1) || (MemoryUnitBytes c <? 1)).

Definition decodeRecoveryInventory (raw bootID : string) : result recovery_error Inventory :=
  match decode_inventory raw with
  | None => Err InventoryInvalid
  | Some inv =>
      reject_if negb (Hardware.Version inv =? 1) || negb (BootID inv =? bootID)%string
                || bool_decide (Cells inv = []) with InventoryInvalid in
      match List.find (fun c => negb (valid_cell c)) (Cells inv) with
      | Some c => Err (BadCell (NUMA c))
      | None => Ok inv
      end
  end.

(** The text of the error. *)
Definition inventory_error (e : recovery_error) : string :=
  match e with
  | BadCell numa => "pre-fault DRA inventory has invalid NUMA node " +:+ format_int numa
  | _ => "pre-fault DRA inventory is missing or invalid"
  end.

(** [strings.ReplaceAll(incident[:13], "-", "")]; an incident has 36 characters. *)
Definition verifierName (incident : string) (numa : Z) : string :=
  "hardware-verify-" +:+ replace_byte "-" "" (String.substring 0 13 incident) +:+ "-n" +:+ format_int numa.

Definition numa_clause (numa : Z) : string :=
  " && device.attributes[" +:+ quote driverName +:+ "][" +:+ quote "numaNode" +:+ "] == " +:+ format_int numa.
Definition kindNUMASelector (kind : string) (numa : Z) : string := kindSelector kind +:+ numa_clause numa.
Definition memoryNUMASelector (numa unit : Z) : string :=
  kindSelector "memory" +:+ numa_clause numa +:+ " && device.attributes[" +:+ quote driverName +:+ "]["
  +:+ quote "unitBytes" +:+ "] == " +:+ format_int unit.
Definition openTPUNUMASelector (profile : string) (numa : Z) : string :=
  kindSelector "opentpu" +:+ numa_clause numa +:+ " && device.attributes[" +:+ quote driverName +:+ "]["
  +:+ quote "profile" +:+ "] == " +:+ quote profile.

Definition valid_profile (p : OpenTPU) : bool :=
  negb ((t_Count p <? 1) || (CPUCores p <? 1) || (t_MemoryBytes p <? 1)
        || (negb (MatrixSize p =? 8) && negb (MatrixSize p =? 16))).

(** The loop over the profiles: CPUs, memory and shared memory. *)
Fixpoint add_profiles (ps : list OpenTPU) (acc : Z * Z * Z) : result recovery_error (Z * Z * Z) :=
  match ps with
  | [] => Ok acc
  | p :: ps' =>
      reject_if negb (valid_profile p) with BadProfile (Profile p) in
      let '(cpus, memory, shared) := acc in
      add_profiles ps' (wrap64 (cpus + CPUCores p), wrap64 (memory + t_MemoryBytes p), wrap64 (shared + SharedMemory p))
  end.

Fixpoint tpu_requests (ps : list OpenTPU) (i : Z) (numa : Z) : list DeviceRequest :=
  match ps with
  | [] => []
  | p :: ps' =>
      exactRequest ("opentpu-" +:+ format_int i) "opentpu.orchestration.gputpu.io" 1
        (openTPUNUMASelector (Profile p) numa) :: tpu_requests ps' (i + 1) numa
  end.

(** The claim's requests and the Pod of the Job; both objects have the name
    [verifierName]. *)
Definition verifierObjects (n : KNode) (c : Cell) : result recovery_error (list DeviceRequest * VerifierPod) :=
  let! (cpuCount, memoryBytes, sharedMemory) := add_profiles (OpenTPUs c) (1, MemoryUnitBytes c, Z.shiftl 64 20) in
  reject_if c_CPUs c <? cpuCount with TooFewCPUs (NUMA c) in
  let memoryCount := Z.quot (wrap64 (wrap64 (memoryBytes + MemoryUnitBytes c) - 1)) (MemoryUnitBytes c) in
  reject_if MemoryUnits c <? memoryCount with TooLittleMemory (NUMA c) in
  let requests :=
    [exactRequest "cpu" "cpu.orchestration.gputpu.io" cpuCount (kindNUMASelector "cpu" (NUMA c));
     exactRequest "memory" "memory.orchestration.gputpu.io" memoryCount
       (memoryNUMASelector (NUMA c) (MemoryUnitBytes c))]
    ++ (if bool_decide (GPUs c = []) then []
        else [exactRequest "gpu" "nvidia.orchestration.gputpu.io" (Z.of_nat (length (GPUs c)))
                (kindNUMASelector "gpu" (NUMA c))])
    ++ tpu_requests (OpenTPUs c) 0 (NUMA c) in
  Ok (requests,
      MkVerifierPod requests (1000 * cpuCount) (wrap64 (memoryCount * MemoryUnitBytes c)) sharedMemory
        [("EXPECTED_GPU_UUIDS", join "," (merge_sort String.le (map UUID (GPUs c))));
         ("OPENTPU_VERIFY_PROFILES", encode_profiles (OpenTPUs c));
         ("MEMORY_CHECK_BYTES", format_int (Z.min memoryBytes (Z.shiftl 64 20)));
         ("PYTHONDONTWRITEBYTECODE", "1")]%string
        [("kubernetes.io/hostname", kn_Name n); ("orchestration.gputpu.io/compute", "true")]%string
        (verifierTimeout / second)).

(** One of the two objects: created if missing, else it must belong to the
    incident. *)
Definition ensure_object (name incident : string) (get : result outcome Verifier -> event) (create : outcome -> event)
    : R unit :=
  let* a := observe (fun e => verifier_ e name) get in
  match a with
  | Err NotFound => must [AlreadyExists] create
  | Err o => throw (Kube o)
  | Ok v =>
      if negb (v_Incident v =? incident)%string || negb (v_Controlled v) then throw (OtherIncident name) else ret tt
  end.

Fixpoint ensure_cells (n : KNode) (s : recoveryState) (cells : list Cell) : R unit :=
  match cells with
  | [] => ret tt
  | c :: cells' =>
      let name := verifierName (Incident s) (NUMA c) in
      let* (requests, pod) := lift (verifierObjects n c) in
      let* _ := ensure_object name (Incident s) (EGetVerifierClaim name) (ECreateVerifierClaim name requests) in
      let* _ := ensure_object name (Incident s) (EGetVerifierJob name) (ECreateVerifierJob name pod) in
      ensure_cells n s cells'
  end.

Definition ensureVerifierResources (n : KNode) (s : recoveryState) : R unit :=
  let* inv := lift (decodeRecoveryInventory (PreInventory s) (PreBootID s)) in
  ensure_cells n s (Cells inv).

(** Whether both objects of every cell are gone. *)
Fixpoint deleteVerifierResources (incident : string) (cells : list Cell) (complete : bool) : R bool :=
  match cells with
  | [] => ret complete
  | c :: cells' =>
      let name := verifierName incident (NUMA c) in
      let gone mk : R bool :=
        let* o := do mk in
        match o with Done => ret false | NotFound => ret true | _ => throw (Kube o) end in
      let* jobGone := gone (EDeleteVerifierJob name) in
      let* claimGone := gone (EDeleteVerifierClaim name) in
      deleteVerifierResources incident cells' (complete && jobGone && claimGone)
  end.

(** ** Rebooting *)

Definition inventory_published (n : KNode) (s : recoveryState) : bool :=
  (note n inventoryBootIDKey =? NewBootID s)%string && negb (note n inventoryHashKey =? "")%string.

(** From the stabilised new boot on.  The reason of a failed creation is left
    without the text of its error. *)
Definition start_verification (n : KNode) (s : recoveryState) (readySince : Z) : R bool :=
  let* t := now in
  if sub_saturated t readySince <? readyStabilization then ret true
  else if negb (inventory_published n s) then
    let* t := now in
    if verifierTimeout <=? sub_saturated t readySince
    then enterManualRepair n s "DRA did not publish inventory for the new boot"
    else ret true
  else if (PreInventoryHash s =? "")%string || negb (note n inventoryHashKey =? PreInventoryHash s)%string
  then enterManualRepair n s "post-reboot DRA inventory does not match the pre-fault inventory"
  else
    let* s :=
      match VerificationStarted s with
      | Some _ => ret s
      | None =>
          let* t := now in
          let s := set_verification (Some t) (VerificationPassed s) s in
          let* _ := saveState s in ret s
      end in
    let* ready := try (ensureVerifierResources n s) in
    match ready with
    | None => enterManualRepair n s "create hardware verifiers"
    | Some _ => let* _ := setPhase n s Verifying in ret true
    end.

(** Once the boot identifier has changed. *)
Definition after_reboot (n : KNode) (s : recoveryState) : R bool :=
  let* s :=
    if (NewBootID s =? "")%string then
      let s := set_boot (bootID n) None s in
      let* _ := saveState s in ret s
    else ret s in
  if negb (NewBootID s =? bootID n)%string
  then enterManualRepair n s "node rebooted more than once during one incident"
  else if negb (nodeConditionStatus n "Ready" =? "True")%string then
    match ReadySince s with
    | None => ret true
    | Some _ => let* _ := try (saveState (set_boot (NewBootID s) None s)) in ret true
    end
  else
    match ReadySince s with
    | None =>
        let* t := now in
        let* _ := saveState (set_boot (NewBootID s) (Some t) s) in
        ret true
    | Some readySince => start_verification n s readySince
    end.

Definition reconcileReboot (n : KNode) (s : recoveryState) : R bool :=
  let* a := get_node (kn_Name n) in
  match a with
  | Err o => throw (Kube o)
  | Ok current =>
      let requestedAt := default (PhaseStartedAt s) (RebootRequestedAt s) in
      let* t := now in
      if RebootTimeout r <=? sub_saturated t requestedAt
      then enterManualRepair current s "node did not complete its reboot before the infrastructure timeout"
      else
        match Phase s with
        | RebootRequested =>
            if negb (note current rebootAckKey =? Incident s)%string then ret true
            else let* _ := setPhase current s Rebooting in ret true
        | _ =>
            if (bootID current =? "")%string || (bootID current =? PreBootID s)%string then ret true
            else after_reboot current s
        end
  end.

(** The loop over the verifier Jobs. *)
Inductive verdict := AllSucceeded | StillRunning | JobMissing | JobFailedAt (numa : Z).

Fixpoint check_jobs (incident : string) (cells : list Cell) (allSucceeded : bool) : R verdict :=
  match cells with
  | [] => ret (if allSucceeded then AllSucceeded else StillRunning)
  | c :: cells' =>
      let name := verifierName incident (NUMA c) in
      let* a := observe (fun e => verifier_ e name) (EGetVerifierJob name) in
      match a with
      | Err NotFound => ret JobMissing
      | Err o => throw (Kube o)
      | Ok v =>
          if negb (JobFailed v =? 0) then ret (JobFailedAt (NUMA c))
          else check_jobs incident cells' (allSucceeded && (Succeeded v =? 1))
      end
  end.

Definition finish_recovery (n : KNode) (s : recoveryState) (inv : Inventory) : R bool :=
  let* clean := deleteVerifierResources (Incident s) (Cells inv) true in
  if negb clean then ret true
  else
    let* _ := setHealthy n in
    let* _ := record_event "HardwareRecoveryComplete" in
    let* _ := must [NotFound] (EDeleteState (NodeUID s)) in
    ret false.

Definition reconcileVerification (n : KNode) (s : recoveryState) (rawStatus : string) : R bool :=
  match VerificationStarted s with
  | None => enterManualRepair n s "verification start timestamp is missing"
  | Some started =>
      let* t := now in
      if verifierTimeout <=? sub_saturated t started
      then enterManualRepair n s "hardware verification timed out"
      else
        match decodeRecoveryInventory (PreInventory s) (PreBootID s) with
        | Err e => enterManualRepair n s (inventory_error e)
        | Ok inv =>
            if negb (VerificationPassed s) then
              let* v := check_jobs (Incident s) (Cells inv) true in
              match v with
              | JobMissing => let* _ := ensureVerifierResources n s in ret true
              | JobFailedAt numa => enterManualRepair n s ("hardware verifier for NUMA node " +:+ format_int numa +:+ " failed")
              | StillRunning => ret true
              | AllSucceeded =>
                  if negb (rawStatus =? "False")%string then ret true
                  else
                    let* _ := saveState (set_verification (VerificationStarted s) true s) in
                    ret true
              end
            else if negb (rawStatus =? "False")%string then ret true
            else finish_recovery n s inv
        end
  end.

(** ** The handler *)

(** The state to work on, created when a fault is reported; [None] when the
    node is healthy. *)
Definition initial_state (n : KNode) (loaded : option recoveryState) (rawStatus : string)
    : R (option recoveryState) :=
  match loaded with
  | Some s => ret (Some s)
  | None =>
      if (rawStatus =? "True")%string then
        let* s := newRecoveryState n in
        let* _ := saveState s in ret (Some s)
      else if negb (note n recoveryIncidentKey =? "")%string then
        let* s := newRecoveryState n in
        let s := set_terminal "durable recovery state is missing" (ManualRequest s) (set_phase ManualRepair (PhaseStartedAt s) s) in
        let* _ := saveState s in ret (Some s)
      else ret None
  end.

(** A repaired node is verified again on request. *)
Definition manual_request (n : KNode) (s : recoveryState) (rawStatus : string) : R recoveryState :=
  let requestID := note n recoveryRequestKey in
  if bool_decide (Phase s = ManualRepair) && (rawStatus =? "False")%string && negb (requestID =? "")%string
     && negb (requestID =? ManualRequest s)%string && valid_incident requestID then
    let* s := newRecoveryState n in
    let s := set_incident requestID requestID s in
    let* _ := saveState s in ret s
  else ret s.

Definition Reconcile (name : string) : R bool :=
  let* a := get_node name in
  match a with
  | Err NotFound => ret false
  | Err o => throw (Kube o)
  | Ok n =>
      let* loaded := loadState n in
      let managed := (default "" (kn_Labels n !! "orchestration.gputpu.io/compute") =? "true")%string
                     || bool_decide (is_Some loaded) || negb (note n recoveryIncidentKey =? "")%string in
      if negb managed then ret false
      else
        let rawStatus := nodeConditionStatus n hardwareFaultCondition in
        let* state := initial_state n loaded rawStatus in
        match state with
        | None => let* _ := setHealthy n in ret false
        | Some s =>
            let* s := manual_request n s rawStatus in
            let* n := ensureIsolation n s in
            match Phase s with
            | ManualRepair => ret false
            | Isolated | Draining | Checkpointing | Requeued => reconcileEvacuation n s
            | RebootRequested | Rebooting => reconcileReboot n s
            | Verifying => reconcileVerification n s rawStatus
            | OtherPhase p => throw (UnsupportedPhase p)
            end
        end
  end.

End Recovery.
End Recovery.
