(* ===== verification/RecoverySafety.v ===== *)
(** * RecoverySafety: what a hardware recovery guarantees

    The recovery controller keeps its progress in one durable object and may
    be stopped and restarted anywhere.  [history] are the traces of all
    sequences of passes, each cut short at any call; the durable state a pass
    reads is one that was written before.  The invariant [Inv] connects a
    written state with what had happened by then, and the theorems say when a
    job may be requeued, a reboot requested and a node released. *)

From S2P Require Import Prelude GoStrings GoTime Manifest Store SlurmClient Api WorkerPlan Effects Hardware Workers Recovery.

Module RecoverySafety.
Import GoTime SlurmClient WorkerPlan Hardware Recovery.

#[local] Set Default Proof Using "Type*".

(** The API server returns the object that was asked for and a patch keeps the
    name and the UID of a Node, and the durable object holds a state that was
    written, at the resolution of its encoding. *)
Definition honest (e : env) : Prop :=
  (forall name h n, node_ e name h = Ok n -> kn_Name n = name) /\
  (forall copy h n, patch_ e copy h = Ok n -> kn_Name n = kn_Name copy /\ kn_UID n = kn_UID copy) /\
  (forall name h s, load_ e name h = LState s -> exists s' o, ESave s' o ∈ h /\ s = stored s').

Lemma snoc_in (h : list event) e : e ∈ h ++ [e].
Proof. set_solver. Qed.

#[local] Infix "⊑" := extends (at level 70).

Lemma ext_snoc (h : list event) e : h ⊑ h ++ [e].
Proof. apply prefix_extends. by exists [e]. Qed.

Lemma ext_app (h k : list event) : h ⊑ h ++ k.
Proof. apply prefix_extends. by exists k. Qed.

Section Safety.
Variable r : RecoveryReconciler.
Variable valid_incident : string -> bool.
Variable oversized : recoveryState -> bool.
Variable decode_inventory : string -> option Inventory.
Variable decode_marker : list Z -> option Store.CommitMarker.
Variable encode_profiles : list OpenTPU -> string.

(** ** Evidence in a history *)

(** The signal of a job was requested at [since], as the state recorded it. *)
Definition signal_time (h : list event) (key : string) (id since : Z) : Prop :=
  exists s o j t, ESave s o ∈ h /\ j ∈ s_Jobs s /\ job_key j = key /\ rj_ID j = id /\
    SignalRequestedAt j = Some t /\ ENow t ∈ h /\ (since = t \/ since = stored_time t).

(** A listing of the cluster's bucket had a commit marker of the job that is
    not older than the request. *)
Definition checkpointed (h : list event) (key : string) (id : Z) : Prop :=
  exists since objects o data, signal_time h key id since /\ EListMarkers key (Some objects) ∈ h /\
    Ok o ∈ objects /\ has_suffix ".complete" (mo_Key o) = true /\ Contents o = Ok (Some data) /\
    commits decode_marker id since data = true.

Lemma committed_found id since count objects : committed_in decode_marker id since count objects = Some true ->
  exists o data, Ok o ∈ objects /\ has_suffix ".complete" (mo_Key o) = true /\ Contents o = Ok (Some data) /\
    commits decode_marker id since data = true.
Proof.
  revert count. induction objects as [|[o|] objects IH]; intros count; cbn [committed_in]; [done| |done].
  assert (forall count, committed_in decode_marker id since count objects = Some true ->
    exists o' data, Ok o' ∈ Ok o :: objects /\ has_suffix ".complete" (mo_Key o') = true /\
      Contents o' = Ok (Some data) /\ commits decode_marker id since data = true) as Hrest.
  { intros c Hc. destruct (IH c Hc) as (o' & data & ? & ?). exists o', data. split; [by right|done]. }
  destruct (negb _) eqn:Ek; [apply Hrest|]. bool_hyps. destruct (_ <? _); [done|].
  destruct (match LastModified o with Some _ => _ | None => _ end); [apply Hrest|].
  destruct (Contents o) as [[data|]|] eqn:Ec; [|apply Hrest|done].
  destruct (commits decode_marker id since data) eqn:Ed; [|apply Hrest].
  intros _. exists o, data. split_and!; [by left|done..].
Qed.

Definition signalled (h : list event) (key : string) (id : Z) : Prop := ESignalJob key id (Ok tt) ∈ h.

Definition waited (h : list event) (key : string) (id : Z) : Prop :=
  exists since t, signal_time h key id since /\ ENow t ∈ h /\ since + checkpointGrace <= t.

Definition requeue_allowed (h : list event) (key : string) (id : Z) : Prop :=
  signalled h key id /\ (checkpointed h key id \/ waited h key id).

Definition job_ok (h : list event) (j : recoveryJob) : Prop :=
  (forall t, SignalRequestedAt j = Some t -> signal_time h (job_key j) (rj_ID j) t) /\
  (SignalSent j = true -> signalled h (job_key j) (rj_ID j)) /\
  (CheckpointSeen j = true -> checkpointed h (job_key j) (rj_ID j)).

Definition seen (h : list event) (name : string) (n : KNode) : Prop := EGetNode name (Ok n) ∈ h.

(** The incident of [s] began with a state written for a Node that had been
    read, and [s] still has the boot and the inventory of that Node. *)
Definition begun (h : list event) (s : recoveryState) : Prop :=
  exists h1 n s0 o h2, h = h1 ++ ESave s0 o :: h2 /\ seen h1 (NodeName s) n /\
    NodeName s = kn_Name n /\ NodeUID s = kn_UID n /\ PreBootID s = kn_BootID n /\
    PreInventory s = note n inventoryKey /\ PreInventoryHash s = note n inventoryHashKey /\
    Incident s0 = Incident s /\ NodeName s0 = NodeName s /\ NodeUID s0 = NodeUID s /\
    s_Workers s0 = [] /\ s_Jobs s0 = [].

(** The workers of [s] include every worker Pod of the listing. *)
Definition collected (pods : list KPod) (ws : list recoveryWorker) : Prop :=
  forall p, p ∈ pods -> managed_worker p = true ->
    exists w, w ∈ ws /\ rw_Namespace w = kp_Namespace p /\ rw_Name w = kp_Name p.

(** Nothing is left of the worker [w]. *)
Definition worker_gone (h : list event) (w : recoveryWorker) : Prop :=
  EGetPod (rw_Namespace w) (rw_Name w) (Err NotFound) ∈ h /\
  (rw_Claim w <> ""%string -> EDeleteClaim (rw_Namespace w) (rw_Claim w) NotFound ∈ h).

(** The Slurm cluster of [w] had no job that runs on one of its workers on the
    node. *)
Definition worker_idle (h : list event) (s : recoveryState) (w : recoveryWorker) : Prop :=
  exists jobs, ERestJobs (worker_key w) (Ok jobs) ∈ h /\
    forall j, j ∈ jobs -> Pending j = false -> Terminal j = false ->
      UsesAnyNode j (workerNames s (worker_key w)) = false.

(** The node is evacuated: after the incident began its Pods were listed, and
    after that listing every worker Pod on it and every worker of the state had
    no job any more, its Pod was gone and so was its claim; the jobs of the
    incident had left. *)
Definition evacuated (h : list event) (s : recoveryState) : Prop :=
  exists before pods after, h = before ++ EListPods (NodeName s) (Some pods) :: after /\
    begun before s /\ collected pods (s_Workers s) /\
    (forall w, w ∈ s_Workers s -> worker_gone after w /\ worker_idle after s w) /\
    (forall j, j ∈ s_Jobs s -> exists jobs, ERestJobs (job_key j) (Ok jobs) ∈ after /\ jobEvacuated j s jobs = true).

Definition acked (h : list event) (s : recoveryState) : Prop :=
  exists n, seen h (NodeName s) n /\ note n rebootAckKey = Incident s.

Definition rebooted (h : list event) (s : recoveryState) : Prop :=
  NewBootID s <> PreBootID s /\ exists n, seen h (NodeName s) n /\ bootID r n = NewBootID s.

(** The DRA drivers published, for the new boot, the inventory of before. *)
Definition inventory_back (h : list event) (s : recoveryState) : Prop :=
  PreInventoryHash s <> ""%string /\
  exists n, seen h (NodeName s) n /\ note n inventoryBootIDKey = NewBootID s /\
    note n inventoryHashKey = PreInventoryHash s /\ nodeConditionStatus n "Ready" = "True"%string.

(** The fault condition was off in a Node read after the verification of the
    incident had begun. *)
Definition fault_off (h : list event) (s : recoveryState) : Prop :=
  exists h1 n h2 s0 o, h = h1 ++ EGetNode (NodeName s) (Ok n) :: h2 /\ ESave s0 o ∈ h1 /\
    Incident s0 = Incident s /\ Phase s0 = Verifying /\
    nodeConditionStatus n hardwareFaultCondition = "False"%string.

(** A verifier succeeded on every NUMA node, and the fault condition was off. *)
Definition verified (h : list event) (s : recoveryState) : Prop :=
  exists inv, decodeRecoveryInventory decode_inventory (PreInventory s) (PreBootID s) = Ok inv /\
    (forall c, c ∈ Cells inv -> exists v,
       EGetVerifierJob (verifierName (Incident s) (NUMA c)) (Ok v) ∈ h /\ Succeeded v = 1 /\ JobFailed v = 0) /\
    fault_off h s.

(** ** The invariant of written states *)

Definition reboot_phase (p : recoveryPhase) : Prop := p = RebootRequested \/ p = Rebooting \/ p = Verifying.
Definition booted_phase (p : recoveryPhase) : Prop := p = Rebooting \/ p = Verifying.

Definition has_cluster (s : recoveryState) (key : string) : Prop :=
  exists c, c ∈ Clusters s /\ clusterKey (rc_Namespace c) (rc_Name c) = key.

Record Inv (h : list event) (s : recoveryState) : Prop := MkInv {
  inv_begun : begun h s;
  inv_jobs : forall j, j ∈ s_Jobs s -> job_ok h j;
  inv_clusters : forall j, j ∈ s_Jobs s -> has_cluster s (job_key j);
  inv_workers : forall w, w ∈ s_Workers s -> has_cluster s (worker_key w);
  inv_evacuated : reboot_phase (Phase s) -> evacuated h s;
  inv_acked : booted_phase (Phase s) -> acked h s;
  inv_boot : NewBootID s <> ""%string -> rebooted h s;
  inv_inventory : Phase s = Verifying -> NewBootID s <> ""%string /\ inventory_back h s;
  inv_verified : VerificationPassed s = true -> (Phase s = Verifying \/ Phase s = ManualRepair) /\ verified h s }.

(** Everything the recovery of [s] has to show before its node is released. *)
Definition recovered (h : list event) (s : recoveryState) : Prop :=
  begun h s /\ evacuated h s /\ acked h s /\ rebooted h s /\ inventory_back h s /\ verified h s.

(** A node without the taint: it had no incident, or its incident is over, as
    the state written for it tells. *)
Definition released (h : list event) (n : KNode) : Prop :=
  (exists n', seen h (kn_Name n) n' /\ nodeConditionStatus n' hardwareFaultCondition <> "True"%string /\
     note n' recoveryIncidentKey = ""%string /\ ELoad (recoveryStateName n') LMissing ∈ h) \/
  (exists s o, ESave s o ∈ h /\ NodeName s = kn_Name n /\ NodeUID s = kn_UID n /\ recovered h s).

(** The reboot request [i] came with the node [name] from the API server: with
    a Node that was read, or with the answer to a patch that did not have it. *)
Definition request_read (h : list event) (name i : string) : Prop :=
  exists n, kn_Name n = name /\ kn_Annotations n !! rebootRequestKey = Some i /\
    (EGetNode name (Ok n) ∈ h \/
     exists copy, EPatchNode copy (Ok n) ∈ h /\ kn_Annotations copy !! rebootRequestKey <> Some i).

(** The state of the incident [i] of the node [name] was written with the node
    evacuated. *)
Definition reboot_justified (h : list event) (name i : string) : Prop :=
  exists s o, ESave s o ∈ h /\ Incident s = i /\ NodeName s = name /\ reboot_phase (Phase s) /\ evacuated h s.

(** A reboot request: somebody else's, or one of an evacuated incident. *)
Definition reboot_allowed (h : list event) (n : KNode) : Prop :=
  forall i, kn_Annotations n !! rebootRequestKey = Some i ->
    request_read h (kn_Name n) i \/ reboot_justified h (kn_Name n) i.

Definition ok (h : list event) (e : event) : Prop :=
  match e with
  | ESave s _ => Inv h s
  | EPatchNode n _ => (degraded ∈ Taints n \/ released h n) /\ reboot_allowed h n
  | ESignalJob key id _ => exists t, signal_time h key id t
  | ERequeueJob key id _ => requeue_allowed h key id
  | _ => True
  end.

(** ** Evidence is kept *)

Section Mono.
Context (h h' : list event) (Hsub : h ⊑ h').

Lemma signal_time_mono key id t : signal_time h key id t -> signal_time h' key id t.
Proof.
  intros (s & o & j & t' & ? & ? & ? & ? & ? & ? & ?). exists s, o, j, t'. split_and!; first [done | by apply Hsub].
Qed.

Lemma checkpointed_mono key id : checkpointed h key id -> checkpointed h' key id.
Proof.
  intros (since & l & o & data & ? & ? & ?). exists since, l, o, data.
  split; [by apply signal_time_mono|]. split; [by apply Hsub|done].
Qed.

Lemma waited_mono key id : waited h key id -> waited h' key id.
Proof. intros (since & t & ? & ? & ?). exists since, t. split_and!; [by apply signal_time_mono|by apply Hsub|done]. Qed.

Lemma requeue_allowed_mono key id : requeue_allowed h key id -> requeue_allowed h' key id.
Proof.
  intros [Hs Hw]. split; [by apply Hsub|].
  destruct Hw; [left; by apply checkpointed_mono|right; by apply waited_mono].
Qed.

Lemma job_ok_mono j : job_ok h j -> job_ok h' j.
Proof.
  intros (H1 & H2 & H3). split_and!.
  - intros t Ht. by apply signal_time_mono, H1.
  - intros Hs. apply Hsub. by apply H2.
  - intros Hc. by apply checkpointed_mono, H3.
Qed.

Lemma seen_mono name n : seen h name n -> seen h' name n.
Proof. apply Hsub. Qed.

Lemma begun_mono s : begun h s -> begun h' s.
Proof.
  destruct Hsub as [_ [k ->]]. intros (h1 & n & s0 & o & h2 & -> & H). exists h1, n, s0, o, (h2 ++ k).
  split; [by rewrite <-app_assoc|done].
Qed.

Lemma worker_gone_mono w : worker_gone h w -> worker_gone h' w.
Proof. intros [? Hc]. split; [by apply Hsub|]. intros Hn. by apply Hsub, Hc. Qed.

Lemma worker_idle_mono s w : worker_idle h s w -> worker_idle h' s w.
Proof. intros (jobs & ? & ?). exists jobs. split; [by apply Hsub|done]. Qed.

Lemma acked_mono s : acked h s -> acked h' s.
Proof. intros (n & ? & ?). exists n. split; [by apply seen_mono|done]. Qed.

Lemma rebooted_mono s : rebooted h s -> rebooted h' s.
Proof. intros (? & n & ? & ?). split; [done|]. exists n. split; [by apply seen_mono|done]. Qed.

Lemma inventory_back_mono s : inventory_back h s -> inventory_back h' s.
Proof. intros (? & n & ? & ?). split; [done|]. exists n. split; [by apply seen_mono|done]. Qed.

Lemma fault_off_mono s : fault_off h s -> fault_off h' s.
Proof.
  destruct Hsub as [_ [k ->]]. intros (h1 & n & h2 & s0 & o & -> & H). exists h1, n, (h2 ++ k), s0, o.
  split; [by rewrite <-app_assoc|done].
Qed.

Lemma verification_mono s : verified h s -> verified h' s.
Proof.
  intros (inv & ? & Hc & ?). exists inv. split_and!; [done| |by apply fault_off_mono].
  intros c Hin. destruct (Hc c Hin) as (v & ? & ?). exists v. split; [by apply Hsub|done].
Qed.

End Mono.

Section MonoState.
Context (h h' : list event) (Hsub : h ⊑ h').

Lemma evacuated_mono s : evacuated h s -> evacuated h' s.
Proof.
  destruct Hsub as [_ [k ->]]. intros (before & pods & after & -> & Hb & Hc & Hw & Hj).
  exists before, pods, (after ++ k). split_and!; [by rewrite <-app_assoc|done|done| |].
  - intros w Hin. destruct (Hw w Hin).
    split; [eapply worker_gone_mono; [apply ext_app|done]|eapply worker_idle_mono; [apply ext_app|done]].
  - intros j Hin. destruct (Hj j Hin) as (jobs & ? & ?). exists jobs. split; [apply elem_of_app; by left|done].
Qed.

Lemma Inv_mono s : Inv h s -> Inv h' s.
Proof.
  intros [H0 H1 H2 H2' H3 H4 H5 H6 H7]. split.
  - by apply (begun_mono h).
  - intros j Hj. by apply (job_ok_mono h), H1.
  - done.
  - done.
  - intros Hp. by apply evacuated_mono, H3.
  - intros Hp. by apply (acked_mono h), H4.
  - intros Hp. by apply (rebooted_mono h), H5.
  - intros Hp. destruct (H6 Hp). split; [done|by apply (inventory_back_mono h)].
  - intros Hp. destruct (H7 Hp). split; [done|by apply (verification_mono h)].
Qed.

Lemma recovered_mono s : recovered h s -> recovered h' s.
Proof.
  intros (? & ? & ? & ? & ? & ?). split_and!;
    [by apply (begun_mono h)|by apply evacuated_mono|by apply (acked_mono h)|by apply (rebooted_mono h)
    |by apply (inventory_back_mono h)|by apply (verification_mono h)].
Qed.

Lemma released_mono n : released h n -> released h' n.
Proof.
  intros [(n' & ? & ? & ? & ?)|(s & o & ? & ? & ? & ?)].
  - left. exists n'. split_and!; [by apply (seen_mono h)|done|done|by apply Hsub].
  - right. exists s, o. split_and!; [by apply Hsub|done..|by apply recovered_mono].
Qed.

Lemma request_read_mono name i : request_read h name i -> request_read h' name i.
Proof.
  intros (n & ? & ? & H). exists n. split_and!; [done..|].
  destruct H as [?|(copy & ? & ?)]; [left; by apply Hsub|]. right. exists copy. split; [by apply Hsub|done].
Qed.

Lemma reboot_justified_mono name i : reboot_justified h name i -> reboot_justified h' name i.
Proof.
  intros (s & o & ? & ? & ? & ? & ?). exists s, o. split_and!; [by apply Hsub|done..|by apply evacuated_mono].
Qed.

Lemma reboot_allowed_mono n : reboot_allowed h n -> reboot_allowed h' n.
Proof.
  intros H i Hi. destruct (H i Hi); [left; by apply request_read_mono|right; by apply reboot_justified_mono].
Qed.

Lemma ok_mono e : ok h e -> ok h' e.
Proof.
  destruct e; simpl; try done.
  - apply Inv_mono.
  - intros [Ht Hr]. split; [|by apply reboot_allowed_mono]. destruct Ht; [by left|right; by apply released_mono].
  - intros [t ?]. exists t. by apply (signal_time_mono h).
  - by apply requeue_allowed_mono.
Qed.

End MonoState.

Lemma good_ok h e : good ok h -> e ∈ h -> ok h e.
Proof.
  intros Hg (h1 & h2 & ->)%list_elem_of_split. eapply ok_mono; [|by eapply good_split].
  rewrite ->(cons_middle e h1 h2), app_assoc. apply ext_app.
Qed.

(** A state the controller works on: one it has written, or read back. *)
Definition recorded (h : list event) (s : recoveryState) : Prop :=
  exists s' o, ESave s' o ∈ h /\ (s = s' \/ s = stored s').

Lemma recorded_mono h h' s : h ⊑ h' -> recorded h s -> recorded h' s.
Proof. intros Hs (s' & o & ? & ?). exists s', o. split; [by apply Hs|done]. Qed.

Lemma recorded_phase h s : good ok h -> recorded h s -> exists s' o, ESave s' o ∈ h /\ Inv h s' /\
  Incident s' = Incident s /\ NodeName s' = NodeName s /\ NodeUID s' = NodeUID s /\ Phase s' = Phase s /\
  VerificationPassed s' = VerificationPassed s.
Proof.
  intros Hg (s' & o & Hin & Hs). exists s', o. pose proof (good_ok _ _ Hg Hin) as HI.
  destruct Hs as [->| ->]; by split_and!.
Qed.

Lemma recorded_reboot h s : good ok h -> recorded h s -> reboot_phase (Phase s) ->
  reboot_justified h (NodeName s) (Incident s).
Proof.
  intros Hg (s' & o & Hin & HI & Hi & Hn & _ & Hp & _)%recorded_phase Hph; [|done].
  exists s', o. rewrite ->Hp. split_and!; [done..|]. apply (inv_evacuated _ _ HI). by rewrite ->Hp.
Qed.

Lemma recorded_recovered h s : good ok h -> recorded h s -> Phase s = Verifying -> VerificationPassed s = true ->
  exists s' o, ESave s' o ∈ h /\ NodeName s' = NodeName s /\ NodeUID s' = NodeUID s /\ recovered h s'.
Proof.
  intros Hg (s' & o & Hin & HI & Hi & Hn & Hu & Hp & Hv)%recorded_phase Hph Hpass; [|done].
  rewrite ->Hph in Hp. rewrite ->Hpass in Hv. exists s', o. split_and!; [done..|].
  destruct HI as [H0 _ _ _ H3 H4 H5 H6 H7]. destruct (H6 Hp) as [Hne Hback]. destruct (H7 Hv) as [_ Hver].
  split_and!; [done|apply H3; right; by right|apply H4; by right|by apply H5|done|done].
Qed.

(** ** The steps of the state machine keep the invariant *)

Definition early (p : recoveryPhase) : Prop := p = Isolated \/ p = Draining \/ p = Checkpointing \/ p = Requeued.

Ltac phases :=
  unfold early, reboot_phase, booted_phase in *; simpl in *;
  repeat match goal with H : _ \/ _ |- _ => destruct H end; try congruence; try discriminate.

Lemma Inv_new h s : begun h s -> s_Workers s = [] -> s_Jobs s = [] -> (Phase s = Isolated \/ Phase s = ManualRepair) -> NewBootID s = ""%string ->
  VerificationPassed s = false -> Inv h s.
Proof.
  intros Hbeg Hw Hj Hp Hb Hv. split; intros; [done|try (rewrite ->?Hj, ?Hw in *; set_solver); phases..].
Qed.

Lemma Inv_manual h s reason request t : Inv h s -> Inv h (set_phase ManualRepair t (set_terminal reason request s)).
Proof.
  intros [H0 H1 H2 H2' H3 H4 H5 H6 H7]. split; simpl; try done; intros; phases.
  split; [by right|]. by apply H7.
Qed.

Lemma Inv_early h s p t : Inv h s -> early (Phase s) -> early p -> Inv h (set_phase p t s).
Proof.
  intros [H0 H1 H2 H2' H3 H4 H5 H6 H7] He Hp. split; simpl; try done; intros; try (by phases).
  destruct H7 as [H7 _]; [done|]. phases.
Qed.

Lemma not_passed h s : Inv h s -> Phase s <> Verifying -> Phase s <> ManualRepair -> VerificationPassed s = false.
Proof. intros [] H1 H2. destruct (VerificationPassed s); [|done]. destruct inv_verified0 as [[] _]; done. Qed.

Lemma Inv_reboot h s t t' : Inv h s -> Phase s = Requeued -> evacuated h s ->
  Inv h (set_phase RebootRequested t (set_reboot_requested t' s)).
Proof.
  intros HI Hp He. pose proof (not_passed h s HI ltac:(congruence) ltac:(congruence)) as Hv.
  destruct HI as [H0 H1 H2 H2' H3 H4 H5 H6 H7]. split; simpl; try done; intros; try (by phases).
Qed.

Lemma Inv_rebooting h s t : Inv h s -> Phase s = RebootRequested -> acked h s -> Inv h (set_phase Rebooting t s).
Proof.
  intros HI Hp Ha. pose proof (not_passed h s HI ltac:(congruence) ltac:(congruence)) as Hv.
  destruct HI as [H0 H1 H2 H2' H3 H4 H5 H6 H7]. split; simpl; try done; intros; try (by phases).
  apply H3. by left.
Qed.

Lemma Inv_set_boot h s b ready : Inv h s -> Phase s = Rebooting ->
  (b = NewBootID s \/ b <> PreBootID s /\ exists n, seen h (NodeName s) n /\ bootID r n = b) ->
  Inv h (set_boot b ready s).
Proof.
  intros HI Hp Hb. pose proof (not_passed h s HI ltac:(congruence) ltac:(congruence)) as Hv.
  destruct HI as [H0 H1 H2 H2' H3 H4 H5 H6 H7]. split; simpl; try done; intros; try congruence.
  destruct Hb as [->|Hb]; [by apply H5|done].
Qed.

Lemma Inv_started h s t : Inv h s -> Inv h (set_verification t (VerificationPassed s) s).
Proof. by intros [H0 H1 H2 H2' H3 H4 H5 H6 H7]. Qed.

Lemma Inv_verifying h s t : Inv h s -> Phase s = Rebooting -> NewBootID s <> ""%string -> inventory_back h s ->
  Inv h (set_phase Verifying t s).
Proof.
  intros HI Hp Hn Hb. pose proof (not_passed h s HI ltac:(congruence) ltac:(congruence)) as Hv.
  destruct HI as [H0 H1 H2 H2' H3 H4 H5 H6 H7]. split; simpl; try done; intros.
  - apply H3. right; by left.
  - apply H4. by left.
  - congruence.
Qed.

Lemma Inv_passed h s t : Inv h s -> Phase s = Verifying -> verified h s -> Inv h (set_verification t true s).
Proof.
  intros [H0 H1 H2 H2' H3 H4 H5 H6 H7] Hp Hv. split; simpl; try done. intros _. split; [by left|done].
Qed.

(** In the early phases the fleet and the jobs may change. *)
Lemma Inv_fleet h s cs ws : Inv h s -> early (Phase s) -> (forall c, c ∈ Clusters s -> c ∈ cs) ->
  (forall w, w ∈ ws -> has_cluster (set_fleet cs ws s) (worker_key w)) -> Inv h (set_fleet cs ws s).
Proof.
  intros HI He Hc Hw. pose proof (not_passed h s HI ltac:(phases) ltac:(phases)) as Hv.
  destruct HI as [H0 H1 H2 H2' H3 H4 H5 H6 H7]. split; simpl; try done; intros; try (by phases).
  destruct (H2 j) as (c & ? & ?); [done|]. exists c. auto.
Qed.

Lemma Inv_jobs h s js : Inv h s -> early (Phase s) ->
  (forall j, j ∈ js -> job_ok h j /\ has_cluster s (job_key j)) -> Inv h (set_jobs js s).
Proof.
  intros HI He Hj. pose proof (not_passed h s HI ltac:(phases) ltac:(phases)) as Hv.
  destruct HI as [H0 H1 H2 H2' H3 H4 H5 H6 H7]. split; simpl; try done; intros; try (by phases); by apply Hj.
Qed.

(** Storing a state and reading it back loses nothing the invariant needs. *)
Lemma stored_time_idem t : stored_time (stored_time t) = stored_time t.
Proof. unfold stored_time, second. by rewrite ->Z.div_mul. Qed.

Lemma job_ok_stored h j : job_ok h j -> job_ok h (stored_job j).
Proof.
  intros (H1 & H2 & H3). split_and!; [|done..]. simpl. intros t Ht.
  destruct (SignalRequestedAt j) as [t0|] eqn:E; simplify_eq/=.
  destruct (H1 t0 eq_refl) as (s & o & j' & t & ? & ? & ? & ? & ? & ? & Ht). exists s, o, j', t.
  split_and!; try done. right. destruct Ht as [->| ->]; [done|apply stored_time_idem].
Qed.

Lemma Inv_stored h s : Inv h s -> Inv h (stored s).
Proof.
  intros [H0 H1 H2 H2' H3 H4 H5 H6 H7]. split; simpl; try done.
  - intros j' (j & -> & Hj)%list_elem_of_fmap. by apply job_ok_stored, H1.
  - intros j' (j & -> & Hj)%list_elem_of_fmap. destruct (H2 j Hj) as (c & ? & ?). by exists c.
  - intros Hp. destruct (H3 Hp) as (before & pods & after & -> & Hb & Hc & Hw & Hj).
    exists before, pods, after. split_and!; [done..|].
    intros j' (j & -> & Hin)%list_elem_of_fmap. destruct (Hj j Hin) as (jobs & ? & ?). by exists jobs.
Qed.

(** ** Programs that keep the history good *)

Abbreviation Good := (good ok).
Abbreviation K := (keeps honest ok).

Lemma k_now h : Good h -> K now h (fun t h' => ENow t ∈ h').
Proof. intros Hg. apply keeps_observe; [done..|]. intros. apply snoc_in. Qed.

Lemma k_get_node h name : Good h ->
  K (get_node name) h (fun a h' => EGetNode name a ∈ h' /\ forall n, a = Ok n -> kn_Name n = name).
Proof. intros Hg. apply keeps_observe; [done..|]. intros e He. split; [apply snoc_in|]. intros n. apply He. Qed.

Lemma k_must ignored mk h : Good h -> (forall o, ok (h ++ [mk o]) (mk o)) ->
  K (must ignored mk) h (fun _ h' => exists o, h' = h ++ [mk o]).
Proof.
  intros Hg Ho. eapply keeps_bind_ext with (P := fun o h' => h' = h ++ [mk o]).
  - apply keeps_observe; [done|by intros|done].
  - intros o h' Hg' _ Hin. destruct o; try (case_match; [|by apply keeps_throw]);
      try (by apply keeps_throw); (apply keeps_ret; [done|]; by eexists).
Qed.

Lemma k_rest answer mk h : Good h -> (forall a, ok (h ++ [mk a]) (mk a)) ->
  K (rest answer mk) h (fun _ h' => mk (Ok tt) ∈ h').
Proof.
  intros Hg Ho. eapply keeps_bind_ext with (P := fun a h' => mk a ∈ h').
  - apply keeps_observe; [done|by intros|]. intros. apply snoc_in.
  - intros [[]|e] h' Hg' _ Hin; [by apply keeps_ret|by apply keeps_throw].
Qed.

Lemma k_record reason h : Good h -> K (record_event r reason) h (fun _ _ => True).
Proof. intros Hg. unfold record_event. case_match; [by apply keeps_observe|by apply keeps_ret]. Qed.

Lemma k_try {A} (m : R A) h (Q : A -> list event -> Prop) :
  K m h Q -> K (try m) h (fun o h' => forall a, o = Some a -> Q a h').
Proof.
  intros Hm env Hh. destruct (Hm env Hh) as (Hg & Hs & HQ). unfold try.
  destruct (m env h) as [[a|e] h']; simpl in *; split_and!; try done; intros ? [= <-]; [|done].
  intros ? [= <-]. by apply HQ.
Qed.

Lemma k_save s h : Good h -> (forall o, Inv (h ++ [ESave s o]) s) ->
  K (saveState oversized s) h (fun _ h' => exists o, h' = h ++ [ESave s o]).
Proof.
  intros Hg HI. unfold saveState. case_match; [by apply keeps_throw|]. by apply k_must.
Qed.

Lemma k_save_inv s h : Good h -> Inv h s -> K (saveState oversized s) h (fun _ h' => recorded h' s).
Proof.
  intros Hg HI. eapply keeps_mono_ext; [apply k_save; [done|]|].
  - intros o. eapply Inv_mono; [apply ext_snoc|done].
  - intros ? h' _ [o ->]. exists s, o. split; [apply snoc_in|by left].
Qed.

Lemma k_condition name status reason message h : Good h ->
  K (setNodeCondition name status reason message) h (fun _ _ => True).
Proof.
  intros Hg. eapply keeps_bind_ext; [by apply k_get_node|]. intros a h1 Hg1 _ _.
  destruct a as [n|o]; [|by apply keeps_throw]. eapply keeps_bind_ext; [by apply k_now|]. intros t h2 Hg2 _ _.
  case_match; [|by apply keeps_ret]. eapply keeps_mono_ext; [by apply k_must|done].
Qed.

(** ** Isolation *)

Lemma isolated_tainted n s : degraded ∈ Taints (isolated_node n s).
Proof. unfold isolated_node; simpl. case_bool_decide; [done|]. apply elem_of_app. right. by apply list_elem_of_singleton. Qed.

Lemma isolated_reboot h n s : reboot_allowed h n -> NodeName s = kn_Name n ->
  (reboot_phase (Phase s) -> reboot_justified h (NodeName s) (Incident s)) -> reboot_allowed h (isolated_node n s).
Proof.
  intros Hr Hn He i. unfold isolated_node; simpl.
  assert (rebootRequestKey <> recoveryPhaseKey /\ rebootRequestKey <> recoveryIncidentKey) as [N1 N2] by done.
  intros Hi.
  assert (kn_Annotations n !! rebootRequestKey = Some i \/ (Incident s = i /\ reboot_phase (Phase s))) as [Hold|[<- Hp]].
  { destruct (Phase s) eqn:Ep; rw ?lookup_insert_eq in Hi;
      try (by left; rewrite ->!lookup_insert_ne in Hi by done).
    - right. split; [congruence|by left].
    - right. split; [congruence|right; by left]. }
  - by apply Hr.
  - right. rewrite <-Hn. by apply He.
Qed.

(** The answer to a patch has the requests of the patch, and what it has more
    was read. *)
Lemma patch_answer h copy n' : EPatchNode copy (Ok n') ∈ h -> kn_Name n' = kn_Name copy -> reboot_allowed h copy ->
  reboot_allowed h n'.
Proof.
  intros Hin Hn Hr i Hi. rewrite ->Hn. destruct (decide (kn_Annotations copy !! rebootRequestKey = Some i)) as [Hc|Hc].
  - by apply Hr.
  - left. exists n'. split_and!; [done..|]. right. by exists copy.
Qed.

Definition same_node (n n' : KNode) : Prop := kn_Name n' = kn_Name n /\ kn_UID n' = kn_UID n.

Lemma k_patch n copy h : Good h -> same_node n copy -> (degraded ∈ Taints copy \/ released h copy) ->
  reboot_allowed h n -> reboot_allowed h copy ->
  K (patch_node n copy) h (fun n' h' => reboot_allowed h' n' /\ same_node n n').
Proof.
  intros Hg [Hn Hu] Ht Hrn Hr. unfold patch_node. case_match; [|apply keeps_ret; [done|by split]].
  eapply keeps_bind_ext with (P := fun a h' => EPatchNode copy a ∈ h' /\
    forall n', a = Ok n' -> kn_Name n' = kn_Name copy /\ kn_UID n' = kn_UID copy).
  - apply keeps_observe; [done| |].
    + intros e He. split; [|eapply reboot_allowed_mono; [apply ext_snoc|done]].
      destruct Ht as [?|?]; [by left|right]. eapply released_mono; [apply ext_snoc|done].
    + intros e (_ & He & _). split; [apply snoc_in|]. intros n'. apply He.
  - intros a h' Hg' Hs [Hin Ha]. destruct a as [n'|o]; [|by apply keeps_throw].
    destruct (Ha n' eq_refl) as [En Eu]. apply keeps_ret; [done|]. split; [|split; congruence].
    eapply patch_answer; [done|done|]. by eapply reboot_allowed_mono.
Qed.

Lemma k_isolation n s h : Good h -> reboot_allowed h n -> NodeName s = kn_Name n ->
  (reboot_phase (Phase s) -> reboot_justified h (NodeName s) (Incident s)) ->
  K (ensureIsolation n s) h (fun n' h' => reboot_allowed h' n' /\ same_node n n').
Proof.
  intros Hg Hr Hn He. pose proof (isolated_reboot h n s Hr Hn He) as Hi.
  eapply keeps_bind_ext; [apply k_patch; [done|done|left; apply isolated_tainted|done|done]|].
  intros n' h1 Hg1 Hs1 [Hr1 Hn1]. destruct (match Phase s with ManualRepair => _ | _ => _ end) as [reason message].
  eapply keeps_bind_ext; [by apply k_condition|]. intros ? h2 Hg2 Hs2 _. apply keeps_ret; [done|].
  split; [by eapply reboot_allowed_mono|done].
Qed.

(** The node at hand and the state belong together. *)
Definition paired (h : list event) (n : KNode) (s : recoveryState) : Prop :=
  reboot_allowed h n /\ NodeName s = kn_Name n.

Lemma paired_mono h h' n s : h ⊑ h' -> paired h n s -> paired h' n s.
Proof. intros Hs [? ?]. split; [by eapply reboot_allowed_mono|done]. Qed.

Lemma k_set_phase n s p h : Good h -> paired h n s -> (forall h' t, h ⊑ h' -> Inv h' (set_phase p t s)) ->
  K (setPhase oversized n s p) h (fun _ _ => True).
Proof.
  intros Hg [Hr Hn] HI. eapply keeps_bind_ext; [by apply k_now|]. intros t h1 Hg1 Hs1 _.
  eapply keeps_bind_ext; [apply k_save_inv; [done|by apply HI]|]. intros ? h2 Hg2 Hs2 Hrec.
  assert (h ⊑ h2) as Hs by (by etrans).
  eapply keeps_bind_ext; [apply k_isolation; [done|by eapply reboot_allowed_mono|done|]|].
  - by apply (recorded_reboot h2).
  - intros. by apply keeps_ret.
Qed.

Lemma k_manual n s reason h : Good h -> paired h n s -> Inv h s ->
  K (enterManualRepair r oversized n s reason) h (fun _ _ => True).
Proof.
  intros Hg Hp HI. eapply keeps_bind_ext; [apply k_set_phase; [done|done|]|].
  - intros h' t Hs. by apply Inv_manual, (Inv_mono h).
  - intros ? h1 Hg1 _ _. eapply keeps_bind_ext; [by apply k_record|]. intros. by apply keeps_ret.
Qed.

(** ** Discovering workers and jobs *)

Lemma add_cluster_sub c l x : x ∈ l -> x ∈ add_cluster c l.
Proof. unfold add_cluster. destruct (existsb _ _); [done|]. intros Hx. apply elem_of_app. by left. Qed.

Lemma add_cluster_key c l : exists x, x ∈ add_cluster c l /\ clusterKey (rc_Namespace x) (rc_Name x) =
  clusterKey (Api.Namespace c) (Api.cl_Name c).
Proof.
  unfold add_cluster. destruct (existsb _ _) eqn:E.
  - apply existsb_exists in E as (x & Hx%list_elem_of_In & Hk). bool_hyps. exists x. split; [done|congruence].
  - eexists. split; [apply elem_of_app; right; by left|done].
Qed.

Lemma add_worker_pod c p l : exists w, w ∈ add_worker c p l /\ rw_Namespace w = kp_Namespace p /\ rw_Name w = kp_Name p.
Proof.
  unfold add_worker. destruct (existsb _ _) eqn:E.
  - apply existsb_exists in E as (w & Hw%list_elem_of_In & Hk). bool_hyps. exists w. by split_and!.
  - eexists. split; [apply elem_of_app; right; by left|done].
Qed.

Lemma add_worker_inv c p l w : w ∈ add_worker c p l -> w ∈ l \/ worker_key w = clusterKey (Api.Namespace c) (Api.cl_Name c).
Proof.
  unfold add_worker. destruct (existsb _ _); [by left|].
  intros [?| ->%list_elem_of_singleton]%elem_of_app; [by left|by right].
Qed.

Lemma add_worker_sub c p l w : w ∈ l -> w ∈ add_worker c p l.
Proof. unfold add_worker. destruct (existsb _ _); [done|]. intros Hw. apply elem_of_app. by left. Qed.

(** The fleet after the Pods [pods] of the listing. *)
Definition fleet_ok (base : list recoveryCluster) (pods : list KPod) (st : list recoveryCluster * list recoveryWorker * bool)
    : Prop :=
  let '(cs, ws, _) := st in
  (forall c, c ∈ base -> c ∈ cs) /\
  (forall w, w ∈ ws -> exists c, c ∈ cs /\ clusterKey (rc_Namespace c) (rc_Name c) = worker_key w) /\
  collected pods ws.

Lemma fleet_ok_skip base pods p st : managed_worker p = false -> fleet_ok base pods st -> fleet_ok base (pods ++ [p]) st.
Proof.
  destruct st as [[cs ws] changed]. intros Hm (Hb & Hw & Hc). split_and!; [done..|].
  intros q [Hq| ->%list_elem_of_singleton]%elem_of_app; [by apply Hc|congruence].
Qed.

Lemma fleet_ok_add base pods p c cs ws ch ch' : fleet_ok base pods (cs, ws, ch) ->
  fleet_ok base (pods ++ [p]) (add_cluster c cs, add_worker c p ws, ch').
Proof.
  intros (Hb & Hw & Hc). split_and!.
  - intros x Hx. by apply add_cluster_sub, Hb.
  - intros w [Hin| ->]%add_worker_inv; [|apply add_cluster_key].
    destruct (Hw w Hin) as (x & ? & ?). exists x. split; [by apply add_cluster_sub|done].
  - intros q [Hq| ->%list_elem_of_singleton]%elem_of_app Hm; [|apply add_worker_pod].
    destruct (Hc q Hq Hm) as (w & ? & ?). exists w. split; [by apply add_worker_sub|done].
Qed.

Lemma k_discover_pod incident base pods st p h : Good h -> fleet_ok base pods st ->
  K (discover_pod incident st p) h (fun st' _ => fleet_ok base (pods ++ [p]) st').
Proof.
  intros Hg Hb. destruct st as [[cs ws] changed]. unfold discover_pod.
  destruct (negb _) eqn:Em; [apply keeps_ret; [done|]; bool_hyps; by apply fleet_ok_skip|].
  destruct (kp_Controller p) as [owner|]; [|by apply keeps_throw].
  destruct (_ || _); [by apply keeps_throw|].
  eapply keeps_bind_ext with (P := fun _ _ => True); [by apply keeps_observe|]. intros a h1 Hg1 _ _.
  destruct a as [c|o]; [|by apply keeps_throw]. destruct (negb (Api.UID c =? _)%string); [by apply keeps_throw|].
  eapply keeps_bind_ext with (P := fun _ _ => True).
  - destruct (_ =? _)%string; [by apply keeps_ret|]. eapply keeps_mono_ext; [by apply k_must|done].
  - intros ? h2 Hg2 _ _. apply keeps_ret; [done|]. by eapply fleet_ok_add.
Qed.

Lemma k_discover_pods incident base pods todo st h : Good h -> fleet_ok base pods st ->
  K (foldM_eff (discover_pod incident) st todo) h (fun st' _ => fleet_ok base (pods ++ todo) st').
Proof.
  revert pods st h. induction todo as [|p todo IH]; intros pods st h Hg Hf; simpl.
  { apply keeps_ret; [done|]. by rewrite ->app_nil_r. }
  eapply keeps_bind_ext; [by apply k_discover_pod|]. intros st' h1 Hg1 _ Hf1.
  specialize (IH (pods ++ [p]) st' h1 Hg1 Hf1). by rewrite <-app_assoc in IH.
Qed.

(** The Pods of the node were listed, after the incident began; [after] is what
    happened since. *)
Definition listed (h : list event) (s : recoveryState) (after : list event) : Prop :=
  exists before pods, h = before ++ EListPods (NodeName s) (Some pods) :: after /\ begun before s /\
    collected pods (s_Workers s).

Lemma listed_mono h h' s after : h ⊑ h' -> listed h s after -> exists k, h' = h ++ k /\ listed h' s (after ++ k).
Proof.
  intros [_ [k ->]] (before & pods & -> & ? & ?). exists k. split; [done|]. exists before, pods.
  split; [by rewrite <-app_assoc|done].
Qed.

Lemma k_discover n s h : Good h -> Inv h s -> early (Phase s) -> NodeName s = kn_Name n ->
  K (discoverWorkers n s) h (fun res h' => exists cs ws after, fst res = set_fleet cs ws s /\ Inv h' (fst res) /\
    listed h' (fst res) after).
Proof.
  intros Hg HI He Hn.
  eapply keeps_bind_ext with (P := fun pods h1 => h1 = h ++ [EListPods (kn_Name n) pods]); [by apply keeps_observe|].
  intros pods h1 Hg1 Hs1 ->. destruct pods as [pods|]; [|by apply keeps_throw].
  eapply keeps_bind_ext.
  { apply (k_discover_pods _ (Clusters s) [] pods); [done|]. split_and!; [done|apply (inv_workers _ _ HI)|].
    intros p Hp. by apply not_elem_of_nil in Hp. }
  intros [[cs ws] changed] h2 Hg2 Hs2 (Hb & Hw & Hc). simpl app in Hc.
  assert (collected pods (merge_sort worker_le ws)) as Hcol.
  { intros p Hp Hm. destruct (Hc p Hp Hm) as (w & ? & ?). exists w. by rewrite ->merge_sort_Permutation. }
  destruct Hs2 as [Hs2 [k ->]].
  apply keeps_ret; [done|]. eexists _, _, k. split; [done|]. split.
  - apply Inv_fleet; [|done|..].
    + eapply Inv_mono; [|done]. rewrite <-app_assoc. apply ext_app.
    + intros c Hin. rewrite ->merge_sort_Permutation. by apply Hb.
    + intros w Hin. rewrite ->merge_sort_Permutation in Hin. destruct (Hw w Hin) as (c & ? & ?). exists c.
      simpl. by rewrite ->merge_sort_Permutation.
  - exists h, pods. split; [simpl; rewrite ->Hn; by rewrite <-app_assoc|]. split; [apply (inv_begun _ _ HI)|done].
Qed.

(** What is known of the snapshots. *)
Definition snapshots_ok (h : list event) (cs : list recoveryCluster) (snapshots : gmap string clusterSnapshot) : Prop :=
  (forall key sn, snapshots !! key = Some sn -> ERestJobs key (Ok (sn_jobs sn)) ∈ h /\
     exists c, c ∈ cs /\ clusterKey (rc_Namespace c) (rc_Name c) = key).

Definition covers (cs : list recoveryCluster) (snapshots : gmap string clusterSnapshot) : Prop :=
  forall c, c ∈ cs -> is_Some (snapshots !! clusterKey (rc_Namespace c) (rc_Name c)).

Lemma snapshots_ok_mono h k cs snaps : snapshots_ok h cs snaps -> snapshots_ok (h ++ k) cs snaps.
Proof. intros H key sn Hk. destruct (H key sn Hk) as [? ?]. split; [apply elem_of_app; by left|done]. Qed.

Lemma snapshots_ok_add h k cs snaps : snapshots_ok k cs snaps -> snapshots_ok (h ++ k) cs snaps.
Proof. intros H key sn Hk. destruct (H key sn Hk) as [? ?]. split; [apply elem_of_app; by right|done]. Qed.

Lemma k_snapshots cs done_ snaps h pre k0 : Good h -> h = pre ++ k0 -> snapshots_ok k0 (done_ ++ cs) snaps ->
  covers done_ snaps ->
  K (slurmSnapshots cs snaps) h (fun snaps' h' => exists k, h' = pre ++ k /\ snapshots_ok k (done_ ++ cs) snaps' /\
    covers (done_ ++ cs) snaps').
Proof.
  revert done_ snaps h k0. induction cs as [|c cs IH]; intros done_ snaps h k0 Hg E Hs Hc; cbn [slurmSnapshots].
  { apply keeps_ret; [done|]. exists k0. by rewrite ->app_nil_r in *. }
  eapply keeps_bind_ext with (P := fun _ _ => True); [by apply keeps_observe|]. intros a h1 Hg1 [_ [k1 ->]] _.
  destruct a as [cl|o]; [|by apply keeps_throw]. destruct (negb _); [by apply keeps_throw|].
  eapply keeps_bind_ext with (P := fun _ _ => True); [by apply keeps_observe|]. intros jwt h2 Hg2 [_ [k2 ->]] _.
  destruct (negb jwt); [by apply keeps_throw|].
  eapply keeps_bind_ext with (P := fun _ _ => True); [by apply keeps_observe|]. intros nodes h3 Hg3 [_ [k3 ->]] _.
  destruct nodes as [nodes|e]; [|by apply keeps_throw].
  set (key := clusterKey (rc_Namespace c) (rc_Name c)).
  eapply keeps_bind_ext with (P := fun a h' => h' = (((h ++ k1) ++ k2) ++ k3) ++ [ERestJobs key a]); [by apply keeps_observe|].
  intros jobs h4 Hg4 _ ->. destruct jobs as [jobs|e]; [|by apply keeps_throw].
  set (k4 := (((k0 ++ k1) ++ k2) ++ k3) ++ [ERestJobs key (Ok jobs)]).
  specialize (IH (done_ ++ [c]) (<[key := MkSnapshot cl nodes jobs]> snaps) _ k4 Hg4).
  rewrite <-(app_assoc done_ [c] cs) in IH. simpl in IH. apply IH.
  - unfold k4. by rewrite ->E, !app_assoc.
  - unfold k4. intros k sn Hk. destruct (decide (k = key)) as [->|Hne].
    + rewrite ->lookup_insert_eq in Hk. simplify_eq/=. split; [apply snoc_in|]. exists c. split; [|done].
      apply elem_of_app. right. by left.
    + rewrite ->lookup_insert_ne in Hk by done.
      pose proof (snapshots_ok_mono _ (k1 ++ k2 ++ k3 ++ [ERestJobs key (Ok jobs)]) _ _ Hs) as Hs'.
      rewrite ->!app_assoc in Hs'. by destruct (Hs' k sn Hk).
  - intros c' [Hin| ->%list_elem_of_singleton]%elem_of_app; fold key.
    + destruct (decide (clusterKey (rc_Namespace c') (rc_Name c') = key)) as [->|Hne].
      * rewrite ->lookup_insert_eq. by eexists.
      * rewrite ->lookup_insert_ne by done. by apply Hc.
    + rewrite ->lookup_insert_eq. by eexists.
Qed.

Lemma new_job_key c root : job_key (new_job (clusterKey (rc_Namespace c) (rc_Name c)) root) =
  clusterKey (rc_Namespace c) (rc_Name c).
Proof.
  destruct (cut_on_is_Some "/" (rc_Namespace c) (rc_Name c)) as [[x y] Hcut].
  change (cut_on "/" (clusterKey (rc_Namespace c) (rc_Name c)) = Some (x, y)) in Hcut.
  unfold new_job. rewrite ->Hcut. apply cut_on_Some in Hcut. by rewrite ->Hcut.
Qed.

Lemma new_job_id key root : rj_ID (new_job key root) = root.
Proof. unfold new_job. by destruct (default _ _). Qed.

(** Jobs are only added for the clusters of the state. *)
Definition jobs_ok (h : list event) (s : recoveryState) (js : list recoveryJob) : Prop :=
  forall j, j ∈ js -> job_ok h j /\ has_cluster s (job_key j).

Lemma add_job_ok h s c js changed j : c ∈ Clusters s -> jobs_ok h s js ->
  jobs_ok h s (fst (add_job s (clusterKey (rc_Namespace c) (rc_Name c)) (js, changed) j)).
Proof.
  intros Hc Hj. unfold add_job. destruct (_ || _); [done|]. destruct (existsb _ _); [done|].
  simpl. intros j' [Hin| ->%list_elem_of_singleton]%elem_of_app; [by apply Hj|]. split.
  - unfold new_job. destruct (default _ _) as [ns name]. by split_and!.
  - exists c. split; [done|]. by rewrite ->new_job_key.
Qed.

(** The job [id] of the cluster [key] is among [js]. *)
Definition has_job (key : string) (id : Z) (js : list recoveryJob) : Prop :=
  exists i, i ∈ js /\ job_key i = key /\ rj_ID i = id.

Lemma add_job_keeps s key id key' st j : has_job key id (fst st) -> has_job key id (fst (add_job s key' st j)).
Proof.
  intros (i & Hi & ?). exists i. split; [|done]. destruct st as [js changed]. unfold add_job.
  destruct (_ || _); [done|]. destruct (existsb _ _); [done|]. simpl in *. apply elem_of_app. by left.
Qed.

Lemma add_job_adds s c st j : Terminal j = false ->
  UsesAnyNode j (workerNames s (clusterKey (rc_Namespace c) (rc_Name c))) = true ->
  has_job (clusterKey (rc_Namespace c) (rc_Name c)) (RootID j)
    (fst (add_job s (clusterKey (rc_Namespace c) (rc_Name c)) st j)).
Proof.
  intros Ht Hu. destruct st as [js changed]. unfold add_job. rewrite ->Ht, Hu. simpl.
  destruct (existsb _ _) eqn:E.
  - apply existsb_exists in E as (i & Hi%list_elem_of_In & Hk). bool_hyps. exists i. by split_and!.
  - eexists. split; [apply elem_of_app; right; by left|]. split; [apply new_job_key|apply new_job_id].
Qed.

(** Every job of the snapshots that uses a worker is among the jobs. *)
Definition affected (s : recoveryState) (snaps : gmap string clusterSnapshot) : Prop :=
  forall key sn j, snaps !! key = Some sn -> j ∈ sn_jobs sn -> Terminal j = false ->
    UsesAnyNode j (workerNames s key) = true -> has_job key (RootID j) (s_Jobs s).

Lemma add_affected_ok h k s snaps : Inv h s -> early (Phase s) -> snapshots_ok k (Clusters s) snaps ->
  exists js, fst (addAffectedJobs s snaps) = set_jobs js s /\ Inv h (set_jobs js s) /\ affected (set_jobs js s) snaps.
Proof.
  intros HI He Hs. unfold addAffectedJobs.
  set (f := fun st e => foldl (add_job s (fst e)) st (sn_jobs (snd e))).
  assert (forall e, e ∈ map_to_list snaps -> has_cluster s (fst e)) as Hl.
  { intros [key sn] Hin%elem_of_map_to_list. destruct (Hs key sn Hin) as [_ ?]. done. }
  assert (forall l st, (forall e, e ∈ l -> has_cluster s (fst e)) -> jobs_ok h s (fst st) ->
    jobs_ok h s (fst (foldl f st l))) as Hloop.
  { induction l as [|e l IH]; intros st Hl' Hst; simpl; [done|]. apply IH; [intros; apply Hl'; by right|].
    destruct (Hl' e ltac:(by left)) as (c & Hc & Hk). unfold f. rewrite <-Hk. generalize (sn_jobs (snd e)). intros jobs.
    revert st Hst. induction jobs as [|j jobs IHj]; intros st Hst; simpl; [done|]. apply IHj.
    destruct st as [js ch]. by apply add_job_ok. }
  assert (jobs_ok h s (fst (foldl f (s_Jobs s, false) (map_to_list snaps)))) as Hok.
  { apply Hloop; [done|]. intros j' Hj'. destruct HI. split; auto. }
  assert (forall key sn j, snaps !! key = Some sn -> j ∈ sn_jobs sn -> Terminal j = false ->
    UsesAnyNode j (workerNames s key) = true ->
    has_job key (RootID j) (fst (foldl f (s_Jobs s, false) (map_to_list snaps)))) as Haff.
  { intros key sn j Hk Hj Ht Hu. apply elem_of_map_to_list in Hk. destruct (Hl _ Hk) as (c & Hc & Ec). simpl in Ec.
    subst key. apply (foldl_reach f (fun st => has_job _ _ (fst st)) _ _ _ Hk).
    - intros st. apply (foldl_reach _ (fun st => has_job _ _ (fst st)) _ j); [done| |].
      + intros st'. by apply add_job_adds.
      + intros st' y _. apply add_job_keeps.
    - intros st e _. unfold f. generalize (sn_jobs (snd e)). intros jobs Hst. revert st Hst.
      induction jobs as [|y jobs IHj]; intros st Hst; simpl; [done|]. by apply IHj, add_job_keeps. }
  destruct (foldl _ _ _) as [js changed]. simpl in *. eexists. split; [done|]. split.
  - apply Inv_jobs; [done..|]. intros j Hj. rewrite ->merge_sort_Permutation in Hj. by apply Hok.
  - intros key sn j Hk Hj Ht Hu. destruct (Haff key sn j Hk Hj Ht Hu) as (i & ? & ?). exists i. simpl.
    by rewrite ->merge_sort_Permutation.
Qed.

Lemma k_drain incident ws snaps h : Good h -> K (drainRecoveryWorkers incident ws snaps) h (fun _ _ => True).
Proof.
  revert h. induction ws as [|w ws IH]; intros h Hg; simpl; [by apply keeps_ret|].
  eapply keeps_bind_ext with (P := fun _ _ => True); [|intros; by apply IH].
  destruct (snapshot_node _ _ _) as [node|]; [|by apply keeps_ret]. destruct (Workers.drained node); [by apply keeps_ret|].
  eapply keeps_mono_ext; [by apply k_rest|done].
Qed.

(** ** Signalling and requeueing *)

(** The state with the job at hand in its place. *)
Definition at_job (h : list event) (s : recoveryState) (before : list recoveryJob) (j : recoveryJob)
    (after : list recoveryJob) : Prop :=
  Inv h (set_jobs (before ++ j :: after) s) /\ early (Phase s).

Lemma at_job_mono h h' s before j after : h ⊑ h' -> at_job h s before j after -> at_job h' s before j after.
Proof. intros Hs [? ?]. split; [by eapply Inv_mono|done]. Qed.

Lemma at_job_ok h s before j after : at_job h s before j after -> job_ok h j.
Proof. intros [HI _]. apply (inv_jobs _ _ HI). simpl. apply elem_of_app. right. by left. Qed.

Lemma at_job_replace h s before j after j' : at_job h s before j after -> job_key j' = job_key j -> job_ok h j' ->
  at_job h s before j' after.
Proof.
  intros [HI He] Hk Hok. split; [|done].
  apply (Inv_jobs h (set_jobs (before ++ j :: after) s)); [done|done|].
  intros x [Hx|[-> |Hx]%elem_of_cons]%elem_of_app.
  - split; [apply (inv_jobs _ _ HI)|apply (inv_clusters _ _ HI)]; simpl; apply elem_of_app; by left.
  - split; [done|]. rewrite ->Hk. apply (inv_clusters _ _ HI). simpl. apply elem_of_app. right. by left.
  - split; [apply (inv_jobs _ _ HI)|apply (inv_clusters _ _ HI)]; simpl; apply elem_of_app; right; by right.
Qed.

Lemma k_save_job h s before j after j' : Good h -> at_job h s before j after -> job_key j' = job_key j ->
  (forall o, job_ok (h ++ [ESave (set_jobs (before ++ j' :: after) s) o]) j') ->
  K (save_job oversized s before j' after) h (fun _ h' => at_job h' s before j' after).
Proof.
  intros Hg Hat Hk Hok. unfold save_job.
  assert (forall o, at_job (h ++ [ESave (set_jobs (before ++ j' :: after) s) o]) s before j' after) as Hat'.
  { intros o. eapply at_job_replace; [eapply at_job_mono; [apply ext_snoc|done]|done|done]. }
  eapply keeps_mono_ext; [apply k_save; [done|]; intros o; by apply Hat'|].
  intros ? h' Hs [o ->]. apply (Hat' o).
Qed.

(** The same when the job needs no more evidence than there is. *)
Lemma k_save_job_ok h s before j after j' : Good h -> at_job h s before j after -> job_key j' = job_key j ->
  job_ok h j' -> K (save_job oversized s before j' after) h (fun _ h' => at_job h' s before j' after).
Proof.
  intros Hg Hat Hk Hok. eapply k_save_job; [done..|]. intros o. eapply job_ok_mono; [apply ext_snoc|done].
Qed.

Lemma request_signal_ok h s before j after t o : ENow t ∈ h -> SignalSent j = false -> job_ok h j ->
  job_ok (h ++ [ESave (set_jobs (before ++ mark_signal_requested t j :: after) s) o]) (mark_signal_requested t j).
Proof.
  intros Ht Hs (H1 & H2 & H3). split_and!; simpl.
  - intros t' [= <-]. eexists _, o, _, t. split_and!; [apply snoc_in|..].
    + simpl. apply elem_of_app. right. by left.
    + done.
    + done.
    + done.
    + apply elem_of_app. by left.
    + by left.
  - congruence.
  - intros Hc. eapply checkpointed_mono; [apply ext_snoc|by apply H3].
Qed.

Lemma k_signal_job s snaps before j after h : Good h -> at_job h s before j after ->
  K (signal_job oversized s snaps before j after) h (fun j' h' => at_job h' s before j' after).
Proof.
  intros Hg Hat. unfold signal_job. pose proof (at_job_ok _ _ _ _ _ Hat) as Hok.
  destruct (jobEvacuated _ _ _).
  { eapply keeps_bind_ext; [by apply (k_save_job_ok _ _ _ _ _ (mark_evacuated j) Hg Hat)|].
    intros ? h1 Hg1 _ H1. by apply keeps_ret. }
  destruct (SignalSent j) eqn:Es; [by apply keeps_ret|].
  eapply keeps_bind_ext with (P := fun j1 h1 => at_job h1 s before j1 after /\ is_Some (SignalRequestedAt j1)).
  { destruct (SignalRequestedAt j) as [t0|] eqn:Et; [apply keeps_ret; [done|]; split; [done|by rewrite ->Et]|].
    eapply keeps_bind_ext; [by apply k_now|]. intros t h1 Hg1 Hs1 Ht.
    eapply keeps_bind_ext.
    - apply (k_save_job h1 s before j after (mark_signal_requested t j) Hg1); [by eapply at_job_mono|done|].
      intros o. apply request_signal_ok; [done|done|by eapply job_ok_mono].
    - intros ? h2 Hg2 _ H2. apply keeps_ret; [done|]. split; [done|by eexists]. }
  intros j1 h1 Hg1 _ [Hat1 [t1 Ht1]]. pose proof (at_job_ok _ _ _ _ _ Hat1) as Hok1.
  eapply keeps_bind_ext.
  { apply k_rest; [done|]. intros a. exists t1. eapply signal_time_mono; [apply ext_snoc|]. by apply Hok1. }
  intros ? h2 Hg2 Hs2 Hsig. apply (at_job_mono _ h2) in Hat1; [|done].
  eapply keeps_bind_ext.
  - apply (k_save_job_ok h2 s before j1 after (mark_signal_sent j1) Hg2 Hat1); [done|].
    destruct (at_job_ok _ _ _ _ _ Hat1) as (H1 & H2 & H3). by split_and!.
  - intros ? h3 Hg3 _ H3. by apply keeps_ret.
Qed.

Lemma k_signal_jobs s snaps before todo h : Good h -> Inv h (set_jobs (before ++ todo) s) -> early (Phase s) ->
  K (signalJobs oversized s snaps before todo) h (fun s' h' => Inv h' s' /\ exists js, s' = set_jobs js s).
Proof.
  revert before h. induction todo as [|j todo IH]; intros before h Hg HI He; cbn [signalJobs].
  { apply keeps_ret; [done|]. rewrite ->app_nil_r in HI. split; [done|by eexists]. }
  eapply keeps_bind_ext; [by apply (k_signal_job s snaps before j todo)|].
  intros j' h1 Hg1 _ [HI1 _]. apply IH; [done| |done]. by rewrite <-app_assoc.
Qed.

Lemma k_look s snaps before j after t h : Good h -> at_job h s before j after -> SignalRequestedAt j = Some t ->
  K (look_for_checkpoint oversized decode_marker s snaps before j after t) h
    (fun j' h' => at_job h' s before j' after /\ (j' = j \/ j' = mark_checkpoint_seen j)).
Proof.
  intros Hg Hat Ht. unfold look_for_checkpoint. destruct (_ || _); [apply keeps_ret; [done|]; split; [done|by left]|].
  unfold checkpointCommittedSince.
  eapply keeps_bind_ext with (P := fun seen h1 => seen = Some true -> checkpointed h1 (job_key j) (rj_ID j)).
  { eapply keeps_bind_ext with (P := fun l h' => EListMarkers (job_key j) l ∈ h');
      [apply keeps_observe; [done..|]; intros; apply snoc_in|].
    intros listing h1 Hg1 Hs1 Hl. apply keeps_ret; [done|]. intros Hc.
    destruct listing as [objects|]; [|done]. destruct (committed_found _ _ _ _ Hc) as (o & data & Ho).
    exists t, objects, o, data. split; [|by split].
    eapply signal_time_mono; [done|]. by apply (at_job_ok _ _ _ _ _ Hat). }
  intros seen_ h1 Hg1 Hs1 Hseen. apply (at_job_mono _ h1) in Hat; [|done].
  destruct seen_ as [[]|]; [|by apply keeps_ret; [done|]; split; [done|by left]..].
  eapply keeps_bind_ext.
  - apply (k_save_job_ok h1 s before j after (mark_checkpoint_seen j) Hg1 Hat); [done|].
    destruct (at_job_ok _ _ _ _ _ Hat) as (H1 & H2 & H3). split_and!; [done|done|]. intros _. by apply Hseen.
  - intros ? h2 Hg2 _ H2. apply keeps_ret; [done|]. split; [done|by right].
Qed.

Lemma k_requeue s before j after h : Good h -> at_job h s before j after ->
  requeue_allowed h (job_key j) (rj_ID j) ->
  K (requeue_job oversized s before j after) h (fun j' h' => at_job h' s before j' after).
Proof.
  intros Hg Hat Hr. unfold requeue_job.
  eapply keeps_bind_ext with (P := fun j1 h1 => at_job h1 s before j1 after /\ job_key j1 = job_key j /\ rj_ID j1 = rj_ID j).
  { destruct (RequeueRequestedAt j) as [t0|]; [by apply keeps_ret|].
    eapply keeps_bind_ext; [by apply k_now|]. intros t h1 Hg1 Hs1 _. apply (at_job_mono _ h1) in Hat; [|done].
    eapply keeps_bind_ext.
    - apply (k_save_job_ok h1 s before j after (mark_requeue_requested t j) Hg1 Hat); [done|].
      by destruct (at_job_ok _ _ _ _ _ Hat) as (H1 & H2 & H3).
    - intros ? h2 Hg2 _ H2. by apply keeps_ret. }
  intros j1 h1 Hg1 Hs1 (Hat1 & Hk & Hi). rewrite <-Hk, <-Hi in Hr.
  eapply keeps_bind_ext.
  { apply k_rest; [done|]. intros a. eapply requeue_allowed_mono; [|exact Hr]. etrans; [done|apply ext_snoc]. }
  intros ? h2 Hg2 Hs2 _. apply (at_job_mono _ h2) in Hat1; [|done].
  eapply keeps_bind_ext.
  - apply (k_save_job_ok h2 s before j1 after (mark_requeue_sent j1) Hg2 Hat1); [done|].
    by destruct (at_job_ok _ _ _ _ _ Hat1) as (H1 & H2 & H3).
  - intros ? h3 Hg3 _ H3. by apply keeps_ret.
Qed.

(** A job is requeued after a checkpoint, or when the grace period is over. *)
Lemma k_checkpoint_job s snaps before j after h : Good h -> at_job h s before j after ->
  K (checkpoint_job oversized decode_marker s snaps before j after) h
    (fun step h' => forall j' e, step = Some (j', e) -> at_job h' s before j' after).
Proof.
  intros Hg Hat. unfold checkpoint_job. pose proof (at_job_ok _ _ _ _ _ Hat) as Hok.
  destruct (jobEvacuated _ _ _).
  { destruct (Evacuated j); [apply keeps_ret; [done|]; by intros ? ? [= <- <-]|].
    eapply keeps_bind_ext; [by apply (k_save_job_ok _ _ _ _ _ (mark_evacuated j) Hg Hat)|].
    intros ? h1 Hg1 _ H1. apply keeps_ret; [done|]. by intros ? ? [= <- <-]. }
  destruct (SignalRequestedAt j) as [t|] eqn:Et; [|by apply keeps_ret].
  destruct (SignalSent j) eqn:Es; [|by apply keeps_ret]. simpl negb. cbv iota.
  eapply keeps_bind_ext; [by apply (k_look s snaps before j after t)|]. intros j1 h1 Hg1 Hs1 [Hat1 Hj1].
  assert (job_key j1 = job_key j /\ rj_ID j1 = rj_ID j /\ SignalRequestedAt j1 = Some t /\ SignalSent j1 = true)
    as (Hk & Hi & Ht1 & Hs) by (by destruct Hj1 as [->| ->]).
  pose proof (at_job_ok _ _ _ _ _ Hat1) as (Ho1 & Ho2 & Ho3).
  eapply keeps_bind_ext with (P := fun wait h2 => wait = false ->
    requeue_allowed h2 (job_key j1) (rj_ID j1)).
  { destruct (CheckpointSeen j1) eqn:Ec.
    - apply keeps_ret; [done|]. intros _. split; [by apply Ho2|left; by apply Ho3].
    - eapply keeps_bind_ext; [by apply k_now|]. intros t2 h2 Hg2 Hs2 Ht2. apply keeps_ret; [done|]. intros Hw. bool_hyps.
      split; [by apply Hs2, Ho2|]. right. exists t, t2. split_and!; [|done|lia].
      eapply signal_time_mono; [done|by apply Ho1]. }
  intros wait h2 Hg2 Hs2 Hw. apply (at_job_mono _ h2) in Hat1; [|done].
  destruct (wait || RequeueSent j1) eqn:Ew; [apply keeps_ret; [done|]; by intros ? ? [= <- <-]|]. bool_hyps.
  eapply keeps_bind_ext; [apply (k_requeue s before j1 after); [done|done|by apply Hw]|].
  intros j2 h3 Hg3 _ H3. apply keeps_ret; [done|]. by intros ? ? [= <- <-].
Qed.

Lemma k_checkpoint s snaps before todo all h : Good h -> Inv h (set_jobs (before ++ todo) s) -> early (Phase s) ->
  K (checkpointAndRequeue oversized decode_marker s snaps before todo all) h (fun res h' =>
    snd res = true -> Inv h' (fst res) /\ exists js, fst res = set_jobs js s).
Proof.
  revert before all h. induction todo as [|j todo IH]; intros before all h Hg HI He; cbn [checkpointAndRequeue].
  { apply keeps_ret; [done|]. rewrite ->app_nil_r in HI. intros _. split; [done|by eexists]. }
  eapply keeps_bind_ext; [by apply (k_checkpoint_job s snaps before j todo)|].
  intros step h1 Hg1 _ Hstep. destruct step as [[j' e]|]; [|by apply keeps_ret].
  destruct (Hstep j' e eq_refl) as [HI1 _]. apply IH; [done| |done]. by rewrite <-app_assoc.
Qed.

(** ** Removing the workers *)

Lemma k_delete_nodes ws snaps h : Good h -> K (delete_slurm_nodes ws snaps) h (fun _ _ => True).
Proof.
  revert h. induction ws as [|w ws IH]; intros h Hg; simpl; [by apply keeps_ret|].
  eapply keeps_bind_ext with (P := fun _ _ => True); [|intros; by apply IH].
  destruct (snapshot_node _ _ _); [|by apply keeps_ret]. eapply keeps_mono_ext; [by apply k_rest|done].
Qed.

Lemma k_remove_worker w h : Good h ->
  K (remove_worker w) h (fun gone h' => gone = true -> exists k, h' = h ++ k /\ worker_gone k w).
Proof.
  intros Hg. unfold remove_worker.
  eapply keeps_bind_ext with (P := fun a h' => h' = h ++ [EGetPod (rw_Namespace w) (rw_Name w) a]); [by apply keeps_observe|].
  intros a h1 Hg1 Hs1 ->. destruct a as [pod|[]]; try (by apply keeps_throw).
  - eapply keeps_bind_ext with (P := fun _ _ => True).
    { destruct (bool_decide _); [|by apply keeps_ret]. eapply keeps_mono_ext; [by apply k_must|done]. }
    intros ? h2 Hg2 _ _. eapply keeps_bind_ext with (P := fun _ _ => True); [|intros; by apply keeps_ret].
    destruct (kp_Deleting pod); [by apply keeps_ret|]. eapply keeps_mono_ext; [by apply k_must|done].
  - destruct (_ =? _)%string eqn:Ec; bool_hyps.
    { apply keeps_ret; [done|]. intros _. eexists. split; [done|]. split; [by left|done]. }
    eapply keeps_bind_ext with (P := fun o h' => h' = (h ++ [EGetPod (rw_Namespace w) (rw_Name w) (Err NotFound)])
      ++ [EDeleteClaim (rw_Namespace w) (rw_Claim w) o]); [by apply keeps_observe|].
    intros o h2 Hg2 Hs2 ->. destruct o; try (by apply keeps_throw); apply keeps_ret; try done.
    intros _. eexists. split; [by rewrite <-app_assoc|]. split; [by left|]. intros _. right. by left.
Qed.

Lemma k_remove_workers ws complete h : Good h ->
  K (remove_workers ws complete) h (fun all h' => all = true ->
    complete = true /\ exists k, h' = h ++ k /\ forall w, w ∈ ws -> worker_gone k w).
Proof.
  revert complete h. induction ws as [|w ws IH]; intros complete h Hg; cbn [remove_workers].
  { apply keeps_ret; [done|]. intros ->. split; [done|]. exists []. split; [by rewrite ->app_nil_r|].
    intros w Hw. by apply not_elem_of_nil in Hw. }
  eapply keeps_bind_ext; [by apply k_remove_worker|]. intros gone h1 Hg1 _ Hw.
  eapply keeps_mono_ext; [by apply IH|]. intros all h2 Hs2 Hall Hall'. destruct (Hall Hall') as [Hc (k2 & -> & Hrest)].
  bool_hyps. split; [done|]. destruct (Hw ltac:(done)) as (k1 & -> & Hk1). exists (k1 ++ k2).
  split; [by rewrite <-app_assoc|]. intros w' [-> |Hin]%elem_of_cons.
  - eapply worker_gone_mono; [apply ext_app|done].
  - destruct (Hrest w' Hin) as [Hp Hcl]. split; [apply elem_of_app; by right|].
    intros Hn. apply elem_of_app. right. by apply Hcl.
Qed.

(** When all jobs of the incident have left, none runs on a worker. *)
Lemma workers_idle h s snaps w : Inv h s -> affected s snaps -> covers (Clusters s) snaps ->
  forallb (fun j => jobEvacuated j s (snapshot_jobs snaps (job_key j))) (s_Jobs s) = true -> w ∈ s_Workers s ->
  forall after, snapshots_ok after (Clusters s) snaps -> worker_idle after s w.
Proof.
  intros HI Haff Hcov Hev Hw after Hsn. destruct (inv_workers _ _ HI w Hw) as (c & Hc & Hk).
  destruct (Hcov c Hc) as [sn Hsn']. rewrite ->Hk in Hsn'.
  exists (sn_jobs sn). split; [by apply (Hsn _ _ Hsn')|]. intros j Hj Hp Ht.
  destruct (UsesAnyNode j _) eqn:Hu; [|done]. exfalso.
  destruct (Haff _ _ _ Hsn' Hj Ht Hu) as (i & Hi & Hik & Hid).
  rewrite ->List.forallb_forall in Hev. apply list_elem_of_In in Hi. specialize (Hev i Hi). simpl in Hev.
  unfold jobEvacuated, snapshot_jobs in Hev. rewrite ->Hik, Hsn' in Hev.
  destruct (existsb _ _) eqn:Ex; [done|]. rewrite <-not_true_iff_false in Ex. apply Ex, existsb_exists. exists j.
  split; [|done]. apply filter_In. split; [by apply list_elem_of_In|]. rewrite ->Hid, Hp, Ht, Z.eqb_refl. done.
Qed.

Lemma jobs_evacuated h s snaps j after : Inv h s -> covers (Clusters s) snaps -> snapshots_ok after (Clusters s) snaps ->
  forallb (fun j => jobEvacuated j s (snapshot_jobs snaps (job_key j))) (s_Jobs s) = true -> j ∈ s_Jobs s ->
  exists jobs, ERestJobs (job_key j) (Ok jobs) ∈ after /\ jobEvacuated j s jobs = true.
Proof.
  intros HI Hcov Hsn Hev Hj. rewrite ->List.forallb_forall in Hev. apply list_elem_of_In in Hj as Hj'.
  specialize (Hev j Hj'). simpl in Hev. destruct (inv_clusters _ _ HI j Hj) as (c & Hc & Hk).
  destruct (Hcov c Hc) as [sn Hsn']. rewrite ->Hk in Hsn'. unfold snapshot_jobs in Hev. rewrite ->Hsn' in Hev.
  exists (sn_jobs sn). split; [|done]. by apply (Hsn _ _ Hsn').
Qed.

Lemma k_cleanup s snaps h after : Good h -> Inv h s -> listed h s after -> snapshots_ok after (Clusters s) snaps ->
  covers (Clusters s) snaps -> affected s snaps ->
  K (cleanupEvacuatedWorkers s snaps) h (fun complete h' => complete = true -> evacuated h' s).
Proof.
  intros Hg HI Hl Hsn Hcov Haff. unfold cleanupEvacuatedWorkers. destruct (negb _) eqn:Ej; [by apply keeps_ret|]. bool_hyps.
  eapply keeps_bind_ext; [by apply k_delete_nodes|]. intros ? h1 Hg1 Hs1 _.
  eapply keeps_mono_ext; [by apply k_remove_workers|]. intros all h2 Hs2 Hall Ht.
  destruct (Hall Ht) as [_ (k2 & -> & Hw)].
  destruct (listed_mono _ _ _ _ Hs1 Hl) as (k1 & E1 & before & pods & E & Hb & Hc).
  exists before, pods, ((after ++ k1) ++ k2). split; [rewrite ->E; by rewrite <-app_assoc|].
  apply (snapshots_ok_mono _ k1) in Hsn. apply (snapshots_ok_mono _ k2) in Hsn. split_and!; [done|done| |].
  - intros w Hin. split; [|by eapply workers_idle].
    destruct (Hw w Hin) as [Hp Hcl]. split; [apply elem_of_app; by right|]. intros Hn. apply elem_of_app. right. by apply Hcl.
  - intros j Hj. by eapply jobs_evacuated.
Qed.

Lemma k_phase n s snaps h after : Good h -> paired h n s -> Inv h s -> early (Phase s) ->
  listed h s after -> snapshots_ok after (Clusters s) snaps -> covers (Clusters s) snaps -> affected s snaps ->
  K (reconcile_phase r oversized decode_marker n s snaps) h (fun _ _ => True).
Proof.
  intros Hg Hp HI He Hl Hsn Hcov Haff. unfold reconcile_phase.
  assert (Inv h (set_jobs ([] ++ s_Jobs s) s)) as HI0 by (by destruct s).
  destruct (Phase s) eqn:Ep; try (by apply keeps_ret).
  - eapply keeps_bind_ext; [apply k_set_phase; [done..|]|intros; by apply keeps_ret].
    intros h' t Hs. apply Inv_early; [by eapply Inv_mono|rewrite ->Ep; phases; auto|right; by left].
  - eapply keeps_bind_ext; [apply k_signal_jobs; [done|done|by rewrite ->Ep]|].
    intros s' h1 Hg1 Hs1 [HI1 [js ->]].
    eapply keeps_bind_ext; [apply k_set_phase; [done|by eapply paired_mono|]|intros; by apply keeps_ret].
    intros h' t Hs. apply Inv_early; [by eapply Inv_mono|simpl; by rewrite ->Ep|].
    simpl. destruct js; unfold early; auto.
  - eapply keeps_bind_ext; [apply k_checkpoint; [done|done|by rewrite ->Ep]|].
    intros [s' complete] h1 Hg1 Hs1 Hc. destruct complete; [|by apply keeps_ret].
    destruct (Hc eq_refl) as [HI1 [js Hjs]]. simpl in HI1, Hjs. subst s'.
    eapply keeps_bind_ext; [apply k_set_phase; [done|by eapply paired_mono|]|intros; by apply keeps_ret].
    intros h' t Hs. apply Inv_early; [by eapply Inv_mono|simpl; by rewrite ->Ep|unfold early; auto].
  - eapply keeps_bind_ext; [by eapply k_cleanup|]. intros complete h1 Hg1 Hs1 Hc. destruct complete; [|by apply keeps_ret].
    eapply keeps_bind_ext; [by apply k_now|]. intros t h2 Hg2 Hs2 _.
    assert (h ⊑ h2) as Hs by (by etrans).
    eapply keeps_bind_ext; [apply k_set_phase; [done|by eapply paired_mono|]|intros; by apply k_record].
    intros h' t' Hs'. apply Inv_reboot; [eapply Inv_mono; [|done]; by etrans|done|].
    eapply evacuated_mono; [|by apply Hc]. by etrans.
Qed.

Lemma k_evacuation n s h : Good h -> paired h n s -> Inv h s -> early (Phase s) ->
  K (reconcileEvacuation r oversized decode_marker n s) h (fun _ _ => True).
Proof.
  intros Hg Hp HI He. eapply keeps_bind_ext; [apply k_discover; [done..|by destruct Hp]|].
  intros [s1 changed] h1 Hg1 Hs1 (cs & ws & a1 & E & HI1 & Hl1). simpl in E, HI1, Hl1. subst s1.
  apply (paired_mono _ h1) in Hp; [|done].
  eapply keeps_bind_ext with (P := fun _ _ => True).
  { destruct changed; [|by apply keeps_ret]. eapply keeps_mono_ext; [by apply k_save_inv|done]. }
  intros ? h2 Hg2 Hs2 _. eapply keeps_bind_ext.
  { apply k_try, (k_snapshots _ [] ∅ h2 h2 []); [done|by rewrite ->app_nil_r| |].
    - intros key sn Hk. by rewrite ->lookup_empty in Hk.
    - intros c Hc. by apply not_elem_of_nil in Hc. }
  intros snaps h3 Hg3 Hs3 Hsn. destruct snaps as [snaps|].
  2:{ eapply keeps_bind_ext; [by apply k_record|]. intros. by apply keeps_ret. }
  destruct (Hsn snaps eq_refl) as (k3 & E3 & Hok & Hcov). simpl app in Hok, Hcov.
  assert (h1 ⊑ h3) as H13 by (by etrans). apply (Inv_mono _ h3) in HI1; [|done].
  destruct (add_affected_ok h3 k3 _ snaps HI1 He Hok) as (js & Ejs & HI3 & Haff).
  destruct (addAffectedJobs _ snaps) as [s3 added]. simpl in Ejs. subst s3.
  eapply keeps_bind_ext with (P := fun _ _ => True).
  { destruct added; [|by apply keeps_ret]. eapply keeps_mono_ext; [by apply k_save_inv|done]. }
  intros ? h4 Hg4 Hs4 _. eapply keeps_bind_ext; [by apply k_drain|]. intros ? h5 Hg5 Hs5 _.
  assert (h3 ⊑ h5) as H35 by (by etrans).
  assert (paired h5 n (set_jobs js (set_fleet cs ws s))) as Hp5.
  { eapply paired_mono; [|exact Hp]. by etrans. }
  apply (Inv_mono _ h5) in HI3; [|done].
  destruct (_ && _).
  - eapply keeps_bind_ext; [apply k_set_phase; [done|done|]|intros; by apply keeps_ret].
    intros h' t Hs. apply Inv_early; [by eapply Inv_mono|done|unfold early; auto].
  - destruct (listed_mono _ _ _ _ Hs2 Hl1) as (k2 & E2 & Hl2).
    destruct (listed_mono _ h3 _ _ Hs3 Hl2) as (k3' & E3' & Hl3). rewrite ->E3 in E3'. apply app_inv_head in E3' as <-.
    destruct (listed_mono _ _ _ _ H35 Hl3) as (k5 & E5 & Hl5).
    eapply keeps_bind_ext; [|intros; by apply keeps_ret].
    eapply k_phase; [done|done|done|done|exact Hl5| |done|done].
    by apply snapshots_ok_mono, snapshots_ok_add.
Qed.

(** ** Rebooting and verifying *)

Lemma k_ensure_object name incident get create h : Good h -> (forall h a, ok h (get a)) -> (forall h o, ok h (create o)) ->
  K (ensure_object name incident get create) h (fun _ _ => True).
Proof.
  intros Hg Ha Hc. eapply keeps_bind_ext with (P := fun _ _ => True); [by apply keeps_observe; [done|intros; apply Ha|]|].
  intros a h1 Hg1 _ _. destruct a as [v|[]]; try (by apply keeps_throw).
  - destruct (_ || _); [by apply keeps_throw|by apply keeps_ret].
  - eapply keeps_mono_ext; [by apply k_must; [done|intros; apply Hc]|done].
Qed.

Lemma k_ensure n s h : Good h ->
  K (ensureVerifierResources decode_inventory encode_profiles n s) h (fun _ _ => True).
Proof.
  intros Hg. eapply keeps_bind_ext with (P := fun _ _ => True); [by apply keeps_lift|]. intros inv h1 Hg1 _ _.
  generalize (Cells inv). intros cells. revert h1 Hg1.
  induction cells as [|c cells IH]; intros h1 Hg1; cbn [ensure_cells]; [by apply keeps_ret|].
  eapply keeps_bind_ext with (P := fun _ _ => True); [by apply keeps_lift|]. intros [requests pod] h2 Hg2 _ _.
  eapply keeps_bind_ext; [by apply k_ensure_object|]. intros ? h3 Hg3 _ _.
  eapply keeps_bind_ext; [by apply k_ensure_object|]. intros ? h4 Hg4 _ _. by apply IH.
Qed.

Lemma k_start n s since h : Good h -> paired h n s -> Inv h s -> Phase s = Rebooting -> NewBootID s <> ""%string ->
  seen h (NodeName s) n -> nodeConditionStatus n "Ready" = "True"%string ->
  K (start_verification r oversized decode_inventory encode_profiles n s since) h (fun _ _ => True).
Proof.
  intros Hg Hp HI Hph Hb Hn Hr. unfold start_verification.
  eapply keeps_bind_ext; [by apply k_now|]. intros t h1 Hg1 Hs1 _.
  apply (paired_mono _ h1) in Hp; [|done]. apply (Inv_mono _ h1) in HI; [|done]. apply (seen_mono _ h1) in Hn; [|done].
  destruct (_ <? _); [by apply keeps_ret|]. destruct (negb (inventory_published n s)) eqn:Ei; bool_hyps.
  { eapply keeps_bind_ext; [by apply k_now|]. intros t2 h2 Hg2 Hs2 _.
    destruct (_ <=? _); [|by apply keeps_ret]. apply k_manual; [done|by eapply paired_mono|by eapply Inv_mono]. }
  destruct (_ || _) eqn:Eh; [by apply k_manual|]. bool_hyps.
  unfold inventory_published in Ei. bool_hyps.
  assert (inventory_back h1 s) as Hback by (split; [done|]; by exists n).
  eapply keeps_bind_ext with (P := fun s' h2 => exists v, s' = set_verification v (VerificationPassed s) s).
  { destruct (VerificationStarted s) as [v|] eqn:Ev.
    - apply keeps_ret; [done|]. exists (Some v). rewrite <-Ev. by destruct s.
    - eapply keeps_bind_ext; [by apply k_now|]. intros t2 h2 Hg2 Hs2 _.
      eapply keeps_bind_ext; [apply k_save_inv; [done|]; apply Inv_started; by eapply Inv_mono|].
      intros ? h3 Hg3 _ _. apply keeps_ret; [done|]. by eexists. }
  intros s' h2 Hg2 Hs2 [v ->]. apply (Inv_mono _ h2) in HI; [|done]. apply (Inv_started _ _ v) in HI.
  apply (paired_mono _ h2) in Hp; [|done].
  eapply keeps_bind_ext; [by apply k_try, k_ensure|]. intros ready h3 Hg3 Hs3 _. destruct ready as [[]|].
  - eapply keeps_bind_ext; [apply k_set_phase; [done|by eapply paired_mono|]|intros; by apply keeps_ret].
    intros h' t' Hs'. apply Inv_verifying; [eapply Inv_mono; [|done]; by etrans|done|done|].
    eapply inventory_back_mono; [|exact Hback]. etrans; [done|by etrans].
  - apply k_manual; [done|by eapply paired_mono|by eapply Inv_mono].
Qed.

Lemma k_after_reboot n s h : Good h -> paired h n s -> Inv h s -> Phase s = Rebooting ->
  seen h (NodeName s) n -> bootID r n <> ""%string -> bootID r n <> PreBootID s ->
  K (after_reboot r oversized decode_inventory encode_profiles n s) h (fun _ _ => True).
Proof.
  intros Hg Hp HI Hph Hn Hb1 Hb2. unfold after_reboot.
  eapply keeps_bind_ext with (P := fun s' h1 => Inv h1 s' /\ exists b ready, s' = set_boot b ready s /\ b <> ""%string).
  { destruct (_ =? _)%string eqn:Eb; bool_hyps.
    - assert (Inv h (set_boot (bootID r n) None s)) as HI'.
      { apply Inv_set_boot; [done|done|]. right. split; [done|]. by exists n. }
      eapply keeps_bind_ext; [by apply k_save_inv|]. intros ? h1 Hg1 Hs1 _. apply keeps_ret; [done|].
      split; [by eapply Inv_mono|]. by eexists _, _.
    - apply keeps_ret; [done|]. split; [done|]. exists (NewBootID s), (ReadySince s). split; [by destruct s|done]. }
  intros s' h1 Hg1 Hs1 [HI' (b & ready & -> & Hbne)].
  assert (paired h1 n (set_boot b ready s)) as Hp' by (by eapply (paired_mono h)).
  assert (seen h1 (NodeName s) n) as Hn' by (by eapply seen_mono).
  destruct (negb _); [by apply k_manual|]. destruct (negb _) eqn:Er; bool_hyps.
  - destruct (ReadySince _); [|by apply keeps_ret].
    eapply keeps_bind_ext; [|intros; by apply keeps_ret]. apply k_try, k_save_inv; [done|].
    apply (Inv_set_boot h1 (set_boot b ready s)); [done|done|by left].
  - destruct (ReadySince _) as [since|] eqn:Es.
    + apply k_start; done.
    + eapply keeps_bind_ext; [by apply k_now|]. intros t h2 Hg2 Hs2 _.
      eapply keeps_bind_ext; [|intros; by apply keeps_ret]. apply k_save_inv; [done|].
      apply (Inv_set_boot h2 (set_boot b ready s)); [by eapply Inv_mono|done|by left].
Qed.

Lemma k_reboot n s h : Good h -> paired h n s -> Inv h s -> (Phase s = RebootRequested \/ Phase s = Rebooting) ->
  K (reconcileReboot r oversized decode_inventory encode_profiles n s) h (fun _ _ => True).
Proof.
  intros Hg Hp HI Hph. unfold reconcileReboot. eapply keeps_bind_ext; [by apply k_get_node|].
  intros a h1 Hg1 Hs1 [Ha Hname]. destruct a as [cur|o]; [|by apply keeps_throw]. specialize (Hname cur eq_refl).
  eapply keeps_bind_ext; [by apply k_now|]. intros t h2 Hg2 Hs2 _. assert (h ⊑ h2) as Hs by (by etrans).
  apply (Inv_mono _ h2) in HI; [|done].
  assert (NodeName s = kn_Name cur) as Hcur by (destruct Hp as [_ ->]; done).
  assert (seen h2 (NodeName s) cur) as Hseen.
  { destruct Hp as [_ Hpn]. unfold seen. rewrite ->Hpn. by apply Hs2. }
  assert (paired h2 cur s) as Hp'.
  { split; [|done]. intros i Hi. left. exists cur. split_and!; [done..|]. left. rewrite ->Hname. by apply Hs2. }
  destruct (_ <=? _); [by apply k_manual|].
  destruct Hph as [Hph|Hph]; rewrite ->Hph.
  - destruct (negb _) eqn:Eack; bool_hyps; [by apply keeps_ret|].
    eapply keeps_bind_ext; [apply k_set_phase; [done..|]|intros; by apply keeps_ret].
    intros h' t' Hs'. apply Inv_rebooting; [by eapply Inv_mono|done|]. exists cur. split; [|done]. by eapply seen_mono.
  - destruct (_ || _) eqn:Eb; [by apply keeps_ret|]. bool_hyps. by apply k_after_reboot.
Qed.

Definition job_succeeded (h : list event) (incident : string) (c : Cell) : Prop :=
  exists v, EGetVerifierJob (verifierName incident (NUMA c)) (Ok v) ∈ h /\ Succeeded v = 1 /\ JobFailed v = 0.

Lemma k_check_jobs incident cells all h : Good h ->
  K (check_jobs incident cells all) h (fun v h' => v = AllSucceeded ->
    all = true /\ forall c, c ∈ cells -> job_succeeded h' incident c).
Proof.
  revert all h. induction cells as [|c cells IH]; intros all h Hg; cbn [check_jobs].
  { apply keeps_ret; [done|]. destruct all; [|done]. intros _. split; [done|]. intros c Hc. by apply not_elem_of_nil in Hc. }
  eapply keeps_bind_ext with (P := fun a h' => EGetVerifierJob (verifierName incident (NUMA c)) a ∈ h');
    [apply keeps_observe; [done..|]; intros; apply snoc_in|].
  intros a h1 Hg1 _ Ha. destruct a as [v|[]]; try (by apply keeps_throw); [|by apply keeps_ret].
  destruct (negb (JobFailed v =? 0)) eqn:Ef; [by apply keeps_ret|]. bool_hyps.
  eapply keeps_mono_ext; [by apply IH|]. intros w h2 Hs2 Hw Hw'. destruct (Hw Hw') as [Hall Hcells]. bool_hyps.
  split; [done|]. intros c' [-> |Hin]%elem_of_cons; [|by apply Hcells]. exists v. split_and!; [by apply Hs2|done|done].
Qed.

Lemma k_delete_verifiers incident cells complete h : Good h ->
  K (deleteVerifierResources incident cells complete) h (fun _ _ => True).
Proof.
  revert complete h. induction cells as [|c cells IH]; intros complete h Hg; cbn [deleteVerifierResources];
    [by apply keeps_ret|].
  assert (forall mk h, Good h -> (forall h o, ok h (mk o)) ->
    K (let* o := do mk in match o with Done => ret false | NotFound => ret true | _ => throw (Kube o) end) h
      (fun _ _ => True)) as Hgone.
  { intros mk h1 Hg1 Hok. eapply keeps_bind_ext with (P := fun _ _ => True);
      [apply keeps_observe; [done|intros; apply Hok|done]|].
    intros o h2 Hg2 _ _. destruct o; try (by apply keeps_throw); by apply keeps_ret. }
  eapply keeps_bind_ext; [by apply Hgone|]. intros ? h1 Hg1 _ _.
  eapply keeps_bind_ext; [by apply Hgone|]. intros ? h2 Hg2 _ _. by apply IH.
Qed.

Lemma healthy_reboot h n : reboot_allowed h (healthy_node n).
Proof.
  intros i. unfold healthy_node; simpl.
  rewrite ->3!lookup_delete_ne by done. by rewrite ->lookup_delete_eq.
Qed.

Lemma k_healthy n h : Good h -> released h n -> reboot_allowed h n -> K (setHealthy n) h (fun _ _ => True).
Proof.
  intros Hg Hr Hn. eapply keeps_bind_ext; [apply k_patch; [done|done|right; exact Hr|done|apply healthy_reboot]|].
  intros ? h1 Hg1 _ _. by apply k_condition.
Qed.

Lemma k_verification n s raw h : Good h -> paired h n s -> NodeUID s = kn_UID n -> recorded h s -> Inv h s ->
  Phase s = Verifying -> (raw = "False"%string -> fault_off h s) ->
  K (reconcileVerification r oversized decode_inventory encode_profiles n s raw) h (fun _ _ => True).
Proof.
  intros Hg Hp Hu Hrec HI Hph Hraw. unfold reconcileVerification.
  destruct (VerificationStarted s) as [started|]; [|by apply k_manual].
  eapply keeps_bind_ext; [by apply k_now|]. intros t h1 Hg1 Hs1 _.
  apply (Inv_mono _ h1) in HI; [|done]. apply (paired_mono _ h1) in Hp; [|done].
  destruct (_ <=? _); [by apply k_manual|]. destruct (decodeRecoveryInventory _ _ _) as [inv|e] eqn:Einv; [|by apply k_manual].
  destruct (negb (VerificationPassed s)) eqn:Epass; bool_hyps.
  - eapply keeps_bind_ext; [by apply k_check_jobs|]. intros v h2 Hg2 Hs2 Hv.
    apply (Inv_mono _ h2) in HI; [|done]. apply (paired_mono _ h2) in Hp; [|done].
    destruct v; [|by apply keeps_ret|eapply keeps_bind_ext; [by apply k_ensure|intros; by apply keeps_ret]|by apply k_manual].
    destruct (negb _) eqn:Eraw; bool_hyps; [by apply keeps_ret|].
    eapply keeps_bind_ext; [|intros; by apply keeps_ret]. apply k_save_inv; [done|]. apply Inv_passed; [done|done|].
    exists inv. split_and!; [done|by apply Hv|]. eapply fault_off_mono; [|by apply Hraw]. by etrans.
  - destruct (negb _) eqn:Eraw; bool_hyps; [by apply keeps_ret|]. unfold finish_recovery.
    eapply keeps_bind_ext; [by apply k_delete_verifiers|]. intros clean h2 Hg2 Hs2 _.
    assert (h ⊑ h2) as Hs by (by etrans). apply (recorded_mono _ h2) in Hrec; [|done].
    destruct (negb clean); [by apply keeps_ret|]. apply (paired_mono _ h2) in Hp; [|done]. destruct Hp as [Hr Hn].
    eapply keeps_bind_ext; [apply k_healthy; [done| |done]|].
    + right. destruct (recorded_recovered h2 s Hg2 Hrec Hph Epass) as (s' & o & ? & En & Eu & ?).
      exists s', o. split_and!; [done|congruence|congruence|done].
    + intros ? h3 Hg3 _ _. eapply keeps_bind_ext; [by apply k_record|]. intros ? h4 Hg4 _ _.
      eapply keeps_bind_ext; [by apply k_must|]. intros. by apply keeps_ret.
Qed.

(** ** The handler *)

(** A state that belongs to the node [n]. *)
Definition owned (h : list event) (n : KNode) (s : recoveryState) : Prop :=
  Inv h s /\ recorded h s /\ NodeName s = kn_Name n /\ NodeUID s = kn_UID n.

Lemma owned_mono h h' n s : h ⊑ h' -> owned h n s -> owned h' n s.
Proof. intros Hs (? & ? & ? & ?). split_and!; [by eapply Inv_mono|by eapply recorded_mono|done..]. Qed.

Lemma k_load n h : Good h ->
  K (loadState valid_incident n) h (fun o h' =>
    (o = None -> ELoad (recoveryStateName n) LMissing ∈ h') /\ forall s, o = Some s -> owned h' n s /\ recorded h s).
Proof.
  intros Hg. eapply keeps_bind_ext with (P := fun a h' => ELoad (recoveryStateName n) a ∈ h' /\ h ⊑ h' /\
    forall s, a = LState s -> Inv h' s /\ recorded h s).
  { apply keeps_observe; [done..|]. intros e He. split_and!; [apply snoc_in|apply ext_snoc|]. intros s Hs.
    destruct (proj2 (proj2 He) _ _ _ Hs) as (s' & o & Hin & ->). split.
    - apply Inv_stored. eapply Inv_mono; [apply ext_snoc|]. exact (good_ok _ _ Hg Hin).
    - exists s', o. split; [done|by right]. }
  intros a h1 Hg1 _ (Ha & Hs1 & Hinv). destruct a as [| | |s]; try (by apply keeps_throw); [by apply keeps_ret|].
  destruct (_ || _) eqn:Ec; [by apply keeps_throw|]. bool_hyps. apply keeps_ret; [done|]. split; [done|].
  intros ? [= <-]. destruct (Hinv s eq_refl) as [HI Hrec]. split; [|done].
  split_and!; [done|by eapply recorded_mono|done|done].
Qed.

(** The first state of an incident. *)
Definition fresh (n : KNode) (s : recoveryState) : Prop :=
  NodeName s = kn_Name n /\ NodeUID s = kn_UID n /\ PreBootID s = kn_BootID n /\
  PreInventory s = note n inventoryKey /\ PreInventoryHash s = note n inventoryHashKey /\
  s_Workers s = [] /\ s_Jobs s = [] /\ NewBootID s = ""%string /\ VerificationPassed s = false.

Lemma k_new n h : Good h -> K (newRecoveryState n) h (fun s _ => fresh n s /\ Phase s = Isolated).
Proof.
  intros Hg. eapply keeps_bind_ext; [by apply k_now|]. intros t h1 Hg1 _ _.
  eapply keeps_bind_ext with (P := fun _ _ => True); [by apply keeps_ask|]. intros id h2 Hg2 _ _.
  destruct id; [by apply keeps_ret|by apply keeps_throw].
Qed.

Lemma k_begin n s h : Good h -> seen h (kn_Name n) n -> fresh n s -> (Phase s = Isolated \/ Phase s = ManualRepair) ->
  K (saveState oversized s) h (fun _ h' => owned h' n s).
Proof.
  intros Hg Hn (H1 & H2 & H3 & H4 & H5 & H6 & H7 & H8 & H9) Hph.
  assert (forall o, Inv (h ++ [ESave s o]) s) as HI.
  { intros o. apply Inv_new; [|done..]. exists h, n, s, o, []. rewrite ->H1. by split_and!. }
  eapply keeps_mono_ext; [by apply k_save|]. intros ? h' _ [o ->]. split_and!; [by apply HI| |done..].
  exists s, o. split; [apply snoc_in|by left].
Qed.

Lemma k_initial n loaded raw h : Good h -> seen h (kn_Name n) n -> (forall s, loaded = Some s -> owned h n s) ->
  K (initial_state oversized n loaded raw) h (fun o h' =>
    (o = None -> loaded = None /\ raw <> "True"%string /\ note n recoveryIncidentKey = ""%string) /\
    forall s, o = Some s -> owned h' n s /\ (loaded = Some s \/ Phase s <> Verifying)).
Proof.
  intros Hg Hn Hl. unfold initial_state. destruct loaded as [s|].
  { apply keeps_ret; [done|]. split; [done|]. intros ? [= <-]. split; [by apply Hl|by left]. }
  destruct (raw =? "True")%string eqn:Er; bool_hyps.
  { eapply keeps_bind_ext; [by apply k_new|]. intros s h1 Hg1 Hs1 [Hf Hph].
    eapply keeps_bind_ext; [apply (k_begin n); [done|by apply Hs1|done|by left]|]. intros ? h2 Hg2 _ Ho.
    apply keeps_ret; [done|]. split; [done|]. intros ? [= <-]. split; [done|right; congruence]. }
  destruct (negb _) eqn:En; bool_hyps; [|by apply keeps_ret].
  eapply keeps_bind_ext; [by apply k_new|]. intros s h1 Hg1 Hs1 [Hf Hph].
  eapply keeps_bind_ext; [apply (k_begin n); [done|by apply Hs1|exact Hf|by right]|]. intros ? h2 Hg2 _ Ho.
  apply keeps_ret; [done|]. split; [done|]. intros ? [= <-]. split; [done|by right].
Qed.

Lemma k_request n s raw h : Good h -> seen h (kn_Name n) n -> owned h n s ->
  K (manual_request valid_incident oversized n s raw) h (fun s' h' => owned h' n s' /\ (s' = s \/ Phase s' <> Verifying)).
Proof.
  intros Hg Hn Ho. unfold manual_request. destruct (_ && _); [|apply keeps_ret; [done|]; split; [done|by left]].
  eapply keeps_bind_ext; [by apply k_new|]. intros s1 h1 Hg1 Hs1 [Hf Hph].
  eapply keeps_bind_ext; [apply (k_begin n); [done|by apply Hs1|exact Hf|by left]|]. intros ? h2 Hg2 _ Ho2.
  apply keeps_ret; [done|]. split; [done|]. right. simpl. congruence.
Qed.

(** A state read back in phase [Verifying] was written before the Node was
    read. *)
Lemma fault_off_read h name n s : recorded (h ++ [EGetNode name (Ok n)]) s -> Phase s = Verifying -> NodeName s = name ->
  nodeConditionStatus n hardwareFaultCondition = "False"%string -> fault_off (h ++ [EGetNode name (Ok n)]) s.
Proof.
  intros (s' & o & Hin & Hs) Hph <- Hf. apply elem_of_app in Hin as [Hin|Hin]; [|by apply list_elem_of_singleton in Hin].
  exists h, n, [], s', o. split_and!; [done|done|..|done]; by destruct Hs as [->| ->].
Qed.

Lemma k_reconcile name h : Good h ->
  K (Reconcile r valid_incident oversized decode_inventory decode_marker encode_profiles name) h (fun _ _ => True).
Proof.
  intros Hg. unfold Reconcile.
  eapply keeps_bind_ext with (P := fun a h1 => h1 = h ++ [EGetNode name a] /\ forall n, a = Ok n -> kn_Name n = name).
  { apply keeps_observe; [done..|]. intros e He. split; [done|]. intros n. apply He. }
  intros a h1 Hg1 _ [-> Hname].
  destruct a as [n|[]]; try (by apply keeps_throw); [|by apply keeps_ret]. specialize (Hname n eq_refl).
  set (h1 := h ++ [EGetNode name (Ok n)]) in *.
  assert (seen h1 (kn_Name n) n) as Hseen by (unfold seen; rewrite ->Hname; apply snoc_in).
  eapply keeps_bind_ext; [by apply k_load|]. intros loaded h2 Hg2 Hs2 [Hmiss Hl].
  destruct (negb _); [by apply keeps_ret|].
  eapply keeps_bind_ext; [apply k_initial; [done|by apply Hs2|by apply Hl]|].
  intros o h3 Hg3 Hs3 [Hnone Hsome]. assert (h1 ⊑ h3) as H13 by (by etrans).
  assert (forall h', h1 ⊑ h' -> reboot_allowed h' n) as Hr.
  { intros h' Hs i Hi. left. exists n. split_and!; [done..|]. left. by apply Hs. }
  destruct o as [s|].
  2:{ destruct (Hnone eq_refl) as (Hl0 & Hraw & Hinc). eapply keeps_bind_ext; [|intros; by apply keeps_ret].
      apply k_healthy; [done| |by apply Hr]. left. exists n. split_and!; [by apply H13|done|done|by apply Hs3, Hmiss]. }
  destruct (Hsome s eq_refl) as [Hown Hload].
  eapply keeps_bind_ext; [apply k_request; [done|by apply H13|done]|].
  intros s' h4 Hg4 Hs4 [(HI & Hrec & Hn & Hu) Hsame].
  assert (h1 ⊑ h4) as H14 by (by etrans).
  eapply keeps_bind_ext; [apply k_isolation; [done|by apply Hr|done|by apply recorded_reboot]|].
  intros n' h5 Hg5 Hs5 (Hr5 & Hn5 & Hu5). apply (Inv_mono _ h5) in HI; [|done].
  assert (paired h5 n' s') as Hp by (split; [done|congruence]).
  destruct (Phase s') eqn:Ep; try (by apply keeps_ret); try (by apply keeps_throw).
  1-4: apply k_evacuation; [done..|]; rewrite ->Ep; unfold early; auto.
  1-2: apply k_reboot; auto.
  apply k_verification; [done|done|congruence|by eapply recorded_mono|done|done|]. intros Hf.
  apply (fault_off_mono h1); [by etrans|]. apply fault_off_read; [|done|congruence|done].
  destruct Hsame as [->|?]; [|done]. destruct Hload as [->|?]; [|done]. by apply (Hl s eq_refl).
Qed.

(** ** Histories *)

(** Any number of passes over any nodes; a pass may stop at any call. *)
Inductive history : list event -> Prop :=
| history_start : history []
| history_pass h name e h' : history h -> honest e -> h `prefix_of` h' ->
    h' `prefix_of` snd (Reconcile r valid_incident oversized decode_inventory decode_marker encode_profiles name e h) ->
    history h'.

Lemma history_good h : history h -> Good h.
Proof.
  induction 1 as [|h name e h' _ IH He _ Hpre]; [constructor|].
  eapply good_prefix; [exact Hpre|]. eapply keeps_good; [by apply k_reconcile|done].
Qed.

(** C9: a node is released only after its recovery: at the moment the
    [hardware-degraded] taint is taken off a node, the node either had no fault
    condition, no incident and no durable state, or a state was written for an
    incident of that very node which shows its recovery.  The incident began
    with a Node that was read, from which the state has its boot and inventory;
    after that the Pods of the node were listed, and after the listing all its
    workers had no job and their Pods and claims were gone; the reboot was
    acknowledged and a new boot seen; the inventory hash published for the new
    boot is the one of the Node the incident began with; a verifier succeeded on
    every NUMA node of that Node's inventory, and the fault condition was off in
    a Node read after the verification had begun. *)
Theorem release_requires_recovery h1 n a h2 :
  history (h1 ++ EPatchNode n a :: h2) -> degraded ∉ Taints n -> released (h1 ++ [EPatchNode n a]) n.
Proof. intros H%history_good%good_split Ht. by destruct H as [[?|?] _]. Qed.

Lemma reboot_evidence h1 n a h2 i :
  history (h1 ++ EPatchNode n a :: h2) -> kn_Annotations n !! rebootRequestKey = Some i ->
  request_read (h1 ++ [EPatchNode n a]) (kn_Name n) i \/ reboot_justified (h1 ++ [EPatchNode n a]) (kn_Name n) i.
Proof. intros H%history_good%good_split Hi. destruct H as [_ Hr]. by apply Hr. Qed.

(** C11: a reboot is requested only for a node that has been evacuated: when
    the request annotation is written to a node, either the annotation came with
    that node from the API server, or a state in one of the reboot phases was
    written for the incident and the node, after its evacuation: the incident
    had begun, then the Pods of the node were listed, every worker Pod of the
    listing is a worker of the state, and after the listing every worker had no
    running job, its Pod was gone and its claim was gone, and every job of the
    state had left the node. *)
Theorem reboot_requires_evacuation h1 n a h2 i :
  history (h1 ++ EPatchNode n a :: h2) -> kn_Annotations n !! rebootRequestKey = Some i ->
  request_read (h1 ++ [EPatchNode n a]) (kn_Name n) i \/
  exists s o, ESave s o ∈ h1 ++ [EPatchNode n a] /\ Incident s = i /\ NodeName s = kn_Name n /\
    reboot_phase (Phase s) /\ evacuated (h1 ++ [EPatchNode n a]) s.
Proof. apply reboot_evidence. Qed.

(** C12: a job is requeued only after it was signalled and then either a commit
    marker of that job, not older than the signal request, was read, or the
    grace period of 120 seconds after the recorded request had passed. *)
Theorem requeue_requires_checkpoint_or_grace h1 key id a h2 :
  history (h1 ++ ERequeueJob key id a :: h2) -> requeue_allowed (h1 ++ [ERequeueJob key id a]) key id.
Proof. by intros H%history_good%good_split. Qed.

(** C13: the phases are reached in order: every state ever written satisfies
    [Inv]. *)
Theorem durable_state_invariant h1 s o h2 :
  history (h1 ++ ESave s o :: h2) -> Inv (h1 ++ [ESave s o]) s.
Proof. by intros H%history_good%good_split. Qed.

End Safety.
(** ** A complete recovery

    A small cluster answered by functions of the history: the node reboots once
    it is asked to, the job is rescheduled once it is requeued, the verifier
    succeeds.  Running the handler again and again leads from the fault to the
    release of the node. *)
Module RecoverySamples.

Definition reconciler : RecoveryReconciler := MkReconciler "system" "worker:1" (600 * second) "" true.
Definition valid_incident (s : string) : bool := negb (s =? "")%string.
Definition oversized (s : recoveryState) : bool := false.
Definition inventory : Inventory := MkInventory 1 "boot-1" [MkCell 0 8 16 (2 ^ 30) [MkGPU "GPU-1" "a100" "0:1"] []].
Definition decode_inventory (s : string) : option Inventory := if (s =? "inventory")%string then Some inventory else None.
Definition marker : Store.CommitMarker := Store.MkMarker 2 5 (String.concat "" (repeat "0123456789abcdef"%string 4)) "1970-01-01T01:00:00Z" 7.
Definition decode_marker (data : list Z) : option Store.CommitMarker := if bool_decide (data = [1]) then Some marker else None.
Definition encode_profiles (_ : list OpenTPU) : string := "[]".

Definition count (f : event -> bool) (h : list event) : Z := Z.of_nat (length (List.filter f h)).
Definition happened (f : event -> bool) (h : list event) : bool := existsb f h.
Definition last_save (h : list event) : option recoveryState :=
  foldl (fun acc e => match e with ESave s _ => Some s | EDeleteState _ _ => None | _ => acc end) None h.
Definition in_phase (ps : list recoveryPhase) (h : list event) : bool :=
  match last_save h with Some s => bool_decide (Phase s ∈ ps) | None => false end.
Definition rebooted_now (h : list event) : bool := in_phase [Rebooting; Verifying] h.

Definition base : KNode :=
  MkKNode "node-1" "uid-9" {["orchestration.gputpu.io/compute"%string := "true"%string]} ∅ [] [] "boot-1".
(** The node as the last successful patch left it, with its current status. *)
Definition node_now (h : list event) : KNode :=
  let n := foldl (fun acc e => match e with EPatchNode n _ => n | _ => acc end) base h in
  let boot := if rebooted_now h then "boot-2"%string else "boot-1"%string in
  let a := <[inventoryKey := "inventory"%string]> (<[inventoryHashKey := "hash"%string]>
             (<[inventoryBootIDKey := boot]> (kn_Annotations n))) in
  let a := match kn_Annotations n !! rebootRequestKey with Some i => <[rebootAckKey := i]> a | None => a end in
  let fault := if rebooted_now h || happened (fun e => match e with EDeleteState _ _ => true | _ => false end) h
               then "False"%string else "True"%string in
  MkKNode "node-1" "uid-9" (kn_Labels n) a (Taints n)
    [(hardwareFaultCondition, (fault, "", "")); ("Ready", ("True", "", ""))]%string boot.

Definition cluster : Api.HeterogeneousCluster :=
  Api.MkCluster "lab" "default" "uid-1"
    (Api.MkSpec (Api.MkControlPlane (Api.MkControllers "img" "pvc") "db" 1) (Api.MkAuthentication "munge" "jwt")
       (Some "store"%string) [Workers.WorkerSamples.small_pool]).
Definition pod : KPod :=
  MkKPod "default" "lab-gpu-pool-a"
    (<["app.kubernetes.io/component" := "slurmd"]> {["app.kubernetes.io/managed-by" := "slurm-operator"]})%string
    {[Workers.workerClaimAnnotation := "lab-gpu-pool-a-resources"%string]} [Workers.workerFinalizer] false
    (Some (MkOwner "HeterogeneousCluster" GroupVersion "lab" "uid-1")).
Definition pod_deleted (h : list event) : bool := happened (fun e => match e with EDeletePod _ _ _ => true | _ => false end) h.
Definition requeued (h : list event) : bool := happened (fun e => match e with ERequeueJob _ _ _ => true | _ => false end) h.

Definition slurm_job (h : list event) : job :=
  MkJobRecord 7 "gpu" (if requeued h then ["PENDING"] else ["RUNNING"]) [] "" 1 0 0 1 1 1 1 1 0 0 "" "" "" "" "" "" "" "" ""
    (if requeued h then "" else "lab-gpu-pool-a")%string.
Definition slurm_node : Node := MkNode "lab-gpu-pool-a" ["IDLE"]%string "" 0 0 "".

Definition outcomes (e : event) (h : list event) : outcome :=
  match e with
  | EDeleteClaim _ _ _ => if happened (fun e => match e with EDeleteClaim _ _ _ => true | _ => false end) h then NotFound else Done
  | EDeleteVerifierJob _ _ => if happened (fun e => match e with EDeleteVerifierJob _ _ => true | _ => false end) h then NotFound else Done
  | EDeleteVerifierClaim _ _ => if happened (fun e => match e with EDeleteVerifierClaim _ _ => true | _ => false end) h then NotFound else Done
  | _ => Done
  end.

Definition world : env :=
  MkEnv (fun h => 10 * second * count (fun e => match e with ENow _ => true | _ => false end) h + 1)
    (fun _ => Some "0f8fad5b-d9cb-469f-a165-70867728950e"%string)
    (fun name h => if (name =? "node-1")%string then Ok (node_now h) else Err NotFound)
    (fun copy _ => Ok copy)
    (fun _ h => match last_save h with Some s => LState (stored s) | None => LMissing end)
    outcomes
    (fun _ h => Some (if pod_deleted h then [] else [pod]))
    (fun _ _ _ => Ok cluster) (fun _ _ => true)
    (fun _ _ => Some (MkExchange 200 (Some ([], [slurm_node])) 100))
    (fun _ h => Some (MkExchange 200 (Some ([], [slurm_job h])) 100))
    (fun _ => Some (MkExchange 200 (Some []) 2)) (fun _ => Some (MkExchange 200 (Some tt) 2))
    (fun _ h => Some [Ok (MkMarkerObject "checkpoints/run/00000000000000000005.complete" None (Ok (Some [1])))])
    (fun _ _ h => if pod_deleted h then Err NotFound else Ok pod)
    (fun name h => if happened (fun e => match e with ECreateVerifierJob _ _ _ => true | _ => false end) h
                   then Ok (MkVerifier "0f8fad5b-d9cb-469f-a165-70867728950e" true 1 0) else Err NotFound).

Definition pass (h : list event) : list event :=
  snd (Reconcile reconciler valid_incident oversized decode_inventory decode_marker encode_profiles "node-1" world h).
Fixpoint passes (n : nat) (h : list event) : list event := match n with O => h | S n' => pass (passes n' h) end.

Definition phases_of (h : list event) : list string :=
  omap (fun e => match e with ESave s _ => Some (phase_name (Phase s)) | EDeleteState _ _ => Some "deleted"%string | _ => None end) h.

Lemma last_save_elem h s : last_save h = Some s -> exists o, ESave s o ∈ h.
Proof.
  unfold last_save. induction h as [|e h IH] using rev_ind; [done|]. rewrite ->foldl_snoc.
  destruct e; intros Hs; try (destruct (IH Hs) as [o' ?]; exists o'; apply elem_of_app; by left); simplify_eq.
  eexists. apply snoc_in.
Qed.

Lemma world_honest : honest world.
Proof.
  split_and!; simpl.
  - intros name h n. destruct (String.eqb_spec name "node-1") as [->|]; [|done]. by intros [= <-].
  - by intros copy h n [= <-].
  - intros _ h s. destruct (last_save h) as [s'|] eqn:Es; [|done]. intros [= <-].
    destruct (last_save_elem _ _ Es) as [o ?]. by exists s', o.
Qed.

Abbreviation reached :=
  (history reconciler valid_incident oversized decode_inventory decode_marker encode_profiles).

Lemma reached_pass h : reached h -> reached (pass h).
Proof.
  intros Hh. apply (history_pass _ _ _ _ _ _ h "node-1" world); [exact Hh|exact world_honest| |unfold pass; reflexivity].
  eapply keeps_prefix; [apply k_reconcile; by eapply history_good|exact world_honest].
Qed.

Lemma reached_passes n : reached (passes n []).
Proof. induction n as [|n IH]; [constructor|by apply reached_pass]. Qed.

(** From the fault to the release. *)
Definition run : list event := passes 14 [].

Lemma reached_at i e : run !! i = Some e -> reached (take i run ++ e :: drop (S i) run).
Proof. intros Hi. rewrite ->take_drop_middle by done. apply reached_passes. Qed.

(** No Node with a reboot request was answered. *)
Definition no_request (h : list event) : bool :=
  forallb (fun e => match e with
    | EGetNode _ (Ok n) => bool_decide (kn_Annotations n !! rebootRequestKey = None)
    | EPatchNode copy (Ok n) => bool_decide (kn_Annotations copy !! rebootRequestKey = kn_Annotations n !! rebootRequestKey)
    | _ => true end) h.

Lemma no_request_read h name i : no_request h = true -> request_read h name i -> False.
Proof.
  intros Hall (n & _ & Hn & [Hin|(copy & Hin & Hc)]); unfold no_request in Hall; rewrite ->List.forallb_forall in Hall;
    apply list_elem_of_In, Hall in Hin; apply bool_decide_eq_true in Hin; congruence.
Qed.

(** The [i]-th call of the run, when it patches the node. *)
Definition patched (i : nat) : KNode := match run !! i with Some (EPatchNode n _) => n | _ => base end.
Definition saved (i : nat) : option recoveryState := match run !! i with Some (ESave s _) => Some s | _ => None end.

End RecoverySamples.

(** The phases a recovery goes through, state by state written. *)
Example recovery_run :
  RecoverySamples.phases_of RecoverySamples.run =
  ["Isolated"; "Isolated"; "Isolated"; "Draining"; "Draining"; "Draining"; "Checkpointing"; "Checkpointing";
   "Checkpointing"; "Checkpointing"; "Checkpointing"; "Requeued"; "RebootRequested"; "Rebooting"; "Rebooting";
   "Rebooting"; "Rebooting"; "Verifying"; "Verifying"; "deleted"]%string.
Proof. vm_compute. reflexivity. Qed.

Lemma release_requires_recovery_witness :
  released RecoverySamples.reconciler RecoverySamples.decode_inventory
    (take 206 RecoverySamples.run ++ [EPatchNode (RecoverySamples.patched 206) (Ok (RecoverySamples.patched 206))])
    (RecoverySamples.patched 206).
Proof.
  eapply (release_requires_recovery RecoverySamples.reconciler RecoverySamples.valid_incident
    RecoverySamples.oversized RecoverySamples.decode_inventory RecoverySamples.decode_marker
    RecoverySamples.encode_profiles _ _ _ (drop 207 RecoverySamples.run)).
  - apply RecoverySamples.reached_at. vm_compute. reflexivity.
  - apply (bool_decide_unpack _). vm_compute. reflexivity.
Defined.

Lemma reboot_requires_evacuation_witness :
  exists s o, ESave s o ∈ take 134 RecoverySamples.run ++
      [EPatchNode (RecoverySamples.patched 134) (Ok (RecoverySamples.patched 134))] /\
    Incident s = "0f8fad5b-d9cb-469f-a165-70867728950e"%string /\ NodeName s = kn_Name (RecoverySamples.patched 134) /\
    reboot_phase (Phase s) /\
    evacuated (take 134 RecoverySamples.run ++
      [EPatchNode (RecoverySamples.patched 134) (Ok (RecoverySamples.patched 134))]) s.
Proof.
  destruct (reboot_requires_evacuation RecoverySamples.reconciler RecoverySamples.valid_incident
    RecoverySamples.oversized RecoverySamples.decode_inventory RecoverySamples.decode_marker
    RecoverySamples.encode_profiles (take 134 RecoverySamples.run) (RecoverySamples.patched 134)
    (Ok (RecoverySamples.patched 134)) (drop 135 RecoverySamples.run) "0f8fad5b-d9cb-469f-a165-70867728950e") as [H|H].
  - apply RecoverySamples.reached_at. vm_compute. reflexivity.
  - vm_compute. reflexivity.
  - exfalso. eapply RecoverySamples.no_request_read; [|exact H]. vm_compute. reflexivity.
  - exact H.
Defined.

Lemma requeue_requires_checkpoint_or_grace_witness :
  requeue_allowed RecoverySamples.decode_marker
    (take 64 RecoverySamples.run ++ [ERequeueJob "default/lab" 7 (Ok tt)]) "default/lab" 7.
Proof.
  apply (requeue_requires_checkpoint_or_grace RecoverySamples.reconciler RecoverySamples.valid_incident
    RecoverySamples.oversized RecoverySamples.decode_inventory RecoverySamples.decode_marker
    RecoverySamples.encode_profiles _ _ _ _ (drop 65 RecoverySamples.run)).
  apply RecoverySamples.reached_at. vm_compute. reflexivity.
Defined.

Lemma durable_state_invariant_witness :
  exists s, Phase s = Verifying /\ VerificationPassed s = true /\
    Inv RecoverySamples.reconciler RecoverySamples.decode_inventory RecoverySamples.decode_marker
      (take 189 RecoverySamples.run ++ [ESave s Done]) s.
Proof.
  exists (default (set_phase Isolated 0 (MkState 0 "" "" "" Isolated 0 0 "" "" "" [] [] [] None "" None None false "" ""))
            (RecoverySamples.saved 189)).
  split_and!; [vm_compute; reflexivity..|].
  apply (durable_state_invariant RecoverySamples.reconciler RecoverySamples.valid_incident
    RecoverySamples.oversized RecoverySamples.decode_inventory RecoverySamples.decode_marker
    RecoverySamples.encode_profiles _ _ _ (drop 190 RecoverySamples.run)).
  apply RecoverySamples.reached_at. vm_compute. reflexivity.
Defined.

End RecoverySafety.
