(* ===== verification/DraPlugin.v ===== *)
(** * DraPlugin: prepared device claims ([src/shared/draplugin/plugin.go])

    The state of a DRA driver on a node: the claims it has prepared, in memory
    and as one JSON file per claim in its state directory.  The operations are
    [New], [Recover], [PrepareResourceClaims], [UnprepareResourceClaims],
    [PreparedFor] and [PublishInventory]; [AtomicJSON] is modelled system call
    by system call, so that a call may fail or the process may stop between
    any two of them.  The theorems show that the plugin implements an
    exclusive device table that survives crashes and restarts.

    The encoding of a record is [encoding/json]'s ([JSONFile]); the hash of an
    allocation, the inventory and the preparation of a driver are the fields of
    its [Config]. *)

From S2P Require Import Prelude GoStrings.

Module DraPlugin.

Record PreparedClaim := MkPrepared {
  Version : Z; UID : string; Namespace : string; Name : string; Hash : string; Inventory : string;
  Devices : list string; CPUs : list Z; NUMA : Z }.

(** [resourceapi.DeviceRequestAllocationResult]; [Rest] are the fields that are
    only hashed. *)
Record AllocationResult := MkAllocation {
  Request : string; Driver : string; Pool : string; Device : string; Rest : string }.

(** [resourceapi.ResourceClaim] with [Status.Allocation.Devices.Results]. *)
Record ResourceClaim := MkClaim {
  c_UID : string; c_Namespace : string; c_Name : string; Allocation : option (list AllocationResult) }.

(** [kubeletplugin.Device]. *)
Record ClaimDevice := MkClaimDevice {
  Requests : list string; PoolName : string; DeviceName : string; CDIDeviceIDs : list string }.

Inductive save_step := MkdirAll | CreateTemp | Chmod | Encode | Sync | CloseFile | Rename.
#[global] Instance save_step_eq_dec : EqDecision save_step.
Proof. solve_decision. Defined.

Inductive plugin_error :=
| NoAllocatedDevices | AllocationChanged | OtherDriver (device : string) | DeviceAbsent (device : string)
| AllocatedTwice (device : string) | HeldByOther (device : string) | PrepareFailed (message : string)
| SaveFailed (step : save_step) | RemoveFailed
| StateDirFailed | ReadFailed (name : string) | InvalidState (name : string)
| HeldTwice (device : string) | InventoryChanged (uid : string)
| RecoverFailed (uid : string) | NoLongerAllocated (uid : string) | RecoverChanged (uid : string).

Record Config := MkConfig {
  cfg_Version : Z; DriverName : string; cfg_PoolName : string;
  HasDevice : string -> bool;
  InventoryHash : list string -> string;
  Prepare : option (list string -> PreparedClaim -> result string PreparedClaim);
  ClaimDevices : list AllocationResult -> list ClaimDevice }.

(** What a driver promises of its [Prepare]: it fills in the processors and the
    NUMA node and leaves the rest of the record alone. *)
Class LawfulConfig (cfg : Config) := {
  prepare_keeps f names r r' :
    Prepare cfg = Some f -> f names r = Ok r' ->
    Version r' = Version r /\ UID r' = UID r /\ Namespace r' = Namespace r /\ Name r' = Name r /\
    Hash r' = Hash r /\ Devices r' = Devices r }.

(** The bytes of a state file: what [json.Encoder.Encode] writes for a record
    [json.Unmarshal] reads back. *)
Class JSONFile (File : Type) := {
  Marshal : PreparedClaim -> File;
  Unmarshal : File -> option PreparedClaim;
  unmarshal_marshal r : Unmarshal (Marshal r) = Some r }.

Definition update_inventory (h : string) (r : PreparedClaim) : PreparedClaim :=
  MkPrepared (Version r) (UID r) (Namespace r) (Name r) (Hash r) h (Devices r) (CPUs r) (NUMA r).
Definition update_devices (l : list string) (r : PreparedClaim) : PreparedClaim :=
  MkPrepared (Version r) (UID r) (Namespace r) (Name r) (Hash r) (Inventory r) l (CPUs r) (NUMA r).

(** The state files of a claim, and the names [CreateTemp] chooses. *)
Definition path (uid : string) : string := uid +:+ ".json".
Definition matches (name : string) : bool := has_suffix ".json" name.
Definition temp_name (name : string) : bool := has_prefix ".tmp-" name && negb (matches name).

Section Plugin.
Context {File : Type} `{!JSONFile File}.
(** [JSONHash] of a list of allocation results. *)
Variable json_hash : list AllocationResult -> string.
Variable cfg : Config.

(** The files of the state directory, by name. *)
Abbreviation disk := (gmap string File).
Abbreviation claims := (gmap string PreparedClaim).

Definition inventoryHash (names : list string) : string := InventoryHash cfg (merge_sort String.le names).

(** The comparison separates the three parts with NUL bytes. *)
Definition allocation_key (a : AllocationResult) : string :=
  Request a +:+ String "000" (Pool a +:+ String "000" (Device a)).
Definition allocation_le (a b : AllocationResult) : Prop := String.le (allocation_key a) (allocation_key b).
#[local] Instance allocation_le_dec a b : Decision (allocation_le a b) := decide (String.le _ _).
Definition allocationHash (results : list AllocationResult) : string :=
  json_hash (merge_sort allocation_le results).

(** ** Writing a record *)

(** One run of [AtomicJSON]: the name the kernel chooses for the temporary
    file, what the file holds before it is complete, the system call that
    fails, and whether the deferred removal then succeeds. *)
Record save_run := MkSave { temp : string; torn : File; failing : option save_step; unlinked : bool }.

Definition save_effect (run : save_run) (target : string) (value : PreparedClaim) (s : save_step) (d : disk) : disk :=
  match s with
  | CreateTemp => <[temp run := torn run]> d
  | Encode => <[temp run := Marshal value]> d
  | Rename => match d !! temp run with Some f => <[target := f]> (delete (temp run) d) | None => d end
  | MkdirAll | Chmod | Sync | CloseFile => d
  end.

(** The deferred [os.Remove]; it is registered once the file is created. *)
Definition remove_temp (run : save_run) (s : save_step) (d : disk) : disk :=
  match s with
  | MkdirAll | CreateTemp => d
  | _ => if unlinked run then delete (temp run) d else d
  end.

(** The disks the run goes through, the last one it ends with, and the error. *)
Fixpoint save_steps (run : save_run) (target : string) (value : PreparedClaim) (steps : list save_step) (d : disk)
    : list disk * disk * option save_step :=
  match steps with
  | [] => ([d], d, None)
  | s :: steps =>
      if bool_decide (failing run = Some s)
      then ([d], remove_temp run s d, Some s)
      else let '(ds, last, e) := save_steps run target value steps (save_effect run target value s d) in
           (d :: ds, last, e)
  end.

Definition AtomicJSON (run : save_run) (target : string) (value : PreparedClaim) (d : disk)
    : list disk * disk * option save_step :=
  save_steps run target value [MkdirAll; CreateTemp; Chmod; Encode; Sync; CloseFile; Rename] d.

(** [os.Remove]: a missing file is not an error for the callers. *)
Definition remove_file (fails : bool) (name : string) (d : disk) : option disk :=
  if fails then None else Some (delete name d).

(** ** Preparing *)

(** [for uid, other := range p.prepared]: a claim other than [uid] holds the device. *)
Definition held_by_other (prepared : claims) (uid device : string) : bool :=
  existsb (fun '(u, r) => negb (u =? uid)%string && bool_decide (device ∈ Devices r)) (map_to_list prepared).

Fixpoint check_allocations (prepared : claims) (uid : string) (seen : gset string) (results : list AllocationResult)
    : result plugin_error (list string) :=
  match results with
  | [] => Ok []
  | a :: results =>
      reject_if negb (Driver a =? DriverName cfg)%string || negb (Pool a =? cfg_PoolName cfg)%string
        with OtherDriver (Device a) in
      reject_if negb (HasDevice cfg (Device a)) with DeviceAbsent (Device a) in
      reject_if bool_decide (Device a ∈ seen) with AllocatedTwice (Device a) in
      reject_if held_by_other prepared uid (Device a) with HeldByOther (Device a) in
      let! devices := check_allocations prepared uid ({[Device a]} ∪ seen) results in
      Ok (Device a :: devices)
  end.

(** The hook of the driver, if it has one. *)
Definition prepare_hook (names : list string) (r : PreparedClaim) : result plugin_error PreparedClaim :=
  match Prepare cfg with
  | None => Ok r
  | Some f => match f names r with Ok r' => Ok r' | Err m => Err (PrepareFailed m) end
  end.

Definition prepare (prepared : claims) (claim : ResourceClaim) : result plugin_error (PreparedClaim * list ClaimDevice) :=
  match Allocation claim with
  | None | Some [] => Err NoAllocatedDevices
  | Some results =>
      let hash := allocationHash results in
      match prepared !! c_UID claim with
      | Some old =>
          reject_if negb (Hash old =? hash)%string || negb (Inventory old =? inventoryHash (Devices old))%string
                    || negb (Namespace old =? c_Namespace claim)%string || negb (Name old =? c_Name claim)%string
            with AllocationChanged in
          Ok (old, ClaimDevices cfg results)
      | None =>
          let! names := check_allocations prepared (c_UID claim) ∅ results in
          let record := MkPrepared (cfg_Version cfg) (c_UID claim) (c_Namespace claim) (c_Name claim) hash ""
                                   (merge_sort String.le names) [] 0 in
          let! record := prepare_hook (Devices record) record in
          Ok (update_inventory (inventoryHash (Devices record)) record, ClaimDevices cfg results)
      end
  end.

Inductive PrepareResult := Prepared (devices : list ClaimDevice) | PrepareErr (e : plugin_error).

(** The body of the loop of [PrepareResourceClaims]. *)
Definition prepare_claim (run : save_run) (claim : ResourceClaim) (st : claims * disk)
    : claims * disk * PrepareResult :=
  let '(prepared, d) := st in
  match prepare prepared claim with
  | Err e => (prepared, d, PrepareErr e)
  | Ok (record, devices) =>
      match AtomicJSON run (path (c_UID claim)) record d with
      | (_, d', Some s) => (prepared, d', PrepareErr (SaveFailed s))
      | (_, d', None) => (<[c_UID claim := record]> prepared, d', Prepared devices)
      end
  end.

Fixpoint PrepareResourceClaims (calls : list (save_run * ResourceClaim)) (st : claims * disk)
    (replies : gmap string PrepareResult) : claims * disk * gmap string PrepareResult :=
  match calls with
  | [] => (st, replies)
  | (run, claim) :: calls =>
      let '(st', reply) := prepare_claim run claim st in
      PrepareResourceClaims calls st' (<[c_UID claim := reply]> replies)
  end.

(** ** Unpreparing *)

Definition unprepare_claim (fails : bool) (uid : string) (st : claims * disk) : claims * disk * option plugin_error :=
  let '(prepared, d) := st in
  match remove_file fails (path uid) d with
  | None => (prepared, d, Some RemoveFailed)
  | Some d' => (delete uid prepared, d', None)
  end.

Fixpoint UnprepareResourceClaims (calls : list (bool * string)) (st : claims * disk)
    (replies : gmap string (option plugin_error)) : claims * disk * gmap string (option plugin_error) :=
  match calls with
  | [] => (st, replies)
  | (fails, uid) :: calls =>
      let '(st', reply) := unprepare_claim fails uid st in
      UnprepareResourceClaims calls st' (<[uid := reply]> replies)
  end.

(** The first match in the order the map is iterated in. *)
Definition PreparedFor (order : list (string * PreparedClaim)) (namespace name : string) : option PreparedClaim :=
  snd <$> List.find (fun '(_, r) => (Namespace r =? namespace)%string && (Name r =? name)%string) order.

(** ** Starting *)

(** [filepath.Glob] of the state directory returns the names in order. *)
Definition state_files (d : disk) : list string :=
  merge_sort String.le (List.filter matches (map fst (map_to_list d))).

(** The devices of one record. *)
Fixpoint check_held (uid : string) (names : list string) (held : gmap string string)
    : result plugin_error (gmap string string) :=
  match names with
  | [] => Ok held
  | name :: names =>
      reject_if negb (HasDevice cfg name) with DeviceAbsent name in
      reject_if match held !! name with Some owner => negb (owner =? uid)%string | None => false end
        with HeldTwice name in
      check_held uid names (<[name := uid]> held)
  end.

Fixpoint load_records (readable : string -> bool) (d : disk) (paths : list string) (held : gmap string string)
    (prepared : claims) : result plugin_error claims :=
  match paths with
  | [] => Ok prepared
  | p :: paths =>
      match (if readable p then d !! p else None) with
      | None => Err (ReadFailed p)
      | Some data =>
          match Unmarshal data with
          | None => Err (InvalidState p)
          | Some record =>
              reject_if negb (Version record =? cfg_Version cfg) || (UID record =? "")%string with InvalidState p in
              let! held := check_held (UID record) (Devices record) held in
              reject_if negb (inventoryHash (Devices record) =? Inventory record)%string
                with InventoryChanged (UID record) in
              load_records readable d paths held (<[UID record := record]> prepared)
          end
      end
  end.

(** [mkdir] tells whether the state directory could be created and
    [readable] which files can be read. *)
Definition New (mkdir : bool) (readable : string -> bool) (d : disk) : result plugin_error claims :=
  reject_if negb mkdir with StateDirFailed in
  load_records readable d (state_files d) ∅ ∅.

(** ** Recovering *)

Inductive claim_answer := Found (c : ResourceClaim) | Missing | GetFailed.

(** The claim is gone, or another one has taken its name. *)
Definition gone (uid : string) (a : claim_answer) : bool :=
  match a with Found c => negb (c_UID c =? uid)%string | Missing => true | GetFailed => false end.

(** [for uid, record := range p.prepared], in the order of the iteration. *)
Fixpoint Recover (get : string -> string -> claim_answer) (fails : string -> bool)
    (order : list (string * PreparedClaim)) (st : claims * disk) : claims * disk * option plugin_error :=
  match order with
  | [] => (st, None)
  | (uid, record) :: order =>
      let answer := get (Namespace record) (Name record) in
      if gone uid answer then
        match remove_file (fails uid) (path uid) (snd st) with
        | None => (st, Some RemoveFailed)
        | Some d' => Recover get fails order (delete uid (fst st), d')
        end
      else
        match answer with
        | Missing | GetFailed => (st, Some (RecoverFailed uid))
        | Found c =>
            match Allocation c with
            | None => (st, Some (NoLongerAllocated uid))
            | Some results =>
                if (allocationHash results =? Hash record)%string then Recover get fails order st
                else (st, Some (RecoverChanged uid))
            end
        end
  end.

(** ** The plugin as a transition system

    A state is the memory of the plugin, if it runs, and the state directory.
    The mutex makes every operation atomic for the others; the process may
    stop at any system call of an operation. *)

Abbreviation system := (option claims * disk)%type.

(** What is held for a claim: the object it belongs to and its devices. *)
Record entry := MkEntry { e_Namespace : string; e_Name : string; e_Devices : gset string }.

Definition claim_entry (claim : ResourceClaim) : entry :=
  MkEntry (c_Namespace claim) (c_Name claim) (list_to_set (map Device (default [] (Allocation claim)))).

(** [Granted]: devices are taken for a claim; [Replied]: the kubelet is told
    that the claim is prepared; [Released]: the kubelet asked to unprepare it;
    [Forgotten]: it was dropped on an answer of the API server about the object
    of that namespace and name. *)
Inductive event :=
| Granted (uid : string) (e : entry)
| Replied (uid namespace name : string)
| Released (uid : string)
| Forgotten (uid namespace name : string) (answer : claim_answer).

Definition grant (prepared : claims) (claim : ResourceClaim) : list event :=
  if prepared !! c_UID claim is Some _ then [] else [Granted (c_UID claim) (claim_entry claim)].

Definition replied (claim : ResourceClaim) : event := Replied (c_UID claim) (c_Namespace claim) (c_Name claim).

(** The records of [order] that are no longer there, each with the answer that
    was given for it. *)
Definition forgotten (get : string -> string -> claim_answer) (order : list (string * PreparedClaim)) (prepared : claims)
    : list event :=
  omap (fun '(uid, r) =>
          if bool_decide (prepared !! uid = None)
          then Some (Forgotten uid (Namespace r) (Name r) (get (Namespace r) (Name r))) else None) order.

(** [CreateTemp] creates a file that does not exist. *)
Definition fresh_temp (run : save_run) (d : disk) : Prop := temp_name (temp run) = true /\ d !! temp run = None.

Inductive step : system -> list event -> system -> Prop :=
| step_prepare run claim prepared d prepared' d' devices :
    c_UID claim <> "" -> fresh_temp run d ->
    prepare_claim run claim (prepared, d) = (prepared', d', Prepared devices) ->
    step (Some prepared, d) (grant prepared claim ++ [replied claim]) (Some prepared', d')
| step_prepare_error run claim prepared d prepared' d' e :
    c_UID claim <> "" -> fresh_temp run d ->
    prepare_claim run claim (prepared, d) = (prepared', d', PrepareErr e) ->
    step (Some prepared, d) [] (Some prepared', d')
| step_prepare_crash run claim prepared d record devices ds last e d' :
    c_UID claim <> "" -> fresh_temp run d ->
    prepare prepared claim = Ok (record, devices) ->
    AtomicJSON run (path (c_UID claim)) record d = (ds, last, e) -> d' ∈ ds ++ [last] ->
    step (Some prepared, d) (if d' !! path (c_UID claim) is Some _ then grant prepared claim else []) (None, d')
| step_unprepare fails uid prepared d prepared' d' e :
    unprepare_claim fails uid (prepared, d) = (prepared', d', e) ->
    step (Some prepared, d) (if e is Some _ then [] else [Released uid]) (Some prepared', d')
| step_unprepare_crash uid prepared d :
    step (Some prepared, d) [Released uid] (None, delete (path uid) d)
| step_recover get fails order prepared d prepared' d' e :
    order ≡ₚ map_to_list prepared ->
    Recover get fails order (prepared, d) = (prepared', d', e) ->
    step (Some prepared, d) (forgotten get order prepared') (Some prepared', d')
| step_recover_crash get fails order k prepared d prepared' d' e :
    order ≡ₚ map_to_list prepared ->
    Recover get fails (take k order) (prepared, d) = (prepared', d', e) ->
    step (Some prepared, d) (forgotten get order prepared') (None, d')
| step_stop prepared d : step (Some prepared, d) [] (None, d)
| step_start mkdir readable d prepared :
    New mkdir readable d = Ok prepared ->
    step (None, d) [] (Some prepared, d).

Inductive execution : system -> list event -> system -> Prop :=
| execution_nil s : execution s [] s
| execution_step s es s' es' s'' : step s es s' -> execution s' es' s'' -> execution s (es ++ es') s''.

(** ** The specification: an exclusive table of devices *)

Abbreviation table := (gmap string entry).

(** A claim enters with devices no other claim holds, is acknowledged only
    while it is there and under its own name, and leaves when the kubelet
    releases it or when the API server answered, about the object it was granted
    for, that there is none or one with another UID. *)
Inductive allocates : table -> list event -> table -> Prop :=
| allocates_nil t : allocates t [] t
| allocates_granted t uid e es t' :
    t !! uid = None -> e_Devices e <> ∅ ->
    (forall uid' e', t !! uid' = Some e' -> e_Devices e ## e_Devices e') ->
    allocates (<[uid := e]> t) es t' -> allocates t (Granted uid e :: es) t'
| allocates_replied t uid namespace name devices es t' :
    t !! uid = Some (MkEntry namespace name devices) ->
    allocates t es t' -> allocates t (Replied uid namespace name :: es) t'
| allocates_released t uid es t' : allocates (delete uid t) es t' -> allocates t (Released uid :: es) t'
| allocates_forgotten t uid namespace name devices answer es t' :
    t !! uid = Some (MkEntry namespace name devices) ->
    (answer = Missing \/ exists c, answer = Found c /\ c_UID c <> uid) ->
    allocates (delete uid t) es t' -> allocates t (Forgotten uid namespace name answer :: es) t'.

(** ** The abstraction *)

(** The processors and the NUMA node are those the driver's hook computed. *)
Definition hooked (r : PreparedClaim) : Prop :=
  match Prepare cfg with
  | None => CPUs r = [] /\ NUMA r = 0
  | Some f => exists fresh r', CPUs fresh = [] /\ f (Devices r) fresh = Ok r' /\ CPUs r = CPUs r' /\ NUMA r = NUMA r'
  end.

Definition named_record (uid : string) (r : PreparedClaim) : Prop := UID r = uid /\ uid <> "".

(** The record fits the configuration of the process. *)
Definition accepted_record (uid : string) (r : PreparedClaim) : Prop :=
  Version r = cfg_Version cfg /\ Forall (fun x => HasDevice cfg x = true) (Devices r) /\
  inventoryHash (Devices r) = Inventory r.

(** The same, made by this configuration. *)
Record valid_record (uid : string) (r : PreparedClaim) : Prop := {
  vr_uid : UID r = uid;
  vr_nonempty : uid <> "";
  vr_version : Version r = cfg_Version cfg;
  vr_present : Forall (fun x => HasDevice cfg x = true) (Devices r);
  vr_inventory : inventoryHash (Devices r) = Inventory r;
  vr_hooked : hooked r }.

Definition exclusive (m : claims) : Prop :=
  forall u u' r r' x, m !! u = Some r -> m !! u' = Some r' -> x ∈ Devices r -> x ∈ Devices r' -> u = u'.

(** The files of the state directory are the records [m]. *)
Definition holds (d : disk) (m : claims) : Prop :=
  (forall uid, d !! path uid ≫= Unmarshal = m !! uid) /\
  (forall name f, d !! name = Some f -> matches name = true -> exists uid, name = path uid /\ is_Some (m !! uid)).

Definition entry_of (r : PreparedClaim) : entry := MkEntry (Namespace r) (Name r) (list_to_set (Devices r)).
Definition table_of (m : claims) : table := entry_of <$> m.

(** The table of the records on disk; a running process has the same ones in
    memory, and they fit its configuration. *)
Definition represents (s : system) (t : table) : Prop :=
  exists m, holds (snd s) m /\ map_Forall named_record m /\ exclusive m /\ table_of m = t /\
    (forall p, fst s = Some p -> p = m /\ map_Forall accepted_record m).

End Plugin.

(** The driver over its whole life on a node: processes one after the other,
    each with its own configuration (another version, another inventory), on the
    state directory the one before left when it stopped. *)
Inductive lifetimes {File : Type} `{!JSONFile File} (json_hash : list AllocationResult -> string)
  : list event -> Config -> option (gmap string PreparedClaim) * gmap string File -> Prop :=
| lifetimes_first cfg es s : LawfulConfig cfg -> execution json_hash cfg (None, ∅) es s -> lifetimes json_hash es cfg s
| lifetimes_next es cfg d cfg' es' s : lifetimes json_hash es cfg (None, d) -> LawfulConfig cfg' ->
    execution json_hash cfg' (None, d) es' s -> lifetimes json_hash (es ++ es') cfg' s.

(** ** Publishing the inventory *)

Record AnnotationKeys := MkKeys { k_Inventory : string; k_Hash : string; k_BootID : string }.

(** The annotations of the Node and [Status.NodeInfo.BootID]. *)
Record NodeState := MkNode { Annotations : gmap string string; BootID : string }.

Definition annotation (n : NodeState) (key : string) : string := default "" (Annotations n !! key).

Inductive publish_error := NodeUnreadable | SummaryFailed (message : string) | ChangedWithinBoot | UpdateFailed | RetriesExhausted.
Inductive update_outcome := Updated | Conflict | Failed.

Section Publish.
Variable keys : AnnotationKeys.
(** [encoded] and [hash] of the driver's summary for a boot. *)
Variable summary : string -> result string (string * string).

Definition published (n : NodeState) (encoded hash : string) : gmap string string :=
  <[k_BootID keys := BootID n]> (<[k_Hash keys := hash]> (<[k_Inventory keys := encoded]> (Annotations n))).

(** The closure up to the update: nothing to do, or the annotations to write. *)
Definition publish_attempt (n : NodeState) : result publish_error (option (gmap string string)) :=
  match summary (BootID n) with
  | Err m => Err (SummaryFailed m)
  | Ok (encoded, hash) =>
      let same_boot := (annotation n (k_BootID keys) =? BootID n)%string in
      reject_if same_boot && negb (annotation n (k_Hash keys) =? "")%string
                && negb (annotation n (k_Hash keys) =? hash)%string with ChangedWithinBoot in
      if same_boot && (annotation n (k_Hash keys) =? hash)%string && (annotation n (k_Inventory keys) =? encoded)%string
      then Ok None
      else Ok (Some (published n encoded hash))
  end.

(** [retry.RetryOnConflict] runs the closure again after a conflict, as often
    as [attempts] allows: each attempt is the Node it reads and what becomes of
    its update.  The second component are the annotations written. *)
Fixpoint PublishInventory (attempts : list (option NodeState * update_outcome))
    : result publish_error unit * option (gmap string string) :=
  match attempts with
  | [] => (Err RetriesExhausted, None)
  | (None, _) :: _ => (Err NodeUnreadable, None)
  | (Some n, outcome) :: attempts =>
      match publish_attempt n with
      | Err e => (Err e, None)
      | Ok None => (Ok tt, None)
      | Ok (Some annotations) =>
          match outcome with
          | Updated => (Ok tt, Some annotations)
          | Conflict => PublishInventory attempts
          | Failed => (Err UpdateFailed, None)
          end
      end
  end.

(** The keys of the driver are three different ones. *)
Definition keys_distinct : bool :=
  negb (k_Inventory keys =? k_Hash keys)%string && negb (k_Inventory keys =? k_BootID keys)%string
  && negb (k_Hash keys =? k_BootID keys)%string.

End Publish.
End DraPlugin.
