(* ===== verification/DraPluginSafety.v ===== *)
(** * DraPluginSafety: the claims of a DRA driver across crashes

    The plugin of [DraPlugin] refines an exclusive device table: every grant is
    disjoint from the devices of the other claims, a claim stays granted until
    it is released or found gone, and stopping and restarting the process, at
    any system call, changes nothing. *)

From S2P Require Import Prelude GoStrings DraPlugin.

Module DraPluginSafety.
Import DraPlugin.

(** ** File names *)

Lemma path_inj u u' : path u = path u' -> u = u'.
Proof. intros E. pose proof (cut_suffix_app ".json" u) as H. unfold path in E. rewrite ->E, cut_suffix_app in H. congruence. Qed.

Lemma matches_path uid : matches (path uid) = true.
Proof. apply bool_decide_eq_true. unfold path. rewrite ->cut_suffix_app. by eexists. Qed.

Section Plugin.
Context {File : Type} `{!JSONFile File}.
Variable json_hash : list AllocationResult -> string.
Variable cfg : Config.

Abbreviation disk := (gmap string File).
Abbreviation claims := (gmap string PreparedClaim).

(** ** Saving a record *)

(** The same state files; temporary files do not count. *)
Definition same_files (d d' : disk) : Prop := forall name, matches name = true -> d' !! name = d !! name.

Lemma same_files_temp d d' run f :
  temp_name run = true -> same_files d d' -> same_files d (<[run := f]> d').
Proof.
  intros Ht Hd name Hm. rewrite ->lookup_insert_ne; [by apply Hd|].
  intros ->. unfold temp_name in Ht. bool_hyps. congruence.
Qed.

Lemma same_files_delete d d' run :
  temp_name run = true -> same_files d d' -> same_files d (delete run d').
Proof.
  intros Ht Hd name Hm. rewrite ->lookup_delete_ne; [by apply Hd|].
  intros ->. unfold temp_name in Ht. bool_hyps. congruence.
Qed.

Lemma same_files_refl d : same_files d d.
Proof. by intros name. Qed.

Hint Resolve same_files_refl same_files_temp same_files_delete : core.

(** Every disk a save goes through has the old files or the old files with the
    record in place, and the error tells which one it ends with. *)
Lemma save_outcome run uid value d ds last e :
  temp_name (temp run) = true ->
  AtomicJSON run (path uid) value d = (ds, last, e) ->
  (if e is Some _ then same_files d last else same_files (<[path uid := Marshal value]> d) last) /\
  Forall (fun d' => same_files d d' \/ same_files (<[path uid := Marshal value]> d) d') ds.
Proof.
  intros Ht E.
  assert (matches (path uid) = true) as Hp by apply matches_path.
  assert (temp run <> path uid) as Hne.
  { intros E'. rewrite ->E' in Ht. unfold temp_name in Ht. bool_hyps. congruence. }
  assert (same_files (<[path uid := Marshal value]> d)
            (<[path uid := Marshal value]>
               (delete (temp run) (<[temp run := Marshal value]> (<[temp run := torn run]> d))))) as Hfinal.
  { intros name Hm. destruct (decide (name = path uid)) as [->|Hn]; [by rewrite ->!lookup_insert_eq|].
    rewrite ->!(lookup_insert_ne _ (path uid)) by done.
    eapply same_files_delete; eauto. }
  unfold AtomicJSON in E. cbn [save_steps save_effect] in E. rewrite ->?lookup_insert_eq in E.
  repeat case_bool_decide; cbn [remove_temp] in E; simplify_eq; split;
    repeat (apply Forall_cons; split); try apply Forall_nil; eauto; destruct (unlinked run); eauto.
Qed.

Lemma holds_same d d' m : same_files d d' -> holds d m -> holds d' m.
Proof.
  intros Hd [H1 H2]. split.
  - intros uid. rewrite ->Hd by apply matches_path. apply H1.
  - intros name f Hf Hm. rewrite ->Hd in Hf by done. eauto.
Qed.

Lemma holds_insert d m uid r : holds d m -> holds (<[path uid := Marshal r]> d) (<[uid := r]> m).
Proof.
  intros [H1 H2]. split.
  - intros u. destruct (decide (u = uid)) as [->|Hn].
    + rewrite ->!lookup_insert_eq. cbn. apply unmarshal_marshal.
    + rewrite ->!lookup_insert_ne by (try done; intros E; apply path_inj in E; congruence). apply H1.
  - intros name f Hf Hm. destruct (decide (name = path uid)) as [->|Hn].
    + exists uid. rewrite ->lookup_insert_eq. split; [done|by eexists].
    + rewrite ->lookup_insert_ne in Hf by done. destruct (H2 _ _ Hf Hm) as (u & -> & Hu). exists u. split; [done|].
      rewrite ->lookup_insert_ne by congruence. done.
Qed.

Lemma holds_delete d m uid : holds d m -> holds (delete (path uid) d) (delete uid m).
Proof.
  intros [H1 H2]. split.
  - intros u. destruct (decide (u = uid)) as [->|Hn].
    + by rewrite ->!lookup_delete_eq.
    + rewrite ->!lookup_delete_ne by (try done; intros E; apply path_inj in E; congruence). apply H1.
  - intros name f Hf Hm. apply lookup_delete_Some in Hf as [Hn Hf].
    destruct (H2 _ _ Hf Hm) as (u & -> & Hu). exists u. split; [done|].
    rewrite ->lookup_delete_ne by congruence. done.
Qed.

(** The disk determines the records. *)
Lemma holds_unique d m m' : holds d m -> holds d m' -> m = m'.
Proof. intros [H1 _] [H2 _]. apply map_eq. intros uid. by rewrite <-H1, H2. Qed.

(** ** Preparing a claim *)

Lemma check_allocations_ok prepared uid seen results names :
  check_allocations cfg prepared uid seen results = Ok names ->
  names = map Device results /\ Forall (fun x => HasDevice cfg x = true /\ held_by_other prepared uid x = false) names.
Proof.
  revert seen names. induction results as [|a results IH]; intros seen names E; cbn in E.
  { simplify_eq. by split. }
  destruct (_ || _); [done|]. destruct (HasDevice cfg (Device a)) eqn:Hd; [|done]. cbn in E.
  destruct (bool_decide _); [done|]. destruct (held_by_other _ _ _) eqn:Hh; [done|].
  destruct (check_allocations _ _ _ _ results) as [devices|] eqn:Ec; [|done]. simplify_eq.
  apply IH in Ec as [-> Hall]. split; [done|]. by constructor.
Qed.

Lemma held_by_other_false (m : claims) uid x u r :
  held_by_other m uid x = false -> m !! u = Some r -> u <> uid -> x ∉ Devices r.
Proof.
  intros H Hu Hne Hx. enough (held_by_other m uid x = true) by congruence.
  apply existsb_exists. exists (u, r). split; [by apply list_elem_of_In, elem_of_map_to_list|].
  apply String.eqb_neq in Hne. rewrite ->Hne. by apply bool_decide_eq_true.
Qed.

Lemma prepare_old (m : claims) claim old record devices :
  m !! c_UID claim = Some old -> prepare json_hash cfg m claim = Ok (record, devices) -> record = old.
Proof. unfold prepare. intros Hold E. rewrite ->Hold in E. go_cases. Qed.

Context `{!LawfulConfig cfg}.

(** A new record lists the devices of the allocation, all present and held by
    nobody else. *)
Lemma prepare_new (m : claims) claim record devices :
  m !! c_UID claim = None -> prepare json_hash cfg m claim = Ok (record, devices) ->
  UID record = c_UID claim /\ Version record = cfg_Version cfg /\
  Namespace record = c_Namespace claim /\ Name record = c_Name claim /\
  inventoryHash cfg (Devices record) = Inventory record /\ hooked cfg record /\
  (exists results, Allocation claim = Some results /\ results <> [] /\ Devices record ≡ₚ map Device results) /\
  Forall (fun x => HasDevice cfg x = true /\ held_by_other m (c_UID claim) x = false) (Devices record).
Proof.
  unfold prepare. intros Hnew E. rewrite ->Hnew in E.
  destruct (Allocation claim) as [[|a results]|] eqn:Ea; [done| |done].
  set (all := a :: results) in *.
  destruct (check_allocations cfg m (c_UID claim) ∅ all) as [names|] eqn:Ec; [|done].
  apply check_allocations_ok in Ec as [-> Hall].
  cbn [Devices] in E. unfold prepare_hook in E.
  set (fresh := MkPrepared _ _ _ _ _ _ _ _ _) in E.
  assert (exists r', update_inventory (inventoryHash cfg (Devices r')) r' = record /\
            Version r' = cfg_Version cfg /\ UID r' = c_UID claim /\ Namespace r' = c_Namespace claim /\
            Name r' = c_Name claim /\ Devices r' = Devices fresh /\ hooked cfg r')
    as (r' & <- & Hv & Hu & Hns & Hnm & Hd & Hh).
  { unfold hooked. destruct (Prepare cfg) as [f|] eqn:Ef; [|simplify_eq; by exists fresh].
    destruct (f _ fresh) as [r'|] eqn:Er; [|done]. simplify_eq.
    destruct (prepare_keeps _ _ _ _ Ef Er) as (?&?&?&?&?&Hd). exists r'. split_and!; try done; try congruence.
    exists fresh, r'. by rewrite ->Hd. }
  cbn. split_and!; [done..|exact Hh|rewrite ->Hd|rewrite ->Hd].
  - exists all. split_and!; [done|done|]. apply merge_sort_Permutation.
  - unfold fresh. cbn [Devices]. by rewrite ->merge_sort_Permutation.
Qed.

Lemma exclusive_insert (m : claims) uid r :
  exclusive m -> (forall x u r', x ∈ Devices r -> m !! u = Some r' -> u <> uid -> x ∉ Devices r') ->
  exclusive (<[uid := r]> m).
Proof.
  intros Hm Hnew u u' r1 r2 x H1 H2 Hx1 Hx2. destruct (decide (u = u')) as [|Hne]; [done|].
  apply lookup_insert_Some in H1 as [[<- <-]|[Hu H1]]; apply lookup_insert_Some in H2 as [[<- <-]|[Hu' H2]];
    [done|exfalso; by eapply Hnew|exfalso; by eapply Hnew|by eapply Hm].
Qed.

Lemma exclusive_subseteq (m m' : claims) : m' ⊆ m -> exclusive m -> exclusive m'.
Proof. intros Hsub Hm u u' r r' x H1 H2. eapply Hm; by eapply lookup_weaken. Qed.

Lemma records_subseteq (P : string -> PreparedClaim -> Prop) (m m' : claims) :
  m' ⊆ m -> map_Forall P m -> map_Forall P m'.
Proof. intros Hsub Hm u r Hu. eapply Hm. by eapply lookup_weaken. Qed.

Lemma lookup_table (m : claims) u r : m !! u = Some r -> table_of m !! u = Some (entry_of r).
Proof. intros Hu. unfold table_of. by rewrite ->lookup_fmap, Hu. Qed.

(** A record that is there already has the name of the claim. *)
Lemma prepare_named (m : claims) claim record devices :
  prepare json_hash cfg m claim = Ok (record, devices) ->
  Namespace record = c_Namespace claim /\ Name record = c_Name claim.
Proof.
  intros E. destruct (m !! c_UID claim) as [old|] eqn:Hold.
  - unfold prepare in E. rewrite ->Hold in E. destruct (Allocation claim) as [[|a l]|]; [done| |done].
    destruct (_ || _) eqn:Ec; [done|]. simplify_eq. bool_hyps. done.
  - by destruct (prepare_new _ _ _ _ Hold E) as (_ & _ & ? & ? & _).
Qed.

(** The table grants the devices of the claim. *)
Lemma prepare_grants (m : claims) claim record devices es t :
  map_Forall named_record m -> map_Forall (accepted_record cfg) m -> exclusive m -> c_UID claim <> "" ->
  prepare json_hash cfg m claim = Ok (record, devices) ->
  map_Forall named_record (<[c_UID claim := record]> m) /\
  map_Forall (accepted_record cfg) (<[c_UID claim := record]> m) /\ exclusive (<[c_UID claim := record]> m) /\
  (map_Forall (valid_record cfg) m -> map_Forall (valid_record cfg) (<[c_UID claim := record]> m)) /\
  (allocates (table_of (<[c_UID claim := record]> m)) es t -> allocates (table_of m) (grant m claim ++ es) t).
Proof.
  intros Hn Hc Hx Hne E. unfold grant. destruct (m !! c_UID claim) as [old|] eqn:Hold.
  { rewrite ->(prepare_old _ _ _ _ _ Hold E), insert_id by done. done. }
  destruct (prepare_new _ _ _ _ Hold E) as (Hu & Hver & Hns & Hnm & Hi & Hh & (results & Ha & Hr & Hd) & Hall).
  rewrite ->Forall_forall in Hall.
  assert (Forall (fun x => HasDevice cfg x = true) (Devices record)) as Hpres.
  { apply Forall_forall. intros x Hin. by apply Hall. }
  assert (forall x u r', x ∈ Devices record -> m !! u = Some r' -> u <> c_UID claim -> x ∉ Devices r') as Hnew.
  { intros x u r' Hin Hm Hn'. eapply held_by_other_false; [|done|done]. by apply Hall. }
  split_and!.
  - by apply map_Forall_insert_2.
  - by apply map_Forall_insert_2.
  - by apply exclusive_insert.
  - intros Hv. by apply map_Forall_insert_2.
  - intros Hrest. cbn.
    assert (claim_entry claim = entry_of record) as ->.
    { unfold claim_entry, entry_of. rewrite ->Ha, Hns, Hnm. f_equal. cbn. apply list_to_set_perm_L. by rewrite ->Hd. }
    constructor.
    + unfold table_of. by rewrite ->lookup_fmap, Hold.
    + unfold entry_of. cbn. intros E0. destruct results as [|a results]; [done|].
      assert (Device a ∈ Devices record) as Hin by (rewrite ->Hd; apply list_elem_of_here). set_solver.
    + intros u e' Hdev. unfold table_of in Hdev. rewrite ->lookup_fmap in Hdev.
      destruct (m !! u) as [r'|] eqn:Hr'; [|done]. cbn in Hdev. simplify_eq.
      assert (u <> c_UID claim) as Hn' by congruence.
      intros x Hin Hin'. cbn in Hin, Hin'. rewrite ->elem_of_list_to_set in Hin, Hin'. by eapply Hnew.
    + unfold table_of. by rewrite <-fmap_insert.
Qed.

(** ** Recovering *)

(** The memory and the disk lose the same records, and only those whose claim
    is gone by the answer of the API server. *)
Lemma recover_keeps get fails order (m : claims) (d : disk) m' d' e :
  holds d m -> Recover json_hash get fails order (m, d) = (m', d', e) ->
  holds d' m' /\ m' ⊆ m /\ (forall u, m' !! u = None -> is_Some (m !! u) ->
    exists r, (u, r) ∈ order /\ gone u (get (Namespace r) (Name r)) = true).
Proof.
  revert m d. induction order as [|[uid record] order IH]; intros m d Hd E; cbn in E.
  { simplify_eq. split_and!; [done|done|]. intros u Hn [? ?]. congruence. }
  assert (holds d m /\ m ⊆ m /\ (forall u, m !! u = None -> is_Some (m !! u) ->
    exists r, (u, r) ∈ (uid, record) :: order /\ gone u (get (Namespace r) (Name r)) = true)) as Hstop.
  { split_and!; [done|done|]. intros u Hn [? ?]. congruence. }
  destruct (gone uid _) eqn:Eg.
  - unfold remove_file in E. destruct (fails uid); [by simplify_eq|]. cbn in E.
    destruct (IH _ _ (holds_delete _ _ uid Hd) E) as (H1 & H2 & H3). split_and!; [done|etrans; [done|apply delete_subseteq]|].
    intros u Hn Hs. destruct (decide (u = uid)) as [->|Hne]; [exists record; split; [by left|done]|].
    destruct (H3 u Hn) as (r & Hr & ?); [by rewrite ->lookup_delete_ne|]. exists r. split; [by right|done].
  - assert (Recover json_hash get fails order (m, d) = (m', d', e) -> holds d' m' /\ m' ⊆ m /\
      (forall u, m' !! u = None -> is_Some (m !! u) ->
        exists r, (u, r) ∈ (uid, record) :: order /\ gone u (get (Namespace r) (Name r)) = true)) as Hgo.
    { intros E1. destruct (IH _ _ Hd E1) as (H1 & H2 & H3). split_and!; [done..|].
      intros u Hn Hs. destruct (H3 u Hn Hs) as (r & Hr & ?). exists r. split; [by right|done]. }
    go_cases; by apply Hgo.
Qed.

Lemma gone_spec uid a : gone uid a = true -> a = Missing \/ exists c, a = Found c /\ c_UID c <> uid.
Proof. destruct a as [c| |]; cbn; intros H; bool_hyps; [right; by exists c|by left|done]. Qed.

Lemma forgotten_list get l (m m' : claims) es t :
  NoDup (map fst l) -> (forall u r, (u, r) ∈ l -> m !! u = Some r) -> m' ⊆ m ->
  (forall u, m' !! u = None -> is_Some (m !! u) -> u ∈ map fst l) ->
  (forall u r, (u, r) ∈ l -> m' !! u = None -> gone u (get (Namespace r) (Name r)) = true) ->
  allocates (table_of m') es t -> allocates (table_of m) (forgotten get l m' ++ es) t.
Proof.
  revert m. induction l as [|[uid r] l IH]; intros m Hnd Hl Hsub Hall Hgone Ht; cbn [map fst] in *.
  { assert (m = m') as ->; [|done]. apply map_eq. intros u. destruct (m' !! u) as [r|] eqn:Hu; [by eapply lookup_weaken|].
    destruct (m !! u) eqn:Hm; [|done]. exfalso. eapply not_elem_of_nil, Hall; [done|by eexists]. }
  apply NoDup_cons in Hnd as [Hni Hnd]. unfold forgotten. cbn [omap list_omap]. case_bool_decide as Hu.
  - cbn. eapply allocates_forgotten.
    + apply (lookup_table m uid r). apply Hl. by left.
    + apply gone_spec, Hgone; [by left|done].
    + unfold table_of. rewrite <-fmap_delete. apply IH; [done| | | | |done].
      * intros v r' Hv. rewrite ->lookup_delete_ne; [apply Hl; by right|]. intros <-. apply Hni.
        apply list_elem_of_In, in_map_iff. exists (uid, r'). split; [done|by apply list_elem_of_In].
      * apply map_subseteq_spec. intros v r' Hv. rewrite ->lookup_delete_ne by congruence. by eapply lookup_weaken.
      * intros v Hv [r' Hr']. apply lookup_delete_Some in Hr' as [Hne Hr'].
        assert (v ∈ uid :: map fst l) as [?|?]%elem_of_cons by (apply Hall; [done|by eexists]); [congruence|done].
      * intros v r' Hv. apply Hgone. by right.
  - apply IH; [done| |done| | |done].
    + intros v r' Hv. apply Hl. by right.
    + intros v Hv Hm. assert (v ∈ uid :: map fst l) as [->|?]%elem_of_cons by (by apply Hall); [done|done].
    + intros v r' Hv. apply Hgone. by right.
Qed.

Lemma forgotten_deletes get order (m m' : claims) es t :
  order ≡ₚ map_to_list m -> m' ⊆ m ->
  (forall u, m' !! u = None -> is_Some (m !! u) -> exists r, (u, r) ∈ order /\ gone u (get (Namespace r) (Name r)) = true) ->
  allocates (table_of m') es t -> allocates (table_of m) (forgotten get order m' ++ es) t.
Proof.
  intros Hp Hsub Hall.
  assert (forall u r, (u, r) ∈ order -> m !! u = Some r) as Hl.
  { intros u r Hin. rewrite ->Hp in Hin. by apply elem_of_map_to_list in Hin. }
  apply forgotten_list; [|done|done| |].
  - rewrite ->Hp. apply NoDup_fst_map_to_list.
  - intros u Hn Hs. destruct (Hall u Hn Hs) as (r & Hr & _). apply list_elem_of_In, in_map_iff.
    exists (u, r). split; [done|by apply list_elem_of_In].
  - intros u r Hr Hn. destruct (Hall u Hn) as (r' & Hr' & Hg); [rewrite ->(Hl u r) by done; by eexists|].
    assert (r' = r) as <- by (apply Hl in Hr, Hr'; congruence). done.
Qed.

(** ** Restarting *)

Lemma check_held_ok (m : claims) uid r names held :
  m !! uid = Some r -> exclusive m -> Forall (fun x => HasDevice cfg x = true) names -> names ⊆ Devices r ->
  (forall x owner, held !! x = Some owner -> exists r', m !! owner = Some r' /\ x ∈ Devices r') ->
  exists held', check_held cfg uid names held = Ok held' /\
    (forall x owner, held' !! x = Some owner -> exists r', m !! owner = Some r' /\ x ∈ Devices r').
Proof.
  intros Hu Hx. revert held. induction names as [|x names IH]; intros held Hp Hsub Hh; cbn; [by exists held|].
  apply Forall_cons in Hp as [Hx1 Hp]. rewrite ->Hx1. cbn.
  assert (x ∈ Devices r) as Hin by (apply Hsub; by left).
  assert (match held !! x with Some owner => negb (owner =? uid)%string | None => false end = false) as ->.
  { destruct (held !! x) as [owner|] eqn:Ho; [|done]. destruct (Hh _ _ Ho) as (r' & Hr' & Hin').
    apply negb_false_iff, String.eqb_eq. by eapply Hx. }
  apply IH; [done|intros y Hy; apply Hsub; by right|].
  intros y owner Hy. apply lookup_insert_Some in Hy as [[<- <-]|[_ Hy]]; [by exists r|by apply Hh].
Qed.

Lemma load_records_ok (d : disk) (m : claims) us held prepared :
  holds d m -> map_Forall (valid_record cfg) m -> exclusive m -> Forall (fun u => is_Some (m !! u)) us ->
  (forall x owner, held !! x = Some owner -> exists r', m !! owner = Some r' /\ x ∈ Devices r') ->
  exists p, load_records cfg (fun _ => true) d (map path us) held prepared = Ok p /\
    forall u, p !! u = if bool_decide (u ∈ us) then m !! u else prepared !! u.
Proof.
  intros Hd Hv Hx. revert held prepared. induction us as [|u us IH]; intros held prepared Hus Hh; cbn; [by exists prepared|].
  apply Forall_cons in Hus as [[r Hu] Hus].
  pose proof (proj1 Hd u) as Hf. rewrite ->Hu in Hf.
  destruct (d !! path u) as [f|] eqn:Ef; [|done]. cbn in Hf. rewrite ->Hf.
  destruct (Hv _ _ Hu) as [H1 H2 H3 H4 H5 _]. rewrite ->H3, Z.eqb_refl, H1. cbn.
  apply String.eqb_neq in H2 as H2'. rewrite ->H2'.
  destruct (check_held_ok m u r (Devices r) held) as (held' & -> & Hh'); [done..|].
  rewrite ->H5, String.eqb_refl. cbn.
  destruct (IH held' (<[u := r]> prepared)) as (p & Hp & Hlook); [done|done|].
  exists p. split; [done|]. intros v. rewrite ->Hlook.
  destruct (decide (v = u)) as [->|Hn].
  - rewrite ->lookup_insert_eq, (bool_decide_eq_true_2 (u ∈ u :: us)) by (by left). case_bool_decide; congruence.
  - rewrite ->lookup_insert_ne by done. repeat case_bool_decide; set_solver.
Qed.

(** The names [New] reads are those of the records. *)
Lemma state_files_of (d : disk) (m : claims) :
  holds d m -> exists us, state_files d = map path us /\ forall u, u ∈ us <-> is_Some (m !! u).
Proof.
  intros [H1 H2].
  assert (Forall (fun name => exists u, name = path u /\ is_Some (m !! u)) (state_files d)) as Hall.
  { unfold state_files. rewrite ->merge_sort_Permutation. apply Forall_forall. intros name Hin.
    apply list_elem_of_In, filter_In in Hin as [Hin Hm]. apply in_map_iff in Hin as ([n f] & <- & Hin).
    apply list_elem_of_In, elem_of_map_to_list in Hin. eauto. }
  assert (exists us, state_files d = map path us /\ Forall (fun u => is_Some (m !! u)) us) as (us & Hus & Hsome).
  { induction Hall as [|name names (u & -> & Hu) _ (us & -> & Hus)]; [by exists []|]. exists (u :: us). split; [done|by constructor]. }
  exists us. split; [done|]. intros u. split.
  - intros Hin. rewrite ->Forall_forall in Hsome. by apply Hsome.
  - intros [r Hr]. specialize (H1 u). rewrite ->Hr in H1. destruct (d !! path u) as [f|] eqn:Hf; [|done].
    assert (path u ∈ state_files d) as Hin.
    { unfold state_files. rewrite ->merge_sort_Permutation. apply list_elem_of_In, filter_In.
      split; [|apply matches_path]. apply in_map_iff. exists (path u, f). split; [done|].
      by apply list_elem_of_In, elem_of_map_to_list. }
    rewrite ->Hus in Hin. apply list_elem_of_In, in_map_iff in Hin as (u' & E & Hin). apply path_inj in E as ->.
    by apply list_elem_of_In.
Qed.

Lemma load_all (d : disk) (m : claims) :
  holds d m -> map_Forall (valid_record cfg) m -> exclusive m -> New cfg true (fun _ => true) d = Ok m.
Proof.
  intros Hd Hv Hx. destruct (state_files_of _ _ Hd) as (us & Hus & Hin). unfold New. cbn. rewrite ->Hus.
  destruct (load_records_ok d m us ∅ ∅) as (p & Hp & Hlook); [done..| | |].
  { apply Forall_forall. intros u. apply Hin. }
  { intros x owner H. by rewrite ->lookup_empty in H. }
  rewrite ->Hp. f_equal. apply map_eq. intros u. rewrite ->Hlook. case_bool_decide as Hu; [done|].
  rewrite ->Hin in Hu. rewrite ->lookup_empty. destruct (m !! u); [|done]. exfalso. apply Hu. by eexists.
Qed.

(** [New] reads the records as they are and only those that fit. *)
Lemma check_held_present uid names held held' :
  check_held cfg uid names held = Ok held' -> Forall (fun x => HasDevice cfg x = true) names.
Proof.
  revert held. induction names as [|x names IH]; intros held E; cbn in E; [done|].
  destruct (HasDevice cfg x) eqn:Hx; [|done]. cbn in E. destruct (match held !! x with Some _ => _ | None => _ end); [done|].
  constructor; [done|by eapply IH].
Qed.

Lemma load_records_sound readable (d : disk) (m : claims) us held prepared p :
  holds d m -> map_Forall named_record m ->
  load_records cfg readable d (map path us) held prepared = Ok p ->
  (forall u, p !! u = if bool_decide (u ∈ us) then m !! u else prepared !! u) /\
  (forall u r, u ∈ us -> m !! u = Some r -> accepted_record cfg u r).
Proof.
  intros Hd Hn. revert held prepared. induction us as [|u us IH]; intros held prepared E; cbn in E.
  { simplify_eq. split; [done|]. intros u r Hu. by apply not_elem_of_nil in Hu. }
  destruct (readable _); [|done]. pose proof (proj1 Hd u) as Hf.
  destruct (d !! path u) as [f|] eqn:Ef; [|done]. cbn in Hf. rewrite ->Hf in E.
  destruct (m !! u) as [r|] eqn:Hu; [|done]. destruct (Hn _ _ Hu) as [H1 H2]. rewrite ->H1 in E.
  destruct (Version r =? cfg_Version cfg) eqn:Ev; [|done]. cbn in E. destruct (u =? "")%string; [done|].
  destruct (check_held _ _ _ _) as [held'|] eqn:Eh; [|done]. destruct (inventoryHash _ _ =? _)%string eqn:Ei; [|done].
  cbn in E. bool_hyps. apply check_held_present in Eh. destruct (IH _ _ E) as [Hlook Hacc]. split.
  - intros v. rewrite ->Hlook. destruct (decide (v = u)) as [->|Hne].
    + rewrite ->lookup_insert_eq, (bool_decide_eq_true_2 (u ∈ u :: us)) by (by left). case_bool_decide; congruence.
    + rewrite ->lookup_insert_ne by done. repeat case_bool_decide; set_solver.
  - intros v r' Hv Hr'. destruct (decide (v = u)) as [->|Hne]; [|apply Hacc; set_solver].
    rewrite ->Hu in Hr'. by simplify_eq.
Qed.

Lemma new_loads mkdir readable (d : disk) (m p : claims) :
  holds d m -> map_Forall named_record m -> New cfg mkdir readable d = Ok p ->
  p = m /\ map_Forall (accepted_record cfg) m.
Proof.
  intros Hd Hn E. unfold New in E. destruct mkdir; [|done]. cbn in E.
  destruct (state_files_of _ _ Hd) as (us & Hus & Hin). rewrite ->Hus in E.
  destruct (load_records_sound _ _ _ _ _ _ _ Hd Hn E) as [Hlook Hacc]. split.
  - apply map_eq. intros u. rewrite ->Hlook. case_bool_decide as Hu; [done|].
    rewrite ->Hin in Hu. rewrite ->lookup_empty. destruct (m !! u); [|done]. exfalso. apply Hu. by eexists.
  - intros u r Hu. apply Hacc; [|done]. apply Hin. by eexists.
Qed.

(** ** The refinement *)

(** The records a state stands for, in memory and on disk. *)
Definition consistent (s : option claims * disk) (m : claims) : Prop :=
  holds (snd s) m /\ map_Forall named_record m /\ exclusive m /\
  (forall p, fst s = Some p -> p = m /\ map_Forall (accepted_record cfg) m).

(** From the records [m] the events lead to records of the new state; records
    made by this configuration stay among themselves. *)
Definition refined (m : claims) (es : list event) (s' : option claims * disk) : Prop :=
  exists m', consistent s' m' /\ (map_Forall (valid_record cfg) m -> map_Forall (valid_record cfg) m') /\
    forall es' t, allocates (table_of m') es' t -> allocates (table_of m) (es ++ es') t.

Lemma refined_same m s' : consistent s' m -> refined m [] s'.
Proof. by exists m. Qed.

Lemma refined_subset m es d m' mem :
  consistent (Some m, d) m -> m' ⊆ m -> (forall p, mem = Some p -> p = m') ->
  (forall es' t, allocates (table_of m') es' t -> allocates (table_of m) (es ++ es') t) ->
  forall d', holds d' m' -> refined m es (mem, d').
Proof.
  intros (_ & Hn & Hx & Hp) Hsub Hmem Ha d' Hd'. destruct (Hp m eq_refl) as [_ Hacc]. exists m'. split; [|split; [|done]].
  - split_and!; [done|by eapply records_subseteq|by eapply exclusive_subseteq|].
    intros p Hp'. split; [by apply Hmem|by eapply records_subseteq].
  - by apply records_subseteq.
Qed.

Lemma refined_insert m d claim record devices d' mem es :
  consistent (Some m, d) m -> c_UID claim <> "" -> prepare json_hash cfg m claim = Ok (record, devices) ->
  same_files (<[path (c_UID claim) := Marshal record]> d) d' ->
  (forall p, mem = Some p -> p = <[c_UID claim := record]> m) -> (forall e, e ∈ es -> e = replied claim) ->
  refined m (grant m claim ++ es) (mem, d').
Proof.
  intros (Hd & Hn & Hx & Hp) Hne Ep Hs Hmem Hev. destruct (Hp m eq_refl) as [_ Hacc].
  exists (<[c_UID claim := record]> m).
  destruct (prepare_grants m claim record devices [] ∅ Hn Hacc Hx Hne Ep) as (H1 & H2 & H3 & H4 & _).
  split; [split_and!; [by eapply holds_same, holds_insert|done|done|]; intros p ?; split; [by apply Hmem|done]|].
  split; [done|]. intros es' t Ha. rewrite <-app_assoc.
  apply (prepare_grants m claim record devices _ _ Hn Hacc Hx Hne Ep).
  destruct (prepare_named _ _ _ _ Ep) as [Hns Hnm].
  induction es as [|e es IH]; [done|]. rewrite ->(Hev e) by (by left).
  cbn. unfold replied. eapply allocates_replied.
  - rewrite ->(lookup_table _ _ record) by apply lookup_insert_eq. unfold entry_of. by rewrite ->Hns, Hnm.
  - apply IH. intros; apply Hev; by right.
Qed.

Lemma refined_delete m d uid mem :
  consistent (Some m, d) m -> (forall p, mem = Some p -> p = delete uid m) ->
  refined m [Released uid] (mem, delete (path uid) d).
Proof.
  intros Hc Hmem. eapply refined_subset; [done|apply (delete_subseteq m uid)|done| |by apply holds_delete, (proj1 Hc)].
  intros es' t Ha. cbn. constructor. unfold table_of in *. by rewrite <-fmap_delete.
Qed.

Lemma refined_crash m d run claim record devices ds last err d' :
  consistent (Some m, d) m -> c_UID claim <> "" -> temp_name (temp run) = true ->
  prepare json_hash cfg m claim = Ok (record, devices) ->
  AtomicJSON run (path (c_UID claim)) record d = (ds, last, err) -> d' ∈ ds ++ [last] ->
  refined m (if d' !! path (c_UID claim) is Some _ then grant m claim else []) (None, d').
Proof.
  intros Hc Hne Ht Ep Es Hin. destruct (save_outcome _ _ _ _ _ _ _ Ht Es) as [Hlast Hall].
  assert (same_files d d' \/ same_files (<[path (c_UID claim) := Marshal record]> d) d') as [Hs|Hs].
  { apply elem_of_app in Hin as [Hin|Hin]; [rewrite ->Forall_forall in Hall; by apply Hall|].
    apply list_elem_of_singleton in Hin as ->. destruct err; auto. }
  - destruct Hc as (Hd & Hn & Hx & _).
    assert ((if d' !! path (c_UID claim) is Some _ then grant m claim else []) = []) as ->.
    { rewrite ->(Hs _ (matches_path _)). unfold grant.
      destruct (d !! path (c_UID claim)) as [f|] eqn:Hf; [|done].
      destruct (proj2 Hd _ _ Hf (matches_path _)) as (u & Eu & [r Hu]). apply path_inj in Eu as <-. by rewrite ->Hu. }
    apply refined_same. split_and!; [by eapply holds_same|done..].
  - rewrite ->(Hs _ (matches_path _)), lookup_insert_eq, <-(app_nil_r (grant m claim)).
    eapply refined_insert; [done..|]. intros ? He. by apply not_elem_of_nil in He.
Qed.

Lemma refined_recover m d get fails order l m' d' err mem :
  consistent (Some m, d) m -> order ≡ₚ map_to_list m -> l ⊆ order ->
  Recover json_hash get fails l (m, d) = (m', d', err) ->
  (forall p, mem = Some p -> p = m') -> refined m (forgotten get order m') (mem, d').
Proof.
  intros Hc Hp Hl E Hmem. destruct (recover_keeps _ _ _ _ _ _ _ _ (proj1 Hc) E) as (Hd' & Hsub & Hall).
  eapply refined_subset; [done|done|done| |done].
  intros es' t Ha. apply forgotten_deletes; [done|done| |done].
  intros u Hn Hs. destruct (Hall u Hn Hs) as (r & ? & ?). exists r. split; [by apply Hl|done].
Qed.

Lemma step_refines s es s' m : step json_hash cfg s es s' -> consistent s m -> refined m es s'.
Proof.
  intros Hstep Hc. pose proof Hc as (Hd & Hn & Hx & Hmem). destruct Hstep as
    [run claim p d p' d' devices Hne [Ht _] E | run claim p d p' d' err Hne [Ht _] E
    |run claim p d record devices ds last err d' Hne [Ht _] Ep Es Hin
    |fails uid p d p' d' err E|uid p d|get fails order p d p' d' err Hp E|get fails order k p d p' d' err Hp E
    |p d|mkdir readable d p E]; cbn in Hd, Hmem; try destruct (Hmem _ eq_refl) as [-> Hacc].
  - unfold prepare_claim in E. destruct (prepare json_hash cfg m claim) as [[record devs]|] eqn:Ep; [|done].
    destruct (AtomicJSON _ _ _ _) as [[ds last] [err|]] eqn:Es; [done|]. simplify_eq.
    eapply refined_insert; [done|done|done|exact (proj1 (save_outcome _ _ _ _ _ _ _ Ht Es))|by intros ? [= <-]|].
    by intros ? ?%list_elem_of_singleton.
  - apply refined_same. unfold prepare_claim in E.
    destruct (prepare json_hash cfg m claim) as [[record devs]|] eqn:Ep; [|simplify_eq; done].
    destruct (AtomicJSON _ _ _ _) as [[ds last] [err'|]] eqn:Es; [|done]. simplify_eq.
    split_and!; [eapply holds_same, Hd; exact (proj1 (save_outcome _ _ _ _ _ _ _ Ht Es))|done|done|by intros ? [= <-]].
  - by eapply refined_crash.
  - unfold unprepare_claim, remove_file in E. destruct fails; simplify_eq; [by apply refined_same|].
    apply refined_delete; [done|by intros ? [= <-]].
  - by apply refined_delete.
  - eapply refined_recover; [done|done|done|done|by intros ? [= <-]].
  - eapply refined_recover; [done|done| |done|done]. intros x Hin. by eapply elem_of_prefix, prefix_take.
  - by apply refined_same.
  - destruct (new_loads _ _ _ _ _ Hd Hn E) as [-> Hacc]. apply refined_same. by split_and!; [..|intros q [= <-]].
Qed.

Lemma execution_refines s es s' m :
  execution json_hash cfg s es s' -> consistent s m ->
  exists m', consistent s' m' /\ (map_Forall (valid_record cfg) m -> map_Forall (valid_record cfg) m') /\
    allocates (table_of m) es (table_of m').
Proof.
  intros Hex. revert m. induction Hex as [s|s es s' es' s'' Hstep _ IH]; intros m Hc.
  { exists m. split; [done|]. split; [done|constructor]. }
  destruct (step_refines _ _ _ _ Hstep Hc) as (m1 & Hc1 & Hv1 & Ha). destruct (IH _ Hc1) as (m2 & Hc2 & Hv2 & Ha2).
  exists m2. split; [done|]. split; [auto|by apply Ha].
Qed.

(** A node that has never run the driver. *)
Lemma consistent_empty : consistent (None, ∅) ∅.
Proof.
  split_and!; [|apply map_Forall_empty|by intros u u' r r' x H|done].
  split; [done|]. intros name f Hf. cbn in Hf. by rewrite ->lookup_empty in Hf.
Qed.

(** With one configuration all along, every record is of its making. *)
Lemma execution_settled es s : execution json_hash cfg (None, ∅) es s ->
  exists m, (holds (snd s) m /\ map_Forall (valid_record cfg) m /\ exclusive m /\ (forall p, fst s = Some p -> p = m)) /\
    allocates ∅ es (table_of m).
Proof.
  intros Hex. destruct (execution_refines _ _ _ _ Hex consistent_empty) as (m & (Hd & _ & Hx & Hm) & Hv & Ha).
  exists m. split; [|exact Ha]. split_and!; [done|apply Hv, map_Forall_empty|done|]. intros p Hp. by apply Hm.
Qed.

(** ** Whole calls *)

(** The kernel picks a new name for every temporary file of a call. *)
Fixpoint fresh_batch (calls : list (save_run * ResourceClaim)) (st : claims * disk) : Prop :=
  match calls with
  | [] => True
  | (run, claim) :: calls =>
      c_UID claim <> "" /\ fresh_temp run (snd st) /\ fresh_batch calls (fst (prepare_claim json_hash cfg run claim st))
  end.

Lemma prepare_claim_step run claim (p : claims) (d : disk) p' d' reply :
  c_UID claim <> "" -> fresh_temp run d -> prepare_claim json_hash cfg run claim (p, d) = (p', d', reply) ->
  exists es, step json_hash cfg (Some p, d) es (Some p', d').
Proof.
  intros Hne Hf E. destruct reply as [devices|e]; eexists; [by eapply step_prepare|by eapply step_prepare_error].
Qed.

(** A reply without error comes with the record. *)
Lemma prepare_claim_reply run claim (p : claims) (d : disk) p' d' devices :
  prepare_claim json_hash cfg run claim (p, d) = (p', d', Prepared devices) -> is_Some (p' !! c_UID claim).
Proof.
  unfold prepare_claim. intros E. destruct (prepare _ _ _ _) as [[r ds]|]; [|done].
  destruct (AtomicJSON _ _ _ _) as [[? ?] [?|]]; [done|]. simplify_eq. rewrite ->lookup_insert_eq. by eexists.
Qed.

Lemma prepare_claim_grows run claim (p : claims) (d : disk) p' d' reply u :
  prepare_claim json_hash cfg run claim (p, d) = (p', d', reply) -> is_Some (p !! u) -> is_Some (p' !! u).
Proof.
  unfold prepare_claim. intros E Hu. destruct (prepare _ _ _ _) as [[r ds]|]; [|by simplify_eq].
  destruct (AtomicJSON _ _ _ _) as [[? ?] [?|]]; simplify_eq; [done|].
  destruct (decide (u = c_UID claim)) as [->|Hn]; [rewrite ->lookup_insert_eq; by eexists|by rewrite ->lookup_insert_ne].
Qed.

Lemma prepare_batch calls (p : claims) (d : disk) replies p' d' replies' :
  fresh_batch calls (p, d) -> PrepareResourceClaims json_hash cfg calls (p, d) replies = (p', d', replies') ->
  (forall u devices, replies !! u = Some (Prepared devices) -> is_Some (p !! u)) ->
  (exists es, execution json_hash cfg (Some p, d) es (Some p', d')) /\
  (forall u devices, replies' !! u = Some (Prepared devices) -> is_Some (p' !! u)).
Proof.
  revert p d replies. induction calls as [|[run claim] calls IH]; intros p d replies Hf E Hr;
    cbn [PrepareResourceClaims fresh_batch] in E, Hf.
  { simplify_eq. split; [exists []; constructor|done]. }
  destruct (prepare_claim json_hash cfg run claim (p, d)) as [[p1 d1] reply] eqn:Ec.
  destruct Hf as (Hne & Hfresh & Hf). destruct (prepare_claim_step _ _ _ _ _ _ _ Hne Hfresh Ec) as [es1 Hs].
  destruct (IH p1 d1 _ Hf E) as [[es Hex] Hall].
  - intros u devices Hu. apply lookup_insert_Some in Hu as [[<- Hu]|[_ Hu]].
    + subst reply. by eapply prepare_claim_reply.
    + eapply prepare_claim_grows; [done|]. by eapply Hr.
  - split; [|done]. exists (es1 ++ es). by econstructor.
Qed.

(** Whatever happened before, a restart succeeds and restores exactly the
    claims the plugin held: those in memory if it was running, and in any case
    those granted and not released since. *)
Theorem restart_restores_claims es mem (d : disk) :
  execution json_hash cfg (None, ∅) es (mem, d) ->
  exists m, New cfg true (fun _ => true) d = Ok m /\ allocates ∅ es (table_of m) /\
    (forall p, mem = Some p -> p = m).
Proof.
  intros Hex. destruct (execution_settled _ _ Hex) as (m & (Hd & Hv & Hx & Hm) & Ha).
  exists m. split_and!; [by apply load_all|exact Ha|exact Hm].
Qed.

(** When [PrepareResourceClaims] reports a claim as prepared, its record is
    on disk: a restart right after the call finds it. *)
Theorem prepared_replies_durable es p (d : disk) calls p' d' replies :
  execution json_hash cfg (None, ∅) es (Some p, d) -> fresh_batch calls (p, d) ->
  PrepareResourceClaims json_hash cfg calls (p, d) ∅ = (p', d', replies) ->
  New cfg true (fun _ => true) d' = Ok p' /\
  forall u devices, replies !! u = Some (Prepared devices) -> is_Some (p' !! u).
Proof.
  intros Hex Hf E. destruct (execution_refines _ _ _ _ Hex consistent_empty) as (m & Hc & Hv0 & _).
  destruct (prepare_batch _ _ _ _ _ _ _ Hf E) as [[es' Hex'] Hall]; [intros u devices H; by rewrite ->lookup_empty in H|].
  destruct (execution_refines _ _ _ _ Hex' Hc) as (m' & (Hd & _ & Hx & Hm) & Hv & _).
  split; [|exact Hall]. rewrite ->(proj1 (Hm p' eq_refl)). apply load_all; [done| |done].
  apply Hv, Hv0, map_Forall_empty.
Qed.

End Plugin.

(** ** All processes of a node *)

Section Lifetimes.
Context {File : Type} `{!JSONFile File} (json_hash : list AllocationResult -> string).

Lemma consistent_stopped cfg cfg' (d : gmap string File) m : consistent cfg (None, d) m -> consistent cfg' (None, d) m.
Proof. intros (? & ? & ? & _). by split_and!. Qed.

Lemma allocates_app t es t' es' t'' : allocates t es t' -> allocates t' es' t'' -> allocates t (es ++ es') t''.
Proof. intros H Ht. induction H; cbn; [done|econstructor; eauto..]. Qed.

Lemma lifetimes_refine es cfg (s : option (gmap string PreparedClaim) * gmap string File) :
  lifetimes json_hash es cfg s -> exists m, consistent cfg s m /\ allocates ∅ es (table_of m).
Proof.
  induction 1 as [cfg es s Hl Hex|es cfg d cfg' es' s _ (m & Hc & Ha) Hl Hex].
  - destruct (execution_refines _ cfg _ _ _ _ Hex (consistent_empty cfg)) as (m & Hc & _ & Ha). by exists m.
  - destruct (execution_refines _ cfg' _ _ _ _ Hex (consistent_stopped _ _ _ _ Hc)) as (m' & Hc' & _ & Ha').
    exists m'. split; [done|]. by eapply allocates_app.
Qed.

(** C3: Over the whole life of a driver on a node (processes one after the
    other, each with its own version, inventory and configuration; calls that
    fail; processes that stop at any system call and start again), the plugin
    behaves as an exclusive device table.  A claim is granted devices only if no
    other claim holds one of them; a positive reply is only given for a claim
    the table holds under that namespace and name; a claim leaves the table only
    when the kubelet releases it, or when the API server answered about the
    object of its namespace and name that it does not exist or has another UID
    (never on a failed request); the table never changes otherwise.  The state
    directory always holds the table, and a running process has it in memory and
    has checked it against its own configuration. *)
Theorem plugin_refines_table es cfg (s : option (gmap string PreparedClaim) * gmap string File) :
  lifetimes json_hash es cfg s -> exists t, allocates ∅ es t /\ represents cfg s t.
Proof.
  intros Hl. destruct (lifetimes_refine _ _ _ Hl) as (m & (Hd & Hn & Hx & Hm) & Ha).
  exists (table_of m). split; [exact Ha|]. by exists m.
Qed.

End Lifetimes.

(** ** Publishing *)

Lemma published_lookup keys n encoded hash :
  keys_distinct keys = true ->
  published keys n encoded hash !! k_Inventory keys = Some encoded /\
  published keys n encoded hash !! k_Hash keys = Some hash /\
  published keys n encoded hash !! k_BootID keys = Some (BootID n) /\
  (forall key, key <> k_Inventory keys -> key <> k_Hash keys -> key <> k_BootID keys ->
     published keys n encoded hash !! key = Annotations n !! key).
Proof.
  unfold keys_distinct, published. intros H. bool_hyps.
  repeat split; intros; repeat first [rewrite ->lookup_insert_eq by done | rewrite ->lookup_insert_ne by congruence]; done.
Qed.

(** The attempt that ends a successful publication. *)
Lemma publish_last keys summary attempts w :
  PublishInventory keys summary attempts = (Ok tt, w) ->
  exists n, publish_attempt keys summary n = Ok w /\ exists o, (Some n, o) ∈ attempts.
Proof.
  induction attempts as [|[[n|] o] attempts IH]; cbn; intros E; [done| |done].
  destruct (publish_attempt keys summary n) as [[a|]|] eqn:Ea; [| |done].
  - destruct o; [|apply IH in E as (n' & Hn & o' & Ho)|done].
    + simplify_eq. exists n. split; [done|]. exists Updated. by left.
    + exists n'. split; [done|]. exists o'. by right.
  - simplify_eq. exists n. split; [done|]. exists o. by left.
Qed.

(** A publication that succeeds leaves on the Node it read, as its last
    attempt saw it, the encoding and the hash of the driver's inventory for the
    Node's boot and nothing else changed; and if the Node already had a hash for
    that boot, it is the same one, so the inventory never changes within a boot. *)
Theorem publication_sound keys summary attempts w :
  keys_distinct keys = true -> PublishInventory keys summary attempts = (Ok tt, w) ->
  exists n encoded hash, (exists o, (Some n, o) ∈ attempts) /\ summary (BootID n) = Ok (encoded, hash) /\
    let after := MkNode (default (Annotations n) w) (BootID n) in
    annotation after (k_Inventory keys) = encoded /\ annotation after (k_Hash keys) = hash /\
    annotation after (k_BootID keys) = BootID n /\
    (forall key, key <> k_Inventory keys -> key <> k_Hash keys -> key <> k_BootID keys ->
       annotation after key = annotation n key) /\
    (annotation n (k_BootID keys) = BootID n -> annotation n (k_Hash keys) <> "" -> annotation n (k_Hash keys) = hash).
Proof.
  intros Hk E. destruct (publish_last _ _ _ _ E) as (n & Ha & Hin). unfold publish_attempt in Ha.
  destruct (summary (BootID n)) as [[encoded hash]|] eqn:Es; [|done].
  exists n, encoded, hash. split; [done|]. split; [done|]. cbn.
  destruct (annotation n (k_BootID keys) =? BootID n)%string eqn:Eb; cbn in Ha;
    [destruct (annotation n (k_Hash keys) =? "")%string eqn:E0, (annotation n (k_Hash keys) =? hash)%string eqn:Eh; cbn in Ha;
       try done; destruct (annotation n (k_Inventory keys) =? encoded)%string eqn:Ei|]; cbn in Ha; simplify_eq; bool_hyps; cbn;
    try (split_and!; done);
    destruct (published_lookup keys n encoded hash Hk) as (H1 & H2 & H3 & H4); unfold annotation at 1 2 3; cbn;
    rewrite ->H1, H2, H3; split_and!; try done; intros; unfold annotation; cbn; by rewrite ->H4.
Qed.

(** ** A run with a crash *)

Module PluginSamples.

#[global] Instance plain_file : JSONFile PreparedClaim := {| Marshal := id; Unmarshal := Some; unmarshal_marshal _ := eq_refl |}.

Definition hash (l : list AllocationResult) : string := join "," (map Device l).
Definition cfg : Config :=
  MkConfig 2 "driver" "node-1" (fun x => bool_decide (x ∈ ["cpu-0"; "cpu-1"; "gpu-0"]%string)) (join "+") None
    (map (fun a => MkClaimDevice [Request a] (Pool a) (Device a) [])).
#[global] Instance cfg_lawful : LawfulConfig cfg.
Proof. by split. Qed.

Definition claim (uid : string) (devices : list string) : ResourceClaim :=
  MkClaim uid "default" ("claim-" +:+ uid) (Some (map (fun x => MkAllocation "r" "driver" "node-1" x "") devices)).
Definition save (n : string) (fail : option save_step) : save_run :=
  MkSave (".tmp-" +:+ n) (MkPrepared 0 "" "" "" "" "" [] [] 0) fail true.

Definition first : ResourceClaim := claim "a" ["gpu-0"; "cpu-0"].
Definition second : ResourceClaim := claim "b" ["cpu-1"].
Definition clash : ResourceClaim := claim "c" ["gpu-0"].

Abbreviation state := (gmap string PreparedClaim * gmap string PreparedClaim)%type.
Definition started : state := (∅, ∅).
Definition after_first : state := fst (prepare_claim hash cfg (save "1" None) first started).
(** The process stops right after the file of the second claim is in place. *)
Definition stopped : gmap string PreparedClaim :=
  snd (fst (prepare_claim hash cfg (save "2" None) second after_first)).
Definition restarted : gmap string PreparedClaim :=
  match New cfg true (fun _ => true) stopped with Ok m => m | Err _ => ∅ end.
Definition refused : state * PrepareResult := prepare_claim hash cfg (save "3" None) clash (restarted, stopped).
Definition released : state := fst (unprepare_claim false "a" (restarted, stopped)).
Definition regranted : state := fst (prepare_claim hash cfg (save "4" None) clash released).

Definition granted (uid : string) (devices : gset string) : event := Granted uid (MkEntry "default" ("claim-" +:+ uid) devices).
Definition told (uid : string) : event := Replied uid "default" ("claim-" +:+ uid).
Definition run : list event :=
  [granted "a" {["gpu-0"; "cpu-0"]}; told "a"; granted "b" {["cpu-1"]}; Released "a"; granted "c" {["gpu-0"]}; told "c"].

(** The next process has one device more; the object of the first claim has
    been replaced while the driver was down. *)
Definition cfg2 : Config :=
  MkConfig 2 "driver" "node-1" (fun x => bool_decide (x ∈ ["cpu-0"; "cpu-1"; "gpu-0"; "gpu-1"]%string)) (join "+") None
    (map (fun a => MkClaimDevice [Request a] (Pool a) (Device a) [])).
#[global] Instance cfg2_lawful : LawfulConfig cfg2.
Proof. by split. Qed.

Definition get (namespace name : string) : claim_answer :=
  if (name =? "claim-a")%string then Found (claim "a2" ["cpu-0"])
  else if (name =? "claim-b")%string then Found second else GetFailed.
Definition reread : gmap string PreparedClaim :=
  match New cfg2 true (fun _ => true) stopped with Ok m => m | Err _ => ∅ end.
Definition recovered : state := fst (Recover hash get (fun _ => false) (map_to_list reread) (reread, stopped)).
Definition third : ResourceClaim := claim "d" ["gpu-0"; "gpu-1"].
Definition last : state := fst (prepare_claim hash cfg2 (save "8" None) third recovered).
Definition life : list event :=
  [granted "a" {["gpu-0"; "cpu-0"]}; told "a"; granted "b" {["cpu-1"]};
   Forgotten "a" "default" "claim-a" (Found (claim "a2" ["cpu-0"])); granted "d" {["gpu-0"; "gpu-1"]}; told "d"].

Abbreviation running st := (Some (fst st), snd st).

(** The states of the run are the results of the operations. *)
Lemma prepared_step c run claim (st : state) es t :
  c_UID claim <> "" -> temp_name (temp run) = true -> snd st !! temp run = None ->
  match snd (prepare_claim hash c run claim st) with Prepared _ => true | PrepareErr _ => false end = true ->
  execution hash c (running (fst (prepare_claim hash c run claim st))) es t ->
  execution hash c (running st) ((grant (fst st) claim ++ [replied claim]) ++ es) t.
Proof.
  destruct st as [p d]. intros Hne Ht Hf Hr. destruct (prepare_claim _ _ _ _ _) as [[p' d'] [devices|]] eqn:E; [|done].
  apply execution_step. by eapply step_prepare.
Qed.

Lemma refused_step c run claim (st : state) es t :
  c_UID claim <> "" -> temp_name (temp run) = true -> snd st !! temp run = None ->
  match snd (prepare_claim hash c run claim st) with Prepared _ => false | PrepareErr _ => true end = true ->
  execution hash c (running (fst (prepare_claim hash c run claim st))) es t -> execution hash c (running st) es t.
Proof.
  destruct st as [p d]. intros Hne Ht Hf Hr. destruct (prepare_claim _ _ _ _ _) as [[p' d'] [|e]] eqn:E; [done|].
  apply (execution_step _ _ _ []). by eapply step_prepare_error.
Qed.

Lemma crash_step c run claim (st : state) devices es t :
  c_UID claim <> "" -> temp_name (temp run) = true -> snd st !! temp run = None ->
  snd (prepare_claim hash c run claim st) = Prepared devices ->
  execution hash c (None, snd (fst (prepare_claim hash c run claim st))) es t ->
  execution hash c (running st)
    ((if snd (fst (prepare_claim hash c run claim st)) !! path (c_UID claim) is Some _ then grant (fst st) claim else [])
     ++ es) t.
Proof.
  destruct st as [p d]. intros Hne Ht Hf. unfold prepare_claim.
  destruct (prepare hash c p claim) as [[r ds]|] eqn:Ep; [|done].
  destruct (AtomicJSON _ _ _ _) as [[dl last] [e|]] eqn:Es; [done|]. cbn [fst snd]. intros _.
  apply execution_step. eapply step_prepare_crash; [done|done|exact Ep|exact Es|]. apply elem_of_app. right. by left.
Qed.

Lemma start_step c d es t :
  match New c true (fun _ => true) d with Ok _ => true | Err _ => false end = true ->
  execution hash c (Some (match New c true (fun _ => true) d with Ok m => m | Err _ => ∅ end), d) es t ->
  execution hash c (None, d) es t.
Proof.
  destruct (New c true (fun _ => true) d) as [m|] eqn:E; [|done]. intros _.
  apply (execution_step _ _ _ []). by eapply step_start.
Qed.

Lemma unprepare_step c uid (st : state) es t :
  execution hash c (running (fst (unprepare_claim false uid st))) es t ->
  execution hash c (running st) ([Released uid] ++ es) t.
Proof. destruct st as [p d]. apply execution_step. by apply (step_unprepare _ _ false uid p d _ _ None). Qed.

Lemma run_executes : execution hash cfg (None, ∅) run (running regranted).
Proof.
  assert (run = (grant (fst started) first ++ [replied first]) ++
    (if stopped !! path "b" is Some _ then grant (fst after_first) second else []) ++ [Released "a"] ++
    (grant (fst released) clash ++ [replied clash]) ++ []) as -> by (vm_compute; reflexivity).
  apply start_step; [vm_compute; reflexivity|].
  apply (prepared_step cfg (save "1" None) first started); [done|vm_compute; reflexivity..|].
  eapply (crash_step cfg (save "2" None) second after_first); [done|vm_compute; reflexivity..|].
  apply start_step; [vm_compute; reflexivity|].
  apply (refused_step cfg (save "3" None) clash (restarted, stopped)); [done|vm_compute; reflexivity..|].
  apply (unprepare_step cfg "a" (restarted, stopped)).
  apply (prepared_step cfg (save "4" None) clash released); [done|vm_compute; reflexivity..|].
  constructor.
Qed.

Lemma life_lives : lifetimes hash life cfg2 (running last).
Proof.
  assert (life = ((grant (fst started) first ++ [replied first]) ++
    (if stopped !! path "b" is Some _ then grant (fst after_first) second else []) ++ []) ++
    (forgotten get (map_to_list reread) (fst recovered) ++ (grant (fst recovered) third ++ [replied third]) ++ []))
    as -> by (vm_compute; reflexivity).
  eapply (lifetimes_next _ _ cfg stopped); [apply lifetimes_first; [apply cfg_lawful|]|apply cfg2_lawful|].
  - apply start_step; [vm_compute; reflexivity|].
    apply (prepared_step cfg (save "1" None) first started); [done|vm_compute; reflexivity..|].
    eapply (crash_step cfg (save "2" None) second after_first); [done|vm_compute; reflexivity..|]. constructor.
  - apply start_step; [vm_compute; reflexivity|].
    eapply execution_step; [apply (step_recover hash cfg2 get (fun _ => false) (map_to_list reread) reread stopped
      (fst recovered) (snd recovered) None); [done|vm_compute; reflexivity]|].
    apply (prepared_step cfg2 (save "8" None) third recovered); [done|vm_compute; reflexivity..|].
    constructor.
Qed.

Definition calls : list (save_run * ResourceClaim) :=
  [(save "5" None, claim "d" ["cpu-1"]); (save "6" None, claim "e" ["cpu-0"]); (save "7" (Some Sync), claim "f" ["gpu-0"])].
Definition batch : gmap string PreparedClaim * gmap string PreparedClaim * gmap string PrepareResult :=
  PrepareResourceClaims hash cfg calls regranted ∅.

Definition keys : AnnotationKeys := MkKeys "inventory" "hash" "boot".
Definition summary (boot : string) : result string (string * string) :=
  if (boot =? "")%string then Err "no boot" else Ok ("cells of " +:+ boot, "h").
Definition old_node : NodeState := MkNode {["boot" := "b0"; "hash" := "h"; "owner" := "me"]} "b1".
Definition attempts : list (option NodeState * update_outcome) := [(Some old_node, Conflict); (Some old_node, Updated)].

End PluginSamples.

(** The second claim survives the crash before its reply, and the clash with
    the first one is refused until that one is released. *)
Example plugin_run :
  map fst (map_to_list PluginSamples.restarted) = ["a"; "b"]%string /\
  snd PluginSamples.refused = PrepareErr (HeldByOther "gpu-0") /\
  map fst (map_to_list PluginSamples.regranted.1) = ["c"; "b"]%string.
Proof. vm_compute. auto. Qed.

Lemma plugin_refines_table_witness :
  exists t, allocates ∅ PluginSamples.life t /\
    represents PluginSamples.cfg2 (Some PluginSamples.last.1, PluginSamples.last.2) t.
Proof. apply (plugin_refines_table PluginSamples.hash). apply PluginSamples.life_lives. Defined.

Lemma restart_restores_claims_witness :
  exists m, New PluginSamples.cfg true (fun _ => true) PluginSamples.regranted.2 = Ok m /\
    allocates ∅ PluginSamples.run (table_of m) /\ (forall p, Some PluginSamples.regranted.1 = Some p -> p = m).
Proof. apply (restart_restores_claims PluginSamples.hash PluginSamples.cfg). apply PluginSamples.run_executes. Defined.

Lemma prepared_replies_durable_witness :
  New PluginSamples.cfg true (fun _ => true) (snd (fst PluginSamples.batch)) = Ok (fst (fst PluginSamples.batch)) /\
  forall u devices, snd PluginSamples.batch !! u = Some (Prepared devices) -> is_Some (fst (fst PluginSamples.batch) !! u).
Proof.
  apply (prepared_replies_durable PluginSamples.hash PluginSamples.cfg PluginSamples.run (fst PluginSamples.regranted)
    (snd PluginSamples.regranted) PluginSamples.calls); [apply PluginSamples.run_executes| |vm_compute; reflexivity].
  repeat split; vm_compute; congruence.
Defined.

Lemma publication_sound_witness :
  exists n encoded hash, (exists o, (Some n, o) ∈ PluginSamples.attempts) /\
    PluginSamples.summary (BootID n) = Ok (encoded, hash) /\
    let after := MkNode (published PluginSamples.keys PluginSamples.old_node "cells of b1" "h") (BootID n) in
    annotation after "inventory" = encoded /\ annotation after "hash" = hash /\
    annotation after "boot" = BootID n /\
    (forall key, key <> "inventory" -> key <> "hash" -> key <> "boot" -> annotation after key = annotation n key) /\
    (annotation n "boot" = BootID n -> annotation n "hash" <> "" -> annotation n "hash" = hash).
Proof.
  apply (publication_sound PluginSamples.keys PluginSamples.summary PluginSamples.attempts
    (Some (published PluginSamples.keys PluginSamples.old_node "cells of b1" "h"))); vm_compute; reflexivity.
Defined.

End DraPluginSafety.
