(* ===== verification/DraInventory.v ===== *)
(** * DraInventory: the devices of a node
    ([src/dra-driver/internal/driver/inventory.go])

    Discovery of processors, memory, OpenTPU slots and GPUs from sysfs, the
    node's annotations and [nvidia-smi]; the summary that is published on the
    Node and the devices that are published as resource slices.  What the files
    of sysfs contain and what [nvidia-smi] prints (its rows of CSV fields) are
    inputs; Go visits maps in any order, so the operations that range over one
    take the order as an argument. *)

From S2P Require Import Prelude GoStrings Hardware ResourceApi.

Module DraInventory.
Import ResourceApi.

Definition driverName : string := "orchestration.gputpu.io".
Definition annotationPrefix : string := "orchestration.gputpu.io/".
Definition attributeDomain : string := "orchestration.gputpu.io/".
Definition kindCPU : string := "cpu".
Definition kindMemory : string := "memory".
Definition kindGPU : string := "gpu".
Definition kindOpenTPU : string := "opentpu".

Record localDevice := MkLocal {
  l_Name : string; Kind : string; l_NUMA : Z; CPU : Z; Socket : Z; Core : Z; UnitBytes : Z;
  l_UUID : string; l_Model : string; VRAMMiB : Z; l_PCI : string; Path : string;
  l_Profile : string; l_MatrixSize : Z; l_CPUCores : Z; l_MemoryBytes : Z; l_SharedMemory : Z }.

#[global] Instance localDevice_eq_dec : EqDecision localDevice.
Proof. solve_decision. Defined.

Definition cpu_device (name : string) (numa cpu socket core : Z) : localDevice :=
  MkLocal name kindCPU numa cpu socket core 0 "" "" 0 "" "" "" 0 0 0 0.
Definition memory_device (name : string) (numa unit : Z) : localDevice :=
  MkLocal name kindMemory numa 0 0 0 unit "" "" 0 "" "" "" 0 0 0 0.
Definition gpu_device (name : string) (numa : Z) (uuid model : string) (vram : Z) (pci path : string) : localDevice :=
  MkLocal name kindGPU numa 0 0 0 0 uuid model vram pci path "" 0 0 0 0.
Definition opentpu_device (name : string) (numa : Z) (profile : string) (matrix cores memory shared : Z) : localDevice :=
  MkLocal name kindOpenTPU numa 0 0 0 0 "" "" 0 "" "" profile matrix cores memory shared.

Abbreviation devices := (gmap string localDevice).

Record inventory := MkInv { nodeName : string; inv_devices : devices }.

Record openTPUProfile := MkTPUProfile {
  tp_Name : string; tp_MatrixSize : Z; tp_NUMA : Z; Slots : Z; tp_CPUCores : Z; tp_Memory : string; tp_SharedMemory : string }.
Record openTPUConfig := MkTPUConfig { tc_Version : Z; Profiles : list openTPUProfile }.

Inductive inventory_error :=
| BadMemoryUnit | BadReservedMemory | BadReservedCores
| NoTopology | BadTopology (cpu : Z) | NoMemoryTopology | BadMemory (numa : Z)
| BadProfiles | ProfileMemory (name : string) | ProfileShared (name : string) | BadProfile (name : string)
| DuplicateDevice (name : string)
| SMIFailed | SMIUnparsable | SMIRow
| NoBootID | MixedUnits (numa : Z) | MixedFootprints (profile : string).

(** ** What the host answers *)

(** A directory [cpuN]: the contents of its files, [None] if unreadable, and
    the names of its [node*] links. *)
Record cpu_dir := MkCpuDir {
  cd_Base : string; cd_Online : option string; cd_Package : option string; cd_Core : option string; cd_Nodes : list string }.
Record node_dir := MkNodeDir { nd_Base : string; Meminfo : option string }.

Inductive smi_answer := SMIMissing | SMIError | SMIBadCSV | SMIRows (rows : list (list string)).

Record host := MkHost {
  cpu_dirs : list cpu_dir; node_dirs : list node_dir;
  numa_node : string -> option string;  (* of a PCI device *)
  smi : smi_answer; dxg : bool }.

(** ** Helpers *)

(** [strconv.Atoi] when the error is ignored: 0 for a syntax error, the nearest
    integer when out of range. *)
Definition atoi_value (s : string) : Z :=
  match parse_int64 s with
  | Some z => z
  | None =>
      match cut_prefix "-" s, parse_digits (default s (cut_prefix "+" s)) with
      | None, Some _ => int64_max
      | Some t, _ => if parse_digits t is Some _ then int64_min else 0
      | None, None => 0
      end
  end.

Definition readInt (file : option string) : option Z := s ← file; parse_int64 (trim_space s).

Definition onlineCPU (d : cpu_dir) : bool :=
  match cd_Online d with None => true | Some s => negb (trim_space s =? "0")%string end.

Definition cpuNUMA (d : cpu_dir) : Z :=
  match cd_Nodes d with [n] => atoi_value (trim_prefix "node" n) | _ => 0 end.

Definition meminfo_total (fs : list string) : option string :=
  match fs with _ :: _ :: key :: value :: _ => if (key =? "MemTotal:")%string then Some value else None | _ => None end.

(** The first line with four fields or more whose third is [MemTotal:]. *)
Fixpoint nodeMemoryBytes (l : list string) : option Z :=
  match l with
  | [] => None
  | line :: l =>
      match meminfo_total (fields line) with
      | Some value => kib ← parse_int64 value; Some (wrap64 (kib * 1024))
      | None => nodeMemoryBytes l
      end
  end.

Definition normalize (value : string) : string := join "_" (fields_func Hardware.separator (to_lower value)).

Section Inventory.
(** [resource.ParseQuantity] with [Value], and [json.Unmarshal] of the OpenTPU
    annotation. *)
Variable parse_quantity : string -> option Z.
Variable decode_config : string -> option openTPUConfig.

Definition quantityBytes (raw fallback : string) : option Z :=
  let raw := if (raw =? "")%string then fallback else raw in
  value ← parse_quantity raw;
  if value <=? 0 then None else Some value.

Definition positiveInt (raw : string) (fallback : Z) : option Z :=
  if (raw =? "")%string then Some fallback
  else value ← parse_int64 raw; if value <? 0 then None else Some value.

(** ** Processors *)

(** The lowest online logical processor of each physical core. *)
Abbreviation cores := (gmap (Z * Z * Z) Z).

Fixpoint read_cores (dirs : list cpu_dir) (acc : cores) : result inventory_error cores :=
  match dirs with
  | [] => Ok acc
  | d :: dirs =>
      match parse_int64 (trim_prefix "cpu" (cd_Base d)) with
      | None => read_cores dirs acc
      | Some cpu =>
          if negb (onlineCPU d) then read_cores dirs acc else
          match readInt (cd_Package d), readInt (cd_Core d) with
          | Some socket, Some core =>
              let k := (cpuNUMA d, socket, core) in
              let keep := match acc !! k with Some old => negb (cpu <? old) | None => false end in
              read_cores dirs (if keep then acc else <[k := cpu]> acc)
          | _, _ => Err (BadTopology cpu)
          end
      end
  end.

Definition by_cpu (a b : localDevice) : Prop := CPU a <= CPU b.
#[local] Instance by_cpu_dec a b : Decision (by_cpu a b) := decide (CPU a <= CPU b).

(** The devices of one NUMA node, the first [reserve] processors left out. *)
Definition numa_cpus (c : cores) (reserve numa : Z) : list localDevice :=
  let found := map (fun '((n, s, k), cpu) => cpu_device "" n cpu s k)
                   (List.filter (fun '((n, _, _), _) => n =? numa) (map_to_list c)) in
  drop (Z.to_nat reserve) (merge_sort by_cpu found).

Definition cpu_name (d : localDevice) : string := "cpu-s" +:+ format_int (Socket d) +:+ "-c" +:+ format_int (Core d).
Definition named (name : string) (d : localDevice) : localDevice :=
  cpu_device name (l_NUMA d) (CPU d) (Socket d) (Core d).

Definition add_cpus (c : cores) (reserve : Z) (inv : devices) (numa : Z) : devices :=
  foldl (fun inv d => <[cpu_name d := named (cpu_name d) d]> inv) inv (numa_cpus c reserve numa).

(** The NUMA nodes of the cores. *)
Definition core_numas (c : cores) : gset Z := list_to_set (map (fun k => k.1.1.1) (map_to_list c)).

(** [order] is the order in which [range byNUMA] visits the NUMA nodes. *)
Definition discoverCPU (h : host) (order : gset Z -> list Z) (reserve : Z) (inv : devices) : result inventory_error devices :=
  match cpu_dirs h with
  | [] => Err NoTopology
  | dirs =>
      let! c := read_cores dirs ∅ in
      Ok (foldl (add_cpus c reserve) inv (order (core_numas c)))
  end.

(** ** Memory *)

Definition memory_name (numa i : Z) : string := "memory-n" +:+ format_int numa +:+ "-" +:+ pad_uint 5 i.

Definition add_memory (numa unit count : Z) (inv : devices) : devices :=
  foldl (fun inv i => let name := memory_name numa (Z.of_nat i) in <[name := memory_device name numa unit]> inv)
        inv (seq 0 (Z.to_nat count)).

Fixpoint memory_loop (dirs : list node_dir) (unit reserve : Z) (inv : devices) : result inventory_error devices :=
  match dirs with
  | [] => Ok inv
  | d :: dirs =>
      let numa := atoi_value (trim_prefix "node" (nd_Base d)) in
      match (text ← Meminfo d; nodeMemoryBytes (lines text)) with
      | None => Err (BadMemory numa)
      | Some total => memory_loop dirs unit reserve (add_memory numa unit (Z.quot (wrap64 (total - reserve)) unit) inv)
      end
  end.

Definition discoverMemory (h : host) (unit reserve : Z) (inv : devices) : result inventory_error devices :=
  match node_dirs h with
  | [] => Err NoMemoryTopology
  | dirs => memory_loop dirs unit reserve inv
  end.

(** ** OpenTPU slots *)

Definition slot_name (p : openTPUProfile) (name : string) (slot : Z) : string :=
  "opentpu-" +:+ name +:+ "-n" +:+ format_int (tp_NUMA p) +:+ "-" +:+ pad_uint 3 slot.

Definition slot_device (p : openTPUProfile) (name : string) (memory shared slot : Z) : localDevice :=
  opentpu_device (slot_name p name slot) (tp_NUMA p) ("opentpu_" +:+ trim_prefix "opentpu_" name)
                 (tp_MatrixSize p) (tp_CPUCores p) memory shared.

Fixpoint add_slots (p : openTPUProfile) (name : string) (memory shared : Z) (slots : list nat) (inv : devices)
    : result inventory_error devices :=
  match slots with
  | [] => Ok inv
  | slot :: slots =>
      let d := slot_device p name memory shared (Z.of_nat slot) in
      reject_if bool_decide (is_Some (inv !! l_Name d)) with DuplicateDevice (l_Name d) in
      add_slots p name memory shared slots (<[l_Name d := d]> inv)
  end.

Definition bad_profile (p : openTPUProfile) (name : string) : bool :=
  (name =? "")%string || negb (tp_Name p =? name)%string || (Slots p <? 1) || (tp_CPUCores p <? 1)
  || (negb (tp_MatrixSize p =? 8) && negb (tp_MatrixSize p =? 16)).

Fixpoint add_tpu_profiles (ps : list openTPUProfile) (inv : devices) : result inventory_error devices :=
  match ps with
  | [] => Ok inv
  | p :: ps =>
      match quantityBytes (tp_Memory p) "", quantityBytes (tp_SharedMemory p) "" with
      | None, _ => Err (ProfileMemory (tp_Name p))
      | Some _, None => Err (ProfileShared (tp_Name p))
      | Some memory, Some shared =>
          let name := normalize (tp_Name p) in
          reject_if bad_profile p name with BadProfile (tp_Name p) in
          let! inv := add_slots p name memory shared (seq 0 (Z.to_nat (Slots p))) inv in
          add_tpu_profiles ps inv
      end
  end.

Definition discoverOpenTPU (raw : string) (inv : devices) : result inventory_error devices :=
  if (trim_space raw =? "")%string then Ok inv else
  match decode_config raw with
  | None => Err BadProfiles
  | Some config =>
      reject_if negb (tc_Version config =? 1) with BadProfiles in
      add_tpu_profiles (Profiles config) inv
  end.

(** ** GPUs *)

Definition numaNodes (inv : devices) : list Z :=
  merge_sort Z.le (elements (list_to_set (C := gset Z)
    (map (fun d => l_NUMA (snd d))
         (List.filter (fun '(_, d) => (Kind d =? kindCPU)%string || (Kind d =? kindMemory)%string) (map_to_list inv))))).

(** The NUMA node of a GPU: sysfs knows it, or the node has only one. *)
Definition gpu_numa (h : host) (numaCount : nat) (pci : string) (inv : devices) : option Z :=
  let fallback := if negb (numaCount =? 1)%nat then None else head (numaNodes inv) in
  match readInt (numa_node h pci) with
  | Some numa => if numa <? 0 then fallback else Some numa
  | None => fallback
  end.

(** The rows before a bad one stay in the inventory. *)
Fixpoint gpu_rows (h : host) (numaCount : nat) (rows : list (list string)) (inv : devices)
    : devices * option inventory_error :=
  match rows with
  | [] => (inv, None)
  | row :: rows =>
      match map trim_space row with
      | [index; uuid; model; memory; bus] =>
          match parse_int64 index, parse_int64 memory with
          | Some index, Some vram =>
              if (uuid =? "")%string then (inv, Some SMIRow) else
              let pci := to_lower bus in
              match gpu_numa h numaCount pci inv with
              | None => gpu_rows h numaCount rows inv
              | Some numa =>
                  let name := "gpu-" +:+ to_lower uuid in
                  let path := if dxg h then "/dev/dxg"%string else "/dev/nvidia" +:+ format_int index in
                  gpu_rows h numaCount rows
                    (<[name := gpu_device name numa uuid (Hardware.NormalizeGPU model) vram pci path]> inv)
              end
          | _, _ => (inv, Some SMIRow)
          end
      | _ => (inv, Some SMIRow)
      end
  end.

Definition discoverNVIDIA (h : host) (inv : devices) : devices * option inventory_error :=
  match smi h with
  | SMIMissing => (inv, None)
  | SMIError => (inv, Some SMIFailed)
  | SMIBadCSV => (inv, Some SMIUnparsable)
  | SMIRows rows => gpu_rows h (length (numaNodes inv)) rows inv
  end.

(** ** The whole discovery *)

Definition setting (annotations : gmap string string) (name : string) : string :=
  default ""%string (annotations !! (annotationPrefix +:+ name)).

Definition discoverInventory (h : host) (order : gset Z -> list Z) (node : string) (annotations : gmap string string)
    : result inventory_error inventory :=
  match quantityBytes (setting annotations "memory-unit") "1Gi" with
  | None => Err BadMemoryUnit
  | Some memoryUnit =>
  match quantityBytes (setting annotations "reserved-memory-per-numa") "1Gi" with
  | None => Err BadReservedMemory
  | Some reservedMemory =>
  match positiveInt (setting annotations "reserved-cores-per-numa") 1 with
  | None => Err BadReservedCores
  | Some reservedCores =>
      let! inv := discoverCPU h order reservedCores ∅ in
      let! inv := discoverMemory h memoryUnit reservedMemory inv in
      let! inv := discoverOpenTPU (setting annotations "opentpu-profiles") inv in
      Ok (MkInv node (fst (discoverNVIDIA h inv)))
  end end end.

End Inventory.

(** ** The summary *)

(** [byNUMA] and [profiles] of the loop. *)
Record totals := MkTotals { byNUMA : gmap Z Hardware.Cell; profiles : gmap Z (gmap string Hardware.OpenTPU) }.

Definition profile_of (t : totals) (numa : Z) : gmap string Hardware.OpenTPU := default ∅ (profiles t !! numa).
Definition cell_of (t : totals) (numa : Z) : Hardware.Cell :=
  default (Hardware.MkCell numa 0 0 0 [] []) (byNUMA t !! numa).

Definition count_cpu (c : Hardware.Cell) : Hardware.Cell :=
  Hardware.MkCell (Hardware.NUMA c) (Hardware.c_CPUs c + 1) (Hardware.MemoryUnits c) (Hardware.MemoryUnitBytes c)
                  (Hardware.GPUs c) (Hardware.OpenTPUs c).
Definition count_memory (unit : Z) (c : Hardware.Cell) : Hardware.Cell :=
  Hardware.MkCell (Hardware.NUMA c) (Hardware.c_CPUs c) (Hardware.MemoryUnits c + 1) unit
                  (Hardware.GPUs c) (Hardware.OpenTPUs c).
Definition append_gpu (g : Hardware.GPU) (c : Hardware.Cell) : Hardware.Cell :=
  Hardware.MkCell (Hardware.NUMA c) (Hardware.c_CPUs c) (Hardware.MemoryUnits c) (Hardware.MemoryUnitBytes c)
                  (Hardware.GPUs c ++ [g]) (Hardware.OpenTPUs c).

Definition first_profile (d : localDevice) : Hardware.OpenTPU :=
  Hardware.MkOpenTPU (l_Profile d) 0 (l_MatrixSize d) (l_CPUCores d) (l_MemoryBytes d) (l_SharedMemory d).
Definition same_footprint (p : Hardware.OpenTPU) (d : localDevice) : bool :=
  (Hardware.MatrixSize p =? l_MatrixSize d) && (Hardware.CPUCores p =? l_CPUCores d)
  && (Hardware.t_MemoryBytes p =? l_MemoryBytes d) && (Hardware.SharedMemory p =? l_SharedMemory d).
Definition count_profile (p : Hardware.OpenTPU) : Hardware.OpenTPU :=
  Hardware.MkOpenTPU (Hardware.Profile p) (Hardware.t_Count p + 1) (Hardware.MatrixSize p) (Hardware.CPUCores p)
                     (Hardware.t_MemoryBytes p) (Hardware.SharedMemory p).

(** The body of the loop; the counters stay below the number of devices. *)
Definition summarize (t : totals) (d : localDevice) : result inventory_error totals :=
  let numa := l_NUMA d in
  let cell := cell_of t numa in
  let with_cell c := MkTotals (<[numa := c]> (byNUMA t)) (profiles t) in
  if (Kind d =? kindCPU)%string then Ok (with_cell (count_cpu cell))
  else if (Kind d =? kindMemory)%string then
    reject_if negb (Hardware.MemoryUnitBytes cell =? 0) && negb (Hardware.MemoryUnitBytes cell =? UnitBytes d)
      with MixedUnits numa in
    Ok (with_cell (count_memory (UnitBytes d) cell))
  else if (Kind d =? kindGPU)%string then
    Ok (with_cell (append_gpu (Hardware.MkGPU (l_UUID d) (l_Model d) (l_PCI d)) cell))
  else if (Kind d =? kindOpenTPU)%string then
    let p := default (first_profile d) (profile_of t numa !! l_Profile d) in
    reject_if negb (same_footprint p d) with MixedFootprints (l_Profile d) in
    Ok (MkTotals (<[numa := cell]> (byNUMA t))
                 (<[numa := <[l_Profile d := count_profile p]> (profile_of t numa)]> (profiles t)))
  else Ok (with_cell cell).

Fixpoint summarize_all (l : list localDevice) (t : totals) : result inventory_error totals :=
  match l with
  | [] => Ok t
  | d :: l => let! t := summarize t d in summarize_all l t
  end.

Definition by_uuid (a b : Hardware.GPU) : Prop := String.le (Hardware.UUID a) (Hardware.UUID b).
#[global] Instance by_uuid_dec a b : Decision (by_uuid a b) := decide (String.le _ _).

#[global] Instance by_uuid_trans : Transitive by_uuid.
Proof. intros a b c. unfold by_uuid. apply transitivity. Qed.
#[global] Instance by_uuid_total : Total by_uuid.
Proof. intros a b. apply (total String.le). Qed.

(** The cell of a NUMA node with its GPUs and profiles in order. *)
Definition finish_cell (t : totals) (numa : Z) (c : Hardware.Cell) : Hardware.Cell :=
  Hardware.MkCell (Hardware.NUMA c) (Hardware.c_CPUs c) (Hardware.MemoryUnits c) (Hardware.MemoryUnitBytes c)
    (merge_sort by_uuid (Hardware.GPUs c))
    (Hardware.OpenTPUs c ++
     omap (fun name => profile_of t numa !! name) (merge_sort String.le (map fst (map_to_list (profile_of t numa))))).

Definition cells (t : totals) : list Hardware.Cell :=
  omap (fun numa => finish_cell t numa <$> byNUMA t !! numa) (merge_sort Z.le (map fst (map_to_list (byNUMA t)))).

(** [order]: the devices in the order [range inv.devices] visits them. *)
Definition summary_inventory (order : list localDevice) (bootID : string) : result inventory_error Hardware.Inventory :=
  reject_if (bootID =? "")%string with NoBootID in
  let! t := summarize_all order (MkTotals ∅ ∅) in
  Ok (Hardware.MkInventory 1 bootID (cells t)).

(** With the JSON encoding of an inventory and the hash of the encoding of its
    cells. *)
Definition summary (encode : Hardware.Inventory -> string) (hash : list Hardware.Cell -> string)
    (order : list localDevice) (bootID : string) : result inventory_error (Hardware.Inventory * string * string) :=
  let! inv := summary_inventory order bootID in
  Ok (inv, encode inv, hash (Hardware.Cells inv)).

(** ** Resource slices *)

Definition resourceDevice (d : localDevice) : Device :=
  let attr name := attributeDomain +:+ name in
  let base : gmap string Attribute :=
    <[attr "kind" := stringAttribute (Kind d)]> (<[attr "numaNode" := intAttribute (l_NUMA d)]> ∅) in
  let '(attrs, capacity) :=
    if (Kind d =? kindCPU)%string then
      (<[attr "logicalCPU" := intAttribute (CPU d)]> (<[attr "socket" := intAttribute (Socket d)]>
         (<[attr "core" := intAttribute (Core d)]> base)), ∅)
    else if (Kind d =? kindMemory)%string then
      (<[attr "unitBytes" := intAttribute (UnitBytes d)]> base, <[attr "memory" := capacityValue (UnitBytes d)]> ∅)
    else if (Kind d =? kindGPU)%string then
      (<[attr "uuid" := stringAttribute (l_UUID d)]> (<[attr "model" := stringAttribute (l_Model d)]>
         (<[attr "pci" := stringAttribute (l_PCI d)]> (<[attr "path" := stringAttribute (Path d)]> base))),
       <[attr "vram" := VRAMMiB d * 2 ^ 20]> ∅)
    else if (Kind d =? kindOpenTPU)%string then
      (<[attr "profile" := stringAttribute (l_Profile d)]> (<[attr "matrixSize" := intAttribute (l_MatrixSize d)]>
         (<[attr "cpuCores" := intAttribute (l_CPUCores d)]> base)),
       <[attr "memory" := capacityValue (l_MemoryBytes d)]> (<[attr "sharedMemory" := capacityValue (l_SharedMemory d)]> ∅))
    else (base, ∅) in
  MkDevice (l_Name d) attrs capacity.

(** The devices in the order of their names; [ResourceSliceMaxDevices] is the
    limit of the API. *)
Definition resource_devices (inv : devices) : list Device :=
  omap (fun name => resourceDevice <$> inv !! name) (merge_sort String.le (map fst (map_to_list inv))).
Definition resources (ResourceSliceMaxDevices : nat) (inv : devices) : list (list Device) :=
  split_slices ResourceSliceMaxDevices (resource_devices inv).

Definition hasKind (inv : devices) (kind : string) : bool :=
  existsb (fun '(_, d) => (Kind d =? kind)%string) (map_to_list inv).

Definition removeKind (inv : devices) (kind : string) : devices :=
  filter (fun '(_, d) => Kind d <> kind) inv.

(** ** What the summary counts *)

Definition selected (kind : string) (numa : Z) (l : list localDevice) : list localDevice :=
  List.filter (fun d => (Kind d =? kind)%string && (l_NUMA d =? numa)) l.
Definition slots_of (numa : Z) (profile : string) (l : list localDevice) : list localDevice :=
  List.filter (fun d => (l_Profile d =? profile)%string) (selected kindOpenTPU numa l).
Definition count (l : list localDevice) : Z := Z.of_nat (length l).
Definition gpu_of (d : localDevice) : Hardware.GPU := Hardware.MkGPU (l_UUID d) (l_Model d) (l_PCI d).
Definition numas (l : list localDevice) : list Z := remove_dups (map l_NUMA l).

Definition cell_total (l : list localDevice) (numa : Z) : Hardware.Cell :=
  Hardware.MkCell numa (count (selected kindCPU numa l)) (count (selected kindMemory numa l))
    (default 0 (UnitBytes <$> last (selected kindMemory numa l))) (map gpu_of (selected kindGPU numa l)) [].

Definition profile_total (l : list localDevice) (numa : Z) (profile : string) : option Hardware.OpenTPU :=
  match slots_of numa profile l with
  | [] => None
  | d :: _ => Some (Hardware.MkOpenTPU profile (count (slots_of numa profile l)) (l_MatrixSize d) (l_CPUCores d)
                                       (l_MemoryBytes d) (l_SharedMemory d))
  end.

(** Two devices that can be summarised together. *)
Definition compatible (d e : localDevice) : bool :=
  negb (l_NUMA d =? l_NUMA e) ||
  (negb ((Kind d =? kindMemory)%string && (Kind e =? kindMemory)%string) || (UnitBytes d =? UnitBytes e)) &&
  (negb ((Kind d =? kindOpenTPU)%string && (Kind e =? kindOpenTPU)%string && (l_Profile d =? l_Profile e)%string)
   || same_footprint (first_profile d) e).

Definition consistent (l : list localDevice) : Prop := forall d e, d ∈ l -> e ∈ l -> compatible d e = true.

(** Discovery only makes memory devices of a positive size. *)
Definition positive_units (l : list localDevice) : Prop := Forall (fun d => Kind d = kindMemory -> 0 < UnitBytes d) l.

Definition tracks (l : list localDevice) (t : totals) : Prop :=
  (forall n, byNUMA t !! n = if bool_decide (n ∈ map l_NUMA l) then Some (cell_total l n) else None) /\
  (forall n p, profile_of t n !! p = profile_total l n p).

Lemma selected_snoc k n l d :
  selected k n (l ++ [d]) = selected k n l ++ (if (Kind d =? k)%string && (l_NUMA d =? n) then [d] else []).
Proof. unfold selected. by rewrite ->List.filter_app. Qed.

Lemma slots_of_snoc n p l d :
  slots_of n p (l ++ [d]) =
  slots_of n p l ++ (if ((Kind d =? kindOpenTPU)%string && (l_NUMA d =? n)) && (l_Profile d =? p)%string then [d] else []).
Proof.
  unfold slots_of. rewrite ->selected_snoc, List.filter_app. f_equal.
  destruct ((Kind d =? kindOpenTPU)%string && (l_NUMA d =? n)); [|done]. cbn. by destruct (l_Profile d =? p)%string.
Qed.

Lemma count_snoc l d : count (l ++ [d]) = count l + 1.
Proof. unfold count. rewrite ->length_app. cbn. lia. Qed.

Lemma cell_total_other l d n : l_NUMA d <> n -> cell_total (l ++ [d]) n = cell_total l n.
Proof.
  intros Hn. unfold cell_total. rewrite ->!selected_snoc.
  apply Z.eqb_neq in Hn. by rewrite ->Hn, !andb_false_r, !app_nil_r.
Qed.

Lemma elem_of_selected k n l d : d ∈ selected k n l <-> d ∈ l /\ Kind d = k /\ l_NUMA d = n.
Proof. unfold selected. by rewrite ->list_elem_of_In, filter_In, <-list_elem_of_In, andb_true_iff, String.eqb_eq, Z.eqb_eq. Qed.

Lemma elem_of_slots n p l d : d ∈ slots_of n p l <-> d ∈ l /\ Kind d = kindOpenTPU /\ l_NUMA d = n /\ l_Profile d = p.
Proof.
  unfold slots_of. rewrite ->list_elem_of_In, filter_In, <-list_elem_of_In, elem_of_selected, String.eqb_eq. tauto.
Qed.

(** The cell the loop works on, also when it is new. *)
Lemma cell_of_tracks l t n : tracks l t -> cell_of t n = cell_total l n.
Proof.
  intros [H _]. unfold cell_of. rewrite ->H. case_bool_decide as Hin; [done|]. cbn.
  assert (forall k, selected k n l = []) as Hnil.
  { intros k. destruct (selected k n l) as [|d rest] eqn:E; [done|]. exfalso. apply Hin.
    assert (d ∈ selected k n l) as Hd by (rewrite ->E; by left).
    apply elem_of_selected in Hd as (Hd & _ & <-). apply list_elem_of_In, in_map. by apply list_elem_of_In. }
  unfold cell_total. by rewrite ->!Hnil.
Qed.

Lemma tracks_insert l t d t' :
  tracks l t -> byNUMA t' = <[l_NUMA d := cell_total (l ++ [d]) (l_NUMA d)]> (byNUMA t) ->
  (forall n p, profile_of t' n !! p = profile_total (l ++ [d]) n p) -> tracks (l ++ [d]) t'.
Proof.
  intros [H _] Hb Hp. split; [|done]. intros n. rewrite ->Hb, map_app. cbn.
  destruct (decide (l_NUMA d = n)) as [<-|Hn].
  - rewrite ->lookup_insert_eq, bool_decide_eq_true_2; [done|]. apply elem_of_app. right. by left.
  - rewrite ->lookup_insert_ne, H, cell_total_other by done. repeat case_bool_decide; set_solver.
Qed.

Lemma profile_total_other l d n p :
  Kind d <> kindOpenTPU \/ l_NUMA d <> n \/ l_Profile d <> p -> profile_total (l ++ [d]) n p = profile_total l n p.
Proof.
  intros H. unfold profile_total. rewrite ->slots_of_snoc.
  assert (((Kind d =? kindOpenTPU)%string && (l_NUMA d =? n)) && (l_Profile d =? p)%string = false) as ->.
  { apply not_true_iff_false. intros [[E1 E2]%andb_true_iff E3]%andb_true_iff.
    apply String.eqb_eq in E1, E3. apply Z.eqb_eq in E2. naive_solver. }
  by rewrite ->app_nil_r.
Qed.

Lemma profile_total_same l d :
  Kind d = kindOpenTPU ->
  profile_total (l ++ [d]) (l_NUMA d) (l_Profile d) =
  Some (count_profile (default (first_profile d) (profile_total l (l_NUMA d) (l_Profile d)))).
Proof.
  intros E. unfold profile_total. rewrite ->slots_of_snoc, E, String.eqb_refl, Z.eqb_refl. cbn.
  rewrite ->String.eqb_refl. destruct (slots_of _ _ l) as [|e rest]; [done|]. cbn [app default].
  unfold count_profile. do 2 f_equal. apply (count_snoc (e :: rest)).
Qed.

(** One more device is counted. *)
Lemma summarize_tracks l t d t' : tracks l t -> summarize t d = Ok t' -> tracks (l ++ [d]) t'.
Proof.
  intros Ht E. pose proof (cell_of_tracks _ _ (l_NUMA d) Ht) as Hc. unfold summarize in E. rewrite ->Hc in E.
  assert (Kind d <> kindOpenTPU -> forall n p, profile_of t n !! p = profile_total (l ++ [d]) n p) as Hp.
  { intros Hk n p. rewrite ->profile_total_other by auto. apply Ht. }
  assert (cell_total (l ++ [d]) (l_NUMA d) =
    let c := cell_total l (l_NUMA d) in
    if (Kind d =? kindCPU)%string then count_cpu c else if (Kind d =? kindMemory)%string then count_memory (UnitBytes d) c
    else if (Kind d =? kindGPU)%string then append_gpu (gpu_of d) c else c) as Hcell.
  { unfold cell_total. rewrite ->!selected_snoc, Z.eqb_refl, !andb_true_r.
    destruct (Kind d =? kindCPU)%string eqn:E1; [apply String.eqb_eq in E1; rewrite ->E1; cbn; rewrite ->!app_nil_r, count_snoc; done|].
    destruct (Kind d =? kindMemory)%string eqn:E2.
    { apply String.eqb_eq in E2; rewrite ->E2; cbn. rewrite ->!app_nil_r, count_snoc, last_snoc. done. }
    destruct (Kind d =? kindGPU)%string eqn:E3; rewrite ->!app_nil_r; [by rewrite ->map_app|done]. }
  destruct (Kind d =? kindCPU)%string eqn:E1; [apply String.eqb_eq in E1|].
  { simplify_eq. apply (tracks_insert l t); [done|cbn; by rewrite ->Hcell|apply Hp; by rewrite ->E1]. }
  destruct (Kind d =? kindMemory)%string eqn:E2; [apply String.eqb_eq in E2|].
  { destruct (_ && _); [done|]. simplify_eq.
    apply (tracks_insert l t); [done|cbn; by rewrite ->Hcell|apply Hp; by rewrite ->E2]. }
  destruct (Kind d =? kindGPU)%string eqn:E3; [apply String.eqb_eq in E3|].
  { simplify_eq. apply (tracks_insert l t); [done|cbn; by rewrite ->Hcell|apply Hp; by rewrite ->E3]. }
  destruct (Kind d =? kindOpenTPU)%string eqn:E4; [apply String.eqb_eq in E4|apply String.eqb_neq in E4].
  - destruct (negb _); [done|]. simplify_eq. apply (tracks_insert l t); [done|cbn; by rewrite ->Hcell|].
    intros n p. unfold profile_of at 1. cbn. destruct (decide (l_NUMA d = n)) as [<-|Hn].
    + rewrite ->lookup_insert_eq. cbn. destruct (decide (l_Profile d = p)) as [<-|Hp'].
      * rewrite ->lookup_insert_eq, profile_total_same by done. do 2 f_equal. f_equal. apply Ht.
      * rewrite ->lookup_insert_ne, profile_total_other by auto. apply Ht.
    + rewrite ->lookup_insert_ne, profile_total_other by auto. apply Ht.
  - simplify_eq. apply (tracks_insert l t); [done|cbn; by rewrite ->Hcell|by apply Hp].
Qed.

Lemma same_footprint_first d e :
  same_footprint (first_profile d) e = true <->
  l_MatrixSize d = l_MatrixSize e /\ l_CPUCores d = l_CPUCores e /\ l_MemoryBytes d = l_MemoryBytes e /\
  l_SharedMemory d = l_SharedMemory e.
Proof. unfold same_footprint. cbn. rewrite ->!andb_true_iff, !Z.eqb_eq. tauto. Qed.

(** The readable form of [compatible]. *)
Lemma compatible_spec d e :
  compatible d e = true <->
  (l_NUMA d = l_NUMA e ->
    (Kind d = kindMemory -> Kind e = kindMemory -> UnitBytes d = UnitBytes e) /\
    (Kind d = kindOpenTPU -> Kind e = kindOpenTPU -> l_Profile d = l_Profile e -> same_footprint (first_profile d) e = true)).
Proof.
  unfold compatible.
  rewrite ->orb_true_iff, andb_true_iff, !orb_true_iff, !negb_true_iff, <-!not_true_iff_false, !andb_true_iff,
    !Z.eqb_eq, !String.eqb_eq.
  destruct (decide (l_NUMA d = l_NUMA e)), (decide (Kind d = kindMemory)), (decide (Kind e = kindMemory)),
    (decide (Kind d = kindOpenTPU)), (decide (Kind e = kindOpenTPU)), (decide (l_Profile d = l_Profile e)),
    (decide (UnitBytes d = UnitBytes e)); tauto.
Qed.

Lemma consistent_snoc l d :
  consistent (l ++ [d]) <-> consistent l /\ (forall e, e ∈ l -> compatible e d = true).
Proof.
  assert (forall a b, compatible a b = true -> compatible b a = true) as Hsym.
  { intros a b. rewrite ->!compatible_spec, !same_footprint_first. intros H Hn. destruct (H (eq_sym Hn)) as [H1 H2].
    split; intros; [symmetry; auto|]. destruct H2 as (?&?&?&?); auto. }
  assert (forall a, compatible a a = true) as Hrefl.
  { intros a. apply compatible_spec. rewrite ->same_footprint_first. intuition congruence. }
  unfold consistent. setoid_rewrite elem_of_app. setoid_rewrite list_elem_of_singleton. split.
  - intros H. split; intros; apply H; auto.
  - intros [H1 H2] a b [Ha| ->] [Hb| ->]; auto.
Qed.

Lemma summarize_ok l t d :
  tracks l t -> consistent l -> positive_units l ->
  is_ok (summarize t d) = true <-> (forall e, e ∈ l -> compatible e d = true).
Proof.
  intros Ht Hl Hpos. pose proof (cell_of_tracks _ _ (l_NUMA d) Ht) as Hc. unfold summarize. rewrite ->Hc.
  setoid_rewrite compatible_spec.
  destruct (Kind d =? kindCPU)%string eqn:E1; [apply String.eqb_eq in E1; rewrite ->E1; cbn; naive_solver|].
  destruct (Kind d =? kindMemory)%string eqn:E2; [apply String.eqb_eq in E2|].
  { set (ms := selected kindMemory (l_NUMA d) l).
    assert (forall e, e ∈ ms <-> e ∈ l /\ Kind e = kindMemory /\ l_NUMA e = l_NUMA d) as Hms by (intros; apply elem_of_selected).
    cbn. fold ms. destruct (last ms) as [m|] eqn:Em.
    - apply last_Some_elem_of in Em as Hm. rewrite ->Hms in Hm. cbn. unfold positive_units in Hpos.
      rewrite ->Forall_forall in Hpos. pose proof (Hpos m (proj1 Hm) (proj1 (proj2 Hm))).
      destruct (UnitBytes m =? 0) eqn:E0; [lia|]. destruct (UnitBytes m =? UnitBytes d) eqn:Eu; cbn.
      + split; [|done]. intros _ e He Hn. split; [|rewrite ->E2; done]. intros He' _.
        pose proof (Hl e m He (proj1 Hm)) as Hcm. rewrite ->compatible_spec in Hcm.
        destruct Hcm as [Hcm _]; [rewrite ->Hn; symmetry; apply Hm|].
        rewrite ->(Hcm He') by apply Hm. lia.
      + split; [done|]. intros H'. destruct (H' m) as [Hu _]; [apply Hm|apply Hm|].
        rewrite ->Hu in Eu by (done || apply Hm). lia.
    - apply last_None in Em. cbn. split; [|done]. intros _ e He Hn. split; [|rewrite ->E2; done]. intros He' _.
      assert (e ∈ ms) as Hin by (by apply Hms). rewrite ->Em in Hin. by apply not_elem_of_nil in Hin. }
  destruct (Kind d =? kindGPU)%string eqn:E3; [apply String.eqb_eq in E3; rewrite ->E3; cbn; naive_solver|].
  apply String.eqb_neq in E2.
  destruct (Kind d =? kindOpenTPU)%string eqn:E4; [apply String.eqb_eq in E4|apply String.eqb_neq in E4; cbn; naive_solver].
  destruct Ht as [_ Hp]. rewrite ->Hp. unfold profile_total.
  set (ts := slots_of (l_NUMA d) (l_Profile d) l).
  assert (forall e, e ∈ ts <-> e ∈ l /\ Kind e = kindOpenTPU /\ l_NUMA e = l_NUMA d /\ l_Profile e = l_Profile d) as Hts
    by (intros; apply elem_of_slots).
  destruct ts as [|m rest] eqn:Em; cbn [default].
  - rewrite ->(proj2 (same_footprint_first d d)) by auto. cbn. split; [|done].
    intros _ e He Hn. split; [done|]. intros He' _ Hpe.
    assert (e ∈ []) as Hin by (by apply Hts). by apply not_elem_of_nil in Hin.
  - assert (m ∈ m :: rest) as Hm by (by left). rewrite ->Hts in Hm. destruct Hm as (Hm & Hmk & Hmn & Hmp).
    match goal with |- context [same_footprint ?p d] =>
      replace (same_footprint p d) with (same_footprint (first_profile m) d) by reflexivity end.
    destruct (same_footprint (first_profile m) d) eqn:Ef; cbn.
    + split; [|done]. intros _ e He Hn. split; [done|]. intros He' _ Hpe.
      pose proof (Hl e m He Hm) as Hcm. rewrite ->compatible_spec in Hcm.
      destruct Hcm as [_ Hcm]; [congruence|]. specialize (Hcm He' Hmk ltac:(congruence)).
      rewrite ->same_footprint_first in *. intuition congruence.
    + split; [done|]. intros H'. destruct (H' m Hm Hmn) as [_ Hf]. rewrite ->Hf in Ef by done. done.
Qed.

Lemma summarize_all_app l l' t :
  summarize_all (l ++ l') t = let! t := summarize_all l t in summarize_all l' t.
Proof. revert t. induction l as [|d l IH]; intros t; cbn; [done|]. destruct (summarize t d); [apply IH|done]. Qed.

Lemma summarize_all_spec l :
  positive_units l ->
  match summarize_all l (MkTotals ∅ ∅) with Ok t => consistent l /\ tracks l t | Err _ => ~ consistent l end.
Proof.
  induction l as [|d l IH] using rev_ind; intros Hpos.
  { cbn. split; [intros d e H; by apply not_elem_of_nil in H|]. by split. }
  apply Forall_app in Hpos as [Hpos _]. specialize (IH Hpos). rewrite ->summarize_all_app.
  pose proof (consistent_snoc l d) as Hcs.
  destruct (summarize_all l _) as [t|] eqn:E; [|tauto]. destruct IH as [Hl Ht]. cbn.
  pose proof (summarize_ok l t d Ht Hl Hpos) as Hok.
  destruct (summarize t d) as [t'|e] eqn:Es; cbn in *.
  - split; [apply Hcs; split; [done|by apply Hok]|]. by eapply summarize_tracks.
  - intros [_ H]%Hcs. by apply Hok in H.
Qed.

(** ** The summary, declaratively *)

Definition cell_spec (l : list localDevice) (numa : Z) : Hardware.Cell :=
  let c := cell_total l numa in
  Hardware.MkCell numa (Hardware.c_CPUs c) (Hardware.MemoryUnits c) (Hardware.MemoryUnitBytes c)
    (merge_sort by_uuid (Hardware.GPUs c))
    (omap (profile_total l numa) (merge_sort String.le (remove_dups (map l_Profile (selected kindOpenTPU numa l))))).

Definition inventory_spec (l : list localDevice) (bootID : string) : Hardware.Inventory :=
  Hardware.MkInventory 1 bootID (map (cell_spec l) (merge_sort Z.le (numas l))).

Lemma keys_perm `{Countable K} {V} (m : gmap K V) (l : list K) :
  NoDup l -> (forall k, k ∈ l <-> is_Some (m !! k)) -> map fst (map_to_list m) ≡ₚ l.
Proof.
  intros Hnd Hl. apply NoDup_Permutation; [apply NoDup_fst_map_to_list|done|].
  intros k. rewrite ->Hl. split.
  - intros Hin. apply list_elem_of_In, in_map_iff in Hin as ([k' v] & <- & Hin).
    apply list_elem_of_In, elem_of_map_to_list in Hin. by eexists.
  - intros [v Hv]. apply list_elem_of_In, in_map_iff. exists (k, v). split; [done|].
    by apply list_elem_of_In, elem_of_map_to_list.
Qed.

Lemma profile_total_some l n p : is_Some (profile_total l n p) <-> p ∈ map l_Profile (selected kindOpenTPU n l).
Proof.
  unfold profile_total. split.
  - destruct (slots_of n p l) as [|d rest] eqn:E; [by intros []|]. intros _.
    assert (d ∈ slots_of n p l) as Hd by (rewrite ->E; by left). apply elem_of_slots in Hd as (H1 & H2 & H3 & <-).
    apply list_elem_of_In, in_map, list_elem_of_In. by apply elem_of_selected.
  - intros Hin. apply list_elem_of_In, in_map_iff in Hin as (d & <- & Hd).
    apply list_elem_of_In, elem_of_selected in Hd as (H1 & H2 & H3).
    assert (d ∈ slots_of n (l_Profile d) l) as Hd by (by apply elem_of_slots).
    destruct (slots_of _ _ l); [by apply not_elem_of_nil in Hd|by eexists].
Qed.

Lemma cells_spec l t : tracks l t -> cells t = map (cell_spec l) (merge_sort Z.le (numas l)).
Proof.
  intros [H1 H2]. unfold cells.
  rewrite ->(merge_sort_perm Z.le (map fst (map_to_list (byNUMA t))) (numas l)).
  2: { intros x y _ _. lia. }
  2: { apply keys_perm; [apply NoDup_remove_dups|]. intros n. unfold numas. rewrite ->elem_of_remove_dups, H1.
       case_bool_decide; [|split; [done|by intros []]]. split; [by eexists|done]. }
  apply omap_all. intros n Hn. rewrite ->merge_sort_Permutation in Hn. unfold numas in Hn.
  rewrite ->elem_of_remove_dups in Hn. rewrite ->H1, bool_decide_eq_true_2 by done. cbn. f_equal.
  unfold finish_cell, cell_spec. cbn. f_equal.
  rewrite ->(merge_sort_perm String.le _ (remove_dups (map l_Profile (selected kindOpenTPU n l)))).
  - apply omap_ext_in. intros p _. apply H2.
  - intros x y _ _. by apply (anti_symm String.le).
  - apply keys_perm; [apply NoDup_remove_dups|]. intros p. rewrite ->elem_of_remove_dups, H2. symmetry. apply profile_total_some.
Qed.

Lemma summary_spec l bootID :
  positive_units l ->
  match summary_inventory l bootID with
  | Ok inv => bootID <> "" /\ consistent l /\ inv = inventory_spec l bootID
  | Err _ => bootID = "" \/ ~ consistent l
  end.
Proof.
  intros Hpos. unfold summary_inventory. destruct (bootID =? "")%string eqn:Eb.
  { left. by apply String.eqb_eq. }
  apply String.eqb_neq in Eb. pose proof (summarize_all_spec l Hpos) as H.
  destruct (summarize_all l _) as [t|]; [|by right]. destruct H as [Hc Ht].
  split_and!; [done|done|]. unfold inventory_spec. by rewrite ->(cells_spec l t).
Qed.

(** The summary a driver publishes is computed correctly: it succeeds exactly
    when the boot is known, the memory devices of a NUMA node have one size and
    the slots of an OpenTPU profile one footprint; and it then lists the NUMA
    nodes in order, each with the number of its processors and memory units,
    its GPUs in the order of their UUIDs and its profiles with their slots. *)
Theorem summary_characterised l bootID :
  positive_units l ->
  match summary_inventory l bootID with
  | Ok inv => bootID <> "" /\ consistent l /\ inv = inventory_spec l bootID
  | Err _ => bootID = "" \/ ~ consistent l
  end.
Proof. apply summary_spec. Qed.

(** ** The order of the devices does not matter *)

Lemma selected_perm k n l l' : l ≡ₚ l' -> selected k n l ≡ₚ selected k n l'.
Proof. apply filter_perm. Qed.

Lemma count_perm l l' : l ≡ₚ l' -> count l = count l'.
Proof. intros H. unfold count. by rewrite ->H. Qed.

Lemma consistent_perm l l' : l ≡ₚ l' -> consistent l -> consistent l'.
Proof. intros Hp H d e. rewrite <-Hp. apply H. Qed.

Lemma unit_perm l l' n :
  consistent l -> l ≡ₚ l' ->
  UnitBytes <$> last (selected kindMemory n l) = UnitBytes <$> last (selected kindMemory n l').
Proof.
  intros Hc Hp. pose proof (selected_perm kindMemory n l l' Hp) as Hs.
  destruct (last (selected kindMemory n l)) as [d|] eqn:E1; destruct (last (selected kindMemory n l')) as [e|] eqn:E2.
  - apply last_Some_elem_of, elem_of_selected in E1 as (H1 & H2 & H3).
    apply last_Some_elem_of in E2. rewrite <-Hs in E2. apply elem_of_selected in E2 as (H4 & H5 & H6).
    pose proof (Hc d e H1 H4) as H. rewrite ->compatible_spec in H. destruct H as [H _]; [congruence|]. cbn. f_equal. auto.
  - apply last_None in E2. rewrite ->E2 in Hs. symmetry in Hs. apply Permutation_nil in Hs. by rewrite ->Hs in E1.
  - apply last_None in E1. rewrite ->E1 in Hs. apply Permutation_nil in Hs. by rewrite ->Hs in E2.
  - done.
Qed.

Lemma profile_perm l l' n p : consistent l -> l ≡ₚ l' -> profile_total l n p = profile_total l' n p.
Proof.
  intros Hc Hp. assert (slots_of n p l ≡ₚ slots_of n p l') as Hs by (by apply filter_perm, filter_perm).
  unfold profile_total. rewrite ->(count_perm _ _ Hs).
  destruct (slots_of n p l) as [|d r] eqn:E1; destruct (slots_of n p l') as [|e r'] eqn:E2; [done| | |].
  - apply Permutation_nil in Hs. done.
  - symmetry in Hs. apply Permutation_nil in Hs. done.
  - assert (d ∈ slots_of n p l) as Hd by (rewrite ->E1; by left).
    assert (e ∈ slots_of n p l) as He by (rewrite ->E1, Hs; by left).
    apply elem_of_slots in Hd as (H1 & H2 & H3 & H4), He as (H5 & H6 & H7 & H8).
    pose proof (Hc d e H1 H5) as H. rewrite ->compatible_spec in H. destruct H as [_ H]; [congruence|].
    specialize (H H2 H6 ltac:(congruence)). apply same_footprint_first in H as (-> & -> & -> & ->). done.
Qed.

Definition gpu_uuids (l : list localDevice) : list string :=
  map l_UUID (List.filter (fun d => (Kind d =? kindGPU)%string) l).

Lemma gpus_perm l l' n :
  NoDup (gpu_uuids l) -> l ≡ₚ l' ->
  merge_sort by_uuid (map gpu_of (selected kindGPU n l)) = merge_sort by_uuid (map gpu_of (selected kindGPU n l')).
Proof.
  intros Hnd Hp. apply (merge_sort_perm by_uuid).
  - intros x y Hx Hy Hxy Hyx.
    apply list_elem_of_In, in_map_iff in Hx as (d & <- & Hd), Hy as (e & <- & He).
    apply list_elem_of_In, elem_of_selected in Hd as (H1 & H2 & _), He as (H3 & H4 & _).
    assert (l_UUID d = l_UUID e) as E by (apply (anti_symm String.le); done). f_equal.
    eapply (NoDup_fmap_eq l_UUID); [exact Hnd| | |done];
      apply list_elem_of_In, filter_In; (split; [by apply list_elem_of_In|by apply String.eqb_eq]).
  - by rewrite ->(selected_perm _ _ _ _ Hp).
Qed.

(** The order in which Go iterates over the device map does not change the
    published summary, nor whether there is one. *)
Theorem summary_order_independent l l' bootID :
  positive_units l -> NoDup (gpu_uuids l) -> l ≡ₚ l' ->
  (forall inv, summary_inventory l bootID = Ok inv <-> summary_inventory l' bootID = Ok inv).
Proof.
  intros Hpos Hnd Hp inv.
  assert (positive_units l') as Hpos' by (unfold positive_units; by rewrite <-Hp).
  assert (consistent l -> inventory_spec l bootID = inventory_spec l' bootID) as Hspec.
  { intros Hc. unfold inventory_spec. f_equal.
    rewrite ->(merge_sort_perm Z.le (numas l) (numas l')).
    2: { intros x y _ _. lia. }
    2: { unfold numas. apply NoDup_Permutation; [apply NoDup_remove_dups..|].
         intros x. by rewrite ->!elem_of_remove_dups, Hp. }
    apply map_ext. intros n. unfold cell_spec. cbn.
    rewrite ->!(count_perm _ _ (selected_perm _ n _ _ Hp)), (unit_perm _ _ n Hc Hp), (gpus_perm _ _ n Hnd Hp). f_equal.
    rewrite ->(merge_sort_perm String.le _ (remove_dups (map l_Profile (selected kindOpenTPU n l')))).
    - apply omap_ext_in. intros p _. by apply profile_perm.
    - intros x y _ _. by apply (anti_symm String.le).
    - apply NoDup_Permutation; [apply NoDup_remove_dups..|].
      intros x. by rewrite ->!elem_of_remove_dups, (selected_perm _ _ _ _ Hp). }
  pose proof (summary_spec l bootID Hpos) as H. pose proof (summary_spec l' bootID Hpos') as H'.
  pose proof (consistent_perm _ _ Hp) as Hto. pose proof (consistent_perm _ _ (Permutation_sym Hp)) as Hfrom.
  destruct (summary_inventory l bootID) as [i|]; destruct (summary_inventory l' bootID) as [i'|]; [| | |done].
  - destruct H as (_ & Hc & ->), H' as (_ & _ & ->). by rewrite ->Hspec.
  - exfalso. destruct H as (? & ? & _), H'; auto.
  - exfalso. destruct H' as (? & ? & _), H; auto.
Qed.

(** ** What discovery finds *)

(** [inv'] has the devices of [inv] or devices of which [P] holds. *)
Definition added (P : string -> localDevice -> Prop) (inv inv' : devices) : Prop :=
  forall name d, inv' !! name = Some d -> inv !! name = Some d \/ P name d.

Lemma added_refl P inv : added P inv inv.
Proof. intros name d. by left. Qed.

Lemma added_insert (P : string -> localDevice -> Prop) inv inv' name d :
  added P inv inv' -> P name d -> added P inv (<[name := d]> inv').
Proof. intros Ha Hd name' d' H. apply lookup_insert_Some in H as [[<- <-]|[_ H]]; [by right|by apply Ha]. Qed.

Lemma added_foldl {A} (P : string -> localDevice -> Prop) (f : devices -> A -> devices) l inv :
  (forall inv' x, x ∈ l -> added P inv inv' -> added P inv (f inv' x)) -> added P inv (foldl f inv l).
Proof.
  intros Hf. enough (forall inv', added P inv inv' -> added P inv (foldl f inv' l)) as H by apply H, added_refl.
  induction l as [|x l IH]; intros inv' Ha; [done|]. cbn. apply IH.
  - intros inv1 y Hy. apply Hf. by right.
  - apply Hf; [by left|done].
Qed.

Lemma added_trans (P Q : string -> localDevice -> Prop) inv inv1 inv2 :
  added P inv inv1 -> added Q inv1 inv2 -> added (fun n d => P n d \/ Q n d) inv inv2.
Proof. intros H1 H2 n d H. apply H2 in H as [H|H]; [apply H1 in H as [H|H]|]; auto. Qed.

Lemma added_mono (P Q : string -> localDevice -> Prop) inv inv' :
  added P inv inv' -> (forall n d, P n d -> Q n d) -> added Q inv inv'.
Proof. intros H HPQ n d Hd. apply H in Hd as [Hd|Hd]; auto. Qed.

(** The directory of a logical processor, and the core it belongs to. *)
Definition cpu_number (d : cpu_dir) : option Z := parse_int64 (trim_prefix "cpu" (cd_Base d)).
Definition core_of (d : cpu_dir) (k : Z * Z * Z) : Prop :=
  cpuNUMA d = k.1.1 /\ readInt (cd_Package d) = Some k.1.2 /\ readInt (cd_Core d) = Some k.2.

Lemma read_cores_from dirs acc c :
  read_cores dirs acc = Ok c ->
  forall k cpu, c !! k = Some cpu ->
    acc !! k = Some cpu \/ exists d, d ∈ dirs /\ cpu_number d = Some cpu /\ onlineCPU d = true /\ core_of d k.
Proof.
  revert acc. induction dirs as [|d dirs IH]; intros acc E k cpu Hk; cbn [read_cores] in E.
  { simplify_eq. auto. }
  assert (forall acc', read_cores dirs acc' = Ok c ->
            (acc' !! k = Some cpu -> acc !! k = Some cpu \/
               (cpu_number d = Some cpu /\ onlineCPU d = true /\ core_of d k)) ->
            acc !! k = Some cpu \/
            exists d', d' ∈ d :: dirs /\ cpu_number d' = Some cpu /\ onlineCPU d' = true /\ core_of d' k) as Hgo.
  { intros acc' E' Hacc. destruct (IH _ E' k cpu Hk) as [H|(d' & Hd' & H)].
    - destruct (Hacc H) as [?|?]; [by left|]. right. exists d. split; [by left|done].
    - right. exists d'. split; [by right|done]. }
  destruct (parse_int64 (trim_prefix "cpu" (cd_Base d))) as [n|] eqn:En; [|apply (Hgo acc); auto].
  destruct (onlineCPU d) eqn:Eo; cbn [negb] in E; [|apply (Hgo acc); auto].
  destruct (readInt (cd_Package d)) as [socket|] eqn:Es; [|done].
  destruct (readInt (cd_Core d)) as [core|] eqn:Ec; [|done].
  eapply Hgo; [exact E|]. destruct (match acc !! (cpuNUMA d, socket, core) with Some old => negb (n <? old) | None => false end);
    [auto|].
  intros H. apply lookup_insert_Some in H as [[<- <-]|[_ H]]; [|by left]. right. split; [exact En|]. by repeat split.
Qed.

Definition is_cpu_of (c : gmap (Z * Z * Z) Z) (name : string) (d : localDevice) : Prop :=
  exists numa socket core cpu, c !! (numa, socket, core) = Some cpu /\ d = cpu_device name numa cpu socket core /\
    name = cpu_name d.

Lemma numa_cpus_from c reserve numa d :
  d ∈ numa_cpus c reserve numa ->
  exists socket core, c !! (numa, socket, core) = Some (CPU d) /\ d = cpu_device "" numa (CPU d) socket core.
Proof.
  unfold numa_cpus. intros Hd. apply list_elem_of_In in Hd. apply (List.In_nth_error) in Hd as [i Hi].
  rewrite ->List.nth_error_skipn in Hi. apply nth_error_In, list_elem_of_In in Hi.
  rewrite ->merge_sort_Permutation in Hi. apply list_elem_of_In, in_map_iff in Hi as ([[[n s] k] cpu] & <- & Hi).
  apply filter_In in Hi as [Hi En]. apply Z.eqb_eq in En as ->.
  exists s, k. split; [|done]. by apply list_elem_of_In, elem_of_map_to_list in Hi.
Qed.

Lemma discover_cpu_added h order reserve inv inv' :
  discoverCPU h order reserve inv = Ok inv' ->
  exists c, read_cores (cpu_dirs h) ∅ = Ok c /\ added (is_cpu_of c) inv inv'.
Proof.
  unfold discoverCPU. intros E. destruct (cpu_dirs h) as [|d0 dirs]; [done|].
  destruct (read_cores (d0 :: dirs) ∅) as [c|] eqn:Ec; [|done]. exists c. split; [done|]. simplify_eq.
  apply added_foldl. intros inv1 numa _ H1. unfold add_cpus.
  enough (added (is_cpu_of c) inv1 (foldl (fun inv d => <[cpu_name d := named (cpu_name d) d]> inv) inv1 (numa_cpus c reserve numa))) as H2.
  { eapply added_mono; [by eapply added_trans|]. by intros n d [?|?]. }
  apply added_foldl. intros inv2 d Hd H2. apply added_insert; [done|].
  apply numa_cpus_from in Hd as (s & k & Hc & ->). exists numa, s, k, (CPU d). by repeat split.
Qed.

(** Memory, OpenTPU slots and GPUs. *)
Definition is_memory_of (unit : Z) (name : string) (d : localDevice) : Prop :=
  exists numa i, name = memory_name numa (Z.of_nat i) /\ d = memory_device name numa unit.

Definition is_slot (name : string) (d : localDevice) : Prop :=
  l_Name d = name /\ Kind d = kindOpenTPU /\ (l_MatrixSize d = 8 \/ l_MatrixSize d = 16) /\ 0 < l_CPUCores d /\
  0 < l_MemoryBytes d /\ 0 < l_SharedMemory d.

Definition is_gpu (name : string) (d : localDevice) : Prop :=
  l_Name d = name /\ Kind d = kindGPU /\ l_UUID d <> "" /\ name = "gpu-" +:+ to_lower (l_UUID d).

Lemma memory_loop_added dirs unit reserve inv inv' :
  memory_loop dirs unit reserve inv = Ok inv' -> added (is_memory_of unit) inv inv'.
Proof.
  revert inv. induction dirs as [|d dirs IH]; intros inv E; cbn [memory_loop] in E; [simplify_eq; apply added_refl|].
  destruct (_ ≫= _) as [total|]; [|done]. eapply added_mono; [eapply added_trans; [|by apply IH]|by intros n x [?|?]].
  unfold add_memory. apply added_foldl. intros inv1 i _ H1. apply added_insert; [done|]. by eexists _, i.
Qed.

Lemma quantity_positive parse_quantity raw fallback v : quantityBytes parse_quantity raw fallback = Some v -> 0 < v.
Proof.
  unfold quantityBytes. destruct (parse_quantity _) as [w|]; cbn; [|done]. destruct (w <=? 0) eqn:E; [done|]. intros [= <-]. lia.
Qed.

Lemma add_slots_added p name memory shared slots inv inv' :
  bad_profile p name = false -> 0 < memory -> 0 < shared ->
  add_slots p name memory shared slots inv = Ok inv' -> added is_slot inv inv'.
Proof.
  intros Hb Hm Hs. revert inv. induction slots as [|i slots IH]; intros inv E; cbn [add_slots] in E;
    [simplify_eq; apply added_refl|].
  destruct (bool_decide _); [done|]. eapply added_mono; [eapply added_trans; [|by apply IH]|by intros n x [?|?]].
  apply added_insert; [apply added_refl|]. unfold bad_profile in Hb. bool_hyps.
  repeat split; cbn; try done; [|lia].
  destruct (tp_MatrixSize p =? 8) eqn:E8; [left; lia|]. destruct (tp_MatrixSize p =? 16) eqn:E16; [right; lia|done].
Qed.

Lemma tpu_profiles_added parse_quantity ps inv inv' :
  add_tpu_profiles parse_quantity ps inv = Ok inv' -> added is_slot inv inv'.
Proof.
  revert inv. induction ps as [|p ps IH]; intros inv E; cbn [add_tpu_profiles] in E; [simplify_eq; apply added_refl|].
  destruct (quantityBytes _ (tp_Memory p) _) as [memory|] eqn:Em; [|done].
  destruct (quantityBytes _ (tp_SharedMemory p) _) as [shared|] eqn:Es; [|done].
  apply quantity_positive in Em, Es. destruct (bad_profile _ _) eqn:Eb; [done|].
  destruct (add_slots _ _ _ _ _ inv) as [inv1|] eqn:Ea; [|done].
  eapply added_mono; [eapply added_trans; [exact (add_slots_added _ _ _ _ _ _ _ Eb Em Es Ea)|by apply IH]|by intros n x [?|?]].
Qed.

Lemma gpu_rows_added h k rows inv : added is_gpu inv (fst (gpu_rows h k rows inv)).
Proof.
  revert inv. induction rows as [|row rows IH]; intros inv; cbn [gpu_rows]; [apply added_refl|].
  destruct (map trim_space row) as [|index [|uuid [|model [|memory [|bus [|]]]]]]; try apply added_refl.
  destruct (parse_int64 index) as [i|]; [|apply added_refl]. destruct (parse_int64 memory) as [vram|]; [|apply added_refl].
  destruct (uuid =? "")%string eqn:Eu; [apply added_refl|]. apply String.eqb_neq in Eu.
  destruct (gpu_numa _ _ _ _) as [numa|]; [|apply IH].
  eapply added_mono; [eapply added_trans; [|apply IH]|by intros n x [?|?]].
  apply added_insert; [apply added_refl|]. by repeat split.
Qed.

(** Every device is of one of the four kinds and stored under its own name. *)
Definition found (c : gmap (Z * Z * Z) Z) (unit : Z) (name : string) (d : localDevice) : Prop :=
  is_cpu_of c name d \/ is_memory_of unit name d \/ is_slot name d \/ is_gpu name d.

Lemma discovery_found parse_quantity decode_config h order node annotations inv :
  discoverInventory parse_quantity decode_config h order node annotations = Ok inv ->
  nodeName inv = node /\
  exists c unit, read_cores (cpu_dirs h) ∅ = Ok c /\ 0 < unit /\
    forall name d, inv_devices inv !! name = Some d -> found c unit name d.
Proof.
  unfold discoverInventory. intros E.
  destruct (quantityBytes _ _ _) as [unit|] eqn:Eu; [|done]. apply quantity_positive in Eu.
  destruct (quantityBytes _ _ _) as [reserve|]; [|done].
  destruct (positiveInt _ _) as [cores|]; [|done].
  destruct (discoverCPU _ _ _ _) as [i1|] eqn:E1; [|done].
  destruct (discoverMemory _ _ _ _) as [i2|] eqn:E2; [|done].
  destruct (discoverOpenTPU _ _ _ _) as [i3|] eqn:E3; [|done]. simplify_eq. split; [done|].
  apply discover_cpu_added in E1 as (c & Hc & H1). exists c, unit. split_and!; [done|done|].
  assert (added (is_memory_of unit) i1 i2) as H2.
  { unfold discoverMemory in E2. destruct (node_dirs h); [done|]. by eapply memory_loop_added. }
  assert (added is_slot i2 i3) as H3.
  { unfold discoverOpenTPU in E3. destruct (_ =? _)%string; [simplify_eq; apply added_refl|].
    destruct (decode_config _) as [config|]; [|done]. destruct (negb _); [done|]. by eapply tpu_profiles_added. }
  assert (added is_gpu i3 (fst (discoverNVIDIA h i3))) as H4.
  { unfold discoverNVIDIA. destruct (smi h); try apply added_refl. apply gpu_rows_added. }
  intros name d Hd. cbn in Hd. unfold found.
  apply H4 in Hd as [Hd|Hd]; [|auto]. apply H3 in Hd as [Hd|Hd]; [|auto]. apply H2 in Hd as [Hd|Hd]; [|auto].
  apply H1 in Hd as [Hd|Hd]; [|auto]. by rewrite ->lookup_empty in Hd.
Qed.

(** The directories [cpuN] carry different numbers. *)
Definition distinct_cpus (h : host) : Prop :=
  forall d d' n, d ∈ cpu_dirs h -> d' ∈ cpu_dirs h -> cpu_number d = Some n -> cpu_number d' = Some n -> d = d'.

(** A logical processor belongs to at most one device. *)
Lemma cpus_distinct h c name name' d d' :
  distinct_cpus h -> read_cores (cpu_dirs h) ∅ = Ok c ->
  is_cpu_of c name d -> is_cpu_of c name' d' -> CPU d = CPU d' -> name = name'.
Proof.
  intros Hh Hc (n & s & k & cpu & Hk & Hd & Hn) (n' & s' & k' & cpu' & Hk' & Hd' & Hn') E.
  rewrite ->Hd, Hd' in E. cbn in E. subst cpu'.
  destruct (read_cores_from _ _ _ Hc _ _ Hk) as [?|(x & Hx & Hxn & _ & Hx1 & Hx2 & Hx3)]; [by rewrite ->lookup_empty in *|].
  destruct (read_cores_from _ _ _ Hc _ _ Hk') as [?|(y & Hy & Hyn & _ & Hy1 & Hy2 & Hy3)]; [by rewrite ->lookup_empty in *|].
  rewrite ->(Hh _ _ _ Hx Hy Hxn Hyn) in *. cbn in *. rewrite ->Hn, Hn', Hd, Hd'. unfold cpu_name. cbn. congruence.
Qed.

(** ** A node with two NUMA nodes *)

Module InventorySamples.
Definition devices : list localDevice :=
  [cpu_device "cpu-s1-c0" 1 8 1 0; memory_device "memory-n1-00000" 1 (2 ^ 30); cpu_device "cpu-s0-c1" 0 1 0 1;
   gpu_device "gpu-b" 0 "GPU-b" "a100" 40960 "0000:3b:00.0" "/dev/nvidia1"; memory_device "memory-n0-00000" 0 (2 ^ 30);
   gpu_device "gpu-a" 0 "GPU-a" "a100" 40960 "0000:1b:00.0" "/dev/nvidia0"; memory_device "memory-n0-00001" 0 (2 ^ 30);
   opentpu_device "opentpu-small-n0-000" 0 "opentpu_small" 8 2 (2 ^ 28) (2 ^ 20);
   opentpu_device "opentpu-small-n0-001" 0 "opentpu_small" 8 2 (2 ^ 28) (2 ^ 20)].

Definition published : Hardware.Inventory :=
  Hardware.MkInventory 1 "boot-1"
    [Hardware.MkCell 0 1 2 (2 ^ 30) [Hardware.MkGPU "GPU-a" "a100" "0000:1b:00.0"; Hardware.MkGPU "GPU-b" "a100" "0000:3b:00.0"]
       [Hardware.MkOpenTPU "opentpu_small" 2 8 2 (2 ^ 28) (2 ^ 20)];
     Hardware.MkCell 1 1 1 (2 ^ 30) [] []].

Lemma devices_positive : positive_units devices.
Proof. repeat constructor; done. Qed.
End InventorySamples.

Lemma summary_characterised_witness :
  match summary_inventory InventorySamples.devices "boot-1" with
  | Ok inv => "boot-1" <> "" /\ consistent InventorySamples.devices /\ inv = inventory_spec InventorySamples.devices "boot-1"
  | Err _ => False
  end.
Proof.
  pose proof (summary_characterised InventorySamples.devices "boot-1" InventorySamples.devices_positive) as H.
  assert (summary_inventory InventorySamples.devices "boot-1" = Ok InventorySamples.published) as E by (vm_compute; reflexivity).
  rewrite ->E in *. exact H.
Defined.

Lemma summary_order_independent_witness :
  summary_inventory (rev InventorySamples.devices) "boot-1" = Ok InventorySamples.published.
Proof.
  apply (summary_order_independent InventorySamples.devices (rev InventorySamples.devices) "boot-1").
  - apply InventorySamples.devices_positive.
  - apply (bool_decide_unpack _). vm_compute. reflexivity.
  - apply Permutation_rev.
  - vm_compute. reflexivity.
Defined.

End DraInventory.
