(* ===== verification/DraDriver.v ===== *)
(** * DraDriver: the node plugin of the compute driver
    ([src/dra-driver/internal/driver/plugin.go], [nri.go], [cdi.go])

    The configuration with which the driver runs [DraPlugin], the pinning of
    containers to the processors and the NUMA node of their claim, and the CDI
    specifications.  The end-to-end theorem: containers of different claims
    never share a processor. *)

From S2P Require Import Prelude GoStrings Hardware ResourceApi DraPlugin DraPluginSafety DraInventory.

Module DraDriver.
Import DraPlugin DraPluginSafety DraInventory.

Definition no_device : localDevice := MkLocal "" "" 0 0 0 0 0 "" "" 0 "" "" "" 0 0 0 0.
(** [inv.devices[name]]. *)
Definition device (inv : inventory) (name : string) : localDevice := default no_device (inv_devices inv !! name).

(** The loop of [Prepare]: the NUMA node and the processors so far. *)
Fixpoint prepare_devices (inv : inventory) (names : list string) (numa : Z) (cpus : list Z) : result string (Z * list Z) :=
  match names with
  | [] => Ok (numa, cpus)
  | name :: names =>
      let d := device inv name in
      reject_if negb (numa =? -1) && negb (numa =? l_NUMA d) with "allocated devices do not share one NUMA node"%string in
      prepare_devices inv names (if numa =? -1 then l_NUMA d else numa)
        (if (Kind d =? kindCPU)%string then cpus ++ [CPU d] else cpus)
  end.

Definition prepare_node (inv : inventory) (names : list string) (r : PreparedClaim) : result string PreparedClaim :=
  let! (numa, cpus) := prepare_devices inv names (-1) (CPUs r) in
  reject_if bool_decide (cpus = []) with "claim has no CPU allocation"%string in
  Ok (MkPrepared (Version r) (UID r) (Namespace r) (Name r) (Hash r) (DraPlugin.Inventory r) (Devices r)
                 (merge_sort Z.le cpus) numa).

(** The CDI device a GPU or an OpenTPU slot is injected as. *)
Definition cdi_id (d : localDevice) : string :=
  if (Kind d =? kindGPU)%string then driverName +:+ "/nvidia=" +:+ l_UUID d else driverName +:+ "/opentpu=" +:+ l_Name d.

Definition cdi_device (inv : inventory) (a : AllocationResult) : option ClaimDevice :=
  d ← inv_devices inv !! Device a;
  if negb (Kind d =? kindGPU)%string && negb (Kind d =? kindOpenTPU)%string then None
  else Some (MkClaimDevice [Request a] (Pool a) (Device a) [cdi_id d]).
Definition cdiDevices (inv : inventory) (results : list AllocationResult) : list ClaimDevice :=
  omap (cdi_device inv) results.

(** [json_devices] is [draplugin.JSONHash] of a list of devices. *)
Definition nodeConfig (json_devices : list localDevice -> string) (inv : inventory) : Config :=
  MkConfig 2 driverName (nodeName inv)
    (fun name => bool_decide (is_Some (inv_devices inv !! name)))
    (fun names => json_devices (map (device inv) names))
    (Some (prepare_node inv))
    (cdiDevices inv).

#[global] Instance nodeConfig_lawful json_devices inv : LawfulConfig (nodeConfig json_devices inv).
Proof.
  split. intros f names r r' [= <-] E. unfold prepare_node in E. destruct (prepare_devices _ _ _ _) as [[numa cpus]|]; [|done].
  destruct (bool_decide _); [done|]. simplify_eq. done.
Qed.

(** ** Pinning containers *)

Definition claimAnnotation : string := "orchestration.gputpu.io/resource-claim".

Record PodSandbox := MkSandbox { sb_Id : string; sb_Namespace : string; sb_Annotations : gmap string string }.
Record Container := MkContainer { ct_Id : string; PodSandboxId : string }.
Record adjustment := MkAdjustment { CPUSet : string; Mems : string }.

Inductive nri_error := ClaimNotPrepared (namespace name : string).

Section NRI.
(** [cpuset.New(cpus...).String()]. *)
Variable cpuset : list Z -> string.

Definition sandbox_claim (pod : PodSandbox) : string := default "" (sb_Annotations pod !! claimAnnotation).
Definition adjust (r : PreparedClaim) : adjustment := MkAdjustment (cpuset (CPUs r)) (format_int (NUMA r)).

(** [order] is the order in which [PreparedFor] visits the prepared claims. *)
Definition CreateContainer (order : list (string * PreparedClaim)) (pod : PodSandbox) : result nri_error (option adjustment) :=
  let claim := sandbox_claim pod in
  if (claim =? "")%string then Ok None else
  match PreparedFor order (sb_Namespace pod) claim with
  | None => Err (ClaimNotPrepared (sb_Namespace pod) claim)
  | Some r => Ok (Some (adjust r))
  end.

(** [byID]: the last sandbox with an id. *)
Definition byID (pods : list PodSandbox) : gmap string PodSandbox :=
  foldl (fun m pod => <[sb_Id pod := pod]> m) ∅ pods.

(** The updates of the containers; [order] may differ from one lookup to the
    next. *)
Fixpoint Synchronize (orders : string -> list (string * PreparedClaim)) (pods : gmap string PodSandbox)
    (containers : list Container) : result nri_error (list (string * adjustment)) :=
  match containers with
  | [] => Ok []
  | c :: containers =>
      match pods !! PodSandboxId c with
      | None => Synchronize orders pods containers
      | Some pod =>
          let! a := CreateContainer (orders (ct_Id c)) pod in
          let! updates := Synchronize orders pods containers in
          Ok (match a with Some a => (ct_Id c, a) :: updates | None => updates end)
      end
  end.
End NRI.

(** ** CDI specifications *)

Record cdiMount := MkMount { HostPath : string; ContainerPath : string; Options : list string }.
Record cdiEdits := MkEdits { Env : list string; DeviceNodes : list string; Mounts : list cdiMount }.
Record cdiDevice := MkCDIDevice { cdi_Name : string; Edits : cdiEdits }.
Record cdiSpec := MkCDISpec { spec_Version : string; spec_Kind : string; spec_Devices : list cdiDevice }.

Definition by_name (a b : cdiDevice) : Prop := String.le (cdi_Name a) (cdi_Name b).
#[global] Instance by_name_dec a b : Decision (by_name a b) := decide (String.le _ _).

Definition opentpu_env (d : localDevice) : list string :=
  ["OPENTPU_DEVICE=" +:+ l_Name d; "OPENTPU_PROFILE=" +:+ l_Profile d;
   "OPENTPU_MATRIX_SIZE=" +:+ format_int (l_MatrixSize d);
   "OPENTPU_SHARED_MEMORY_BYTES=" +:+ format_int (l_SharedMemory d)].

(** The specification [writeOpenTPUCDI] saves with [AtomicJSON]; [order] is the
    order of the devices. *)
Definition opentpu_spec (order : list localDevice) : cdiSpec :=
  MkCDISpec "0.8.0" (driverName +:+ "/opentpu")
    (merge_sort by_name
       (map (fun d => MkCDIDevice (l_Name d) (MkEdits (opentpu_env d) [] []))
            (List.filter (fun d => (Kind d =? kindOpenTPU)%string) order))).

Inductive cdi_error := MissingPath (path : string) | NoDriverFiles | StatFailed (path : string).

Definition mount (source : string) : cdiMount := MkMount source source ["ro"; "nosuid"; "nodev"; "bind"]%string.

Fixpoint required_mounts (stat : string -> bool) (paths : list string) : result cdi_error (list cdiMount) :=
  match paths with
  | [] => Ok []
  | source :: paths =>
      reject_if negb (stat ("/host" +:+ source)) with MissingPath source in
      let! mounts := required_mounts stat paths in
      Ok (mount source :: mounts)
  end.

(** [info] answers [os.Stat]: whether the file is a directory. *)
Fixpoint driver_mounts (info : string -> option bool) (files : list string) : result cdi_error (list cdiMount) :=
  match files with
  | [] => Ok []
  | file :: files =>
      match info file with
      | None => Err (StatFailed file)
      | Some true => driver_mounts info files
      | Some false =>
          let! mounts := driver_mounts info files in
          Ok (mount (trim_prefix "/host" file) :: mounts)
      end
  end.

(** The specification [writeWSLNVIDIACDI] saves. *)
Definition wsl_spec (stat : string -> bool) (info : string -> option bool) (driverFiles : list string)
    (order : list localDevice) : result cdi_error cdiSpec :=
  let! required := required_mounts stat
    ["/usr/bin/nvidia-smi"; "/usr/lib/x86_64-linux-gnu/libcuda.so.1"; "/usr/lib/x86_64-linux-gnu/libnvidia-ml.so.1";
     "/usr/lib/x86_64-linux-gnu/libnvidia-gpucomp.so"; "/usr/lib/x86_64-linux-gnu/libdxcore.so"]%string in
  reject_if bool_decide (driverFiles = []) with NoDriverFiles in
  let! drivers := driver_mounts info driverFiles in
  let edits := MkEdits [] ["/dev/dxg"%string] (required ++ drivers) in
  Ok (MkCDISpec "0.8.0" (driverName +:+ "/nvidia")
        (merge_sort by_name (map (fun d => MkCDIDevice (l_UUID d) edits)
                                 (List.filter (fun d => (Kind d =? kindGPU)%string) order)))).

(** ** What a prepared record says *)

Lemma prepare_devices_ok inv names numa cpus numa' cpus' :
  prepare_devices inv names numa cpus = Ok (numa', cpus') ->
  cpus' = cpus ++ map CPU (List.filter (fun d => (Kind d =? kindCPU)%string) (map (device inv) names)) /\
  (numa <> -1 -> numa' = numa) /\
  Forall (fun name => l_NUMA (device inv name) = numa' \/ l_NUMA (device inv name) = -1) names.
Proof.
  revert numa cpus. induction names as [|name names IH]; intros numa cpus E; cbn [prepare_devices] in E.
  { simplify_eq. by rewrite ->app_nil_r. }
  destruct (negb (numa =? -1) && negb (numa =? l_NUMA (device inv name))) eqn:En; [done|].
  apply IH in E as (-> & Hk & Hall). cbn. split_and!.
  - destruct (Kind (device inv name) =? kindCPU)%string; [by rewrite <-app_assoc|done].
  - intros Hn. apply Z.eqb_neq in Hn as Hn'. rewrite ->Hn' in Hk. by apply Hk.
  - constructor; [|done]. destruct (numa =? -1) eqn:E1.
    + destruct (decide (l_NUMA (device inv name) = -1)); [by right|left; symmetry; by apply Hk].
    + cbn in En. left. rewrite ->Hk by lia. apply negb_false_iff in En. lia.
Qed.

Lemma prepared_cpus json_devices inv r :
  hooked (nodeConfig json_devices inv) r ->
  CPUs r ≡ₚ map CPU (List.filter (fun d => (Kind d =? kindCPU)%string) (map (device inv) (Devices r))) /\
  CPUs r <> [] /\
  Forall (fun name => l_NUMA (device inv name) = NUMA r \/ l_NUMA (device inv name) = -1) (Devices r).
Proof.
  intros (fresh & r' & Hf & E & Hc & Hn). unfold prepare_node in E. rewrite ->Hf in E.
  destruct (prepare_devices _ _ _ _) as [[numa cpus]|] eqn:Ep; [|done].
  destruct (bool_decide (cpus = [])) eqn:Eb; [done|]. bool_hyps. simplify_eq. cbn in Hc, Hn.
  apply prepare_devices_ok in Ep as (-> & _ & Hall). cbn in *. rewrite ->Hc, Hn. split_and!; [|..|done].
  - apply merge_sort_Permutation.
  - intros E0. apply Eb. apply Permutation_nil. rewrite <-E0. apply merge_sort_Permutation.
Qed.

Lemma cpu_of_record json_devices inv r cpu :
  hooked (nodeConfig json_devices inv) r -> cpu ∈ CPUs r ->
  exists name d, name ∈ Devices r /\ inv_devices inv !! name = Some d /\ Kind d = kindCPU /\ CPU d = cpu.
Proof.
  intros Hh Hin. destruct (prepared_cpus _ _ _ Hh) as (Hc & _ & _). rewrite ->Hc in Hin.
  apply list_elem_of_In, in_map_iff in Hin as (d & <- & Hd). apply filter_In in Hd as [Hd Hk].
  apply in_map_iff in Hd as (name & Hd & Hname). apply String.eqb_eq in Hk.
  exists name, d. split_and!; [by apply list_elem_of_In| |done|done].
  unfold device in Hd. destruct (inv_devices inv !! name) as [d'|]; cbn in Hd; [by subst d'|].
  subst d. by cbn in Hk.
Qed.

Lemma kinds_differ c unit name d : found c unit name d -> Kind d = kindCPU -> is_cpu_of c name d.
Proof.
  intros [H|[(n & i & _ & ->)|[(_ & H & _)|(_ & H & _)]]] Hk; [done|by cbn in Hk|by rewrite ->H in Hk|by rewrite ->H in Hk].
Qed.

Lemma prepared_for_in (p : gmap string PreparedClaim) order namespace name r :
  order ≡ₚ map_to_list p -> PreparedFor order namespace name = Some r ->
  exists uid, p !! uid = Some r /\ Namespace r = namespace /\ Name r = name.
Proof.
  unfold PreparedFor. intros Hp E. destruct (List.find _ order) as [[uid r']|] eqn:Ef; [|done]. cbn in E. simplify_eq.
  apply find_some in Ef as [Hin Hm]. apply andb_true_iff in Hm as [H1%String.eqb_eq H2%String.eqb_eq].
  exists uid. split_and!; [|done|done]. apply elem_of_map_to_list. rewrite <-Hp. by apply list_elem_of_In.
Qed.

Lemma create_container_in cpuset (p : gmap string PreparedClaim) order pod a :
  order ≡ₚ map_to_list p -> CreateContainer cpuset order pod = Ok (Some a) ->
  exists uid r, p !! uid = Some r /\ Namespace r = sb_Namespace pod /\ Name r = sandbox_claim pod /\ a = adjust cpuset r.
Proof.
  intros Hp E. unfold CreateContainer in E. destruct (_ =? _)%string; [done|].
  destruct (PreparedFor _ _ _) as [r|] eqn:Ef; [|done]. simplify_eq.
  destruct (prepared_for_in _ _ _ _ _ Hp Ef) as (uid & H1 & H2 & H3). by exists uid, r.
Qed.

(** Two claims of one node have no processor in common. *)
Lemma claims_share_no_cpu parse_quantity decode_config h order node annotations inv json_devices
    (m : gmap string PreparedClaim) u u' r r' cpu :
  discoverInventory parse_quantity decode_config h order node annotations = Ok inv -> distinct_cpus h ->
  map_Forall (valid_record (nodeConfig json_devices inv)) m -> DraPlugin.exclusive m ->
  m !! u = Some r -> m !! u' = Some r' -> cpu ∈ CPUs r -> cpu ∈ CPUs r' -> u = u'.
Proof.
  intros Hinv Hh Hv Hx Hu Hu' Hc Hc'.
  destruct (discovery_found _ _ _ _ _ _ _ Hinv) as (_ & c & unit & Hcores & _ & Hfound).
  destruct (cpu_of_record _ _ _ _ (vr_hooked _ _ _ (Hv _ _ Hu)) Hc) as (name & d & Hn & Hd & Hk & Hcpu).
  destruct (cpu_of_record _ _ _ _ (vr_hooked _ _ _ (Hv _ _ Hu')) Hc') as (name' & d' & Hn' & Hd' & Hk' & Hcpu').
  assert (name = name') as ->.
  { eapply cpus_distinct; [done|done|by eapply kinds_differ, Hk; apply Hfound|by eapply kinds_differ, Hk'; apply Hfound|congruence]. }
  by eapply Hx.
Qed.

(** C4: Containers are isolated: in every state the driver reaches, through
    failures, crashes and restarts, a container is pinned to the processors and
    the NUMA node recorded for its claim, there is at least one, and containers
    whose claims differ are pinned to disjoint sets of processors. *)
Theorem containers_isolated parse_quantity decode_config cpuset json_hash json_devices h order node annotations inv
    `{!JSONFile File} es p (d : gmap string File) order1 pod1 a1 order2 pod2 a2 :
  discoverInventory parse_quantity decode_config h order node annotations = Ok inv -> distinct_cpus h ->
  execution json_hash (nodeConfig json_devices inv) (None, ∅) es (Some p, d) ->
  order1 ≡ₚ map_to_list p -> order2 ≡ₚ map_to_list p ->
  CreateContainer cpuset order1 pod1 = Ok (Some a1) -> CreateContainer cpuset order2 pod2 = Ok (Some a2) ->
  exists u1 u2 r1 r2, p !! u1 = Some r1 /\ p !! u2 = Some r2 /\
    Namespace r1 = sb_Namespace pod1 /\ Name r1 = sandbox_claim pod1 /\
    Namespace r2 = sb_Namespace pod2 /\ Name r2 = sandbox_claim pod2 /\
    a1 = adjust cpuset r1 /\ a2 = adjust cpuset r2 /\ CPUs r1 <> [] /\ CPUs r2 <> [] /\
    (u1 <> u2 -> forall cpu, cpu ∈ CPUs r1 -> cpu ∉ CPUs r2).
Proof.
  intros Hinv Hh Hex Ho1 Ho2 E1 E2.
  destruct (execution_settled _ _ _ _ Hex) as (m & (_ & Hv & Hx & Hm) & _).
  rewrite <-(Hm p eq_refl) in Hv, Hx.
  destruct (create_container_in _ _ _ _ _ Ho1 E1) as (u1 & r1 & H1 & Hns1 & Hn1 & Ha1).
  destruct (create_container_in _ _ _ _ _ Ho2 E2) as (u2 & r2 & H2 & Hns2 & Hn2 & Ha2).
  exists u1, u2, r1, r2.
  pose proof (prepared_cpus _ _ _ (vr_hooked _ _ _ (Hv _ _ H1))) as (_ & Hne1 & _).
  pose proof (prepared_cpus _ _ _ (vr_hooked _ _ _ (Hv _ _ H2))) as (_ & Hne2 & _).
  split_and!; try done. intros Hne cpu Hc1 Hc2. apply Hne. by eapply claims_share_no_cpu.
Qed.

(** ** A node with four cores *)

Module DriverSamples.

Definition text (n : string) : option string := Some (n +:+ String "010" "").
Definition cpu (n core : string) : cpu_dir := MkCpuDir ("cpu" +:+ n) (text "1") (text "0") (text core) ["node0"%string].
Definition host : DraInventory.host :=
  MkHost [cpu "0" "0"; cpu "1" "1"; cpu "2" "2"; cpu "3" "0"; cpu "4" "1"]
    [MkNodeDir "node0" (Some ("Node 0 MemTotal:  4194304 kB" +:+ String "010" ""))]
    (fun _ => text "0") (SMIRows [["0"; " GPU-AB"; " NVIDIA A100"; " 40960"; " 0000:3B:00.0"]]%string) false.
Definition quantity (s : string) : option Z := if (s =? "1Gi")%string then Some (2 ^ 30) else None.
Definition inv : inventory :=
  match discoverInventory quantity (fun _ => None) host elements "node-1" ∅ with Ok i => i | Err _ => MkInv "" ∅ end.

Definition json_devices (l : list localDevice) : string := join "," (map l_Name l).
Definition json_hash (l : list AllocationResult) : string := join "," (map Device l).
Definition cfg : Config := nodeConfig json_devices inv.

Definition claim (uid : string) (devices : list string) : ResourceClaim :=
  MkClaim uid "default" ("claim-" +:+ uid) (Some (map (fun x => MkAllocation "r" driverName "node-1" x "") devices)).
Definition save (n : string) : save_run := MkSave (".tmp-" +:+ n) (MkPrepared 0 "" "" "" "" "" [] [] 0) None true.

Abbreviation state := (gmap string PreparedClaim * gmap string PreparedClaim)%type.
Definition calls : list (save_run * ResourceClaim) :=
  [(save "1", claim "a" ["cpu-s0-c1"; "gpu-gpu-ab"; "memory-n0-00000"]); (save "2", claim "b" ["cpu-s0-c2"])].
Definition final : state * gmap string PrepareResult := PrepareResourceClaims json_hash cfg calls (∅, ∅) ∅.

Definition pod (name : string) : PodSandbox := MkSandbox name "default" {[claimAnnotation := "claim-" +:+ name]}.
Definition cpuset (l : list Z) : string := join "," (map format_int l).

Lemma host_distinct : distinct_cpus host.
Proof.
  assert (NoDup (cpu_number <$> cpu_dirs host)) as Hnd by (apply (bool_decide_unpack _); vm_compute; reflexivity).
  intros d d' n Hd Hd' E E'. apply (NoDup_fmap_eq cpu_number (cpu_dirs host)); [done..|congruence].
Qed.

Lemma final_reached : exists es, execution json_hash cfg (None, ∅) es (Some (fst (fst final)), snd (fst final)).
Proof.
  destruct (prepare_batch json_hash cfg calls ∅ ∅ ∅ (fst (fst final)) (snd (fst final)) (snd final)) as [[es Hex] _].
  - repeat split; vm_compute; congruence.
  - vm_compute. reflexivity.
  - intros u devices H. by rewrite ->lookup_empty in H.
  - exists ([] ++ es). econstructor; [|exact Hex]. by apply (step_start _ _ true (fun _ => true) ∅ ∅).
Qed.

End DriverSamples.

(** The lowest processor of each core but the first is a device. *)
Example node_devices :
  merge_sort String.le (map fst (map_to_list (inv_devices DriverSamples.inv))) =
  ["cpu-s0-c1"; "cpu-s0-c2"; "gpu-gpu-ab"; "memory-n0-00000"; "memory-n0-00001"; "memory-n0-00002"]%string.
Proof. vm_compute. reflexivity. Qed.

Lemma containers_isolated_witness :
  exists u1 u2 r1 r2,
    fst (fst DriverSamples.final) !! u1 = Some r1 /\ fst (fst DriverSamples.final) !! u2 = Some r2 /\
    Namespace r1 = "default" /\ Name r1 = "claim-a" /\ Namespace r2 = "default" /\ Name r2 = "claim-b" /\
    MkAdjustment "1" "0" = adjust DriverSamples.cpuset r1 /\ MkAdjustment "2" "0" = adjust DriverSamples.cpuset r2 /\
    CPUs r1 <> [] /\ CPUs r2 <> [] /\ (u1 <> u2 -> forall cpu, cpu ∈ CPUs r1 -> cpu ∉ CPUs r2).
Proof.
  destruct DriverSamples.final_reached as [es Hex].
  apply (containers_isolated DriverSamples.quantity (fun _ => None) DriverSamples.cpuset DriverSamples.json_hash
    DriverSamples.json_devices DriverSamples.host elements "node-1" ∅ DriverSamples.inv es
    (fst (fst DriverSamples.final)) (snd (fst DriverSamples.final)) (map_to_list (fst (fst DriverSamples.final))) (DriverSamples.pod "a") (MkAdjustment "1" "0")
    (map_to_list (fst (fst DriverSamples.final))) (DriverSamples.pod "b") (MkAdjustment "2" "0")).
  - vm_compute. reflexivity.
  - apply DriverSamples.host_distinct.
  - exact Hex.
  - reflexivity.
  - reflexivity.
  - vm_compute. reflexivity.
  - vm_compute. reflexivity.
Defined.

End DraDriver.
