(* ===== verification/Watchdog.v ===== *)
(** * Watchdog: the node daemon ([src/watchdog-daemon/health.go], [main.go])

    The periodic hardware check with its failure counter, the kernel log
    watcher, the probe, and the reboot on request of the recovery controller.
    What the host answers to one check ([readings]) and what the API server
    answers to one reboot attempt are inputs.  [Watchdog] ends with the
    composition with [Recovery]: a node is only rebooted once evacuated. *)

From S2P Require Import Prelude GoStrings Hardware Recovery DraInventory.

Module Watchdog.
Import Recovery DraInventory.

(** ** Kernel events *)

Definition kernel_patterns : list (string * string) :=
  [("nvrm: xid", "NVIDIA Xid event detected"); ("machine check", "CPU machine-check event detected");
   ("mce:", "CPU MCE event detected"); ("uncorrectable", "uncorrectable hardware event detected")]%string.

Definition criticalKernelEvent (line : string) : string :=
  let lower := to_lower line in
  match List.find (fun '(pattern, _) => contains pattern lower) kernel_patterns with
  | Some (_, reason) => reason
  | None => ""
  end.

(** [kernelEventState.watch] on one line read from the log. *)
Definition watch_line (reason line : string) : string :=
  let found := criticalKernelEvent line in
  if negb (found =? "")%string then found else reason.

(** ** One check *)

Inductive check_error :=
| NodeUnread | KernelEvent (reason : string) | EDACUnreadable | Uncorrectable (n : Z)
| InventoryUnavailable | InventoryInvalid | InventoryHashInvalid
| TopologyUnavailable | SocketUnreadable | CoreUnreadable | LostCores (numa : Z)
| MemoryUnreadable (numa : Z) | LostMemory (numa : Z)
| BindUnsupported (numa : Z) | BindFailed (numa : Z) | ChecksumMismatch (numa : Z) (byte : nat)
| SMIUnavailable | SMIUnreadable | SMIBadRow | IdentityChanged.

(** [errors.Is(err, errUnsupported)]. *)
Definition unsupported (e : check_error) : bool := match e with BindUnsupported _ => true | _ => false end.

Inductive mbind_outcome := Bound | NotPermitted | BindError.

(** [memory numa i v] is what byte [i] of the memory of a NUMA node gives back
    after [v] was written to it. *)
Record readings := MkReadings {
  r_node : option KNode;
  r_event : string;
  r_edac : list (option string);
  r_cpus : list cpu_dir;
  r_meminfo : Z -> option string;
  r_mbind : Z -> mbind_outcome;
  r_memory : Z -> nat -> Z -> Z;
  r_smi : smi_answer }.

Record healthResult := MkHealth {
  Status : string; Reason : option check_error; hr_BootID : string; hr_Inventory : string; InventoryHash : string }.

Definition healthHealthy : string := "Healthy".
Definition healthUnhealthy : string := "Unhealthy".
Definition healthUnknown : string := "Unknown".

Fixpoint sum_counters (files : list (option string)) (total : Z) : option Z :=
  match files with
  | [] => Some total
  | f :: files => value ← readInt f; sum_counters files (wrap64 (total + value))
  end.
Definition uncorrectableEDAC (files : list (option string)) : option Z := sum_counters files 0.

Fixpoint core_keys (dirs : list cpu_dir) (acc : gset (Z * Z * Z)) : result check_error (gset (Z * Z * Z)) :=
  match dirs with
  | [] => Ok acc
  | d :: dirs =>
      if negb (onlineCPU d) then core_keys dirs acc else
      match readInt (cd_Package d), readInt (cd_Core d) with
      | None, _ => Err SocketUnreadable
      | Some _, None => Err CoreUnreadable
      | Some socket, Some core => core_keys dirs ({[(cpuNUMA d, socket, core)]} ∪ acc)
      end
  end.

(** [result[numa]]: the number of physical cores of a NUMA node. *)
Definition cores_on (keys : gset (Z * Z * Z)) (numa : Z) : Z :=
  Z.of_nat (length (List.filter (fun k => k.1.1 =? numa) (elements keys))).

Definition physicalCores (dirs : list cpu_dir) : result check_error (Z -> Z) :=
  match dirs with
  | [] => Err TopologyUnavailable
  | _ => let! keys := core_keys dirs ∅ in Ok (cores_on keys)
  end.

Fixpoint mem_total (l : list string) : option Z :=
  match l with
  | [] => None
  | line :: l =>
      match meminfo_total (fields line) with
      | Some value => v ← parse_int64 value; Some (wrap64 (Z.shiftl v 10))
      | None => mem_total l
      end
  end.
Definition numaMemoryBytes (text : option string) : option Z := t ← text; mem_total (lines t).

(** The node mask of [mbind]: only bit [numa] is set. *)
Definition node_mask (numa : Z) : list Z :=
  <[Z.to_nat (numa / 64) := Z.shiftl 1 (numa mod 64)]> (replicate (Z.to_nat (numa / 64 + 1)) 0).

Definition pattern (numa : Z) (i : nat) : Z := (Z.of_nat i * 131 + numa * 17) mod 251.

(** Writes the pattern, then reads it back byte by byte. *)
Definition memoryChecksum (bind : mbind_outcome) (memory : nat -> Z -> Z) (numa : Z) (size : nat) : option check_error :=
  match bind with
  | NotPermitted => Some (BindUnsupported numa)
  | BindError => Some (BindFailed numa)
  | Bound =>
      match List.find (fun i => negb (memory i (pattern numa i) =? pattern numa i)) (seq 0 size) with
      | Some i => Some (ChecksumMismatch numa i)
      | None => None
      end
  end.

(** [expected] and [actual] of [checkNVIDIA]. *)
Definition expected_gpus (inv : Hardware.Inventory) : gmap string Hardware.GPU :=
  foldl (fun m g => <[Hardware.UUID g := g]> m) ∅ (concat (map Hardware.GPUs (Hardware.Cells inv))).

Definition gpu_row (row : list string) : option Hardware.GPU :=
  match row with
  | [uuid; model; bus] =>
      Some (Hardware.MkGPU (trim_space uuid) (Hardware.NormalizeGPU model) (to_lower (trim_space bus)))
  | _ => None
  end.

Fixpoint actual_gpus (rows : list (list string)) (acc : gmap string Hardware.GPU) : option (gmap string Hardware.GPU) :=
  match rows with
  | [] => Some acc
  | row :: rows => g ← gpu_row row; actual_gpus rows (<[Hardware.UUID g := g]> acc)
  end.

Definition checkNVIDIA (inv : Hardware.Inventory) (smi : smi_answer) : option check_error :=
  let expected := expected_gpus inv in
  if bool_decide (expected = ∅) then None else
  match smi with
  | SMIMissing | SMIError => Some SMIUnavailable
  | SMIBadCSV => Some SMIUnreadable
  | SMIRows rows =>
      match actual_gpus rows ∅ with
      | None => Some SMIBadRow
      | Some actual => if bool_decide (expected = actual) then None else Some IdentityChanged
      end
  end.

(** The outcome of a check: passed, or an error that is hard or not. *)
Inductive check_outcome := Passed | HardError (e : check_error) | SoftError (e : check_error).

Section Check.
(** [json.Unmarshal] of the inventory and the hash of the encoding of its cells. *)
Variable decode_inventory : string -> option Hardware.Inventory.
Variable hash_cells : list Hardware.Cell -> string.
Variable memoryBytes : nat.

(** The loop over the cells. *)
Fixpoint check_cells (r : readings) (cores : Z -> Z) (cells : list Hardware.Cell) : check_outcome :=
  match cells with
  | [] => Passed
  | c :: cells =>
      let numa := Hardware.NUMA c in
      if cores numa <? Hardware.c_CPUs c then HardError (LostCores numa) else
      match numaMemoryBytes (r_meminfo r numa) with
      | None => SoftError (MemoryUnreadable numa)
      | Some memory =>
          if memory <? wrap64 (Hardware.MemoryUnits c * Hardware.MemoryUnitBytes c) then HardError (LostMemory numa) else
          match memoryChecksum (r_mbind r numa) (r_memory r numa) numa memoryBytes with
          | Some e => SoftError e
          | None => check_cells r cores cells
          end
      end
  end.

(** The checks after the inventory annotation has been found. *)
Definition check_inventory (r : readings) (raw hash boot : string) : check_outcome :=
  match decode_inventory raw with
  | None => SoftError InventoryInvalid
  | Some inv =>
      if negb (Hardware.Version inv =? 1) || negb (Hardware.BootID inv =? boot)%string || bool_decide (Hardware.Cells inv = [])
      then SoftError InventoryInvalid
      else if negb (hash_cells (Hardware.Cells inv) =? hash)%string then SoftError InventoryHashInvalid
      else
        match physicalCores (r_cpus r) with
        | Err e => SoftError e
        | Ok cores =>
            match check_cells r cores (Hardware.Cells inv) with
            | Passed => match checkNVIDIA inv (r_smi r) with Some e => HardError e | None => Passed end
            | bad => bad
            end
        end
  end.

Definition checkOnce (r : readings) : string * string * string * check_outcome :=
  match r_node r with
  | None => ("", "", "", SoftError NodeUnread)%string
  | Some n =>
      let boot := kn_BootID n in
      let raw := note n inventoryKey in
      let hash := note n inventoryHashKey in
      (boot, raw, hash,
       if negb (r_event r =? "")%string then HardError (KernelEvent (r_event r)) else
       match uncorrectableEDAC (r_edac r) with
       | None => SoftError EDACUnreadable
       | Some failures =>
           if negb (failures =? 0) then HardError (Uncorrectable failures)
           else if (boot =? "")%string || negb (note n inventoryBootIDKey =? boot)%string || (raw =? "")%string || (hash =? "")%string
           then SoftError InventoryUnavailable
           else check_inventory r raw hash boot
       end)
  end.

(** ** The failure counter *)

Record healthChecker := MkChecker { failures : Z; current : healthResult }.

Definition check (h : healthChecker) (r : readings) : healthChecker :=
  let '(boot, raw, hash, outcome) := checkOnce r in
  let result status reason := MkHealth status reason boot raw hash in
  match outcome with
  | Passed => MkChecker 0 (result healthHealthy None)
  | HardError e =>
      if unsupported e then MkChecker (failures h) (result healthUnknown (Some e))
      else MkChecker 3 (result healthUnhealthy (Some e))
  | SoftError e =>
      if unsupported e then MkChecker (failures h) (result healthUnknown (Some e)) else
      let failures := failures h + 1 in
      MkChecker failures (result (if 3 <=? failures then healthUnhealthy else healthUnknown) (Some e))
  end.

End Check.

Definition started : healthChecker := MkChecker 0 (MkHealth healthUnknown None "" "" "").

(** [WATCHDOG_MEMORY_CHECK_BYTES]. *)
Definition memory_check_bytes (raw : string) : option Z :=
  if (raw =? "")%string then Some (2 ^ 26) else
  value ← parse_int64 raw;
  if (value <? 2 ^ 20) || (2 ^ 30 <? value) then None else Some value.

(** [runProbe]: the exit status for the watchdog's answer, [None] if it gives
    none that can be decoded. *)
Definition probe_status (answer : option string) : Z :=
  match answer with
  | None => 2
  | Some status => if (status =? healthHealthy)%string then 0 else if (status =? healthUnhealthy)%string then 1 else 2
  end.

(** ** Rebooting on request *)

Inductive update_answer := Updated | Conflict | UpdateFailed.
Inductive reboot_error := GetFailed | PodsUnlisted | AckFailed | RebootFailed.
Inductive action := WriteAck (n : KNode) | SyncDisks | Reboot.

Definition conditionTrue (conditions : list (string * (string * string * string))) (type_ : string) : bool :=
  match List.find (fun c => (fst c =? type_)%string) conditions with
  | Some (_, (status, _, _)) => (status =? "True")%string
  | None => false
  end.

(** The Node asks for a reboot that has not been acknowledged. *)
Definition asks_reboot (n : KNode) : bool :=
  let request := note n rebootRequestKey in
  negb ((request =? "")%string || (request =? note n rebootAckKey)%string || negb (request =? note n recoveryIncidentKey)%string
        || negb (note n recoveryPhaseKey =? "RebootRequested")%string
        || negb (conditionTrue (kn_Conditions n) hardwareDegradedCondition)).

(** [current.DeepCopy()] with the acknowledgement. *)
Definition acknowledged (n : KNode) (request : string) : KNode :=
  MkKNode (kn_Name n) (kn_UID n) (kn_Labels n) (<[rebootAckKey := request]> (kn_Annotations n)) (Taints n)
          (kn_Conditions n) (kn_BootID n).

(** The closure under [retry.RetryOnConflict], which runs it again after a
    conflict: each attempt is the Node it reads and the answer to its update. *)
Fixpoint acknowledge (request : string) (attempts : list (option KNode * update_answer)) : option reboot_error * list action :=
  match attempts with
  | [] => (Some AckFailed, [])
  | (None, _) :: _ => (Some GetFailed, [])
  | (Some n, answer) :: attempts =>
      if negb (note n rebootRequestKey =? request)%string || (note n rebootAckKey =? request)%string then (None, [])
      else
        match answer with
        | Updated => (None, [WriteAck (acknowledged n request)])
        | UpdateFailed => (Some AckFailed, [])
        | Conflict => acknowledge request attempts
        end
  end.

(** [pods]: the worker Pods listed on the node. *)
Definition rebootOnce (node : option KNode) (pods : option (list string)) (attempts : list (option KNode * update_answer))
    (dryRun : string) (reboots : bool) : option reboot_error * list action :=
  match node with
  | None => (Some GetFailed, [])
  | Some n =>
      if negb (asks_reboot n) then (None, []) else
      match pods with
      | None => (Some PodsUnlisted, [])
      | Some (_ :: _) => (None, [])
      | Some [] =>
          match acknowledge (note n rebootRequestKey) attempts with
          | (Some e, acts) => (Some e, acts)
          | (None, acts) =>
              if equal_fold dryRun "true" then (None, acts)
              else (if reboots then None else Some RebootFailed, acts ++ [SyncDisks; Reboot])
          end
      end
  end.

End Watchdog.
