(* ===== verification/WatchdogSafety.v ===== *)
(** * WatchdogSafety: what the watchdog reports and when it reboots

    The reported status as a function of the past checks, the soundness of
    [Healthy], and, together with [RecoverySafety], the guarantee that a host is
    only rebooted once its workers are gone. *)

From S2P Require Import Prelude GoStrings Hardware Manifest Store Effects Recovery RecoverySafety DraInventory Watchdog.

Module WatchdogSafety.
Import Recovery RecoverySafety DraInventory Watchdog.

(** ** The status, from the past checks *)

Inductive kind := Pass | Hard | Soft | Unsupported.
#[global] Instance kind_eq_dec : EqDecision kind.
Proof. solve_decision. Defined.

Definition kind_of (o : check_outcome) : kind :=
  match o with
  | Passed => Pass
  | HardError e => if unsupported e then Unsupported else Hard
  | SoftError e => if unsupported e then Unsupported else Soft
  end.

(** The checks since the last one that passed, the latest first. *)
Fixpoint recent (past : list kind) : list kind :=
  match past with
  | [] | Pass :: _ => []
  | k :: past => k :: recent past
  end.

Definition soft_failures (past : list kind) : nat := length (List.filter (fun k => bool_decide (k = Soft)) past).

(** The status after the checks [past], the latest first. *)
Definition status_spec (past : list kind) : string :=
  match past with
  | [] => healthUnknown
  | Pass :: _ => healthHealthy
  | Hard :: _ => healthUnhealthy
  | Unsupported :: _ => healthUnknown
  | Soft :: _ =>
      if bool_decide (Hard ∈ recent past) || (3 <=? soft_failures (recent past))%nat then healthUnhealthy else healthUnknown
  end.

Section Checks.
Variable decode_inventory : string -> option Hardware.Inventory.
Variable hash_cells : list Hardware.Cell -> string.
Variable memoryBytes : nat.

Abbreviation check := (Watchdog.check decode_inventory hash_cells memoryBytes).
Abbreviation checkOnce := (Watchdog.checkOnce decode_inventory hash_cells memoryBytes).

Definition outcome_of (r : readings) : check_outcome := snd (checkOnce r).
Definition past_of (rs : list readings) : list kind := map (fun r => kind_of (outcome_of r)) (rev rs).

(** The counter stands for the failures since the last success. *)
Definition counts (past : list kind) (f : Z) : Prop :=
  if bool_decide (Hard ∈ recent past) then 3 <= f else f = Z.of_nat (soft_failures (recent past)).

Lemma check_counts h r past :
  counts past (failures h) ->
  let past' := kind_of (outcome_of r) :: past in
  counts past' (failures (check h r)) /\ Status (current (check h r)) = status_spec past'.
Proof.
  unfold counts, outcome_of, Watchdog.check. intros H.
  destruct (checkOnce r) as [[[boot raw] hash] o]. cbn [snd].
  assert (forall k, k <> Hard -> k <> Pass -> bool_decide (Hard ∈ k :: recent past) = bool_decide (Hard ∈ recent past)) as Hd.
  { intros k Hk _. apply bool_decide_ext. set_solver. }
  destruct o as [|e|e]; cbn [kind_of]; [done| |]; destruct (unsupported e); cbn [failures current Status recent status_spec].
  - rewrite ->Hd by done. split; [exact H|done].
  - rewrite ->bool_decide_eq_true_2 by (by left). split; [done|done].
  - rewrite ->Hd by done. split; [exact H|done].
  - rewrite ->Hd by done. assert (soft_failures (Soft :: recent past) = S (soft_failures (recent past))) as -> by reflexivity.
    destruct (bool_decide (Hard ∈ recent past)) eqn:Eh; cbn [orb].
    + split; [lia|]. destruct (3 <=? failures h + 1) eqn:E3; [done|lia].
    + split; [lia|]. destruct (3 <=? failures h + 1) eqn:E3;
        destruct (3 <=? S (soft_failures (recent past)))%nat eqn:E4; try done;
        rewrite ->?Nat.leb_le, ?Nat.leb_gt in E4; lia.
Qed.

Lemma checks_status rs :
  counts (past_of rs) (failures (foldl check started rs)) /\
  Status (current (foldl check started rs)) = status_spec (past_of rs).
Proof.
  unfold past_of. induction rs as [|r rs IH] using rev_ind; [done|].
  rewrite ->foldl_app, rev_app_distr. cbn [foldl rev app map]. apply check_counts. apply IH.
Qed.

(** After any sequence of checks the watchdog reports [Healthy] exactly when
    the last check passed, and [Unhealthy] exactly when the last check found a
    hard failure, or failed otherwise and, since the last success, there was a
    hard failure or this is at least the third failure; checks the host does not
    support count neither way. *)
Theorem health_status rs : Status (current (foldl check started rs)) = status_spec (past_of rs).
Proof. apply checks_status. Qed.

(** ** Kernel events *)

(** What happens at the daemon: a line of the kernel log, or a check. *)
Inductive input := Line (line : string) | Check (r : readings).

Definition with_event (reason : string) (r : readings) : readings :=
  MkReadings (r_node r) reason (r_edac r) (r_cpus r) (r_meminfo r) (r_mbind r) (r_memory r) (r_smi r).

Definition daemon (st : string * healthChecker) (i : input) : string * healthChecker :=
  match i with
  | Line line => (watch_line (fst st) line, snd st)
  | Check r => (fst st, check (snd st) (with_event (fst st) r))
  end.

Lemma event_not_healthy h r reason : reason <> "" -> Status (current (check h (with_event reason r))) <> healthHealthy.
Proof.
  intros Hr. unfold Watchdog.check, Watchdog.checkOnce. cbn. destruct (r_node r) as [n|].
  - apply String.eqb_neq in Hr. rewrite ->Hr. done.
  - cbn. by destruct (3 <=? failures h + 1).
Qed.

Lemma reason_sticks reason line : reason <> "" -> watch_line reason line <> "".
Proof. intros H. unfold watch_line. destruct (negb _) eqn:E; [|done]. bool_hyps. done. Qed.

(** Once the kernel log has shown a critical line, no later check reports
    [Healthy] until the daemon restarts. *)
Theorem critical_event_sticks before line between r st :
  criticalKernelEvent line <> "" ->
  Status (current (snd (foldl daemon st (before ++ Line line :: between ++ [Check r])))) <> healthHealthy.
Proof.
  intros Hc. rewrite ->foldl_app. cbn [foldl]. rewrite ->foldl_app. cbn [foldl].
  set (st1 := daemon (foldl daemon st before) (Line line)).
  assert (fst st1 <> "") as H1.
  { unfold st1. cbn. unfold watch_line. apply String.eqb_neq in Hc as Hc'. by rewrite ->Hc'. }
  assert (fst (foldl daemon st1 between) <> "") as H2.
  { clearbody st1. revert st1 H1. induction between as [|i between IH]; intros st1 H1; [done|]. cbn. apply IH.
    destruct i; cbn; [by apply reason_sticks|done]. }
  by apply event_not_healthy.
Qed.

(** ** What [Healthy] means *)

Lemma checksum_sound bind memory numa size :
  memoryChecksum bind memory numa size = None -> bind = Bound /\ forall i, (i < size)%nat -> memory i (pattern numa i) = pattern numa i.
Proof.
  unfold memoryChecksum. destruct bind; [|done|done]. destruct (List.find _ _) as [i|] eqn:E; [done|]. intros _.
  split; [done|]. intros i Hi. pose proof (find_none _ _ E i) as H. cbn in H.
  destruct (memory i (pattern numa i) =? pattern numa i) eqn:Em; [lia|].
  exfalso. enough (true = false) by done. apply H. apply in_seq. lia.
Qed.

(** A NUMA node has what its cell lists. *)
Definition cell_present (r : readings) (cores : Z -> Z) (c : Hardware.Cell) : Prop :=
  let numa := Hardware.NUMA c in
  Hardware.c_CPUs c <= cores numa /\
  (exists memory, numaMemoryBytes (r_meminfo r numa) = Some memory /\
     wrap64 (Hardware.MemoryUnits c * Hardware.MemoryUnitBytes c) <= memory) /\
  (forall i, (i < memoryBytes)%nat -> r_memory r numa i (pattern numa i) = pattern numa i).

Lemma check_cells_sound r cores cells :
  check_cells memoryBytes r cores cells = Passed -> Forall (cell_present r cores) cells.
Proof.
  induction cells as [|c cells IH]; intros E; [done|]. cbn [check_cells] in E.
  destruct (cores (Hardware.NUMA c) <? Hardware.c_CPUs c) eqn:Ec; [done|].
  destruct (numaMemoryBytes _) as [memory|] eqn:Em; [|done].
  destruct (memory <? _) eqn:El; [done|].
  destruct (memoryChecksum _ _ _ _) as [e|] eqn:Ek; [done|]. apply checksum_sound in Ek as [_ Hk].
  constructor; [|by apply IH]. split_and!; [lia| |done]. exists memory. split; [done|lia].
Qed.

Definition gpus_present (inv : Hardware.Inventory) (smi : smi_answer) : Prop :=
  expected_gpus inv = ∅ \/ exists rows, smi = SMIRows rows /\ actual_gpus rows ∅ = Some (expected_gpus inv).

Lemma nvidia_sound inv smi : checkNVIDIA inv smi = None -> gpus_present inv smi.
Proof.
  unfold checkNVIDIA, gpus_present. destruct (bool_decide (expected_gpus inv = ∅)) eqn:E; [bool_hyps; auto|].
  destruct smi as [| | |rows]; [done..|]. destruct (actual_gpus rows ∅) as [actual|] eqn:Ea; [|done].
  destruct (bool_decide (expected_gpus inv = actual)) eqn:Eb; [|done]. intros _. right. exists rows. split; [done|].
  bool_hyps. congruence.
Qed.

(** [Healthy] means what it says: no kernel event and no uncorrectable error,
    an inventory published for the running boot with a matching hash, every NUMA
    node with at least the processors and the memory it lists, memory that gives
    back what was written, and exactly the listed GPUs. *)
Theorem healthy_sound h r :
  Status (current (check h r)) = healthHealthy ->
  exists n inv keys, r_node r = Some n /\ r_event r = "" /\ uncorrectableEDAC (r_edac r) = Some 0 /\
    note n inventoryBootIDKey = kn_BootID n /\ kn_BootID n <> "" /\
    decode_inventory (note n inventoryKey) = Some inv /\ Hardware.Version inv = 1 /\ Hardware.BootID inv = kn_BootID n /\
    Hardware.Cells inv <> [] /\ hash_cells (Hardware.Cells inv) = note n inventoryHashKey /\
    core_keys (r_cpus r) ∅ = Ok keys /\ Forall (cell_present r (cores_on keys)) (Hardware.Cells inv) /\
    gpus_present inv (r_smi r).
Proof.
  unfold Watchdog.check. destruct (checkOnce r) as [[[boot raw] hash] o] eqn:Eo. intros Hs.
  assert (o = Passed) as ->.
  { destruct o as [|e|e]; [done|exfalso..]; destruct (unsupported e); cbn in Hs; try done.
    by destruct (3 <=? failures h + 1). }
  clear Hs. unfold Watchdog.checkOnce in Eo. destruct (r_node r) as [n|] eqn:En; [|done].
  injection Eo as <- <- <- Ho.
  destruct (r_event r =? "")%string eqn:Ee; [|done]. cbn in Ho. apply String.eqb_eq in Ee.
  destruct (uncorrectableEDAC (r_edac r)) as [f|] eqn:Ef; [|done].
  destruct (f =? 0) eqn:E0; [|done]. apply Z.eqb_eq in E0 as ->. cbn in Ho.
  destruct (kn_BootID n =? "")%string eqn:Eb; [done|]. destruct (note n inventoryBootIDKey =? kn_BootID n)%string eqn:Ebi; [|done].
  destruct (note n inventoryKey =? "")%string; [done|]. destruct (note n inventoryHashKey =? "")%string; [done|]. cbn in Ho.
  unfold check_inventory in Ho. destruct (decode_inventory _) as [inv|] eqn:Ed; [|done].
  destruct (Hardware.Version inv =? 1) eqn:Ev; [|done]. destruct (Hardware.BootID inv =? kn_BootID n)%string eqn:Ebo; [|done].
  destruct (bool_decide (Hardware.Cells inv = [])) eqn:Ecs; [done|]. cbn in Ho.
  destruct (hash_cells _ =? _)%string eqn:Eh; [|done]. cbn in Ho.
  unfold physicalCores in Ho. destruct (r_cpus r) as [|d0 dirs] eqn:Er; [done|].
  destruct (core_keys (d0 :: dirs) ∅) as [keys|] eqn:Ek; [|done].
  destruct (check_cells _ _ _ _) eqn:Ecc; [|done|done]. destruct (checkNVIDIA _ _) eqn:Eg; [done|].
  bool_hyps. exists n, inv, keys. split_and!; try done; [by apply check_cells_sound|by apply nvidia_sound].
Qed.

End Checks.

(** ** Rebooting *)

(** What [rebootOnce] read before it rebooted. *)
Lemma reboot_conditions node pods attempts dryRun reboots e acts :
  rebootOnce node pods attempts dryRun reboots = (e, acts) -> Reboot ∈ acts ->
  exists n, node = Some n /\ asks_reboot n = true /\ pods = Some [] /\ equal_fold dryRun "true" = false.
Proof.
  unfold rebootOnce. intros E Hr.
  assert (forall request attempts e acts, acknowledge request attempts = (e, acts) -> Reboot ∉ acts) as Hack.
  { intros request l. induction l as [|[[n|] a] l IH]; intros e' acts' E'; cbn in E'; try (simplify_eq; set_solver).
    destruct (_ || _); [simplify_eq; set_solver|]. destruct a; simplify_eq; [set_solver|by eapply IH|set_solver]. }
  destruct node as [n|]; [|simplify_eq; set_solver]. destruct (asks_reboot n) eqn:Ea; cbn in E; [|simplify_eq; set_solver].
  destruct pods as [[|p ps]|]; [|simplify_eq; set_solver..].
  destruct (acknowledge _ _) as [[e'|] acts'] eqn:Ek; [simplify_eq; by eapply Hack in Ek|].
  destruct (equal_fold dryRun "true") eqn:Ed; [simplify_eq; by eapply Hack in Ek|]. by exists n.
Qed.

Lemma asks_reboot_spec n :
  asks_reboot n = true ->
  note n rebootRequestKey <> "" /\ note n rebootRequestKey <> note n rebootAckKey /\
  note n recoveryIncidentKey = note n rebootRequestKey /\ note n recoveryPhaseKey = "RebootRequested" /\
  conditionTrue (kn_Conditions n) hardwareDegradedCondition = true.
Proof. unfold asks_reboot. intros H. bool_hyps. done. Qed.

Section Composition.
Variable r : RecoveryReconciler.
Variable valid_incident : string -> bool.
Variable oversized : recoveryState -> bool.
Variable decode_inventory : string -> option Hardware.Inventory.
Variable decode_marker : list Z -> option Store.CommitMarker.
Variable encode_profiles : list Hardware.OpenTPU -> string.

Abbreviation history := (RecoverySafety.history r valid_incident oversized decode_inventory decode_marker encode_profiles).

(** The event shows the controller a reboot request on a Node: one it reads,
    or one in the answer to a patch that did not have it. *)
Definition shows (e : event) (name i : string) : Prop :=
  exists n, kn_Name n = name /\ kn_Annotations n !! rebootRequestKey = Some i /\
    (e = EGetNode name (Ok n) \/
     exists copy, e = EPatchNode copy (Ok n) /\ kn_Annotations copy !! rebootRequestKey <> Some i).

(** The controller has written the request to the node. *)
Definition requested (h : list event) (name i : string) : Prop :=
  exists n a, EPatchNode n a ∈ h /\ kn_Name n = name /\ kn_Annotations n !! rebootRequestKey = Some i.

(** Nobody but the controller writes a reboot request: when the controller is
    shown one on a Node, it has written it to that Node before. *)
Definition controller_requests (h : list event) : Prop :=
  forall h1 e h2 name i, h = h1 ++ e :: h2 -> shows e name i -> requested h1 name i.

Lemma request_read_shows h name i : request_read h name i -> exists h1 e h2, h = h1 ++ e :: h2 /\ shows e name i.
Proof.
  intros (n & Hn & Hi & H).
  assert (exists e, e ∈ h /\ shows e name i) as (e & (h1 & h2 & ->)%list_elem_of_split & He).
  { destruct H as [Hin|(copy & Hin & Hc)]; eexists; (split; [exact Hin|]); exists n; split_and!; try done.
    - by left.
    - right. by exists copy. }
  by exists h1, e, h2.
Qed.

Lemma request_evacuated h h1 n a h2 i :
  history h -> controller_requests h -> h = h1 ++ EPatchNode n a :: h2 -> kn_Annotations n !! rebootRequestKey = Some i ->
  reboot_justified h (kn_Name n) i.
Proof.
  intros Hh Hc. remember (length h1) as k eqn:Ek. revert h1 n a h2 Ek.
  induction (lt_wf k) as [k _ IH]; intros h1 n a h2 Ek E Hi.
  assert (history (h1 ++ EPatchNode n a :: h2)) as Hh' by (by rewrite <-E).
  assert (h = (h1 ++ [EPatchNode n a]) ++ h2) as E' by (by rewrite <-app_assoc).
  destruct (reboot_evidence _ _ _ _ _ _ _ _ _ _ _ Hh' Hi) as [Hread|Hj].
  - destruct (request_read_shows _ _ _ Hread) as (a1 & e & a2 & E1 & He).
    destruct (Hc a1 e (a2 ++ h2) (kn_Name n) i) as (n2 & o2 & Hin2 & Hn2 & Hi2);
      [by rewrite ->E', E1, <-app_assoc|done|].
    apply list_elem_of_split in Hin2 as (b1 & b2 & E2). rewrite <-Hn2.
    eapply (IH (length b1)); [|reflexivity| |exact Hi2].
    + assert (length a1 <= length h1)%nat as Hlen.
      { apply (f_equal length) in E1. rewrite ->!length_app in E1. cbn in E1. lia. }
      rewrite ->E2, length_app in Hlen. cbn in Hlen. lia.
    + rewrite ->E', E1, E2, <-!app_assoc. done.
  - eapply reboot_justified_mono; [|exact Hj]. rewrite ->E'. apply ext_app.
Qed.

(** C5: The host is only rebooted when it may be.  Whenever [rebootOnce] reboots,
    the Node it read asked for it, unacknowledged, in phase [RebootRequested] of
    the incident and marked as degraded, no worker Pod was listed on the node and
    the daemon does not run dry; and if reboot requests are written by the
    recovery controller only, the controller had written a state of that incident
    and that node in one of the reboot phases, after it had evacuated the node:
    after the incident began the Pods of the node were listed, and after that
    listing every worker on it had no running job and its Pod and claim were
    gone. *)
Theorem reboot_only_evacuated h node pods attempts dryRun reboots e acts :
  history h -> controller_requests h ->
  (forall n i, node = Some n -> kn_Annotations n !! rebootRequestKey = Some i -> requested h (kn_Name n) i) ->
  rebootOnce node pods attempts dryRun reboots = (e, acts) -> Reboot ∈ acts ->
  exists n s o, node = Some n /\ pods = Some [] /\ equal_fold dryRun "true" = false /\
    note n rebootRequestKey <> note n rebootAckKey /\ note n recoveryPhaseKey = "RebootRequested" /\
    conditionTrue (kn_Conditions n) hardwareDegradedCondition = true /\
    note n recoveryIncidentKey = Incident s /\ note n rebootRequestKey = Incident s /\ NodeName s = kn_Name n /\
    ESave s o ∈ h /\ reboot_phase (Phase s) /\ evacuated h s.
Proof.
  intros Hh Hc Hnode E Hr. destruct (reboot_conditions _ _ _ _ _ _ _ E Hr) as (n & -> & Ha & Hp & Hd).
  destruct (asks_reboot_spec n Ha) as (H1 & H2 & H3 & H4 & H5).
  destruct (kn_Annotations n !! rebootRequestKey) as [i|] eqn:Ei; [|unfold note in H1; by rewrite ->Ei in H1].
  destruct (Hnode n i eq_refl Ei) as (n' & o & Hin & Hn & Hi). apply list_elem_of_split in Hin as (h1 & h2 & Eh).
  destruct (request_evacuated h h1 n' o h2 i Hh Hc Eh Hi) as (s & o' & Hin' & Hs & Hname & Hph & Hev).
  assert (note n rebootRequestKey = i) as En by (unfold note; by rewrite ->Ei).
  exists n, s, o'. split_and!; try done; congruence.
Qed.

End Composition.

(** ** Samples *)

Module WatchdogSamples.

Definition cells : list Hardware.Cell := [Hardware.MkCell 0 1 2 (2 ^ 30) [Hardware.MkGPU "GPU-a" "a100" "0000:1b:00.0"] []].
Definition decode (s : string) : option Hardware.Inventory :=
  if (s =? "inventory")%string then Some (Hardware.MkInventory 1 "boot-1" cells) else None.
Definition hash (l : list Hardware.Cell) : string := "h" +:+ format_uint (Z.of_nat (length l)).
Definition node : KNode :=
  MkKNode "node-1" "u" ∅ {[inventoryKey := "inventory"; inventoryHashKey := "h1"; inventoryBootIDKey := "boot-1"]} [] [] "boot-1".
Definition good : readings :=
  MkReadings (Some node) "" [Some "0"] [MkCpuDir "cpu0" None (Some "0") (Some "0") ["node0"]]
    (fun _ => Some "Node 0 MemTotal:  4194304 kB") (fun _ => Bound) (fun _ _ v => v)
    (SMIRows [["GPU-a"; " NVIDIA A100"; " 0000:1B:00.0"]]).

Definition unread : readings := MkReadings None "" [] [] (fun _ => None) (fun _ => Bound) (fun _ _ v => v) SMIMissing.
Definition line : string := "NVRM: Xid (PCI:0000:1b:00): 79, GPU has fallen off the bus.".

(** The Node of the sample recovery when the reboot is requested. *)
Definition marked (n : KNode) : KNode :=
  MkKNode (kn_Name n) (kn_UID n) (kn_Labels n) (kn_Annotations n) (Taints n)
          [(hardwareDegradedCondition, ("True", "HardwareFault", ""))] (kn_BootID n).
Definition asking : KNode := marked (RecoverySamples.patched 134).

Lemma marked_annotations n : kn_Annotations (marked n) = kn_Annotations n.
Proof. reflexivity. Qed.

Lemma marked_name n : kn_Name (marked n) = kn_Name n.
Proof. reflexivity. Qed.

(** The request an event shows. *)
Definition shown (e : event) : option (string * string) :=
  match e with
  | EGetNode _ (Ok n) => (fun i => (kn_Name n, i)) <$> (kn_Annotations n !! rebootRequestKey)
  | EPatchNode copy (Ok n) =>
      if bool_decide (kn_Annotations copy !! rebootRequestKey = kn_Annotations n !! rebootRequestKey) then None
      else (fun i => (kn_Name n, i)) <$> (kn_Annotations n !! rebootRequestKey)
  | _ => None
  end.
Definition written (e : event) : list (string * string) :=
  match e with
  | EPatchNode n _ => if kn_Annotations n !! rebootRequestKey is Some i then [(kn_Name n, i)] else []
  | _ => []
  end.

Fixpoint scan (seen : list (string * string)) (h : list event) : bool :=
  match h with
  | [] => true
  | e :: h => (if shown e is Some p then bool_decide (p ∈ seen) else true) && scan (seen ++ written e) h
  end.

Lemma shows_shown e name i : shows e name i -> shown e = Some (name, i).
Proof.
  intros (n & Hn & Hi & [->|(copy & -> & Hc)]); simpl; rewrite ->Hi; [by rewrite <-Hn|].
  rewrite ->bool_decide_eq_false_2 by congruence. by rewrite <-Hn.
Qed.

Lemma written_requested h e name i : (name, i) ∈ written e -> requested (h ++ [e]) name i.
Proof.
  destruct e; simpl; try (by intros ?%not_elem_of_nil). case_match eqn:Ei; [|by intros ?%not_elem_of_nil].
  intros ?%list_elem_of_singleton. simplify_eq. eexists _, _. split; [apply snoc_in|done].
Qed.

Lemma requested_app h k name i : requested h name i -> requested (h ++ k) name i.
Proof. intros (n & a & ? & ?). exists n, a. split; [apply elem_of_app; by left|done]. Qed.

Lemma scan_sound h0 h seen :
  (forall p, p ∈ seen -> requested h0 p.1 p.2) -> scan seen h = true ->
  forall h1 e h2 name i, h = h1 ++ e :: h2 -> shows e name i -> requested (h0 ++ h1) name i.
Proof.
  revert h0 seen. induction h as [|e0 h IH]; intros h0 seen Hs Hok h1 e h2 name i E He; [by destruct h1|].
  cbn [scan] in Hok. bool_hyps. destruct h1 as [|e1 h1]; cbn in E; simplify_eq.
  - apply shows_shown in He. rewrite ->He in *. bool_hyps. rewrite ->app_nil_r. by apply (Hs (name, i)).
  - rewrite ->(cons_middle e1 h0 h1), app_assoc. eapply IH; [|done|reflexivity|done].
    intros [name' i'] [Hin|Hin]%elem_of_app; [by apply requested_app, (Hs (name', i'))|by apply written_requested].
Qed.

End WatchdogSamples.

(** Three unreadable Nodes in a row, then a good check, and the probe. *)
Example watchdog_run :
  map (fun k => probe_status (Some (Status (current (foldl (check WatchdogSamples.decode WatchdogSamples.hash 64) started
    (take k [WatchdogSamples.unread; WatchdogSamples.unread; WatchdogSamples.unread; WatchdogSamples.good]))))))
    [0; 1; 2; 3; 4]%nat = [2; 2; 2; 1; 0].
Proof. vm_compute. reflexivity. Qed.

Lemma critical_event_sticks_witness :
  Status (current (snd (foldl (daemon WatchdogSamples.decode WatchdogSamples.hash 64) (""%string, started)
    ([Check WatchdogSamples.good] ++ Line WatchdogSamples.line :: [] ++ [Check WatchdogSamples.good])))) <> healthHealthy.
Proof. apply (critical_event_sticks WatchdogSamples.decode WatchdogSamples.hash 64). vm_compute. congruence. Defined.

Lemma healthy_sound_witness :
  exists n inv keys, r_node WatchdogSamples.good = Some n /\ r_event WatchdogSamples.good = "" /\
    uncorrectableEDAC (r_edac WatchdogSamples.good) = Some 0 /\
    note n inventoryBootIDKey = kn_BootID n /\ kn_BootID n <> "" /\
    WatchdogSamples.decode (note n inventoryKey) = Some inv /\ Hardware.Version inv = 1 /\ Hardware.BootID inv = kn_BootID n /\
    Hardware.Cells inv <> [] /\ WatchdogSamples.hash (Hardware.Cells inv) = note n inventoryHashKey /\
    core_keys (r_cpus WatchdogSamples.good) ∅ = Ok keys /\
    Forall (cell_present 64 WatchdogSamples.good (cores_on keys)) (Hardware.Cells inv) /\
    gpus_present inv (r_smi WatchdogSamples.good).
Proof.
  apply (healthy_sound WatchdogSamples.decode WatchdogSamples.hash 64 started). vm_compute. reflexivity.
Defined.

Lemma reboot_only_evacuated_witness :
  exists n s o, Some WatchdogSamples.asking = Some n /\ Some [] = Some (@nil string) /\ equal_fold "" "true" = false /\
    note n rebootRequestKey <> note n rebootAckKey /\ note n recoveryPhaseKey = "RebootRequested" /\
    conditionTrue (kn_Conditions n) hardwareDegradedCondition = true /\
    note n recoveryIncidentKey = Incident s /\ note n rebootRequestKey = Incident s /\ NodeName s = kn_Name n /\
    ESave s o ∈ RecoverySamples.run /\ reboot_phase (Phase s) /\ evacuated RecoverySamples.run s.
Proof.
  apply (reboot_only_evacuated RecoverySamples.reconciler RecoverySamples.valid_incident RecoverySamples.oversized
    RecoverySamples.decode_inventory RecoverySamples.decode_marker RecoverySamples.encode_profiles RecoverySamples.run
    (Some WatchdogSamples.asking) (Some []) [(Some WatchdogSamples.asking, Conflict); (Some WatchdogSamples.asking, Updated)]
    "" true None
    [WriteAck (acknowledged WatchdogSamples.asking (note WatchdogSamples.asking rebootRequestKey)); SyncDisks; Reboot]).
  - apply RecoverySamples.reached_passes.
  - intros h1 e h2 name i. apply (WatchdogSamples.scan_sound [] RecoverySamples.run []); [by intros p ?%not_elem_of_nil|].
    vm_compute. reflexivity.
  - intros n i [= <-] Hi. exists (RecoverySamples.patched 134), (Ok (RecoverySamples.patched 134)). split_and!.
    + apply (list_elem_of_lookup_2 _ 134). vm_compute. reflexivity.
    + unfold WatchdogSamples.asking. by rewrite ->WatchdogSamples.marked_name.
    + unfold WatchdogSamples.asking in Hi. rewrite ->WatchdogSamples.marked_annotations in Hi. exact Hi.
  - vm_compute. reflexivity.
  - right. right. left.
Defined.

End WatchdogSafety.
