(* ===== verification/WatchdogDaemon.v ===== *)
(** * WatchdogDaemon: the goroutines of the watchdog
    ([run] and [serve] of [src/watchdog-daemon/main.go], [newHealthChecker],
    [run], [watch] and [nvidiaSMI] of [health.go])

    The daemon as a transition system: the reader of the kernel log, the health
    checker and the HTTP server interleave freely; a check reads the kernel
    event when it begins and publishes its result when it ends, and anything
    may happen in between.  The theorem says what a probe tells. *)

From S2P Require Import Prelude GoStrings Hardware Recovery DraInventory Watchdog WatchdogSafety.

Module WatchdogDaemon.
Import DraInventory Watchdog WatchdogSafety.

(** ** Start-up *)

Inductive daemon_error :=
| UsageError | NodeNameRequired | NoClusterConfig | NoKubernetesClient | BadMemoryCheck
| SocketDirFailed | StaleSocket | ListenFailed | SocketModeFailed | ServeFailed.

Definition defaultSocket : string := "/run/gputpu-watchdog/watchdog.sock".

Inductive mode := ProbeMode (socket : string) | DaemonMode (node socket : string) (memoryBytes : Z).

(** [run] up to the goroutines; [config] and [client] tell whether the
    Kubernetes client could be made. *)
Definition run_mode (args : list string) (getenv : string -> string) (config client : bool) : result daemon_error mode :=
  let socket := if (getenv "WATCHDOG_SOCKET" =? "")%string then defaultSocket else getenv "WATCHDOG_SOCKET"%string in
  if match args with a :: _ => (a =? "probe")%string | [] => false end then Ok (ProbeMode socket) else
  reject_if negb (bool_decide (args = [])) with UsageError in
  let node := getenv "NODE_NAME"%string in
  reject_if (node =? "")%string with NodeNameRequired in
  reject_if negb config with NoClusterConfig in
  reject_if negb client with NoKubernetesClient in
  match memory_check_bytes (getenv "WATCHDOG_MEMORY_CHECK_BYTES") with
  | None => Err BadMemoryCheck
  | Some bytes => Ok (DaemonMode node socket bytes)
  end.

(** [serve] up to the server: what the steps answer. *)
Inductive remove_answer := Removed | NotThere | RemoveFailed.
Definition open_socket (mkdir : bool) (remove : remove_answer) (listen chmod : bool) : result daemon_error unit :=
  reject_if negb mkdir with SocketDirFailed in
  match remove with
  | RemoveFailed => Err StaleSocket
  | _ =>
      reject_if negb listen with ListenFailed in
      reject_if negb chmod with SocketModeFailed in Ok tt
  end.

(** The command line of [nvidia-smi]. *)
Definition nvidiaSMI (getenv : string -> string) (host_binary : bool) (arguments : list string) : list string :=
  if negb (getenv "NVIDIA_SMI" =? "")%string then getenv "NVIDIA_SMI"%string :: arguments
  else if host_binary then ["chroot"; "/host"; "/usr/bin/nvidia-smi"]%string ++ arguments
  else "nvidia-smi"%string :: arguments.

(** ** The HTTP server *)

Section Daemon.
Variable decode_inventory : string -> option Hardware.Inventory.
Variable hash_cells : list Hardware.Cell -> string.
Variable memoryBytes : nat.
(** The JSON of a result and of an inventory, and [Status] as the probe decodes
    it. *)
Variable encode_health : healthResult -> string.
Variable encode_inventory : string -> string -> string -> string.
Variable decode_status : string -> option string.

Abbreviation check := (Watchdog.check decode_inventory hash_cells memoryBytes).

(** A pattern with the method GET serves HEAD, too. *)
Definition is_get (method : string) : bool := (method =? "GET")%string || (method =? "HEAD")%string.

(** The body a handler writes, [None] if no handler is registered. *)
Definition handle (h : healthResult) (method path : string) : option string :=
  if is_get method && (path =? "/v1/health")%string then Some (encode_health h)
  else if is_get method && (path =? "/v1/inventory")%string then Some (encode_inventory (hr_BootID h) (hr_Inventory h) (InventoryHash h))
  else None.

(** [runProbe]: [reached] tells whether the request got through. *)
Definition runProbe (reached : bool) (h : healthResult) : Z :=
  probe_status (if reached then handle h "GET" "/v1/health" ≫= decode_status else None).

(** ** The goroutines *)

(** The kernel event, the checker and the readings of a check under way. *)
Record daemon_state := MkDaemon { reason : string; checker : healthChecker; checking : option readings }.
Definition launched : daemon_state := MkDaemon "" started None.

Inductive log :=
| LLine (line : string)
| LBegin (r : readings)
| LEnd (r : readings)
| LAnswer (method path : string) (body : option string)
| LProbe (reached : bool) (status : Z).

Inductive daemon_step : daemon_state -> log -> daemon_state -> Prop :=
| step_line line s :
    daemon_step s (LLine line) (MkDaemon (watch_line (reason s) line) (checker s) (checking s))
| step_begin r s :
    checking s = None -> r_event r = reason s ->
    daemon_step s (LBegin r) (MkDaemon (reason s) (checker s) (Some r))
| step_end r s :
    checking s = Some r ->
    daemon_step s (LEnd r) (MkDaemon (reason s) (check (checker s) r) None)
| step_answer method path s :
    daemon_step s (LAnswer method path (handle (current (checker s)) method path)) s
| step_probe reached s :
    daemon_step s (LProbe reached (runProbe reached (current (checker s)))) s.

Inductive daemon_run : daemon_state -> list log -> daemon_state -> Prop :=
| run_nil s : daemon_run s [] s
| run_snoc s t s' l s'' : daemon_run s t s' -> daemon_step s' l s'' -> daemon_run s (t ++ [l]) s''.

(** The checks that have ended, in order. *)
Definition ended (t : list log) : list readings := omap (fun l => match l with LEnd r => Some r | _ => None end) t.

(** A critical line of the kernel log. *)
Definition critical (l : log) : bool :=
  match l with LLine line => negb (criticalKernelEvent line =? "")%string | _ => false end.

(** The check that ended last began after a critical line. *)
Definition after_event (t : list log) : Prop :=
  exists t1 r t2 t3, t = t1 ++ LBegin r :: t2 ++ LEnd r :: t3 /\ existsb critical t1 = true /\ ended t2 = [] /\ ended t3 = [].

Lemma ended_snoc t l : ended (t ++ [l]) = ended t ++ match l with LEnd r => [r] | _ => [] end.
Proof. unfold ended. rewrite ->omap_app. f_equal. by destruct l. Qed.

Lemma run_split t1 l t2 s s2 :
  daemon_run s (t1 ++ l :: t2) s2 ->
  exists s1 s1', daemon_run s t1 s1 /\ daemon_step s1 l s1'.
Proof.
  intros H. remember (t1 ++ l :: t2) as t0 eqn:E. revert t2 E. induction H as [s|s t s' x s'' Hr IH Hs]; intros t2 E; [by destruct t1|].
  destruct t2 as [|y t2 _] using rev_ind; [apply app_inj_tail in E as [-> ->]; eauto|].
  rewrite ->app_comm_cons, app_assoc in E. apply app_inj_tail in E as [-> ->]. by eapply IH.
Qed.

(** The state is a function of the log. *)
Lemma run_state t s :
  daemon_run launched t s ->
  checker s = foldl check started (ended t) /\
  (existsb critical t = true -> reason s <> "").
Proof.
  remember launched as s0 eqn:E0. induction 1 as [s|s t s' l s'' Hr IH Hs]; subst; [done|].
  destruct (IH eq_refl) as [Hc Hk]. rewrite ->ended_snoc, existsb_app. cbn [existsb].
  inversion Hs; subst; cbn [checker reason critical]; rewrite ->?app_nil_r, ?orb_false_r.
  - split; [done|]. intros [H|H]%orb_true_iff; [by apply reason_sticks, Hk|]. unfold watch_line. by rewrite ->H; bool_hyps.
  - done.
  - split; [|done]. rewrite ->foldl_app, <-Hc. done.
  - done.
  - done.
Qed.

Abbreviation past_of := (WatchdogSafety.past_of decode_inventory hash_cells memoryBytes).
Abbreviation outcome_of := (WatchdogSafety.outcome_of decode_inventory hash_cells memoryBytes).

Lemma event_fails r : r_event r <> "" -> outcome_of r <> Passed.
Proof.
  intros He%String.eqb_neq. unfold WatchdogSafety.outcome_of, checkOnce. destruct (r_node r) as [n|]; [|done]. cbn. by rewrite ->He.
Qed.

(** The check that follows a critical line sees it. *)
Lemma after_event_fails t s :
  daemon_run launched t s -> after_event t -> exists rs r, ended t = rs ++ [r] /\ outcome_of r <> Passed.
Proof.
  intros Hr (t1 & r & t2 & t3 & -> & Hc & E2 & E3). exists (ended t1), r. split.
  - unfold ended in *. rewrite ->omap_app. cbn. rewrite ->omap_app, E2. cbn. by rewrite ->E3.
  - destruct (run_split _ _ _ _ _ Hr) as (s1 & s1' & Hr1 & Hs). destruct (run_state _ _ Hr1) as [_ Hk]. apply event_fails.
    inversion Hs as [|r0 s0 Hn He| | |]. rewrite ->He. subst. by apply Hk.
Qed.

Lemma status_healthy past : status_spec past = healthHealthy -> exists rest, past = Pass :: rest.
Proof. destruct past as [|[] past]; cbn; try done; [eauto|]. by destruct (_ || _). Qed.

Lemma past_snoc rs r : past_of (rs ++ [r]) = kind_of (outcome_of r) :: past_of rs.
Proof. unfold WatchdogSafety.past_of. by rewrite ->rev_unit. Qed.

Hypothesis decode_encode : forall h, decode_status (encode_health h) = Some (Status h).

(** C18: The probe tells the truth.  However the goroutines interleave, the exit
    status of a probe is that of the checks that had ended when it was answered:
    success means that the last of them passed and had not begun after a
    critical line of the kernel log, failure that it found a hard error or
    failed for the third time since a success (or after a hard error), and
    anything else, an unreachable daemon included, is reported as unknown. *)
Theorem probe_truthful t1 reached status t2 s :
  daemon_run launched (t1 ++ LProbe reached status :: t2) s ->
  status = probe_status (if reached then Some (status_spec (past_of (ended t1))) else None) /\
  (status = 0 -> exists rs r, ended t1 = rs ++ [r] /\ outcome_of r = Passed) /\
  (after_event t1 -> status <> 0).
Proof.
  intros (s1 & s1' & Hr & Hs)%run_split. inversion Hs as [| | | |? ? Ea Eb Ec]. subst. destruct (run_state _ _ Hr) as [Hc _].
  assert (runProbe reached (current (checker s1')) = probe_status (if reached then Some (status_spec (past_of (ended t1))) else None)) as Hp.
  { unfold runProbe. destruct reached; [|done]. change (handle _ _ _) with (Some (encode_health (current (checker s1')))).
    cbn [mbind option_bind]. rewrite ->decode_encode, Hc. by rewrite ->(proj2 (checks_status _ _ _ _)). }
  rewrite ->Hp. split; [done|]. assert (probe_status (if reached then Some (status_spec (past_of (ended t1))) else None) = 0 ->
    exists rs r, ended t1 = rs ++ [r] /\ outcome_of r = Passed) as Hz.
  { destruct reached; [|done]. unfold probe_status. destruct (_ =? healthHealthy)%string eqn:Eh; [|destruct (_ =? healthUnhealthy)%string; discriminate].
    intros _. apply String.eqb_eq, status_healthy in Eh as [rest Er]. destruct (ended t1) as [|r rs _] using rev_ind; [done|].
    exists rs, r. split; [done|]. rewrite ->past_snoc in Er. destruct (outcome_of r) as [|e|e]; [done|..]; cbn in Er; by destruct (unsupported e). }
  split; [done|]. intros Ha Hz'. destruct (Hz Hz') as (rs & r & E & Hpass). destruct (after_event_fails _ _ Hr Ha) as (rs' & r' & E' & Hn).
  rewrite ->E in E'. by apply app_inj_tail in E' as [_ ->].
Qed.

End Daemon.

(** ** A check under way when the kernel reports an error *)

Module DaemonSamples.
Import WatchdogSamples.

Definition event : string := criticalKernelEvent line.
Definition failed : readings := with_event event good.
Definition history : list log :=
  [LBegin good; LLine line; LEnd good; LProbe true 0; LBegin failed; LProbe true 0; LEnd failed].

Abbreviation run := (daemon_run decode hash 64 Status (fun _ _ _ => ""%string) Some).
Abbreviation step := (daemon_step decode hash 64 Status (fun _ _ _ => ""%string) Some).

Lemma history_runs : exists s, run launched (history ++ LProbe true 1 :: []) s.
Proof.
  set (a := MkDaemon "" started (Some good)). set (b := MkDaemon event started (Some good)).
  set (c := MkDaemon event (check decode hash 64 started good) None).
  set (d := MkDaemon event (check decode hash 64 started good) (Some failed)).
  set (e := MkDaemon event (check decode hash 64 (check decode hash 64 started good) failed) None).
  assert (step launched (LBegin good) a) as H1 by (apply step_begin; reflexivity).
  assert (step a (LLine line) b) as H2 by (apply (step_line decode hash 64 Status (fun _ _ _ => ""%string) Some line a)).
  assert (step b (LEnd good) c) as H3 by (apply (step_end decode hash 64 Status (fun _ _ _ => ""%string) Some good b); reflexivity).
  assert (step c (LProbe true 0) c) as H4 by (apply (step_probe decode hash 64 Status (fun _ _ _ => ""%string) Some true c)).
  assert (step c (LBegin failed) d) as H5 by (apply (step_begin decode hash 64 Status (fun _ _ _ => ""%string) Some failed c); reflexivity).
  assert (step d (LProbe true 0) d) as H6 by (apply (step_probe decode hash 64 Status (fun _ _ _ => ""%string) Some true d)).
  assert (step d (LEnd failed) e) as H7 by (apply (step_end decode hash 64 Status (fun _ _ _ => ""%string) Some failed d); reflexivity).
  assert (step e (LProbe true 1) e) as H8 by (apply (step_probe decode hash 64 Status (fun _ _ _ => ""%string) Some true e)).
  exists e. change (history ++ [LProbe true 1]) with
    ([] ++ [LBegin good] ++ [LLine line] ++ [LEnd good] ++ [LProbe true 0] ++ [LBegin failed] ++ [LProbe true 0] ++ [LEnd failed] ++ [LProbe true 1]).
  rewrite ->!app_assoc. eauto 10 using run_nil, run_snoc.
Qed.

End DaemonSamples.

Lemma probe_truthful_witness :
  1 = probe_status (Some (status_spec (past_of WatchdogSamples.decode WatchdogSamples.hash 64 (ended DaemonSamples.history)))) /\ 1 <> 0.
Proof.
  destruct DaemonSamples.history_runs as [s Hs].
  destruct (probe_truthful WatchdogSamples.decode WatchdogSamples.hash 64 Status (fun _ _ _ => ""%string) Some (fun _ => eq_refl)
    DaemonSamples.history true 1 [] s Hs) as (H1 & _ & H3).
  split; [exact H1|]. apply H3. exists [LBegin WatchdogSamples.good; LLine WatchdogSamples.line; LEnd WatchdogSamples.good; LProbe true 0],
    DaemonSamples.failed, [LProbe true 0], []. split; [reflexivity|]. split; [vm_compute; reflexivity|]. split; reflexivity.
Defined.

End WatchdogDaemon.
