(* ===== verification/GresInit.v ===== *)
(** * GresInit: the init container of a worker
    ([src/slurm-compute-node/cmd/gres-init/main.go])

    Finds the devices of the worker's claim in the published slices, checks
    them against the worker's shape and against the processors and the memory
    node the container is pinned to, and writes the Slurm configuration of the
    node.  The answers of the API server, of [nvidia-smi], of [os.Stat] and of
    [slurmd] and the text of [/proc/self/status] are inputs; the files are
    outputs. *)

From S2P Require Import Prelude GoStrings Hardware ResourceApi DraPlugin DraPluginSafety DraInventory DraDriver.

Module GresInit.
Import ResourceApi.

Definition driverName : string := "orchestration.gputpu.io".

Record shape := MkShape { CPUs : Z; MemoryBytes : Z; SharedMemoryBytes : Z; GRES : gmap string Z }.

Inductive gres_error :=
| Unset (name : string) | SlicesUnlisted | OtherDriver (device : string) | PoolUnpublished (pool : string)
| PoolIncomplete (pool : string) | DeviceMissing (device : string)
| NoIdentity (device : string) | SpansNodes | NoLogicalCPU (device : string) | NoModel (device : string)
| NoProfile (device : string) | UnknownKind (kind : string) | WrongCPUs (n : Z) | WrongGRES
| StatusUnreadable | StatusIncomplete | WrongCPUSet (allowed expected : string) | WrongMems (allowed : string)
| IncompleteGPU (device : string) | NoDeviceFile (path : string) | SMIFailed | GPUAbsent (uuid : string)
| MixedMatrixSizes | WriteFailed (path : string) | SlurmdFailed
| NoClient | IndexOutOfRange | PodUnread | ClaimUnread | NotAllocated | BadShape.

Definition attr (name : string) : string := driverName +:+ "/" +:+ name.

(** ** The devices of the claim *)

Definition on_node (node : string) (s : ResourceSlice) : bool :=
  (sl_Driver s =? driverName)%string && match sl_Node s with Some n => (n =? node)%string | None => false end.

Definition pool_slices (slices : list ResourceSlice) (node pool : string) : list ResourceSlice :=
  List.filter (fun s => on_node node s && (sl_Pool s =? pool)%string) slices.

Definition newest (l : list ResourceSlice) : Z := foldl (fun g s => Z.max g (Generation s)) (-1) l.

Fixpoint allocated_devices (slices : list ResourceSlice) (node : string) (results : list DraPlugin.AllocationResult)
    : result gres_error (list Device) :=
  match results with
  | [] => Ok []
  | a :: results =>
      reject_if negb (DraPlugin.Driver a =? driverName)%string with OtherDriver (DraPlugin.Device a) in
      let all := pool_slices slices node (DraPlugin.Pool a) in
      reject_if bool_decide (all = []) with PoolUnpublished (DraPlugin.Pool a) in
      let current := List.filter (fun s => Generation s =? newest all) all in
      match current with
      | [] => Err IndexOutOfRange
      | first :: _ =>
      reject_if negb (Z.of_nat (length current) =? ResourceSliceCount first) with PoolIncomplete (DraPlugin.Pool a) in
      let matching := List.filter (fun d => (dev_Name d =? DraPlugin.Device a)%string) (concat (map Devices current)) in
      reject_if bool_decide (matching = []) with DeviceMissing (DraPlugin.Device a) in
      let! rest := allocated_devices slices node results in
      Ok (matching ++ rest)
      end
  end.

Definition allocatedDevices (list_answer : option (list ResourceSlice)) (node : string)
    (results : list DraPlugin.AllocationResult) : result gres_error (list Device) :=
  match list_answer with
  | None => Err SlicesUnlisted
  | Some slices => allocated_devices slices node results
  end.

(** ** The pinning of the process *)

Definition scan_status (acc : string * string) (line : string) : string * string :=
  match cut_on ":" line with
  | None => acc
  | Some (key, value) =>
      if (key =? "Cpus_allowed_list")%string then (trim_space value, snd acc)
      else if (key =? "Mems_allowed_list")%string then (fst acc, trim_space value)
      else acc
  end.

Definition allowedSets (status : option string) : result gres_error (string * string) :=
  match status with
  | None => Err StatusUnreadable
  | Some text =>
      let '(cpus, mems) := foldl scan_status (""%string, ""%string) (lines text) in
      reject_if (cpus =? "")%string || (mems =? "")%string with StatusIncomplete in
      Ok (cpus, mems)
  end.

(** ** Validation *)

Section Validate.
(** [cpuset.New(cpus...).String()], [os.Stat], the output of [nvidia-smi] and
    the text of [/proc/self/status]. *)
Variable cpuset : list Z -> string.
Variable stat : string -> bool.
Variable smi : option string.
Variable status : option string.

(** A line of [nvidia-smi]: a UUID and a model. *)
Definition smi_line (uuid model line : string) : bool :=
  match cut_on "," line with
  | Some (u, m) => (trim_space u =? uuid)%string && (Hardware.NormalizeGPU m =? model)%string
  | None => false
  end.

Definition validateGPU (d : Device) : result gres_error unit :=
  match stringAttr d (attr "uuid"), stringAttr d (attr "model"), stringAttr d (attr "path") with
  | Some uuid, Some model, Some path =>
      reject_if negb (stat path) with NoDeviceFile path in
      match smi with
      | None => Err SMIFailed
      | Some output =>
          if existsb (smi_line uuid model) (split_on "010" (trim_space output)) then Ok tt else Err (GPUAbsent uuid)
      end
  | _, _, _ => Err (IncompleteGPU (dev_Name d))
  end.

Definition add_gres (key : string) (m : gmap string Z) : gmap string Z := <[key := default 0 (m !! key) + 1]> m.

(** The loop: processors, NUMA node and GRES so far. *)
Definition validate_device (acc : list Z * Z * gmap string Z) (d : Device) : result gres_error (list Z * Z * gmap string Z) :=
  let '(cpus, numa, gres) := acc in
  match stringAttr d (attr "kind"), intAttr d (attr "numaNode") with
  | Some kind, Some cell =>
      reject_if negb (numa =? -1) && negb (numa =? cell) with SpansNodes in
      let numa := if numa =? -1 then cell else numa in
      if (kind =? "cpu")%string then
        match intAttr d (attr "logicalCPU") with
        | None => Err (NoLogicalCPU (dev_Name d))
        | Some cpu => Ok (cpus ++ [cpu], numa, gres)
        end
      else if (kind =? "memory")%string then Ok (cpus, numa, gres)
      else if (kind =? "gpu")%string then
        match stringAttr d (attr "model") with
        | None => Err (NoModel (dev_Name d))
        | Some model => let! _ := validateGPU d in Ok (cpus, numa, add_gres ("gpu:" +:+ model) gres)
        end
      else if (kind =? "opentpu")%string then
        match stringAttr d (attr "profile") with
        | None => Err (NoProfile (dev_Name d))
        | Some profile => Ok (cpus, numa, add_gres ("tpu:" +:+ profile) gres)
        end
      else Err (UnknownKind kind)
  | _, _ => Err (NoIdentity (dev_Name d))
  end.

Fixpoint validate_devices (acc : list Z * Z * gmap string Z) (ds : list Device) : result gres_error (list Z * Z * gmap string Z) :=
  match ds with
  | [] => Ok acc
  | d :: ds => let! acc := validate_device acc d in validate_devices acc ds
  end.

Definition validate (devices : list Device) (wanted : shape) : result gres_error unit :=
  let! (cpus, numa, gres) := validate_devices ([], -1, ∅) devices in
  reject_if negb (Z.of_nat (length cpus) =? CPUs wanted) with WrongCPUs (Z.of_nat (length cpus)) in
  reject_if negb (bool_decide (gres = GRES wanted)) with WrongGRES in
  let! (allowedCPUs, allowedMems) := allowedSets status in
  reject_if negb (allowedCPUs =? cpuset cpus)%string with WrongCPUSet allowedCPUs (cpuset cpus) in
  reject_if negb (allowedMems =? format_int numa)%string with WrongMems allowedMems in
  Ok tt.

End Validate.

(** ** The configuration *)

Definition quote_char : ascii := "'".
Definition shellQuote (value : string) : string :=
  String quote_char (replace_byte quote_char "'\''" value +:+ "'").

Record render_state := MkRender { rs_Gres : list string; rs_OpenTPU : list string; rs_Matrix : Z }.

Definition gpu_line (cores : string) (d : Device) : string :=
  "Name=gpu Type=" +:+ default "" (stringAttr d (attr "model")) +:+ " File=" +:+ default "" (stringAttr d (attr "path"))
  +:+ " Cores=" +:+ cores.
Definition tpu_line (d : Device) : string :=
  "Name=tpu Type=" +:+ default "" (stringAttr d (attr "profile")) +:+ " Count=1 Flags=CountOnly".

Fixpoint render_devices (cores : string) (ds : list Device) (st : render_state) : result gres_error render_state :=
  match ds with
  | [] => Ok st
  | d :: ds =>
      let kind := default ""%string (stringAttr d (attr "kind")) in
      if (kind =? "gpu")%string then
        render_devices cores ds (MkRender (rs_Gres st ++ [gpu_line cores d]) (rs_OpenTPU st) (rs_Matrix st))
      else if (kind =? "opentpu")%string then
        match intAttr d (attr "matrixSize") with
        | None => Err MixedMatrixSizes
        | Some matrix =>
            reject_if negb (rs_Matrix st =? 0) && negb (rs_Matrix st =? matrix) with MixedMatrixSizes in
            render_devices cores ds (MkRender (rs_Gres st ++ [tpu_line d]) (rs_OpenTPU st ++ [dev_Name d]) matrix)
        end
      else render_devices cores ds st
  end.

Definition gres_entry (e : string * Z) : string :=
  let '(kind, model) := default (fst e, ""%string) (cut_on ":" (fst e)) in
  kind +:+ ":" +:+ model +:+ ":" +:+ format_int (snd e).


(** The node line of [slurmd]; [order] is the order of the GRES map. *)
Definition dynamic (wanted : shape) (order : list (string * Z)) (podIP pool : string) : string :=
  let summary := merge_sort String.le (map gres_entry order) in
  let realMemory := Z.max (Z.shiftr (wrap64 (MemoryBytes wanted - SharedMemoryBytes wanted)) 20) 1 in
  let weight := if bool_decide (order = []) then 1 else 2 in
  "CPUs=" +:+ format_int (CPUs wanted) +:+ " RealMemory=" +:+ format_int realMemory +:+ " Sockets=1 CoresPerSocket="
  +:+ format_int (CPUs wanted) +:+ " ThreadsPerCore=1 NodeAddr=" +:+ podIP +:+ " Feature=pool_" +:+ replace_byte "-" "_" pool
  +:+ " Weight=" +:+ format_int weight +:+ (if bool_decide (summary = []) then ""%string else " Gres=" +:+ join "," summary).

Definition matrix_export (prefix : string) (matrix : Z) : string :=
  if matrix =? 0 then ""%string else prefix +:+ "export OPENTPU_MATRIX_SIZE=" +:+ format_int matrix +:+ nl.

Definition worker_env (dyn : string) (st : render_state) : string :=
  "SLURMD_CONF=" +:+ shellQuote dyn +:+ nl +:+ "export SLURM_CONF=/var/lib/slurmd/conf-cache/slurm.conf" +:+ nl
  +:+ "export OPENTPU_DEVICES=" +:+ shellQuote (join "," (merge_sort String.le (rs_OpenTPU st))) +:+ nl
  +:+ matrix_export "" (rs_Matrix st).

Definition task_prolog (st : render_state) : string :=
  "#!/bin/sh" +:+ nl +:+ "echo export OPENTPU_DEVICES=" +:+ join "," (merge_sort String.le (rs_OpenTPU st)) +:+ nl
  +:+ matrix_export "echo " (rs_Matrix st).

Definition cgroup_conf : string :=
  join nl ["CgroupPlugin=autodetect"; "IgnoreSystemd=yes"; "ConstrainCores=yes"; "ConstrainRAMSpace=yes";
           "ConstrainDevices=yes"; ""]%string.

Definition cores_of (wanted : shape) : string :=
  if 1 <? CPUs wanted then "0-" +:+ format_int (CPUs wanted - 1) else "0"%string.

(** The calls of [renderAndCheck] in order: files written and runs of [slurmd]
    (with the [SLURM_CONF] added to its environment). *)
Inductive effect := WriteFile (path contents : string) | Slurmd (slurm_conf : option string) (arguments : list string).

Definition render_effects (wanted : shape) (order : list (string * Z)) (podName podIP pool conf_server : string)
    (st : render_state) : list effect :=
  let dyn := dynamic wanted order podIP pool in
  [WriteFile "/etc/slurm/cgroup.conf" cgroup_conf;
   WriteFile "/etc/slurm/worker.env" (worker_env dyn st);
   WriteFile "/etc/slurm/task-prolog" (task_prolog st);
   Slurmd None ["-G"; "-Z"; "-N"; podName; "--conf-server"; conf_server; "--conf"; dyn];
   WriteFile "/var/lib/slurmd/conf-cache/gres.conf" (join nl (merge_sort String.le (rs_Gres st)) +:+ nl);
   Slurmd (Some "/var/lib/slurmd/conf-cache/slurm.conf"%string) ["-G"; "-Z"; "-N"; podName; "--conf"; dyn]].

(** Runs the calls until one fails. *)
Fixpoint run_effects (works : effect -> bool) (l : list effect) : result gres_error unit * list effect :=
  match l with
  | [] => (Ok tt, [])
  | e :: l =>
      if works e then let '(r, done) := run_effects works l in (r, e :: done)
      else (Err (match e with WriteFile p _ => WriteFailed p | Slurmd _ _ => SlurmdFailed end), [])
  end.

Definition renderAndCheck (works : effect -> bool) (devices : list Device) (wanted : shape) (order : list (string * Z))
    (podName podIP pool conf_server : string) : result gres_error unit * list effect :=
  match render_devices (cores_of wanted) devices (MkRender [] [] 0) with
  | Err e => (Err e, [])
  | Ok st => run_effects works (render_effects wanted order podName podIP pool conf_server st)
  end.

(** ** The whole program *)

Record environment := MkEnvironment {
  getenv : string -> string;
  kube_client : bool;  (* the client could be built *)
  pod : option (string * string);  (* node and shape annotation *)
  claim : option (option (list DraPlugin.AllocationResult));
  slices : option (list ResourceSlice);
  decode_shape : string -> option shape;
  proc_status : option string;
  stat_ : string -> bool;
  smi_ : option string;
  cpuset_ : list Z -> string;
  gres_order : gmap string Z -> list (string * Z);
  works_ : effect -> bool }.

Definition required_variables : list string :=
  ["POD_NAME"; "POD_NAMESPACE"; "POD_IP"; "RESOURCE_CLAIM"; "WORKER_POOL"; "SLURM_CONF_SERVER"]%string.

Definition decode_wanted (e : environment) (annotation : string) : result gres_error shape :=
  match decode_shape e annotation with
  | Some wanted => reject_if (CPUs wanted <? 1) || (MemoryBytes wanted <? 1) with BadShape in Ok wanted
  | None => Err BadShape
  end.

Definition prepare_worker (e : environment) : result gres_error (list Device * shape) :=
  match List.find (fun name => (getenv e name =? "")%string) required_variables with
  | Some name => Err (Unset name)
  | None =>
  reject_if negb (kube_client e) with NoClient in
  match pod e with
  | None => Err PodUnread
  | Some (node, annotation) =>
  match claim e with
  | None => Err ClaimUnread
  | Some None => Err NotAllocated
  | Some (Some results) =>
      let! devices := allocatedDevices (slices e) node results in
      let! wanted := decode_wanted e annotation in
      let! _ := validate (cpuset_ e) (stat_ e) (smi_ e) (proc_status e) devices wanted in
      Ok (devices, wanted)
  end end end.

Definition run (e : environment) : result gres_error unit * list effect :=
  match prepare_worker e with
  | Err err => (Err err, [])
  | Ok (devices, wanted) =>
      renderAndCheck (works_ e) devices wanted (gres_order e (GRES wanted)) (getenv e "POD_NAME") (getenv e "POD_IP")
        (getenv e "WORKER_POOL") (getenv e "SLURM_CONF_SERVER")
  end.

(** ** Quoting for the shell *)

(** A word of the shell: quotes, escapes and plain characters, [None] when it
    is not one word. *)
Fixpoint shell_word (quoted escaped : bool) (s : string) : option string :=
  match s with
  | EmptyString => if quoted || escaped then None else Some ""%string
  | String c s =>
      if escaped then String c <$> shell_word false false s
      else if decide (c = quote_char) then shell_word (negb quoted) false s
      else if quoted then String c <$> shell_word true false s
      else if decide (c = "\"%char) then shell_word false true s
      else if is_alnum c then String c <$> shell_word false false s
      else None
  end.

Lemma shell_word_quoted s : shell_word true false (replace_byte quote_char "'\''" s +:+ "'") = Some s.
Proof.
  induction s as [|c s IH]; [done|]. cbn [replace_byte]. destruct (decide (c = quote_char)) as [->|Hc].
  - sapp. cbn. by rewrite ->IH.
  - sapp. cbn. destruct (decide (c = quote_char)); [done|]. by rewrite ->IH.
Qed.

(** The shell reads back exactly the text that was quoted, whatever it
    contains. *)
Theorem shell_quote_roundtrip value : shell_word false false (shellQuote value) = Some value.
Proof. apply shell_word_quoted. Qed.

(** ** What a validated worker has *)

Definition is_kind (kind : string) (d : Device) : bool := bool_decide (stringAttr d (attr "kind") = Some kind).
Definition gres_key (d : Device) : option string :=
  if is_kind "gpu" d then (fun m => "gpu:" +:+ m) <$> stringAttr d (attr "model")
  else if is_kind "opentpu" d then (fun p => "tpu:" +:+ p) <$> stringAttr d (attr "profile")
  else None.
Definition logical_cpus (ds : list Device) : list Z := omap (fun d => intAttr d (attr "logicalCPU")) (List.filter (is_kind "cpu") ds).
Definition count_gres (ds : list Device) : gmap string Z := foldl (fun m k => add_gres k m) ∅ (omap gres_key ds).

Section Sound.
Variable cpuset : list Z -> string.
Variable stat : string -> bool.
Variable smi : option string.
Variable status : option string.

Lemma validate_device_ok cpus numa gres d acc :
  validate_device stat smi (cpus, numa, gres) d = Ok acc ->
  exists cell, intAttr d (attr "numaNode") = Some cell /\ (numa = -1 \/ numa = cell) /\
    acc = (cpus ++ logical_cpus [d], cell, foldl (fun m k => add_gres k m) gres (omap gres_key [d])) /\
    (is_kind "gpu" d = true -> validateGPU stat smi d = Ok tt).
Proof.
  unfold validate_device. intros E.
  destruct (stringAttr d (attr "kind")) as [kind|] eqn:Ek; [|done].
  destruct (intAttr d (attr "numaNode")) as [cell|] eqn:En; [|done].
  destruct (negb (numa =? -1) && negb (numa =? cell)) eqn:Es; [done|].
  assert ((if numa =? -1 then cell else numa) = cell) as Hcell.
  { destruct (numa =? -1); [done|]. cbn in Es. apply negb_false_iff, Z.eqb_eq in Es. done. }
  rewrite ->Hcell in E. exists cell. split; [done|].
  split; [destruct (numa =? -1) eqn:E1; [left; lia|right; cbn in Es; apply negb_false_iff, Z.eqb_eq in Es; done]|].
  assert (forall k, is_kind k d = (kind =? k)%string) as Hk.
  { intros k. unfold is_kind. rewrite ->Ek. apply eq_true_iff_eq. rewrite ->bool_decide_eq_true, String.eqb_eq. split; congruence. }
  unfold logical_cpus, gres_key. cbn [List.filter omap list_omap]. rewrite ->!Hk.
  destruct (kind =? "cpu")%string eqn:E1; [apply String.eqb_eq in E1 as ->|].
  { cbn. destruct (intAttr d (attr "logicalCPU")) as [cpu|]; [|done]. by simplify_eq/=. }
  destruct (kind =? "memory")%string eqn:E2; [apply String.eqb_eq in E2 as ->; simplify_eq; cbn; by rewrite ->app_nil_r|].
  destruct (kind =? "gpu")%string eqn:E3; [apply String.eqb_eq in E3 as ->|].
  { cbn. destruct (stringAttr d (attr "model")) as [m|]; [|done].
    destruct (validateGPU stat smi d) as [[]|]; [|done]. simplify_eq/=. by rewrite ->app_nil_r. }
  destruct (kind =? "opentpu")%string eqn:E4; [apply String.eqb_eq in E4 as ->|done].
  cbn. destruct (stringAttr d (attr "profile")) as [p|]; [|done]. simplify_eq/=. by rewrite ->app_nil_r.
Qed.

Lemma validate_devices_ok ds cpus numa gres cpus' numa' gres' :
  validate_devices stat smi (cpus, numa, gres) ds = Ok (cpus', numa', gres') ->
  cpus' = cpus ++ logical_cpus ds /\ gres' = foldl (fun m k => add_gres k m) gres (omap gres_key ds) /\
  (numa <> -1 -> numa' = numa) /\
  Forall (fun d => (exists cell, intAttr d (attr "numaNode") = Some cell /\ (cell = numa' \/ cell = -1)) /\
                   (is_kind "gpu" d = true -> validateGPU stat smi d = Ok tt)) ds.
Proof.
  revert cpus numa gres. induction ds as [|d ds IH]; intros cpus numa gres E; cbn [validate_devices] in E.
  { simplify_eq. by rewrite ->app_nil_r. }
  destruct (validate_device stat smi (cpus, numa, gres) d) as [acc|] eqn:Ed; [|done].
  destruct (validate_device_ok _ _ _ _ _ Ed) as (cell & Hcell & Hn & -> & Hg).
  apply IH in E as (-> & -> & Hk & Hall).
  assert (logical_cpus (d :: ds) = logical_cpus [d] ++ logical_cpus ds) as ->.
  { unfold logical_cpus. change (d :: ds) with ([d] ++ ds). by rewrite ->List.filter_app, omap_app. }
  split_and!.
  - by rewrite <-app_assoc.
  - cbn [omap list_omap]. by destruct (gres_key d).
  - intros Hne. destruct Hn as [->| ->]; [done|]. by apply Hk.
  - constructor; [|done]. split; [|done]. exists cell. split; [done|].
    destruct (decide (cell = -1)); [by right|left; symmetry; by apply Hk].
Qed.

(** When validation succeeds, the allocated devices lie on one NUMA node, they have as many
    processors as the shape asks for and exactly its GPUs and OpenTPU slots, each
    GPU is visible under its UUID with the right model and has its device file,
    and the process is pinned to exactly these processors and that node. *)
Lemma validated_sound devices wanted :
  validate cpuset stat smi status devices wanted = Ok tt ->
  exists numa,
    Forall (fun d => exists cell, intAttr d (attr "numaNode") = Some cell /\ (cell = numa \/ cell = -1)) devices /\
    Z.of_nat (length (logical_cpus devices)) = CPUs wanted /\ count_gres devices = GRES wanted /\
    (forall d, d ∈ devices -> is_kind "gpu" d = true -> validateGPU stat smi d = Ok tt) /\
    allowedSets status = Ok (cpuset (logical_cpus devices), format_int numa).
Proof.
  unfold validate. intros E.
  destruct (validate_devices stat smi ([], -1, ∅) devices) as [[[cpus numa] gres]|] eqn:Ev; [|done].
  apply validate_devices_ok in Ev as (-> & -> & _ & Hall). cbn [app] in E.
  destruct (Z.of_nat (length (logical_cpus devices)) =? CPUs wanted) eqn:Ec; [|done]. cbn in E.
  destruct (bool_decide (_ = GRES wanted)) eqn:Eg; [|done]. cbn in E.
  destruct (allowedSets status) as [[allowed mems]|] eqn:Es; [|done].
  destruct (allowed =? cpuset (logical_cpus devices))%string eqn:Ea; [|done]. cbn in E.
  destruct (mems =? format_int numa)%string eqn:Em; [|done]. bool_hyps. subst.
  exists numa. split_and!; [|lia|done| |done].
  - eapply Forall_impl; [exact Hall|]. by intros d [? _].
  - intros d Hd. rewrite ->Forall_forall in Hall. by apply Hall.
Qed.

End Sound.

(** ** The driver and the init container agree *)

Section Agreement.
Import DraInventory DraDriver.

(** What the init container reads back of a published device. *)
Lemma published_kind d : stringAttr (resourceDevice d) (attr "kind") = Some (Kind d).
Proof. unfold resourceDevice. repeat case_match; simplify_eq; vm_compute; reflexivity. Qed.

Lemma published_numa d : intAttr (resourceDevice d) (attr "numaNode") = Some (l_NUMA d).
Proof. unfold resourceDevice. repeat case_match; simplify_eq; vm_compute; reflexivity. Qed.

Lemma published_cpu d : Kind d = kindCPU -> intAttr (resourceDevice d) (attr "logicalCPU") = Some (CPU d).
Proof. intros E. unfold resourceDevice. rewrite ->E. vm_compute. reflexivity. Qed.

Lemma published_model d : Kind d = kindGPU -> stringAttr (resourceDevice d) (attr "model") = Some (l_Model d).
Proof. intros E. unfold resourceDevice. rewrite ->E. vm_compute. reflexivity. Qed.

Lemma published_profile d : Kind d = kindOpenTPU -> stringAttr (resourceDevice d) (attr "profile") = Some (l_Profile d).
Proof. intros E. unfold resourceDevice. rewrite ->E. vm_compute. reflexivity. Qed.

Lemma kind_published k d : is_kind k (resourceDevice d) = (Kind d =? k)%string.
Proof.
  unfold is_kind. rewrite ->published_kind. apply eq_true_iff_eq. rewrite ->bool_decide_eq_true, String.eqb_eq. split; congruence.
Qed.

Lemma logical_cpus_published ls :
  logical_cpus (map resourceDevice ls) = map CPU (List.filter (fun d => (Kind d =? kindCPU)%string) ls).
Proof.
  unfold logical_cpus. induction ls as [|d ls IH]; [done|]. cbn [map List.filter]. rewrite ->kind_published.
  change (Kind d =? "cpu")%string with (Kind d =? kindCPU)%string.
  destruct (Kind d =? kindCPU)%string eqn:E; [|done]. apply String.eqb_eq in E. cbn [omap list_omap map].
  rewrite ->published_cpu by done. f_equal. exact IH.
Qed.

Definition usable (stat : string -> bool) (smi : option string) (numa : Z) (d : localDevice) : Prop :=
  Kind d ∈ [kindCPU; kindMemory; kindGPU; kindOpenTPU] /\ l_NUMA d = numa /\
  (Kind d = kindGPU -> validateGPU stat smi (resourceDevice d) = Ok tt).

Lemma validate_device_published stat smi cpus numa0 numa gres d :
  usable stat smi numa d -> numa0 = -1 \/ numa0 = numa ->
  exists cpus' gres', validate_device stat smi (cpus, numa0, gres) (resourceDevice d) = Ok (cpus', numa, gres').
Proof.
  intros (Hk & Hn & Hg) H0. unfold validate_device. rewrite ->published_kind, published_numa, Hn.
  assert (negb (numa0 =? -1) && negb (numa0 =? numa) = false) as -> by (destruct H0 as [->| ->]; [done|by rewrite ->Z.eqb_refl, andb_false_r]).
  assert ((if numa0 =? -1 then numa else numa0) = numa) as -> by (destruct (numa0 =? -1) eqn:E; [done|destruct H0; [lia|done]]).
  rewrite ->!elem_of_cons in Hk. destruct Hk as [E|[E|[E|[E|E]]]]; [..|by apply not_elem_of_nil in E]; rewrite ->E; cbn.
  - rewrite ->published_cpu by done. eauto.
  - eauto.
  - rewrite ->published_model, Hg by done. eauto.
  - rewrite ->published_profile by done. eauto.
Qed.

Lemma validate_devices_published stat smi cpus numa0 numa gres ls :
  Forall (usable stat smi numa) ls -> ls <> [] -> numa0 = -1 \/ numa0 = numa ->
  exists cpus' gres', validate_devices stat smi (cpus, numa0, gres) (map resourceDevice ls) = Ok (cpus', numa, gres').
Proof.
  intros Hall. revert cpus numa0 gres. induction Hall as [|d ls Hd Hall IH]; intros cpus numa0 gres Hne H0; [done|].
  cbn [map validate_devices].
  destruct (validate_device_published stat smi cpus numa0 numa gres d Hd H0) as (cpus1 & gres1 & ->).
  destruct ls as [|d' ls]; [cbn; eauto|]. apply IH; [done|by right].
Qed.

(** ** The checks, one by one *)

Lemma add_gres_count keys m key :
  foldl (fun m k => add_gres k m) m keys !! key =
  let n := Z.of_nat (length (List.filter (fun k => (k =? key)%string) keys)) in
  if bool_decide (n = 0) then m !! key else Some (default 0 (m !! key) + n).
Proof.
  revert m. induction keys as [|k keys IH]; intros m; [done|]. cbn [foldl List.filter]. rewrite ->IH. cbv zeta.
  unfold add_gres. destruct (String.eqb_spec k key) as [->|Hne].
  - rewrite ->lookup_insert_eq. cbn [length default].
    rewrite ->(bool_decide_eq_false_2 (Z.of_nat (S _) = 0)) by lia. case_bool_decide; f_equal; cbn; lia.
  - by rewrite ->lookup_insert_ne by done.
Qed.

(** The GRES of a device of the driver. *)
Definition local_gres (d : localDevice) : option string :=
  if (Kind d =? kindGPU)%string then Some ("gpu:" +:+ l_Model d)
  else if (Kind d =? kindOpenTPU)%string then Some ("tpu:" +:+ l_Profile d)
  else None.

(** How many of the devices have the GRES [key]. *)
Definition gres_total (key : string) (ls : list localDevice) : Z :=
  Z.of_nat (length (List.filter (fun d => bool_decide (local_gres d = Some key)) ls)).

Lemma gres_key_published d : gres_key (resourceDevice d) = local_gres d.
Proof.
  unfold gres_key, local_gres. rewrite ->!kind_published. change "gpu"%string with kindGPU. change "opentpu"%string with kindOpenTPU.
  destruct (Kind d =? kindGPU)%string eqn:Eg; bool_hyps; [by rewrite ->published_model|].
  destruct (Kind d =? kindOpenTPU)%string eqn:Et; bool_hyps; [by rewrite ->published_profile|done].
Qed.

Lemma count_gres_published ls key :
  count_gres (map resourceDevice ls) !! key = if bool_decide (gres_total key ls = 0) then None else Some (gres_total key ls).
Proof.
  unfold count_gres. rewrite ->add_gres_count, lookup_empty. cbv zeta. cbn [default].
  assert (Z.of_nat (length (List.filter (fun k => (k =? key)%string) (omap gres_key (map resourceDevice ls)))) =
          gres_total key ls) as ->; [|done].
  unfold gres_total. f_equal. induction ls as [|d ls IH]; [done|]. cbn [map omap list_omap List.filter].
  rewrite ->gres_key_published. destruct (local_gres d) as [k|] eqn:E; cbn [List.filter].
  - destruct (String.eqb_spec k key) as [->|Hne].
    + rewrite ->bool_decide_eq_true_2 by done. cbn [length]. f_equal. exact IH.
    + rewrite ->bool_decide_eq_false_2 by congruence. exact IH.
  - rewrite ->bool_decide_eq_false_2 by done. exact IH.
Qed.

(** The shape asks for exactly the GPUs and the OpenTPU slots of the devices. *)
Definition gres_matches (wanted : shape) (ls : list localDevice) : Prop :=
  forall key, GRES wanted !! key = if bool_decide (gres_total key ls = 0) then None else Some (gres_total key ls).

Lemma gres_matches_spec wanted ls : gres_matches wanted ls <-> count_gres (map resourceDevice ls) = GRES wanted.
Proof.
  split.
  - intros H. apply map_eq. intros key. by rewrite ->H, count_gres_published.
  - intros H key. by rewrite <-H, count_gres_published.
Qed.

(** The GPU has its device file, and a line of [nvidia-smi] has its UUID and a
    name of its model. *)
Definition gpu_visible (stat : string -> bool) (smi : option string) (d : localDevice) : Prop :=
  stat (Path d) = true /\
  exists output line uuid model, smi = Some output /\ line ∈ split_on "010" (trim_space output) /\
    cut_on "," line = Some (uuid, model) /\ trim_space uuid = l_UUID d /\ Hardware.NormalizeGPU model = l_Model d.

Lemma published_uuid d : Kind d = kindGPU -> stringAttr (resourceDevice d) (attr "uuid") = Some (l_UUID d).
Proof. intros E. unfold resourceDevice. rewrite ->E. vm_compute. reflexivity. Qed.

Lemma published_path d : Kind d = kindGPU -> stringAttr (resourceDevice d) (attr "path") = Some (Path d).
Proof. intros E. unfold resourceDevice. rewrite ->E. vm_compute. reflexivity. Qed.

Lemma validate_gpu_visible stat smi d :
  Kind d = kindGPU -> validateGPU stat smi (resourceDevice d) = Ok tt <-> gpu_visible stat smi d.
Proof.
  intros Hk. unfold validateGPU, gpu_visible. rewrite ->published_uuid, published_model, published_path by done.
  destruct (stat (Path d)); cbn; [|by split; [|intros [? _]]]. destruct smi as [output|].
  2:{ split; [done|]. by intros (_ & ? & ? & ? & ? & ? & _). }
  destruct (existsb _ _) eqn:Ex.
  - split; [|done]. intros _. split; [done|]. apply existsb_exists in Ex as (line & Hin & Hl). unfold smi_line in Hl.
    destruct (cut_on "," line) as [[u m]|] eqn:Ec; [|done]. bool_hyps. exists output, line, u, m.
    split_and!; try done. by apply list_elem_of_In.
  - split; [done|]. intros (_ & o & line & u & m & [= <-] & Hin & Hc & Hu & Hm). exfalso.
    rewrite <-not_true_iff_false in Ex. apply Ex, existsb_exists. exists line. split; [by apply list_elem_of_In|].
    unfold smi_line. rewrite ->Hc. apply andb_true_iff. split; by apply String.eqb_eq.
Qed.

(** The text of [/proc/self/status] gives the value to the key. *)
Definition status_has (text key value : string) : Prop :=
  (exists line v, line ∈ lines text /\ cut_on ":" line = Some (key, v)) /\
  (forall line v, line ∈ lines text -> cut_on ":" line = Some (key, v) -> trim_space v = value).

Lemma allowed_sets_read text cpus mems :
  status_has text "Cpus_allowed_list" cpus -> status_has text "Mems_allowed_list" mems ->
  cpus <> ""%string -> mems <> ""%string -> allowedSets (Some text) = Ok (cpus, mems).
Proof.
  intros [(lc & vc & Hlc & Ec) Hc] [(lm & vm & Hlm & Em) Hm] Hcn Hmn. unfold allowedSets.
  assert (fst (foldl scan_status (""%string, ""%string) (lines text)) = cpus) as E1.
  { apply (foldl_reach scan_status (fun a => fst a = cpus) _ _ _ Hlc).
    - intros a. unfold scan_status. rewrite ->Ec. cbn. by apply (Hc lc).
    - intros a line Hl Ha. unfold scan_status. destruct (cut_on ":" line) as [[k v]|] eqn:El; [|done].
      destruct (String.eqb_spec k "Cpus_allowed_list") as [->|]; [cbn; by apply (Hc line)|].
      by destruct (k =? "Mems_allowed_list")%string. }
  assert (snd (foldl scan_status (""%string, ""%string) (lines text)) = mems) as E2.
  { apply (foldl_reach scan_status (fun a => snd a = mems) _ _ _ Hlm).
    - intros a. unfold scan_status. rewrite ->Em. cbn. by apply (Hm lm).
    - intros a line Hl Ha. unfold scan_status. destruct (cut_on ":" line) as [[k v]|] eqn:El; [|done].
      destruct (String.eqb_spec k "Cpus_allowed_list") as [->|]; [done|].
      destruct (String.eqb_spec k "Mems_allowed_list") as [->|]; [cbn; by apply (Hm line)|done]. }
  destruct (foldl _ _ _) as [c m]. cbn in E1, E2. subst.
  apply String.eqb_neq in Hcn as ->. apply String.eqb_neq in Hmn as ->. done.
Qed.

(** A worker of a prepared claim, pinned as the driver pins it: the answers of
    the two loops. *)
Lemma prepared_devices stat smi json_devices inv r names :
  DraPlugin.hooked (nodeConfig json_devices inv) r -> names ≡ₚ DraPlugin.Devices r ->
  (forall name, name ∈ names -> exists d, inv_devices inv !! name = Some d /\
     Kind d ∈ [kindCPU; kindMemory; kindGPU; kindOpenTPU] /\ l_NUMA d <> -1) ->
  (forall d, d ∈ map (device inv) names -> Kind d = kindGPU -> gpu_visible stat smi d) ->
  logical_cpus (map resourceDevice (map (device inv) names)) ≡ₚ DraPlugin.CPUs r /\
  validate_devices stat smi ([], -1, ∅) (map resourceDevice (map (device inv) names)) =
    Ok (logical_cpus (map resourceDevice (map (device inv) names)), DraPlugin.NUMA r,
        count_gres (map resourceDevice (map (device inv) names))).
Proof.
  intros Hh Hp Hnames Hvis. destruct (prepared_cpus _ _ _ Hh) as (Hcpus & Hne & Hnuma).
  set (ls := map (device inv) names) in *.
  assert (logical_cpus (map resourceDevice ls) ≡ₚ DraPlugin.CPUs r) as Hl.
  { rewrite ->logical_cpus_published, Hcpus. apply Permutation_map, filter_perm. unfold ls. by rewrite ->Hp. }
  assert (Forall (usable stat smi (DraPlugin.NUMA r)) ls) as Hall.
  { apply Forall_forall. intros d Hd. pose proof Hd as Hd'. apply list_elem_of_In, in_map_iff in Hd as (name & Ed & Hin).
    apply list_elem_of_In in Hin. destruct (Hnames name Hin) as (d0 & Hd0 & Hk & Hn).
    assert (device inv name = d0) as E by (unfold device; by rewrite ->Hd0). rewrite ->E in Ed. subst d0. split_and!; [done| |].
    - rewrite ->Hp in Hin. rewrite ->Forall_forall in Hnuma. destruct (Hnuma name Hin); congruence.
    - intros Hg. apply validate_gpu_visible; [done|]. by apply Hvis. }
  assert (ls <> []) as Hls.
  { intros E. rewrite ->E in Hl. cbn in Hl. apply Permutation_nil in Hl. done. }
  split; [done|].
  destruct (validate_devices_published stat smi [] (-1) (DraPlugin.NUMA r) ∅ ls Hall Hls) as (cpus & gres & Ev); [by left|].
  rewrite ->Ev. apply validate_devices_ok in Ev as (-> & -> & _ & _). done.
Qed.

(** C6: What the init container asks of a worker whose claim the driver has
    prepared.  Suppose the devices of the claim are in the driver's inventory,
    of its four kinds and each with a NUMA node, and the process is pinned as the
    driver pins the containers of the claim: [/proc/self/status] shows the
    processors and the memory node of the driver's adjustment.  Then validation
    of a shape succeeds exactly when the shape asks for as many processors as the
    claim was given, when for every GRES it asks for exactly the number of GPUs
    of that model and of OpenTPU slots of that profile in the claim, and when
    every GPU of the claim has its device file and a line of [nvidia-smi] with
    its UUID and model. *)
Theorem pinned_worker_accepted cpuset stat smi text json_devices inv r names wanted :
  (forall l l', l ≡ₚ l' -> cpuset l = cpuset l') -> (forall l, l <> [] -> cpuset l <> ""%string) ->
  DraPlugin.hooked (nodeConfig json_devices inv) r -> names ≡ₚ DraPlugin.Devices r ->
  (forall name, name ∈ names -> exists d, inv_devices inv !! name = Some d /\
     Kind d ∈ [kindCPU; kindMemory; kindGPU; kindOpenTPU] /\ l_NUMA d <> -1) ->
  status_has text "Cpus_allowed_list" (CPUSet (adjust cpuset r)) ->
  status_has text "Mems_allowed_list" (Mems (adjust cpuset r)) ->
  validate cpuset stat smi (Some text) (map resourceDevice (map (device inv) names)) wanted = Ok tt <->
  CPUs wanted = Z.of_nat (length (DraPlugin.CPUs r)) /\
  gres_matches wanted (map (device inv) names) /\
  (forall d, d ∈ map (device inv) names -> Kind d = kindGPU -> gpu_visible stat smi d).
Proof.
  intros Hset Hnon Hh Hp Hnames Hsc Hsm. split.
  - intros Hv. destruct (validated_sound _ _ _ _ _ _ Hv) as (numa & _ & Hc & Hg & Hgpu & _).
    assert (forall d, d ∈ map (device inv) names -> Kind d = kindGPU -> gpu_visible stat smi d) as Hvis.
    { intros d Hd Hk. apply validate_gpu_visible; [done|]. apply Hgpu.
      - apply list_elem_of_In, in_map, list_elem_of_In, Hd.
      - by rewrite ->kind_published, Hk. }
    destruct (prepared_devices stat smi _ _ _ _ Hh Hp Hnames Hvis) as [Hl _].
    split_and!; [by rewrite <-Hc, (Permutation_length Hl)|by apply gres_matches_spec|done].
  - intros (Hc & Hg & Hvis). destruct (prepared_devices stat smi _ _ _ _ Hh Hp Hnames Hvis) as [Hl Ev].
    unfold validate. rewrite ->Ev. apply gres_matches_spec in Hg.
    rewrite ->Hc, (Permutation_length Hl), Z.eqb_refl. cbn [negb]. rewrite ->Hg, bool_decide_eq_true_2 by done. cbn [negb].
    destruct (prepared_cpus _ _ _ Hh) as (_ & Hne & _).
    rewrite ->(allowed_sets_read text (CPUSet (adjust cpuset r)) (Mems (adjust cpuset r))); [|done|done| |].
    + cbn. by rewrite ->(Hset _ _ Hl), !String.eqb_refl.
    + by apply Hnon.
    + apply format_int_nonempty.
Qed.

End Agreement.

(** ** A worker on the sample node *)

Module GresSamples.
Import DraInventory DraDriver.

Definition cpuset (l : list Z) : string := join "," (map format_int (merge_sort Z.le l)).
Lemma cpuset_perm l l' : l ≡ₚ l' -> cpuset l = cpuset l'.
Proof. intros Hp. unfold cpuset. rewrite ->(merge_sort_perm Z.le l l'); [done| |done]. intros x y _ _. lia. Qed.

Definition none : DraPlugin.PreparedClaim := DraPlugin.MkPrepared 0 "" "" "" "" "" [] [] 0.
Definition fresh : DraPlugin.PreparedClaim :=
  DraPlugin.MkPrepared 2 "a" "default" "claim-a" "" "" ["cpu-s0-c1"; "gpu-gpu-ab"; "memory-n0-00000"] [] 0.
Definition record : DraPlugin.PreparedClaim :=
  match prepare_node DriverSamples.inv (DraPlugin.Devices fresh) fresh with Ok r => r | Err _ => none end.
Definition names : list string := ["memory-n0-00000"; "cpu-s0-c1"; "gpu-gpu-ab"].
Definition devices : list Device := map resourceDevice (map (device DriverSamples.inv) names).
Definition smi : option string := Some ("GPU-CD, NVIDIA A100" +:+ String "010" "GPU-AB, NVIDIA A100").
Definition status : string :=
  "Name: gres-init" +:+ String "010" ("Cpus_allowed_list: 1" +:+ String "010" "Mems_allowed_list: 0").
Definition wanted : shape := MkShape 1 (2 ^ 30) 0 {["gpu:a100" := 1]}.

Lemma record_hooked : DraPlugin.hooked (nodeConfig DriverSamples.json_devices DriverSamples.inv) record.
Proof. exists fresh, record. split_and!; vm_compute; reflexivity. Qed.

Lemma cpuset_nonempty l : l <> [] -> cpuset l <> ""%string.
Proof.
  intros Hl. unfold cpuset. destruct (merge_sort Z.le l) as [|x l'] eqn:E.
  - exfalso. apply Hl, Permutation_nil. by rewrite <-E, ->merge_sort_Permutation.
  - cbn. pose proof (format_int_nonempty x). destruct (format_int x) as [|c w]; [done|]. by destruct l'.
Qed.

Lemma status_reads key value :
  forallb (fun line => match cut_on ":" line with
    | Some (k, v) => negb (k =? key)%string || (trim_space v =? value)%string | None => true end) (lines status) &&
  existsb (fun line => match cut_on ":" line with Some (k, _) => (k =? key)%string | None => false end) (lines status) = true ->
  status_has status key value.
Proof.
  intros H. apply andb_true_iff in H as [Hall Hex]. split.
  - apply existsb_exists in Hex as (line & Hin & Hl). destruct (cut_on ":" line) as [[k v]|] eqn:Ec; [|done].
    apply String.eqb_eq in Hl as ->. exists line, v. split; [by apply list_elem_of_In|done].
  - intros line v Hin Hc. rewrite ->List.forallb_forall in Hall. apply list_elem_of_In, Hall in Hin.
    rewrite ->Hc, String.eqb_refl in Hin. by apply String.eqb_eq in Hin.
Qed.

Lemma names_known name : name ∈ names -> exists d, inv_devices DriverSamples.inv !! name = Some d /\
  Kind d ∈ [kindCPU; kindMemory; kindGPU; kindOpenTPU] /\ l_NUMA d <> -1.
Proof.
  assert (forallb (fun name => match inv_devices DriverSamples.inv !! name with
      | Some d => bool_decide (Kind d ∈ [kindCPU; kindMemory; kindGPU; kindOpenTPU]) && negb (l_NUMA d =? -1)
      | None => false end) names = true) as H by (vm_compute; reflexivity).
  intros Hin. rewrite ->List.forallb_forall in H. apply list_elem_of_In, H in Hin.
  destruct (inv_devices _ !! name) as [d|]; [|done]. exists d. bool_hyps. done.
Qed.

Lemma gpus_visible d : d ∈ map (device DriverSamples.inv) names -> Kind d = kindGPU -> gpu_visible (fun _ => true) smi d.
Proof.
  assert (forallb (fun d => negb (Kind d =? kindGPU)%string ||
      is_ok (validateGPU (fun _ => true) smi (resourceDevice d))) (map (device DriverSamples.inv) names) = true) as H
    by (vm_compute; reflexivity).
  intros Hin Hk. rewrite ->List.forallb_forall in H. apply list_elem_of_In, H in Hin. rewrite ->Hk in Hin. cbn [negb orb] in Hin.
  apply validate_gpu_visible; [done|]. by destruct (validateGPU _ _ _) as [[]|].
Qed.

End GresSamples.

(** The node line of the worker. *)
Example worker_line :
  dynamic GresSamples.wanted (map_to_list (GRES GresSamples.wanted)) "10.0.0.7" "gpu-pool" =
  "CPUs=1 RealMemory=1024 Sockets=1 CoresPerSocket=1 ThreadsPerCore=1 NodeAddr=10.0.0.7 Feature=pool_gpu_pool Weight=2 Gres=gpu:a100:1"%string.
Proof. vm_compute. reflexivity. Qed.

Lemma pinned_worker_accepted_witness :
  validate GresSamples.cpuset (fun _ => true) GresSamples.smi (Some GresSamples.status) GresSamples.devices GresSamples.wanted
    = Ok tt.
Proof.
  apply (pinned_worker_accepted GresSamples.cpuset (fun _ => true) GresSamples.smi GresSamples.status
    DraDriver.DriverSamples.json_devices DraDriver.DriverSamples.inv GresSamples.record GresSamples.names).
  - apply GresSamples.cpuset_perm.
  - apply GresSamples.cpuset_nonempty.
  - apply GresSamples.record_hooked.
  - apply (bool_decide_unpack _). vm_compute. reflexivity.
  - apply GresSamples.names_known.
  - apply GresSamples.status_reads. vm_compute. reflexivity.
  - apply GresSamples.status_reads. vm_compute. reflexivity.
  - split_and!; [vm_compute; reflexivity| |].
    + apply gres_matches_spec. vm_compute. reflexivity.
    + apply GresSamples.gpus_visible.
Defined.

End GresInit.
