(* ===== verification/GoPath.v ===== *)
(** * GoPath: slash-separated paths

    [filepath.Rel] on Unix, and the facts about [path_clean], [split_on] and
    [join] that let paths be read as lists of components. *)

From S2P Require Import Prelude GoStrings.

Module GoPath.

(** The components of a cleaned path. *)
Definition elems (p : string) : list string :=
  List.filter (fun e => negb ((e =? "")%string || (e =? ".")%string)) (split_on "/" p).

Fixpoint strip_common (a b : list string) : list string * list string :=
  match a, b with
  | x :: a', y :: b' => if (x =? y)%string then strip_common a' b' else (a, b)
  | _, _ => (a, b)
  end.

(** [filepath.Rel]; [None] is its error. *)
Definition rel (base targ : string) : option string :=
  let base := path_clean base in
  let targ := path_clean targ in
  if (targ =? base)%string then Some "."%string
  else if negb (Bool.eqb (has_prefix "/" base) (has_prefix "/" targ)) then None
  else
    let '(b, t) := strip_common (elems base) (elems targ) in
    match b with
    | ".." :: _ => None
    | _ => Some (join "/" (replicate (length b) ".." ++ t))
    end%string.

Example rel_ex : (rel "/a/b" "/a/b/c/d", rel "/a/b" "/a/c", rel "/a" "/a/", rel "/a" "b", rel "/" "/x") =
  (Some "c/d", Some "../c", Some ".", None, Some "x")%string.
Proof. vm_compute. reflexivity. Qed.

(** ** Components *)

Definition slash_free (s : string) : bool := string_forallb (fun c => negb (bool_decide (c = "/"%char))) s.
Definition plain (s : string) : bool :=
  slash_free s && negb (s =? "")%string && negb (s =? ".")%string && negb (s =? "..")%string.

(** The absolute path with these components. *)
Definition abs_path (l : list string) : string := "/" +:+ join "/" l.

Lemma split_app s t : split_on "/" (s +:+ String "/" t) = split_on "/" s ++ split_on "/" t.
Proof.
  induction s as [|c s IH]; sapp; cbn [split_on].
  - by rewrite ->decide_True.
  - rewrite ->IH. destruct (decide (c = "/"%char)); [done|].
    destruct (split_on "/" s) eqn:E; [|done]. exfalso. clear -E. destruct s; cbn in E; [done|]. repeat case_match; done.
Qed.

Lemma split_slash_free s : slash_free s = true -> split_on "/" s = [s].
Proof.
  unfold slash_free. induction s as [|c s IH]; [done|]. cbn. intros H. apply andb_true_iff in H as [Hc H].
  rewrite ->IH by done. apply negb_true_iff, bool_decide_eq_false in Hc. by rewrite ->decide_False.
Qed.

Lemma split_join l : l <> [] -> Forall (fun s => slash_free s = true) l -> split_on "/" (join "/" l) = l.
Proof.
  induction l as [|s l IH]; intros Hne Hall; [done|]. apply Forall_cons in Hall as [Hs Hall].
  destruct l as [|t l]; [by apply split_slash_free|]. change (join "/" (s :: t :: l)) with (s +:+ String "/" (join "/" (t :: l))).
  by rewrite ->split_app, split_slash_free, IH.
Qed.

Lemma split_nonempty s : split_on "/" s <> [].
Proof. destruct s; cbn; [done|]. repeat case_match; done. Qed.

Lemma plain_slash_free s : plain s = true -> slash_free s = true.
Proof. unfold plain. intros H. by bool_hyps. Qed.

Lemma split_abs l : l <> [] -> Forall (fun s => plain s = true) l -> split_on "/" (abs_path l) = "" :: l.
Proof.
  intros Hne Hall. unfold abs_path. sapp. cbn [split_on]. rewrite ->decide_True by done. f_equal. apply split_join; [done|].
  eapply Forall_impl; [exact Hall|]. intros s. apply plain_slash_free.
Qed.

Lemma clean_plain rooted out l : Forall (fun s => plain s = true) l -> clean_elems rooted out l = out ++ l.
Proof.
  intros Hall. revert out. induction Hall as [|s l Hs _ IH]; intros out; cbn [clean_elems]; [by rewrite ->app_nil_r|].
  unfold plain in Hs. apply andb_true_iff in Hs as [Hs H3]. apply andb_true_iff in Hs as [Hs H2]. apply andb_true_iff in Hs as [_ H1].
  apply negb_true_iff in H1, H2, H3. rewrite ->H1, H2, H3. cbn. rewrite ->IH. by rewrite <-app_assoc.
Qed.

Lemma elems_abs l : l <> [] -> Forall (fun s => plain s = true) l -> elems (abs_path l) = l.
Proof.
  intros Hne Hall. unfold elems. rewrite ->split_abs by done. cbn. clear Hne. induction Hall as [|s l Hs _ IH]; [done|]. cbn.
  unfold plain in Hs. apply andb_true_iff in Hs as [Hs H3]. apply andb_true_iff in Hs as [Hs H2]. apply andb_true_iff in Hs as [_ H1].
  apply negb_true_iff in H1, H2. rewrite ->H1, H2. cbn. by rewrite ->IH.
Qed.

Lemma clean_abs l : l <> [] -> Forall (fun s => plain s = true) l -> path_clean (abs_path l) = abs_path l.
Proof.
  intros Hne Hall. unfold path_clean. assert (has_prefix "/" (abs_path l) = true) as -> by (apply has_prefix_spec; by exists (join "/" l)).
  rewrite ->split_abs by done. cbn [clean_elems]. cbn. by rewrite ->clean_plain.
Qed.

(** Appending components. *)
Lemma join_app l k : l <> [] -> k <> [] -> join "/" (l ++ k) = join "/" l +:+ String "/" (join "/" k).
Proof.
  intros Hl Hk. induction l as [|s l IH]; [done|]. destruct l as [|t l].
  - cbn [app]. destruct k; [done|]. reflexivity.
  - change (join "/" ((s :: t :: l) ++ k)) with (s +:+ String "/" (join "/" ((t :: l) ++ k))). rewrite ->IH by done.
    change (join "/" (s :: t :: l)) with (s +:+ String "/" (join "/" (t :: l))). by sapp.
Qed.

Lemma join_abs l k : l <> [] -> k <> [] -> join "/" (abs_path l :: k) = abs_path (l ++ k).
Proof.
  intros Hl Hk. destruct k as [|x k]; [done|].
  change (join "/" (abs_path l :: x :: k)) with (abs_path l +:+ String "/" (join "/" (x :: k))).
  unfold abs_path. rewrite ->(join_app l (x :: k)) by done. by sapp.
Qed.

(** ** Relative paths *)

Lemma strip_common_spec a b : exists c, a = c ++ fst (strip_common a b) /\ b = c ++ snd (strip_common a b).
Proof.
  revert b. induction a as [|x a IH]; intros [|y b]; cbn; try by exists [].
  destruct (x =? y)%string eqn:E; [|by exists []]. apply String.eqb_eq in E as ->.
  destruct (IH b) as (c & E1 & E2). exists (y :: c). cbn. by split; f_equal.
Qed.

Lemma strip_common_prefix a t : strip_common a (a ++ t) = ([], t).
Proof. induction a as [|x a IH]; [by destruct t|]. cbn. by rewrite ->String.eqb_refl. Qed.

(** ** Searching for components *)

Lemma contains_spec p s : contains p s = true <-> exists a b, s = a +:+ p +:+ b.
Proof.
  split.
  - induction s as [|c s IH]; cbn [contains]; intros H; apply orb_true_iff in H as [H|H]; try done.
    + apply has_prefix_spec in H as [b E]. exists "", b. by rewrite ->sapp_nil_l.
    + apply has_prefix_spec in H as [b E]. exists "", b. by rewrite ->sapp_nil_l.
    + destruct (IH H) as (a & b & ->). exists (String c a), b. by sapp.
  - intros (a & b & ->). induction a as [|c a IH].
    + rewrite ->sapp_nil_l. assert (has_prefix p (p +:+ b) = true) as H by (apply has_prefix_spec; by exists b).
      destruct (p +:+ b); cbn [contains]; by rewrite ->H.
    + rewrite ->sapp_cons. cbn [contains]. by rewrite ->IH, orb_true_r.
Qed.

(** Two consecutive components of a path. *)
Lemma contains_elements l x y :
  l <> [] -> Forall (fun s => slash_free s = true) l -> slash_free x = true -> slash_free y = true ->
  contains ("/" +:+ x +:+ "/" +:+ y +:+ "/") ("/" +:+ join "/" l +:+ "/") = true <->
  exists pre post, l = pre ++ x :: y :: post.
Proof.
  intros Hne Hall Hx Hy. rewrite ->contains_spec. split.
  - intros (a & b & E). apply (f_equal (split_on "/")) in E.
    assert (split_on "/" ("/" +:+ join "/" l +:+ "/") = "" :: l ++ [""]) as El.
    { sapp. cbn [split_on]. rewrite ->decide_True by done. f_equal.
      by rewrite ->split_app, split_join. }
    assert (a +:+ ("/" +:+ x +:+ "/" +:+ y +:+ "/") +:+ b = a +:+ String "/" (x +:+ String "/" (y +:+ String "/" b))) as Er by (by sapp).
    rewrite ->El, Er, !split_app, (split_slash_free x), (split_slash_free y) in E by done.
    destruct (split_on "/" a) as [|a0 pre] eqn:Ea; [by apply split_nonempty in Ea|]. cbn in E. injection E as _ E.
    destruct (exists_last (split_nonempty b)) as (post & z & Ez). rewrite ->Ez in E. exists pre, post.
    assert (pre ++ x :: y :: post ++ [z] = (pre ++ x :: y :: post) ++ [z]) as E' by (by rewrite <-app_assoc).
    rewrite ->E' in E. by apply app_inj_tail in E as [-> _].
  - intros (pre & post & ->). destruct pre as [|p pre].
    + exists "". destruct post as [|q post].
      * exists "". cbn [app]. change (join "/" [x; y]) with (x +:+ String "/" y). by sapp.
      * exists (join "/" (q :: post) +:+ "/"). cbn [app].
        change (join "/" (x :: y :: q :: post)) with (x +:+ String "/" (y +:+ String "/" (join "/" (q :: post)))). by sapp.
    + exists ("/" +:+ join "/" (p :: pre)). rewrite ->(join_app (p :: pre)) by done. destruct post as [|q post].
      * exists "". change (join "/" [x; y]) with (x +:+ String "/" y). by sapp.
      * exists (join "/" (q :: post) +:+ "/").
        change (join "/" (x :: y :: q :: post)) with (x +:+ String "/" (y +:+ String "/" (join "/" (q :: post)))). by sapp.
Qed.

End GoPath.
