(* ===== verification/GoFloat.v ===== *)
(** * GoFloat: the floating-point arithmetic of the language

    Values of [float32] and [float64] as sign, significand and exponent.  An
    operation is the exact rational result, rounded to nearest with ties to
    even in the format of the result, as IEEE 754 defines it; overflow gives an
    infinity and underflow goes through the subnormal numbers to a signed zero.
    The payload of a NaN is not represented. *)

From Stdlib Require Import QArith Qabs Qround Qpower Lqa.
From S2P Require Import Prelude.
#[local] Open Scope Z_scope.

Module GoFloat.

(** ** Formats and values *)

(** The precision, the smallest exponent and the largest exponent of a
    significand that is an integer below [2 ^ prec]. *)
Record format := MkFormat { prec : Z; emin : Z; etop : Z }.
Definition binary32 : format := MkFormat 24 (-149) 104.
Definition binary64 : format := MkFormat 53 (-1074) 971.

Inductive float :=
| Zero (s : bool) | Inf (s : bool) | NaN | Fin (s : bool) (m e : Z).

#[export] Instance float_eq_dec : EqDecision float.
Proof. solve_decision. Defined.

Definition signed (s : bool) (x : Q) : Q := if s then (- x)%Q else x.

(** The number a finite value stands for. *)
Definition value (x : float) : Q :=
  match x with Fin s m e => signed s (inject_Z m * 2 ^ e)%Q | _ => 0%Q end.

Definition is_finite (x : float) : bool :=
  match x with Zero _ | Fin _ _ _ => true | _ => false end.

Definition sign (x : float) : bool :=
  match x with Zero s | Inf s | Fin s _ _ => s | NaN => false end.

(** ** Rounding *)

(** The integer nearest to a rational, the even one of two. *)
Definition rne (x : Q) : Z :=
  let q := Qfloor x in
  match (x - inject_Z q ?= 1 # 2)%Q with
  | Lt => q
  | Gt => q + 1
  | Eq => if Z.even q then q else q + 1
  end.

(** The exponent of the leading bit of a positive rational. *)
Definition mag (a : Q) : Z :=
  let l := Z.log2 (Qnum a) - Z.log2 (QDen a) in
  if Qle_bool (2 ^ l) a then l else l - 1.

Definition pack (f : format) (s : bool) (m e : Z) : float := if etop f <? e then Inf s else Fin s m e.

Definition exponent (f : format) (a : Q) : Z := Z.max (mag a - prec f + 1) (emin f).

(** [round f zs x]: [x] in the format [f]; [zs] is the sign of an exact zero. *)
Definition round (f : format) (zs : bool) (x : Q) : float :=
  if Qeq_bool x 0 then Zero zs else
  let s := negb (Qle_bool 0 x) in
  let e := exponent f (Qabs x) in
  let m := rne (Qabs x * 2 ^ (- e)) in
  if m =? 0 then Zero s
  else if m =? 2 ^ prec f then pack f s (2 ^ (prec f - 1)) (e + 1)
  else pack f s m e.

(** ** Operations on [float64] *)

Definition of_int (z : Z) : float := round binary64 false (inject_Z z).

Definition fneg (x : float) : float :=
  match x with Zero s => Zero (negb s) | Inf s => Inf (negb s) | NaN => NaN | Fin s m e => Fin (negb s) m e end.

Definition fadd (x y : float) : float :=
  match x, y with
  | NaN, _ | _, NaN => NaN
  | Inf s, Inf t => if bool_decide (s = t) then Inf s else NaN
  | Inf s, _ | _, Inf s => Inf s
  | _, _ => round binary64 (sign x && sign y) (value x + value y)
  end.

Definition fsub (x y : float) : float := fadd x (fneg y).

Definition fmul (x y : float) : float :=
  let s := xorb (sign x) (sign y) in
  match x, y with
  | NaN, _ | _, NaN => NaN
  | Inf _, Zero _ | Zero _, Inf _ => NaN
  | Inf _, _ | _, Inf _ => Inf s
  | _, _ => round binary64 s (value x * value y)
  end.

Definition fdiv (x y : float) : float :=
  let s := xorb (sign x) (sign y) in
  match x, y with
  | NaN, _ | _, NaN => NaN
  | Inf _, Inf _ | Zero _, Zero _ => NaN
  | Inf _, _ | _, Zero _ => Inf s
  | _, Inf _ => Zero s
  | _, _ => round binary64 s (value x / value y)
  end.

(** [math.RoundToEven]. *)
Definition round_to_even (x : float) : float :=
  match x with
  | Fin s _ _ => round binary64 s (signed s (inject_Z (rne (Qabs (value x)))))
  | _ => x
  end.

(** [x < y]; false when one of them is a NaN. *)
Definition flt (x y : float) : bool :=
  match x, y with
  | NaN, _ | _, NaN => false
  | Inf s, Inf t => s && negb t
  | Inf s, _ => s
  | _, Inf t => negb t
  | _, _ => negb (Qle_bool (value y) (value x))
  end.

(** The built-in [min] and [max] with a constant that is not zero. *)
Definition fmin (x c : float) : float := if bool_decide (x = NaN) then NaN else if flt c x then c else x.
Definition fmax (x c : float) : float := if bool_decide (x = NaN) then NaN else if flt x c then c else x.

(** The conversion of a finite value to an integer type that has room for it
    (truncation). *)
Definition trunc (x : float) : Z :=
  match x with Fin s _ _ => (if s then Z.opp else id) (Qfloor (Qabs (value x))) | _ => 0 end.

(** ** Conversions *)

(** [float32(x)] and [float64(x)]. *)
Definition convert_format (f : format) (x : float) : float :=
  match x with Fin s _ _ => round f s (value x) | _ => x end.

(** [math.Float32bits] and [math.Float32frombits]. *)
Definition float32bits (x : float) : Z :=
  match x with
  | Zero s => Z.b2z s * 2 ^ 31
  | Inf s => Z.b2z s * 2 ^ 31 + 255 * 2 ^ 23
  | NaN => 255 * 2 ^ 23 + 2 ^ 22
  | Fin s m e => Z.b2z s * 2 ^ 31 + (e + 149) * 2 ^ 23 + m
  end.

Definition float32frombits (bits : Z) : float :=
  let s := Z.testbit bits 31 in
  let ex := Z.land (Z.shiftr bits 23) 255 in
  let frac := Z.land bits (2 ^ 23 - 1) in
  if ex =? 255 then (if frac =? 0 then Inf s else NaN)
  else if ex =? 0 then (if frac =? 0 then Zero s else Fin s frac (-149))
  else Fin s (2 ^ 23 + frac) (ex - 150).

#[export] Instance signed_proper s : Proper (Qeq ==> Qeq) (signed s).
Proof. intros x y E. unfold signed. destruct s; by rewrite ->E. Qed.

(** ** Powers of two *)

Lemma pow_pos e : (0 < 2 ^ e)%Q.
Proof. by apply Qpower_0_lt. Qed.

Lemma pow_split a b : (2 ^ (a + b) == 2 ^ a * 2 ^ b)%Q.
Proof. by apply Qpower_plus. Qed.

Lemma pow_cancel e : (2 ^ e * 2 ^ (- e) == 1)%Q.
Proof. rewrite <-pow_split, Z.add_opp_diag_r. reflexivity. Qed.

Lemma pow_int n : 0 <= n -> (inject_Z (2 ^ n) == 2 ^ n)%Q.
Proof. intros H. by rewrite ->Zpower_Qpower. Qed.

Lemma pow_step e : (2 ^ (e + 1) == 2 * 2 ^ e)%Q.
Proof. rewrite ->pow_split. change (2 ^ 1)%Q with 2%Q. ring. Qed.

(** ** The exponent of the leading bit *)

Lemma log2_bounds n : 0 < n -> (2 ^ Z.log2 n <= inject_Z n < 2 * 2 ^ Z.log2 n)%Q.
Proof.
  intros Hn. pose proof (Z.log2_spec n Hn) as [H1 H2]. pose proof (Z.log2_nonneg n).
  rewrite <-pow_step, <-!pow_int by lia. rewrite <-Zle_Qle, <-Zlt_Qlt. split; [exact H1|]. exact H2.
Qed.

Lemma mag_spec a : (0 < a)%Q -> (2 ^ mag a <= a < 2 ^ (mag a + 1))%Q.
Proof.
  intros Ha. assert (0 < Qnum a) as Hn by (unfold Qlt in Ha; simpl in Ha; lia).
  pose proof (log2_bounds (Qnum a) Hn) as [N1 N2].
  pose proof (log2_bounds (QDen a) ltac:(lia)) as [D1 D2].
  assert (a * inject_Z (QDen a) == inject_Z (Qnum a))%Q as E by (unfold Qeq; simpl; lia).
  assert (0 < inject_Z (QDen a))%Q as HD by (unfold Qlt; simpl; lia).
  unfold mag. set (l := Z.log2 (Qnum a) - Z.log2 (QDen a)).
  assert (2 ^ l * 2 ^ Z.log2 (QDen a) == 2 ^ Z.log2 (Qnum a))%Q as El.
  { rewrite <-pow_split. subst l. by rewrite ->Z.sub_add. }
  pose proof (pow_pos l). destruct (Qle_bool (2 ^ l) a) eqn:Hle.
  - apply Qle_bool_iff in Hle. split; [done|]. rewrite ->pow_step. apply (Qmult_lt_r _ _ (inject_Z (QDen a))); [done|]. nra.
  - assert (a < 2 ^ l)%Q as Hlt by (apply Qnot_le_lt; intros H'%Qle_bool_iff; congruence).
    rewrite ->Z.sub_add. split; [|done].
    assert (2 ^ l == 2 * 2 ^ (l - 1))%Q as E2 by (rewrite <-pow_step; by rewrite ->Z.sub_add).
    apply Qlt_le_weak, (Qmult_lt_r _ _ (inject_Z (QDen a))); [done|]. pose proof (pow_pos (l - 1)). nra.
Qed.

Lemma mag_unique a k : (2 ^ k <= a < 2 ^ (k + 1))%Q -> mag a = k.
Proof.
  intros [H1 H2]. pose proof (pow_pos k). destruct (mag_spec a) as [M1 M2]; [lra|].
  assert (2 ^ k < 2 ^ (mag a + 1))%Q as A by lra. assert (2 ^ mag a < 2 ^ (k + 1))%Q as B by lra.
  apply Qpower_lt_compat_l_inv in A; [|reflexivity]. apply Qpower_lt_compat_l_inv in B; [|reflexivity]. lia.
Qed.

(** ** Rounding to integers *)

#[export] Instance rne_proper : Proper (Qeq ==> eq) rne.
Proof. intros x y E. unfold rne. by rewrite ->(Qfloor_comp _ _ E), E. Qed.

Lemma rne_error x : (Qabs (inject_Z (rne x) - x) <= 1 # 2)%Q.
Proof.
  unfold rne. pose proof (Qfloor_le x). pose proof (Qlt_floor x) as H2. rewrite ->inject_Z_plus in H2.
  change (inject_Z 1) with 1%Q in H2. apply Qabs_Qle_condition.
  destruct (x - inject_Z (Qfloor x) ?= 1 # 2)%Q eqn:E.
  - apply Qeq_alt in E. destruct (Z.even _); rewrite ->?inject_Z_plus; change (inject_Z 1) with 1%Q; lra.
  - apply Qlt_alt in E. lra.
  - apply Qgt_alt in E. rewrite ->inject_Z_plus. change (inject_Z 1) with 1%Q. lra.
Qed.

Lemma rne_near x z : (Qabs (x - inject_Z z) < 1 # 2)%Q -> rne x = z.
Proof.
  intros H. pose proof (rne_error x) as E. apply Qabs_Qle_condition in E. apply Qabs_Qlt_condition in H.
  assert (inject_Z (rne x) < inject_Z (z + 1))%Q as A by (rewrite ->inject_Z_plus; change (inject_Z 1) with 1%Q; lra).
  assert (inject_Z z < inject_Z (rne x + 1))%Q as B by (rewrite ->inject_Z_plus; change (inject_Z 1) with 1%Q; lra).
  rewrite <-Zlt_Qlt in A, B. lia.
Qed.

Lemma rne_int z : rne (inject_Z z) = z.
Proof. apply rne_near. assert (inject_Z z - inject_Z z == 0)%Q as -> by ring. reflexivity. Qed.

(** Rounding is monotone across integers. *)
Lemma rne_lower x z : (inject_Z z <= x)%Q -> z <= rne x.
Proof.
  intros H. pose proof (rne_error x) as E. apply Qabs_Qle_condition in E.
  assert (inject_Z z < inject_Z (rne x + 1))%Q as B by (rewrite ->inject_Z_plus; change (inject_Z 1) with 1%Q; lra).
  rewrite <-Zlt_Qlt in B. lia.
Qed.

Lemma rne_upper x z : (x <= inject_Z z)%Q -> rne x <= z.
Proof.
  intros H. pose proof (rne_error x) as E. apply Qabs_Qle_condition in E.
  assert (inject_Z (rne x) < inject_Z (z + 1))%Q as B by (rewrite ->inject_Z_plus; change (inject_Z 1) with 1%Q; lra).
  rewrite <-Zlt_Qlt in B. lia.
Qed.

(** ** Rounding to a format *)

(** The significand is in range and, but for the smallest exponent, normalized. *)
Definition canonical (f : format) (x : float) : Prop :=
  match x with
  | Fin s m e => 0 < m < 2 ^ prec f /\ emin f <= e <= etop f /\ (2 ^ (prec f - 1) <= m \/ e = emin f)
  | _ => True
  end.

Section Round.
Variable f : format.
Hypothesis Hprec : 1 <= prec f.

Lemma significand_range a :
  (0 < a)%Q -> let e := exponent f a in let m := rne (a * 2 ^ (- e)) in
  0 <= m <= 2 ^ prec f /\ (2 ^ (prec f - 1) <= m \/ e = emin f).
Proof.
  intros Ha e m. pose proof (mag_spec a Ha) as [M1 M2]. pose proof (pow_pos (- e)) as Hp.
  assert (mag a - prec f + 1 <= e) as He by (subst e; unfold exponent; lia). split; [split|].
  - apply rne_lower. change (inject_Z 0) with 0%Q. nra.
  - apply rne_upper. rewrite ->pow_int by lia.
    assert (2 ^ (mag a + 1) * 2 ^ (- e) <= 2 ^ prec f)%Q.
    { rewrite <-pow_split. apply Qpower_le_compat_l; [lia|discriminate]. }
    nra.
  - destruct (decide (e = emin f)) as [->|Hne]; [by right|left].
    apply rne_lower. rewrite ->pow_int by lia.
    assert (2 ^ (prec f - 1) == 2 ^ mag a * 2 ^ (- e))%Q as ->.
    { rewrite <-pow_split. assert (prec f - 1 = mag a + - e) as -> by (subst e; unfold exponent in *; lia). reflexivity. }
    nra.
Qed.

Lemma Qabs_nonzero x : ~ (x == 0)%Q -> (0 < Qabs x)%Q.
Proof. intros H. pose proof (Qabs_nonneg x). apply Qnot_le_lt. intros H'. apply H. apply Qabs_Qle_condition in H'. lra. Qed.

Lemma round_canonical zs x : emin f <= etop f -> canonical f (round f zs x).
Proof.
  intros Hf. unfold round. destruct (Qeq_bool x 0) eqn:E0; [done|]. apply Qeq_bool_neq in E0.
  destruct (significand_range (Qabs x) (Qabs_nonzero x E0)) as [Hm Hn].
  set (e := exponent f (Qabs x)) in *. set (m := rne _) in *.
  assert (emin f <= e) by (subst e; unfold exponent; lia).
  destruct (m =? 0) eqn:E1; [done|]. destruct (m =? 2 ^ prec f) eqn:E2; bool_hyps; unfold pack.
  - destruct (etop f <? e + 1) eqn:E3; [done|]. bool_hyps. cbn.
    assert (2 ^ (prec f - 1) < 2 ^ prec f) by (apply Z.pow_lt_mono_r; lia).
    assert (0 < 2 ^ (prec f - 1)) by (apply Z.pow_pos_nonneg; lia). lia.
  - destruct (etop f <? e) eqn:E3; [done|]. bool_hyps. cbn. lia.
Qed.

Lemma round_value zs x :
  ~ (x == 0)%Q -> exponent f (Qabs x) < etop f ->
  is_finite (round f zs x) = true /\
  (value (round f zs x) == signed (negb (Qle_bool 0 x)) (inject_Z (rne (Qabs x * 2 ^ (- exponent f (Qabs x)))) * 2 ^ exponent f (Qabs x)))%Q.
Proof.
  intros Hx He. unfold round. destruct (Qeq_bool x 0) eqn:E0; [by apply Qeq_bool_eq in E0|]. cbv zeta.
  set (e := exponent f (Qabs x)) in *. set (m := rne _). unfold pack.
  destruct (m =? 0) eqn:E1; bool_hyps.
  { split; [done|]. rewrite ->E1. cbn. destruct (negb _); cbn; ring. }
  destruct (m =? 2 ^ prec f) eqn:E2; bool_hyps; (destruct (etop f <? _) eqn:E3; [apply Z.ltb_lt in E3; lia|]); (split; [done|]); cbn [value].
  - rewrite ->E2, (pow_int (prec f)), (pow_int (prec f - 1)), pow_step by lia.
    assert (2 ^ prec f == 2 * 2 ^ (prec f - 1))%Q as -> by (rewrite <-pow_step; by rewrite ->Z.sub_add).
    destruct (negb _); cbn [signed]; ring.
  - reflexivity.
Qed.

Lemma signed_abs x : (signed (negb (Qle_bool 0 x)) (Qabs x) == x)%Q.
Proof.
  destruct (Qle_bool 0 x) eqn:E; cbn.
  - apply Qle_bool_iff in E. by apply Qabs_pos.
  - assert (x < 0)%Q by (apply Qnot_le_lt; intros H%Qle_bool_iff; congruence). rewrite ->Qabs_neg by lra. ring.
Qed.

(** The relative error of a result in the normal range. *)
Lemma round_error zs x :
  (2 ^ (emin f + prec f - 1) <= Qabs x)%Q -> (Qabs x < 2 ^ (etop f + prec f - 1))%Q ->
  is_finite (round f zs x) = true /\ (Qabs (value (round f zs x) - x) <= 2 ^ (- prec f) * Qabs x)%Q.
Proof.
  intros Hlo Hhi. assert (0 < Qabs x)%Q as Ha by (pose proof (pow_pos (emin f + prec f - 1)); lra).
  assert (~ (x == 0)%Q) as Hx by (intros E; rewrite ->E in Ha; by apply Qlt_irrefl in Ha).
  pose proof (mag_spec _ Ha) as [M1 M2].
  assert (exponent f (Qabs x) = mag (Qabs x) - prec f + 1) as Ee.
  { assert (2 ^ (emin f + prec f - 1) < 2 ^ (mag (Qabs x) + 1))%Q as A by lra.
    apply Qpower_lt_compat_l_inv in A; [|reflexivity]. unfold exponent. lia. }
  assert (exponent f (Qabs x) < etop f) as He.
  { assert (2 ^ mag (Qabs x) < 2 ^ (etop f + prec f - 1))%Q as A by lra.
    apply Qpower_lt_compat_l_inv in A; [|reflexivity]. lia. }
  destruct (round_value zs x Hx He) as [Hfin ->]. split; [done|].
  set (e := exponent f (Qabs x)) in *. set (a := Qabs x) in *. set (m := rne (a * 2 ^ (- e))).
  assert (Qabs (inject_Z m * 2 ^ e - a) <= 2 ^ (- prec f) * a)%Q as Hm.
  { pose proof (rne_error (a * 2 ^ (- e))) as E. fold m in E. apply Qabs_Qle_condition in E. apply Qabs_Qle_condition.
    pose proof (pow_pos e) as Hp. pose proof (pow_cancel e) as Hc.
    assert (2 ^ e * (1 # 2) <= 2 ^ (- prec f) * a)%Q.
    { assert (2 ^ e == 2 * 2 ^ (- prec f) * 2 ^ mag a)%Q as ->.
      { rewrite ->Ee. assert (mag a - prec f + 1 = (- prec f + mag a) + 1) as -> by lia. rewrite ->pow_step, pow_split. ring. }
      pose proof (pow_pos (- prec f)). nra. }
    assert (a == a * 2 ^ (- e) * 2 ^ e)%Q as Ea by (rewrite <-Qmult_assoc, (Qmult_comm (2 ^ (- e))), Hc; ring).
    destruct E as [E1 E2]. split; nra. }
  rewrite <-(signed_abs x) at 2. fold a. destruct (negb (Qle_bool 0 x)); cbn [signed]; [|exact Hm].
  rewrite <-Qabs_opp. assert (- (- (inject_Z m * 2 ^ e) - - a) == inject_Z m * 2 ^ e - a)%Q as -> by ring. exact Hm.
Qed.

#[export] Instance round_proper zs : Proper (Qeq ==> eq) (round f zs).
Proof.
  intros x y E. unfold round. rewrite ->(Qeqb_comp _ _ E 0%Q 0%Q) by reflexivity.
  destruct (Qeq_bool y 0) eqn:E0; [done|]. apply Qeq_bool_neq, Qabs_nonzero in E0.
  assert (exponent f (Qabs x) = exponent f (Qabs y)) as Ee.
  { unfold exponent. rewrite ->(mag_unique (Qabs x) (mag (Qabs y))); [done|]. rewrite ->E. by apply mag_spec. }
  rewrite ->Ee, (Qleb_comp 0%Q 0%Q (Qeq_refl 0) _ _ E). cbv zeta.
  assert (rne (Qabs x * 2 ^ (- exponent f (Qabs y))) = rne (Qabs y * 2 ^ (- exponent f (Qabs y)))) as -> by (by rewrite ->E).
  done.
Qed.

End Round.

(** Integers of at most 53 bits are exact. *)
Lemma round_int zs z :
  Z.abs z < 2 ^ 53 ->
  is_finite (round binary64 zs (inject_Z z)) = true /\ (value (round binary64 zs (inject_Z z)) == inject_Z z)%Q.
Proof.
  intros Hz. destruct (decide (z = 0)) as [->|Hne]; [done|].
  assert (~ (inject_Z z == 0)%Q) as Hx by (unfold Qeq; simpl; lia).
  assert (Qabs (inject_Z z) == inject_Z (Z.abs z))%Q as Ea by reflexivity.
  pose proof (mag_spec _ (Qabs_nonzero _ Hx)) as [M1 M2].
  assert (exponent binary64 (Qabs (inject_Z z)) <= 0) as He.
  { assert (2 ^ mag (Qabs (inject_Z z)) < 2 ^ 53)%Q as A.
    { eapply Qle_lt_trans; [exact M1|]. rewrite ->Ea, <-(pow_int 53), <-Zlt_Qlt by lia. lia. }
    apply Qpower_lt_compat_l_inv in A; [|reflexivity]. unfold exponent. cbn [prec emin binary64]. lia. }
  destruct (round_value binary64 ltac:(done) zs (inject_Z z) Hx) as [Hf Hv]; [cbn [etop binary64]; lia|].
  split; [done|]. rewrite ->Hv. set (e := exponent binary64 (Qabs (inject_Z z))) in *.
  assert (rne (Qabs (inject_Z z) * 2 ^ (- e)) = Z.abs z * 2 ^ (- e)) as ->.
  { rewrite <-(rne_int (Z.abs z * 2 ^ (- e))). apply rne_proper. by rewrite ->Ea, inject_Z_mult, pow_int by lia. }
  rewrite <-(signed_abs (inject_Z z)) at 2.
  assert (inject_Z (Z.abs z * 2 ^ (- e)) * 2 ^ e == Qabs (inject_Z z))%Q as Heq.
  { rewrite ->inject_Z_mult, pow_int, <-Qmult_assoc, (Qmult_comm (2 ^ (- e))), pow_cancel, Ea by lia. ring. }
  destruct (negb _); cbn [signed]; by rewrite ->Heq.
Qed.

(** ** Operations on finite values *)

Lemma value_fneg x : (value (fneg x) == - value x)%Q.
Proof. destruct x as [| | |s m e]; try reflexivity. destruct s; cbn; ring. Qed.

Lemma finite_fneg x : is_finite (fneg x) = is_finite x.
Proof. by destruct x. Qed.

Lemma fadd_finite x y :
  is_finite x = true -> is_finite y = true -> fadd x y = round binary64 (sign x && sign y) (value x + value y).
Proof. by destruct x, y. Qed.

Lemma fmul_finite x y :
  is_finite x = true -> is_finite y = true -> fmul x y = round binary64 (xorb (sign x) (sign y)) (value x * value y).
Proof. by destruct x, y. Qed.

Lemma fdiv_finite x s m e :
  is_finite x = true -> fdiv x (Fin s m e) = round binary64 (xorb (sign x) s) (value x / value (Fin s m e)).
Proof. by destruct x. Qed.

Lemma convert_finite f x :
  is_finite x = true -> ~ (value x == 0)%Q -> convert_format f x = round f (sign x) (value x).
Proof. by destruct x. Qed.

(** Sums of small integers are exact. *)
Lemma fadd_int x y a b :
  is_finite x = true -> is_finite y = true -> (value x == inject_Z a)%Q -> (value y == inject_Z b)%Q ->
  Z.abs (a + b) < 2 ^ 53 -> is_finite (fadd x y) = true /\ (value (fadd x y) == inject_Z (a + b))%Q.
Proof.
  intros Hx Hy Ha Hb Hab. rewrite ->fadd_finite by done.
  assert (value x + value y == inject_Z (a + b))%Q as E by (rewrite ->inject_Z_plus, Ha, Hb; reflexivity).
  rewrite ->(round_proper binary64 _ _ _ E). by apply round_int.
Qed.

Lemma of_int_exact z : Z.abs z < 2 ^ 53 -> is_finite (of_int z) = true /\ (value (of_int z) == inject_Z z)%Q.
Proof. apply round_int. Qed.

(** Nonzero values carry a positive significand. *)
Definition positive (x : float) : Prop := match x with Fin _ m _ => 0 < m | _ => True end.

Lemma round_positive f zs x : 1 <= prec f -> emin f <= etop f -> positive (round f zs x).
Proof. intros H1 H2. pose proof (round_canonical f H1 zs x H2) as H. by destruct (round f zs x); [..|destruct H as [[? ?] ?]]. Qed.

Lemma fin_value_pos m e : 0 < m -> (0 < inject_Z m * 2 ^ e)%Q.
Proof. intros H. pose proof (pow_pos e). apply Qmult_lt_0_compat; [|done]. rewrite ->(Zlt_Qlt 0 m) in H. exact H. Qed.

Lemma abs_value s m e : 0 < m -> (Qabs (value (Fin s m e)) == inject_Z m * 2 ^ e)%Q.
Proof.
  intros H. pose proof (fin_value_pos m e H). cbn [value]. destruct s; cbn [signed]; [rewrite ->Qabs_opp|]; apply Qabs_pos; lra.
Qed.

(** The integer nearest to a finite value. *)
Lemma round_to_even_near x z :
  is_finite x = true -> positive x -> (Qabs (value x - inject_Z z) < 1 # 2)%Q -> Z.abs z < 2 ^ 53 ->
  is_finite (round_to_even x) = true /\ (value (round_to_even x) == inject_Z z)%Q.
Proof.
  intros Hf Hp Hn Hz. destruct x as [s| | |s m e]; try done.
  { assert (z = 0) as ->; [|done]. rewrite <-(rne_near _ _ Hn). reflexivity. }
  pose proof (fin_value_pos m e Hp) as Ha. set (a := (inject_Z m * 2 ^ e)%Q) in *.
  assert (signed s (inject_Z (rne (Qabs (value (Fin s m e))))) == inject_Z z)%Q as E.
  { rewrite ->(rne_proper _ _ (abs_value s m e Hp)). fold a. apply Qabs_Qlt_condition in Hn. cbn [value] in Hn. fold a in Hn.
    destruct s; cbn [signed] in *.
    - assert (rne a = - z) as ->.
      { apply rne_near, Qabs_Qlt_condition. rewrite ->inject_Z_opp. lra. }
      rewrite ->inject_Z_opp. ring.
    - assert (rne a = z) as ->; [|reflexivity]. apply rne_near, Qabs_Qlt_condition. lra. }
  unfold round_to_even. rewrite ->(round_proper binary64 _ _ _ E). by apply round_int.
Qed.

Lemma trunc_int x z : is_finite x = true -> positive x -> (value x == inject_Z z)%Q -> trunc x = z.
Proof.
  intros Hf Hp Hv. destruct x as [s| | |s m e]; try done.
  { cbn in *. unfold Qeq in Hv. cbn in Hv. lia. }
  unfold trunc. assert (Qabs (value (Fin s m e)) == inject_Z (Z.abs z))%Q as E by (rewrite ->Hv; reflexivity).
  rewrite ->(Qfloor_comp _ _ E), Qfloor_Z. pose proof (fin_value_pos m e Hp) as Ha. cbn [value] in Hv.
  destruct s; cbn [signed] in Hv.
  - assert (inject_Z z < 0)%Q as H by lra. change 0%Q with (inject_Z 0) in H. rewrite <-(Zlt_Qlt z 0) in H. lia.
  - assert (0 < inject_Z z)%Q as H by lra. change 0%Q with (inject_Z 0) in H. rewrite <-(Zlt_Qlt 0 z) in H. unfold id. lia.
Qed.

Lemma flt_finite x y : is_finite x = true -> is_finite y = true -> flt x y = negb (Qle_bool (value y) (value x)).
Proof. by destruct x, y. Qed.

(** Clamping leaves an integer of the range as it is. *)
Lemma clamp_int x z lo hi :
  is_finite x = true -> (value x == inject_Z z)%Q -> lo <= z <= hi -> Z.abs lo < 2 ^ 53 -> Z.abs hi < 2 ^ 53 ->
  fmin (fmax x (of_int lo)) (of_int hi) = x.
Proof.
  intros Hf Hv Hz Hlo Hhi. destruct (of_int_exact lo Hlo) as [Fl Vl]. destruct (of_int_exact hi Hhi) as [Fh Vh].
  assert (x <> NaN) as Hn by (by intros ->).
  assert (flt x (of_int lo) = false) as E1.
  { rewrite ->flt_finite by done. apply negb_false_iff, Qle_bool_iff. rewrite ->Vl, Hv, <-Zle_Qle. lia. }
  assert (flt (of_int hi) x = false) as E2.
  { rewrite ->flt_finite by done. apply negb_false_iff, Qle_bool_iff. rewrite ->Vh, Hv, <-Zle_Qle. lia. }
  unfold fmin, fmax. rewrite ->(bool_decide_eq_false_2 (x = NaN)), E1 by done. by rewrite ->bool_decide_eq_false_2, E2.
Qed.

(** ** The bits of a [float32] *)

Lemma frombits_fields s ex fr :
  0 <= ex < 256 -> 0 <= fr < 2 ^ 23 ->
  float32frombits (Z.b2z s * 2 ^ 31 + ex * 2 ^ 23 + fr) =
  if ex =? 255 then (if fr =? 0 then Inf s else NaN)
  else if ex =? 0 then (if fr =? 0 then Zero s else Fin s fr (-149))
  else Fin s (2 ^ 23 + fr) (ex - 150).
Proof.
  intros Hex Hfr. set (bits := Z.b2z s * 2 ^ 31 + ex * 2 ^ 23 + fr). unfold float32frombits.
  assert (Z.land bits (2 ^ 23 - 1) = fr) as ->.
  { change (2 ^ 23 - 1) with (Z.ones 23). rewrite ->Z.land_ones by lia. subst bits.
    assert (Z.b2z s * 2 ^ 31 + ex * 2 ^ 23 + fr = fr + (Z.b2z s * 256 + ex) * 2 ^ 23) as -> by lia.
    rewrite ->Z_mod_plus_full. by apply Z.mod_small. }
  assert (bits / 2 ^ 23 = Z.b2z s * 256 + ex) as Hd.
  { symmetry. apply (Z.div_unique_pos _ _ _ fr); [lia|]. subst bits. lia. }
  assert (Z.land (Z.shiftr bits 23) 255 = ex) as ->.
  { change 255 with (Z.ones 8). rewrite ->Z.land_ones, Z.shiftr_div_pow2, Hd, Z.add_comm, Z_mod_plus_full by lia. by apply Z.mod_small. }
  assert (Z.testbit bits 31 = s) as ->; [|done].
  apply Z.b2z_inj. rewrite ->Z.testbit_spec' by lia.
  assert (bits / 2 ^ 31 = Z.b2z s) as ->.
  { symmetry. apply (Z.div_unique_pos _ _ _ (ex * 2 ^ 23 + fr)); [lia|]. subst bits. lia. }
  by destruct s.
Qed.

(** Encoding a [float32] and decoding it gives it back. *)
Lemma bits_roundtrip x : canonical binary32 x -> x <> NaN -> float32frombits (float32bits x) = x.
Proof.
  intros Hc Hn. destruct x as [s|s| |s m e]; [by destruct s|by destruct s|done|].
  destruct Hc as ([Hm1 Hm2] & [He1 He2] & Hcan). cbn [prec emin etop binary32] in *. unfold float32bits.
  change (2 ^ (24 - 1)) with (2 ^ 23) in Hcan. destruct (decide (2 ^ 23 <= m)).
  - assert (Z.b2z s * 2 ^ 31 + (e + 149) * 2 ^ 23 + m = Z.b2z s * 2 ^ 31 + (e + 150) * 2 ^ 23 + (m - 2 ^ 23)) as -> by lia.
    rewrite ->frombits_fields by lia. assert (e + 150 =? 255 = false) as -> by lia. assert (e + 150 =? 0 = false) as -> by lia.
    f_equal; lia.
  - destruct Hcan as [?| ->]; [lia|].
    assert (Z.b2z s * 2 ^ 31 + (-149 + 149) * 2 ^ 23 + m = Z.b2z s * 2 ^ 31 + 0 * 2 ^ 23 + m) as -> by lia.
    rewrite ->frombits_fields by lia. cbn. assert (m =? 0 = false) as -> by lia. done.
Qed.

End GoFloat.
