(* ===== verification/Quantize.v ===== *)
(** * Quantize: the quantization engine
    ([src/quantization-engine/convert.go] and [main.go])

    The conversion of INT8 tensors to and from [float32] and [bfloat16] in
    blocks, and the HTTP handler that runs it between two rings.  SHA-256, the
    JSON decoder, symbolic links and file modes are inputs; a ring is the bytes
    it delivers before it fails, and the writes it accepts. *)

From Stdlib Require Import QArith Qabs Qround Qpower Lqa.
From S2P Require Import Prelude GoStrings GoFloat Manifest Ring Flusher.
#[local] Open Scope Z_scope.

Module Quantize.
Import GoFloat.

(** ** Requests *)

Record conversion := MkConversion {
  InputPath : string; OutputPath : string; Elements : Z;
  SourceDType : string; TargetDType : string; Scale : float; ZeroPoint : Z }.

Record conversionResult := MkResult { r_Elements : Z; ByteLength : Z; SHA256 : string }.

Inductive quant_error :=
| BadAffine | BadPair | ReadFailed | NotFinite (index : Z) | WriteFailed.

Definition numericSize (dtype : string) : option Z :=
  if (dtype =? "int8")%string then Some 1
  else if (dtype =? "bfloat16")%string then Some 2
  else if (dtype =? "float32")%string then Some 4
  else None.

(** [x <= 0]. *)
Definition not_positive (x : float) : bool := negb (bool_decide (x = NaN)) && negb (flt (Zero false) x).

Definition floating (dtype : string) : bool := (dtype =? "float32")%string || (dtype =? "bfloat16")%string.

Definition valid_pair (r : conversion) : bool :=
  (SourceDType r =? "int8")%string && floating (TargetDType r)
  || (TargetDType r =? "int8")%string && floating (SourceDType r).

Definition validate (r : conversion) : result quant_error (Z * Z) :=
  reject_if (Elements r =? 0) || (Z.shiftl 1 40 <? Elements r) || not_positive (Scale r)
            || bool_decide (Scale r = NaN) || bool_decide (Scale r = Inf false) || bool_decide (Scale r = Inf true)
            || (ZeroPoint r <? -128) || (127 <? ZeroPoint r) with BadAffine in
  match numericSize (SourceDType r), numericSize (TargetDType r) with
  | Some sourceSize, Some targetSize =>
      reject_if negb (valid_pair r) || (uint64_max / sourceSize <? Elements r) || (uint64_max / targetSize <? Elements r)
        with BadPair in
      Ok (wrapu64 (Elements r * sourceSize), wrapu64 (Elements r * targetSize))
  | _, _ => Err BadPair
  end.

(** ** One element *)

(** [int8(b)] of a byte and [byte(v)] of an [int8]. *)
Definition int8 (b : Z) : Z := (b + 128) mod 256 - 128.
Definition byte (v : Z) : Z := v mod 256.

(** [binary.LittleEndian]. *)
Fixpoint le_bytes (n : nat) (v : Z) : list Z :=
  match n with O => [] | S n => v mod 256 :: le_bytes n (v / 256) end.
Fixpoint le_value (l : list Z) : Z :=
  match l with [] => 0 | b :: l => b + 256 * le_value l end.

Definition float32ToBF16 (v : float) : Z :=
  let bits := float32bits v in
  let bits := wrapu32 (bits + (0x7fff + Z.land (Z.shiftr bits 16) 1)) in
  Z.shiftr bits 16.

Definition bf16ToFloat32 (v : Z) : float := float32frombits (Z.shiftl v 16).

Definition dequantize (zeroPoint : Z) (scale : float) (b : Z) : float :=
  convert_format binary32 (fmul (fsub (of_int (int8 b)) (of_int zeroPoint)) scale).

Definition quantize (zeroPoint : Z) (scale : float) (v : float) : Z :=
  let quantized := fadd (round_to_even (fdiv (convert_format binary64 v) scale)) (of_int zeroPoint) in
  byte (trunc (fmin (fmax quantized (of_int (-128))) (of_int 127))).

(** The bytes of a value in the target format, and back. *)
Definition encode (dtype : string) (v : float) : list Z :=
  if (dtype =? "float32")%string then le_bytes 4 (float32bits v) else le_bytes 2 (float32ToBF16 v).
Definition decode (dtype : string) (bytes : list Z) : float :=
  if (dtype =? "float32")%string then float32frombits (le_value bytes) else bf16ToFloat32 (le_value bytes).

(** ** Blocks *)

Definition int8_block (r : conversion) (input : list Z) : list Z :=
  concat (map (fun b => encode (TargetDType r) (dequantize (ZeroPoint r) (Scale r) b)) input).

Definition float_size (dtype : string) : nat := if (dtype =? "float32")%string then 4%nat else 2%nat.

(** The second loop of [convertBlock]; [index] is the number of elements done. *)
Fixpoint float_block (r : conversion) (index : Z) (elements : nat) (input : list Z) : result quant_error (list Z) :=
  match elements with
  | O => Ok []
  | S elements =>
      let size := float_size (SourceDType r) in
      let v := decode (SourceDType r) (take size input) in
      reject_if negb (is_finite v) with NotFinite index in
      let! rest := float_block r (index + 1) elements (drop size input) in
      Ok (quantize (ZeroPoint r) (Scale r) v :: rest)
  end.

Definition convertBlock (r : conversion) (input : list Z) (elements : Z) : result quant_error (list Z) :=
  if (SourceDType r =? "int8")%string then Ok (int8_block r (take (Z.to_nat elements) input))
  else float_block r 0 (Z.to_nat elements) input.

Definition elementsPerBlock : Z := Z.shiftl 64 10.

(** [io.ReadFull]. *)
Definition read_full (n : Z) (source : list Z) : option (list Z * list Z) :=
  if Z.of_nat (length source) <? n then None else Some (take (Z.to_nat n) source, drop (Z.to_nat n) source).

Section Convert.
(** The digest in hexadecimal, and whether the target takes a block after what
    was written. *)
Variable sha256 : list Z -> string.
Variable accepts : list Z -> list Z -> bool.

(** The loop of [convert]: the source, what was written and the elements
    remaining; [None] when the fuel is used up. *)
Fixpoint convert_loop (fuel : nat) (r : conversion) (source written : list Z) (remaining : Z)
    : option (result quant_error (list Z)) :=
  if negb (0 <? remaining) then Some (Ok written) else
  match fuel with
  | O => None
  | S fuel =>
      let count := Z.min remaining elementsPerBlock in
      let sourceSize := default 0 (numericSize (SourceDType r)) in
      match read_full (count * sourceSize) source with
      | None => Some (Err ReadFailed)
      | Some (input, source) =>
          match convertBlock r input count with
          | Err e => Some (Err e)
          | Ok converted =>
              if negb (accepts written converted) then Some (Err WriteFailed)
              else convert_loop fuel r source (written ++ converted) (remaining - count)
          end
      end
  end.

(** One unit of fuel per block. *)
Definition blocks (elements : Z) : nat := Z.to_nat ((elements + elementsPerBlock - 1) / elementsPerBlock).

Definition convert (r : conversion) (source : list Z) : option (result quant_error (conversionResult * list Z)) :=
  match validate r with
  | Err e => Some (Err e)
  | Ok (_, outputLength) =>
      match convert_loop (blocks (Elements r)) r source [] (Elements r) with
      | None => None
      | Some (Err e) => Some (Err e)
      | Some (Ok written) => Some (Ok (MkResult (Elements r) outputLength (sha256 written), written))
      end
  end.

End Convert.
(** ** The accuracy of one element *)

(** Rounding to [bfloat16] moves a normal number by at most one part in 257. *)
Lemma bf16_error s m e :
  2 ^ 23 <= m < 2 ^ 24 -> -149 <= e <= 103 ->
  exists M, 257 * Z.abs (M - m) <= m /\
    let y := bf16ToFloat32 (float32ToBF16 (Fin s m e)) in
    is_finite y = true /\ positive y /\ (value y == signed s (inject_Z M * 2 ^ e))%Q.
Proof.
  intros Hm He. set (fr := m - 2 ^ 23). set (ex := e + 150). set (bits := float32bits (Fin s m e)).
  assert (bits = Z.b2z s * 2 ^ 31 + ex * 2 ^ 23 + fr) as Hb by (subst bits ex fr; cbn [float32bits]; lia).
  set (q := bits / 2 ^ 16). set (r := bits mod 2 ^ 16).
  assert (bits = q * 2 ^ 16 + r /\ 0 <= r < 2 ^ 16) as [Eq Hr].
  { pose proof (Z.div_mod bits (2 ^ 16) ltac:(lia)). pose proof (Z.mod_pos_bound bits (2 ^ 16) ltac:(lia)). subst q r. lia. }
  assert (0 <= Z.land (Z.shiftr bits 16) 1 <= 1) as Ho.
  { pose proof (Z.land_ones (Z.shiftr bits 16) 1 ltac:(lia)) as E. pose proof (Z.mod_pos_bound (Z.shiftr bits 16) 2 ltac:(lia)).
    change (Z.ones 1) with 1 in E. change (2 ^ 1) with 2 in E. lia. }
  set (o := Z.land (Z.shiftr bits 16) 1) in *.
  set (k := if r + 0x7fff + o <? 2 ^ 16 then q else q + 1).
  assert (0 <= Z.b2z s <= 1) as Hs by (destruct s; cbn; lia).
  assert (float32ToBF16 (Fin s m e) = k) as Hk.
  { unfold float32ToBF16. fold bits o. unfold wrapu32. rewrite ->Z.shiftr_div_pow2, Z.mod_small by lia.
    subst k. destruct (r + 0x7fff + o <? 2 ^ 16) eqn:E; bool_hyps; symmetry.
    - apply (Z.div_unique_pos _ _ _ (r + 0x7fff + o)); lia.
    - apply (Z.div_unique_pos _ _ _ (r + 0x7fff + o - 2 ^ 16)); lia. }
  set (fr' := k * 2 ^ 16 - Z.b2z s * 2 ^ 31 - ex * 2 ^ 23).
  assert (257 * Z.abs (fr' - fr) <= m /\ 0 <= fr' <= 2 ^ 23) as [Herr Hfr].
  { subst fr' k fr. destruct (r + 0x7fff + o <? 2 ^ 16) eqn:E; bool_hyps; lia. }
  exists (2 ^ 23 + fr'). split; [lia|]. cbv zeta. rewrite ->Hk. unfold bf16ToFloat32. rewrite ->Z.shiftl_mul_pow2 by lia.
  assert (0 < 2 ^ 23 + fr') by lia.
  destruct (decide (fr' = 2 ^ 23)) as [Hf|Hf].
  - assert (k * 2 ^ 16 = Z.b2z s * 2 ^ 31 + (ex + 1) * 2 ^ 23 + 0) as -> by lia. rewrite ->frombits_fields by lia.
    assert (ex + 1 =? 255 = false) as -> by lia. assert (ex + 1 =? 0 = false) as -> by lia. split_and!; [done|cbn; lia|].
    cbn [value]. assert (ex + 1 - 150 = e + 1) as -> by lia. rewrite ->pow_step, Hf.
    change (2 ^ 23 + 2 ^ 23) with (2 ^ 23 * 2). rewrite ->inject_Z_mult. apply signed_proper. change (inject_Z 2) with 2%Q.
    rewrite ->Z.add_0_r. ring.
  - assert (k * 2 ^ 16 = Z.b2z s * 2 ^ 31 + ex * 2 ^ 23 + fr') as -> by lia. rewrite ->frombits_fields by lia.
    assert (ex =? 255 = false) as -> by lia. assert (ex =? 0 = false) as -> by lia. split_and!; [done|cbn; lia|].
    cbn [value]. assert (ex - 150 = e) as -> by lia. reflexivity.
Qed.

Lemma bf16_near s m e :
  2 ^ 23 <= m < 2 ^ 24 -> -149 <= e <= 103 ->
  let y := bf16ToFloat32 (float32ToBF16 (Fin s m e)) in
  is_finite y = true /\ (Qabs (value y - value (Fin s m e)) <= (1 # 257) * Qabs (value (Fin s m e)))%Q.
Proof.
  intros Hm He y. destruct (bf16_error s m e Hm He) as (M & HM & F & _ & V). fold y in F, V. split; [done|].
  rewrite ->V, abs_value by lia. cbn [value]. pose proof (pow_pos e) as Hp.
  assert (Qabs (signed s (inject_Z M * 2 ^ e) - signed s (inject_Z m * 2 ^ e)) == inject_Z (Z.abs (M - m)) * 2 ^ e)%Q as ->.
  { rewrite <-(Qabs_pos (2 ^ e)) at 3 by lra. change (inject_Z (Z.abs (M - m))) with (Qabs (inject_Z (M - m))).
    rewrite <-Qabs_Qmult. unfold Z.sub. rewrite ->inject_Z_plus, inject_Z_opp.
    destruct s; cbn [signed]; [rewrite <-Qabs_opp|]; apply Qabs_wd; ring. }
  assert (257 * inject_Z (Z.abs (M - m)) <= inject_Z m)%Q as HM'.
  { change 257%Q with (inject_Z 257). rewrite <-inject_Z_mult, <-Zle_Qle. lia. }
  nra.
Qed.

(** A scale whose products with the differences of two [int8] values are normal
    [float32] numbers. *)
Definition scale_ok (scale : float) : Prop :=
  match scale with
  | Fin false m _ => 0 < m /\ (2 ^ (-125) <= value scale <= 2 ^ 118)%Q
  | _ => False
  end.

Lemma near_bound (k B a b : Q) :
  (Qabs b <= B)%Q -> (Qabs (a - b) <= k * Qabs b)%Q -> (0 <= k)%Q -> (Qabs (a - b) <= k * B)%Q /\ (Qabs a <= (1 + k) * B)%Q.
Proof.
  intros Hb Ha Hk. assert (k * Qabs b <= k * B)%Q as H by nra.
  split; [lra|]. pose proof (Qabs_triangle (a - b) b) as Ht. assert (a - b + b == a)%Q as E by ring. rewrite ->E in Ht. lra.
Qed.

Lemma Qabs_lower a b : (Qabs b - Qabs (a - b) <= Qabs a)%Q.
Proof.
  pose proof (Qabs_triangle (b - a) a) as Ht. assert (b - a + a == b)%Q as E by ring. rewrite ->E in Ht.
  rewrite ->(Qabs_Qminus b a) in Ht. lra.
Qed.

Lemma difference_exact a b :
  -128 <= a <= 127 -> -128 <= b <= 127 ->
  is_finite (fsub (of_int a) (of_int b)) = true /\ (value (fsub (of_int a) (of_int b)) == inject_Z (a - b))%Q.
Proof.
  intros Ha Hb. destruct (of_int_exact a ltac:(lia)) as [Fa Va]. destruct (of_int_exact b ltac:(lia)) as [Fb Vb].
  unfold fsub. apply (fadd_int _ _ a (- b)); [done|by rewrite ->finite_fneg|done|rewrite ->value_fneg, Vb; by rewrite ->inject_Z_opp|lia].
Qed.

Lemma int8_range b : -128 <= int8 b <= 127.
Proof. unfold int8. pose proof (Z.mod_pos_bound (b + 128) 256 ltac:(lia)). lia. Qed.

Lemma byte_int8 b : 0 <= b < 256 -> byte (int8 b) = b.
Proof.
  intros H. unfold byte, int8. destruct (decide (b < 128)).
  - rewrite ->(Z.mod_small (b + 128)) by lia. assert (b + 128 - 128 = b) as -> by lia. by apply Z.mod_small.
  - assert ((b + 128) mod 256 = b - 128) as -> by (symmetry; apply (Z.mod_unique_pos _ _ 1); lia).
    symmetry. apply (Z.mod_unique_pos _ _ (-1)); lia.
Qed.

Section Accuracy.
Variable zp : Z.
Variable scale : float.
Hypothesis Hzp : -128 <= zp <= 127.
Hypothesis Hscale : scale_ok scale.

Lemma scale_shape : exists m e, scale = Fin false m e /\ (0 < value scale)%Q.
Proof.
  destruct scale as [| | |[] m e]; try done. exists m, e. split; [done|]. destruct Hscale as [Hm _]. by apply fin_value_pos.
Qed.

Lemma scale_range : (2 ^ (-125) <= value scale <= 2 ^ 118)%Q.
Proof. destruct scale as [| | |[] m e]; try done. apply Hscale. Qed.

(** The value of a dequantized byte. *)
Lemma dequantize_near b :
  int8 b - zp <> 0 ->
  exists s m e, dequantize zp scale b = Fin s m e /\ 2 ^ 23 <= m < 2 ^ 24 /\ -149 <= e <= 103 /\
    (Qabs (value (Fin s m e) - inject_Z (int8 b - zp) * value scale) <= (1 # 8388608) * Qabs (inject_Z (int8 b - zp) * value scale))%Q.
Proof.
  intros Hd. pose proof (int8_range b) as Hb. set (d := int8 b - zp) in *.
  destruct scale_shape as (ms & es & Hs & HS). pose proof scale_range as [Slo Shi]. set (S := value scale) in *.
  destruct (difference_exact (int8 b) zp Hb Hzp) as [Fd Vd]. fold d in Vd.
  set (x := (inject_Z d * S)%Q).
  assert (Qabs x == inject_Z (Z.abs d) * S)%Q as Ex.
  { subst x. rewrite ->Qabs_Qmult, (Qabs_pos S) by lra. reflexivity. }
  assert (1 <= inject_Z (Z.abs d) <= 255)%Q as Hd'.
  { change 1%Q with (inject_Z 1). change 255%Q with (inject_Z 255). rewrite <-!Zle_Qle. lia. }
  assert (2 ^ (-125) <= Qabs x)%Q as Xlo by (rewrite ->Ex; nra).
  assert (Qabs x <= 255 * 2 ^ 118)%Q as Xhi by (rewrite ->Ex; nra).
  set (P := fmul (fsub (of_int (int8 b)) (of_int zp)) scale).
  assert (P = round binary64 (xorb (sign (fsub (of_int (int8 b)) (of_int zp))) (sign scale)) x) as EP.
  { subst P. rewrite ->fmul_finite; [|done|by rewrite ->Hs]. apply round_proper. by rewrite ->Vd. }
  destruct (round_error binary64 ltac:(done) (xorb (sign (fsub (of_int (int8 b)) (of_int zp))) (sign scale)) x) as [FP EP'].
  { eapply Qle_trans; [|exact Xlo]. by vm_compute. }
  { eapply Qle_lt_trans; [exact Xhi|]. by vm_compute. }
  rewrite <-EP in FP, EP'. change (2 ^ (- prec binary64))%Q with (1 # 9007199254740992)%Q in EP'.
  destruct (near_bound _ _ _ _ Xhi EP' ltac:(discriminate)) as [_ Phi].
  pose proof (Qabs_lower (value P) x) as Plo.
  change (2 ^ (-125))%Q with (1 # 42535295865117307932921825928971026432)%Q in Xlo.
  assert (2 ^ (-126) <= Qabs (value P))%Q as Plo' by (change (2 ^ (-126))%Q with (1 # 85070591730234615865843651857942052864)%Q; lra).
  destruct (round_error binary32 ltac:(done) (sign P) (value P)) as [FV EV].
  { exact Plo'. }
  { eapply Qle_lt_trans; [exact Phi|]. by vm_compute. }
  assert (~ (value P == 0)%Q) as HP.
  { intros E. rewrite ->E in Plo'. by vm_compute in Plo'. }
  assert (dequantize zp scale b = round binary32 (sign P) (value P)) as EV' by (unfold dequantize; fold P; by apply convert_finite).
  rewrite <-EV' in FV, EV. change (2 ^ (- prec binary32))%Q with (1 # 16777216)%Q in EV.
  assert (Qabs (value (dequantize zp scale b) - x) <= (1 # 8388608) * Qabs x)%Q as Hnear.
  { pose proof (Qabs_triangle (value (dequantize zp scale b) - value P) (value P - x)) as Ht.
    assert (value (dequantize zp scale b) - value P + (value P - x) == value (dequantize zp scale b) - x)%Q as E by ring.
    rewrite ->E in Ht. destruct (near_bound _ _ _ _ (Qle_refl (Qabs x)) EP' ltac:(discriminate)) as [_ Phi']. lra. }
  pose proof (round_canonical binary32 ltac:(done) (sign P) (value P) ltac:(done)) as Hcan. rewrite <-EV' in Hcan.
  pose proof (Qabs_lower (value (dequantize zp scale b)) x) as Vlo.
  destruct (near_bound _ _ _ _ Xhi Hnear ltac:(discriminate)) as [_ Vhi].
  destruct (dequantize zp scale b) as [s| | |s m e] eqn:Edq; try done.
  { exfalso. cbn [value] in Vlo, Hnear. change (Qabs 0) with 0%Q in Vlo. lra. }
  destruct Hcan as ([Hm1 Hm2] & [He1 He2] & Hnorm). cbn [prec emin etop binary32] in *.
  rewrite ->abs_value in Vlo, Vhi by done.
  assert (2 ^ 23 <= m) as Hm.
  { destruct Hnorm as [?| ->]; [done|]. apply Z.le_ngt. intros Hlt.
    assert (inject_Z m <= inject_Z (2 ^ 23 - 1))%Q as Hi by (rewrite <-Zle_Qle; lia).
    change (inject_Z (2 ^ 23 - 1)) with 8388607%Q in Hi. change (2 ^ (-149))%Q with (1 # 713623846352979940529142984724747568191373312)%Q in Vlo. lra. }
  assert (2 ^ (23 + e) < 2 ^ (23 + 104))%Q as A.
  { rewrite ->pow_split. eapply Qle_lt_trans; [|eapply Qle_lt_trans; [exact Vhi|by vm_compute]].
    apply Qmult_le_compat_r; [|pose proof (pow_pos e); lra]. rewrite <-(pow_int 23), <-Zle_Qle by lia. done. }
  apply Qpower_lt_compat_l_inv in A; [|reflexivity].
  exists s, m, e. split_and!; try done; lia.
Qed.

Lemma dequantize_zero b : int8 b - zp = 0 -> exists s, dequantize zp scale b = Zero s.
Proof.
  intros Hd. destruct (difference_exact (int8 b) zp (int8_range b) Hzp) as [Fd Vd]. rewrite ->Hd in Vd.
  destruct scale_shape as (ms & es & Hs & _). unfold dequantize. rewrite ->fmul_finite; [|done|by rewrite ->Hs].
  assert (value (fsub (of_int (int8 b)) (of_int zp)) * value scale == 0)%Q as E by (rewrite ->Vd; change (inject_Z 0) with 0%Q; ring).
  rewrite ->(round_proper binary64 _ _ _ E). eexists. reflexivity.
Qed.

(** Quantizing a value near [d * scale]. *)
Lemma quantize_rounded w d :
  is_finite w = true -> positive w -> (Qabs (value w - inject_Z d) < 1 # 2)%Q -> -128 <= d + zp <= 127 ->
  trunc (fmin (fmax (fadd (round_to_even w) (of_int zp)) (of_int (-128))) (of_int 127)) = d + zp.
Proof.
  intros Fw Pw Hw Hq. destruct (round_to_even_near w d Fw Pw Hw ltac:(lia)) as [Fr Vr].
  destruct (of_int_exact zp ltac:(lia)) as [Fz Vz].
  destruct (fadd_int _ _ d zp Fr Fz Vr Vz ltac:(lia)) as [Fa Va].
  rewrite ->(clamp_int _ (d + zp)) by (done || lia). apply trunc_int; [done| |done].
  rewrite ->fadd_finite by done. by apply round_positive.
Qed.

Lemma quantize_zero s : quantize zp scale (Zero s) = byte zp.
Proof.
  destruct scale_shape as (ms & es & Hs & _). unfold quantize, convert_format. rewrite ->Hs, fdiv_finite by done.
  assert (value (Zero s) / value (Fin false ms es) == 0)%Q as E by (cbn [value]; apply Qmult_0_l).
  rewrite ->(round_proper binary64 _ _ _ E). f_equal. rewrite ->(quantize_rounded _ 0); [lia|done|done|done|lia].
Qed.

Lemma quantize_near y d :
  is_finite y = true -> d <> 0 -> Z.abs d <= 255 -> -128 <= d + zp <= 127 ->
  (Qabs (value y - inject_Z d * value scale) <= (499 # 1000) * value scale)%Q ->
  quantize zp scale y = byte (d + zp).
Proof.
  intros Fy Hd0 Hd Hq Hy. destruct scale_shape as (ms & es & Hs & HS). pose proof scale_range as [Slo Shi]. set (S := value scale) in *.
  assert (1 <= Qabs (inject_Z d) <= 255)%Q as Hd'.
  { change (Qabs (inject_Z d)) with (inject_Z (Z.abs d)). change 1%Q with (inject_Z 1). change 255%Q with (inject_Z 255). rewrite <-!Zle_Qle. lia. }
  assert (Qabs (inject_Z d * S) == Qabs (inject_Z d) * S)%Q as Ex by (rewrite ->Qabs_Qmult, (Qabs_pos S) by lra; reflexivity).
  pose proof (Qabs_lower (value y) (inject_Z d * S)) as Ylo.
  assert ((1 # 2) * S <= Qabs (value y))%Q as Ylo' by (rewrite ->Ex in Ylo; nra).
  assert (Qabs (value y) <= 256 * S)%Q as Yhi.
  { pose proof (Qabs_triangle (value y - inject_Z d * S) (inject_Z d * S)) as Ht.
    assert (value y - inject_Z d * S + inject_Z d * S == value y)%Q as E by ring. rewrite ->E, Ex in Ht. nra. }
  assert (~ (value y == 0)%Q) as Hy0.
  { intros E. rewrite ->E in Ylo'. change (Qabs 0) with 0%Q in Ylo'. nra. }
  destruct (round_error binary64 ltac:(done) (sign y) (value y)) as [F1 E1].
  { eapply Qle_trans; [|exact Ylo']. eapply Qle_trans; [|apply Qmult_le_l; [done|exact Slo]]. vm_compute. discriminate. }
  { eapply Qle_lt_trans; [exact Yhi|]. eapply Qle_lt_trans; [apply Qmult_le_l; [done|exact Shi]|]. by vm_compute. }
  unfold quantize. rewrite ->convert_finite by done. set (y1 := round binary64 (sign y) (value y)) in *.
  change (2 ^ (- prec binary64))%Q with (1 # 9007199254740992)%Q in E1.
  rewrite ->Hs, fdiv_finite by done. rewrite <-Hs. fold S. set (t := (value y1 / S)%Q).
  assert (value y1 == t * S)%Q as Et by (subst t; field; lra).
  assert (Qabs (t - inject_Z d) <= 4999 # 10000)%Q as Ht.
  { destruct (near_bound _ _ _ _ Yhi E1 ltac:(discriminate)) as [E1' _].
    pose proof (Qabs_triangle (value y1 - value y) (value y - inject_Z d * S)) as Htr.
    assert (value y1 - value y + (value y - inject_Z d * S) == (t - inject_Z d) * S)%Q as E by (rewrite ->Et; ring).
    rewrite ->E, Qabs_Qmult, (Qabs_pos S) in Htr by lra. apply (Qmult_le_r _ _ S); [done|]. lra. }
  pose proof (Qabs_lower t (inject_Z d)) as Tlo.
  pose proof (Qabs_triangle (t - inject_Z d) (inject_Z d)) as Thi. assert (t - inject_Z d + inject_Z d == t)%Q as Eti by ring. rewrite ->Eti in Thi.
  destruct (round_error binary64 ltac:(done) (xorb (sign y1) false) t) as [F2 E2].
  { eapply (Qle_trans _ (1 # 2)); [vm_compute; discriminate|lra]. }
  { eapply (Qle_lt_trans _ 256); [lra|by vm_compute]. }
  change (2 ^ (- prec binary64))%Q with (1 # 9007199254740992)%Q in E2. f_equal.
  apply quantize_rounded; [done|by apply round_positive| |done].
  pose proof (Qabs_triangle (value (round binary64 (xorb (sign y1) false) t) - t) (t - inject_Z d)) as Htr.
  assert (forall a b c, a - b + (b - c) == a - c)%Q as E by (intros; ring). rewrite ->E in Htr. lra.
Qed.

End Accuracy.

Lemma le_roundtrip n v : 0 <= v < 256 ^ Z.of_nat n -> le_value (le_bytes n v) = v.
Proof.
  revert v. induction n as [|n IH]; intros v Hv; [cbn in *; lia|]. cbn [le_bytes le_value].
  rewrite ->IH; [pose proof (Z.div_mod v 256 ltac:(lia)); lia|].
  rewrite ->Nat2Z.inj_succ, Z.pow_succ_r in Hv by lia. split; [apply Z.div_pos; lia|apply Z.div_lt_upper_bound; lia].
Qed.

Lemma le_length n v : length (le_bytes n v) = n.
Proof. revert v. induction n as [|n IH]; intros v; cbn; [done|]. by rewrite ->IH. Qed.

Lemma bits_range x : canonical binary32 x -> 0 <= float32bits x < 2 ^ 32.
Proof.
  intros Hc. destruct x as [s|s| |s m e]; [by destruct s|by destruct s|done|]. cbn in *. assert (0 <= Z.b2z s <= 1) by (by destruct s). lia.
Qed.

Lemma bf16_range x : 0 <= float32ToBF16 x < 2 ^ 16.
Proof.
  unfold float32ToBF16, wrapu32. rewrite ->Z.shiftr_div_pow2 by lia.
  pose proof (Z.mod_pos_bound (float32bits x + (0x7fff + Z.land (Z.shiftr (float32bits x) 16) 1)) (2 ^ 32) ltac:(lia)).
  split; [apply Z.div_pos; lia|apply Z.div_lt_upper_bound; lia].
Qed.

(** Decoding an encoded value. *)
Lemma decode_encode dtype x :
  canonical binary32 x -> x <> NaN ->
  decode dtype (encode dtype x) = if (dtype =? "float32")%string then x else bf16ToFloat32 (float32ToBF16 x).
Proof.
  intros Hc Hn. unfold decode, encode. destruct (dtype =? "float32")%string.
  - rewrite ->le_roundtrip by (by apply bits_range). by apply bits_roundtrip.
  - rewrite ->le_roundtrip; [done|]. apply bf16_range.
Qed.

(** An INT8 value survives the way through [float32], and through [bfloat16]
    when it is within 128 of the zero point. *)
Lemma element_roundtrip zp scale dtype b :
  -128 <= zp <= 127 -> scale_ok scale -> 0 <= b < 256 ->
  dtype = "float32"%string \/ Z.abs (int8 b - zp) <= 128 ->
  let v := decode dtype (encode dtype (dequantize zp scale b)) in
  is_finite v = true /\ quantize zp scale v = b.
Proof.
  intros Hzp Hs Hb Hd. cbv zeta. pose proof (int8_range b) as Hr. destruct (scale_shape scale Hs) as (_ & _ & _ & HS).
  destruct (decide (int8 b - zp = 0)) as [E0|E0].
  { destruct (dequantize_zero zp scale Hzp Hs b E0) as [s ->]. rewrite ->decode_encode by done.
    assert (exists s', (if (dtype =? "float32")%string then Zero s else bf16ToFloat32 (float32ToBF16 (Zero s))) = Zero s') as [s' ->].
    { destruct (dtype =? "float32")%string, s; eexists; reflexivity. }
    split; [done|]. rewrite ->quantize_zero by done. assert (zp = int8 b) as -> by lia. by apply byte_int8. }
  destruct (dequantize_near zp scale Hzp Hs b E0) as (s & m & e & -> & Hm & He & Hnear).
  rewrite ->decode_encode; [|cbn; lia|done].
  assert (forall y, is_finite y = true ->
    (Qabs (value y - inject_Z (int8 b - zp) * value scale) <= (499 # 1000) * value scale)%Q -> is_finite y = true /\ quantize zp scale y = b) as Hfin.
  { intros y Fy Hy. split; [done|]. rewrite ->(quantize_near zp scale Hzp Hs y (int8 b - zp)) by (done || lia).
    rewrite ->Z.sub_add. by apply byte_int8. }
  set (d := int8 b - zp) in *. set (S := value scale) in *.
  assert (Qabs (inject_Z d * S) == inject_Z (Z.abs d) * S)%Q as Ex by (rewrite ->Qabs_Qmult, (Qabs_pos S) by lra; reflexivity).
  rewrite ->Ex in Hnear.
  destruct (dtype =? "float32")%string eqn:Et; apply Hfin; [done| |..].
  - assert (inject_Z (Z.abs d) <= 255)%Q as Hd' by (change 255%Q with (inject_Z 255); rewrite <-Zle_Qle; lia). nra.
  - by apply bf16_near.
  - apply String.eqb_neq in Et. destruct Hd as [?|Hd]; [done|].
    assert (inject_Z (Z.abs d) <= 128)%Q as Hd' by (change 128%Q with (inject_Z 128); rewrite <-Zle_Qle; lia).
    destruct (bf16_near s m e Hm He) as [_ Hb16]. set (y := bf16ToFloat32 _) in *.
    assert (Qabs (inject_Z d * S) <= inject_Z (Z.abs d) * S)%Q as Hx by (rewrite ->Ex; apply Qle_refl). rewrite <-Ex in Hnear.
    destruct (near_bound _ _ _ _ Hx Hnear ltac:(discriminate)) as [Hnear' Hv].
    destruct (near_bound _ _ _ _ Hv Hb16 ltac:(discriminate)) as [Hb16' _].
    pose proof (Qabs_triangle (value y - value (Fin s m e)) (value (Fin s m e) - inject_Z d * S)) as Htr.
    assert (forall a b c, a - b + (b - c) == a - c)%Q as E by (intros; ring). rewrite ->E in Htr. nra.
Qed.

(** ** Blocks and the whole tensor *)

Definition elem_size (r : conversion) : Z := default 0 (numericSize (SourceDType r)).

Lemma encode_length dtype v : length (encode dtype v) = float_size dtype.
Proof. unfold encode, float_size. destruct (dtype =? "float32")%string; apply le_length. Qed.

Lemma int8_block_length r input : length (int8_block r input) = (length input * float_size (TargetDType r))%nat.
Proof.
  unfold int8_block. induction input as [|b input IH]; [done|]. cbn [map concat]. rewrite ->length_app, encode_length. cbn. lia.
Qed.

Lemma float_block_ok r i n input :
  is_ok (float_block r i n input) = true -> length (default [] (match float_block r i n input with Ok l => Some l | Err _ => None end)) = n.
Proof.
  revert i input. induction n as [|n IH]; intros i input H; [done|]. cbn [float_block] in *.
  destruct (negb (is_finite _)); [done|]. specialize (IH (i + 1) (drop (float_size (SourceDType r)) input)).
  destruct (float_block r (i + 1) n _); [|done]. cbn in *. f_equal. by apply IH.
Qed.

(** The index only appears in errors. *)
Lemma float_block_index r i j n input out : float_block r i n input = Ok out -> float_block r j n input = Ok out.
Proof.
  revert i j input out. induction n as [|n IH]; intros i j input out; cbn [float_block]; [done|].
  destruct (negb (is_finite _)); [done|]. intros H. destruct (float_block r (i + 1) n _) eqn:E; [|done].
  by rewrite ->(IH _ (j + 1) _ _ E).
Qed.

Lemma float_block_split r i n k input out :
  float_block r i (n + k) input = Ok out <->
  exists o1 o2, float_block r i n (take (n * float_size (SourceDType r)) input) = Ok o1 /\
    float_block r i k (drop (n * float_size (SourceDType r)) input) = Ok o2 /\ out = o1 ++ o2.
Proof.
  set (sz := float_size (SourceDType r)). revert i input out. induction n as [|n IH]; intros i input out; cbn [float_block Nat.add Nat.mul].
  { split; [intros H; by exists [], out|by intros (? & ? & [= <-] & ? & ->)]. }
  fold sz. rewrite ->take_take, skipn_firstn_comm, Nat.min_l by lia.
  assert (sz + n * sz - sz = n * sz)%nat as -> by lia.
  destruct (negb (is_finite _)). { split; [done|by intros (? & ? & ? & _)]. }
  destruct (float_block r (i + 1) (n + k) (drop sz input)) as [rest|] eqn:E.
  - apply IH in E as (o1 & o2 & E1 & E2 & ->). rewrite ->drop_drop in E2. rewrite ->E1, (float_block_index _ _ i _ _ _ E2).
    split; [intros [= <-]; by eexists _, _|by intros (? & ? & [= <-] & [= <-] & ->)].
  - split; [done|]. intros (o1 & o2 & E1 & E2 & ->).
    destruct (float_block r (i + 1) n _) as [o1'|] eqn:E1'; [|done]. simplify_eq.
    assert (float_block r (i + 1) (n + k) (drop sz input) = Ok (o1' ++ o2)) as H; [|by rewrite ->H in E].
    apply IH. exists o1', o2. rewrite ->drop_drop. split_and!; [done|by eapply float_block_index|done].
Qed.

Lemma valid_pair_cases r :
  valid_pair r = true ->
  (SourceDType r = "int8"%string /\ elem_size r = 1 /\ numericSize (TargetDType r) = Some (Z.of_nat (float_size (TargetDType r)))) \/
  (SourceDType r <> "int8"%string /\ elem_size r = Z.of_nat (float_size (SourceDType r)) /\ numericSize (TargetDType r) = Some 1).
Proof.
  unfold valid_pair, floating, elem_size. intros H. apply orb_true_iff in H as [H|H]; apply andb_true_iff in H as [H1 H2]; bool_hyps; apply orb_true_iff in H2.
  - left. rewrite ->H1. split_and!; [done..|]. by destruct H2 as [->%String.eqb_eq| ->%String.eqb_eq].
  - right. rewrite ->H1. by destruct H2 as [->%String.eqb_eq| ->%String.eqb_eq].
Qed.

(** A tensor converts exactly when its parts do, and to their concatenation. *)
Lemma convertBlock_split r input c n out :
  valid_pair r = true -> 0 <= c <= n ->
  convertBlock r input n = Ok out <->
  exists o1 o2, convertBlock r (take (Z.to_nat (c * elem_size r)) input) c = Ok o1 /\
    convertBlock r (drop (Z.to_nat (c * elem_size r)) input) (n - c) = Ok o2 /\ out = o1 ++ o2.
Proof.
  intros Hv Hc. unfold convertBlock. destruct (valid_pair_cases r Hv) as [(Hs & Hz & _)|(Hs & Hz & _)].
  - rewrite ->Hs, Hz, Z.mul_1_r. cbn. rewrite ->take_take, Nat.min_id.
    assert (take (Z.to_nat n) input = take (Z.to_nat c) input ++ take (Z.to_nat (n - c)) (drop (Z.to_nat c) input)) as ->.
    { assert (Z.to_nat n = Z.to_nat c + Z.to_nat (n - c))%nat as -> by lia. by rewrite ->take_take_drop. }
    unfold int8_block. rewrite ->map_app, concat_app.
    split; [intros [= <-]; by eexists _, _|by intros (? & ? & [= <-] & [= <-] & ->)].
  - apply String.eqb_neq in Hs. rewrite ->Hs. assert (Z.to_nat n = Z.to_nat c + Z.to_nat (n - c))%nat as -> by lia.
    rewrite ->float_block_split. assert (Z.to_nat (c * elem_size r) = Z.to_nat c * float_size (SourceDType r))%nat as -> by lia. done.
Qed.

Lemma block_length r input n out :
  valid_pair r = true -> 0 <= n -> n * elem_size r <= Z.of_nat (length input) -> convertBlock r input n = Ok out ->
  Z.of_nat (length out) = n * default 0 (numericSize (TargetDType r)).
Proof.
  intros Hv Hn Hl. unfold convertBlock. destruct (valid_pair_cases r Hv) as [(Hs & Hz & Ht)|(Hs & Hz & Ht)]; rewrite ->Ht.
  - rewrite ->Hs. cbn. intros [= <-]. rewrite ->int8_block_length, length_take, Nat2Z.inj_mul. rewrite ->Hz in Hl. f_equal. lia.
  - apply String.eqb_neq in Hs. rewrite ->Hs. intros E. pose proof (float_block_ok r 0 (Z.to_nat n) input) as H.
    rewrite ->E in H. cbn in *. rewrite ->H by done. lia.
Qed.

Lemma blocks_step n :
  0 < n -> exists k, blocks n = S k /\ blocks (n - Z.min n elementsPerBlock) = k.
Proof.
  intros Hn. unfold blocks. change elementsPerBlock with 65536.
  exists (Z.to_nat ((n - Z.min n 65536 + 65536 - 1) / 65536)). split; [|done].
  destruct (decide (n <= 65536)).
  - rewrite ->Z.min_l by lia. assert ((n + 65536 - 1) / 65536 = 1) as -> by (symmetry; apply (Z.div_unique_pos _ _ _ (n - 1)); lia).
    by rewrite ->Z.sub_diag.
  - rewrite ->Z.min_r by lia. assert (n + 65536 - 1 = (n - 65536 + 65536 - 1) + 1 * 65536) as -> by lia.
    rewrite ->Z_div_plus_full by lia. assert (0 <= (n - 65536 + 65536 - 1) / 65536) by (apply Z.div_pos; lia). lia.
Qed.

Section Loop.
Variable accepts : list Z -> list Z -> bool.
Variable r : conversion.
Hypothesis Hpair : valid_pair r = true.

Lemma elem_size_pos : 0 < elem_size r.
Proof. destruct (valid_pair_cases r Hpair) as [(_ & -> & _)|(_ & -> & _)]; [done|]. unfold float_size. by destruct (_ =? _)%string. Qed.

(** What the loop returns, for any source and any target. *)
Lemma convert_loop_spec source written n :
  0 <= n -> exists res, convert_loop accepts (blocks n) r source written n = Some res /\
  match res with
  | Ok out => n * elem_size r <= Z.of_nat (length source) /\
      exists o, convertBlock r (take (Z.to_nat (n * elem_size r)) source) n = Ok o /\ out = written ++ o
  | Err _ => (forall a b, accepts a b = true) ->
      Z.of_nat (length source) < n * elem_size r \/ is_ok (convertBlock r (take (Z.to_nat (n * elem_size r)) source) n) = false
  end.
Proof.
  pose proof elem_size_pos as Hz. remember (blocks n) as fuel eqn:Hf. revert n source written Hf.
  induction fuel as [|fuel IH]; intros n source written Hf Hn.
  { destruct (decide (n = 0)) as [->|]; [|destruct (blocks_step n) as (k & E & _); [lia|congruence]].
    cbn. eexists. split; [done|]. split; [lia|]. exists []. rewrite ->app_nil_r. split; [|done].
    unfold convertBlock. by destruct (_ =? _)%string. }
  cbn [convert_loop]. destruct (0 <? n) eqn:E0; bool_hyps; cbn [negb].
  2: { exfalso. assert (n = 0) as -> by lia. done. }
  destruct (blocks_step n E0) as (k & Ek & Ek'). rewrite <-Hf in Ek. injection Ek as <-.
  set (c := Z.min n elementsPerBlock) in *. assert (0 < c <= n) as Hc by (subst c; change elementsPerBlock with 65536; lia).
  fold (elem_size r). unfold read_full. set (z := elem_size r) in *.
  assert (c * z <= n * z) as Hcz by nia. assert (0 <= c * z) by nia.
  destruct (Z.of_nat (length source) <? c * z) eqn:El; bool_hyps.
  { eexists. split; [done|]. intros _. left. lia. }
  assert (take (Z.to_nat (c * z)) (take (Z.to_nat (n * z)) source) = take (Z.to_nat (c * z)) source) as Et.
  { rewrite ->take_take. f_equal. lia. }
  assert (drop (Z.to_nat (c * z)) (take (Z.to_nat (n * z)) source) = take (Z.to_nat ((n - c) * z)) (drop (Z.to_nat (c * z)) source)) as Ed.
  { rewrite ->skipn_firstn_comm. f_equal. lia. }
  pose proof (convertBlock_split r (take (Z.to_nat (n * z)) source) c n) as Hsplit. fold z in Hsplit. rewrite ->Et, Ed in Hsplit.
  destruct (convertBlock r (take (Z.to_nat (c * z)) source) c) as [o1|e] eqn:Eb.
  2: { eexists. split; [done|]. intros _. right. destruct (convertBlock r (take (Z.to_nat (n * z)) source) n) as [o|]; [|done].
       destruct (Hsplit o Hpair ltac:(lia)) as [H' _]. by destruct (H' eq_refl) as (? & ? & ? & _). }
  destruct (accepts written o1) eqn:Ea; cbn [negb].
  2: { eexists. split; [done|]. intros Hall. by rewrite ->Hall in Ea. }
  destruct (IH (n - c) (drop (Z.to_nat (c * z)) source) (written ++ o1) (eq_sym Ek') ltac:(lia)) as (res & -> & Hres).
  exists res. split; [done|]. rewrite ->length_drop in Hres. destruct res as [out|e].
  - destruct Hres as [Hl (o & Eo & ->)]. split; [lia|]. exists (o1 ++ o). split; [|by rewrite ->app_assoc].
    apply Hsplit; [done|lia|]. by exists o1, o.
  - intros Hall. destruct (Hres Hall) as [?|Hok]; [left; lia|right].
    destruct (convertBlock r (take (Z.to_nat (n * z)) source) n) as [o|]; [|done].
    destruct (Hsplit o Hpair ltac:(lia)) as [H' _]. destruct (H' eq_refl) as (? & o2 & _ & E2 & _). by rewrite ->E2 in Hok.
Qed.

End Loop.

Lemma validate_ok r inputLength outputLength :
  0 <= Elements r -> validate r = Ok (inputLength, outputLength) ->
  valid_pair r = true /\ 0 < Elements r /\ -128 <= ZeroPoint r <= 127 /\
  inputLength = Elements r * elem_size r /\ outputLength = Elements r * default 0 (numericSize (TargetDType r)).
Proof.
  intros Hn. unfold validate. intros H. destruct (_ || _) eqn:E in H; [done|]. bool_hyps.
  unfold elem_size. destruct (numericSize (SourceDType r)) as [ss|] eqn:Es; [|done].
  destruct (numericSize (TargetDType r)) as [ts|] eqn:Et; [|done].
  destruct (_ || _) eqn:E' in H; [done|]. bool_hyps. simplify_eq. change (Z.shiftl 1 40) with (2 ^ 40) in *.
  assert (forall d n, numericSize d = Some n -> 1 <= n <= 4) as Hsz.
  { intros d n. unfold numericSize. repeat (destruct (_ =? _)%string; [by intros [= <-]|]). done. }
  pose proof (Hsz _ _ Es). pose proof (Hsz _ _ Et). cbn [default from_option id]. split_and!; [done|lia|lia|lia| |]; apply wrapu64_id; pow2; nia.
Qed.

(** A good tensor converts when the target takes the writes. *)
Lemma convert_ok sha256 r source inputLength outputLength out :
  0 <= Elements r -> validate r = Ok (inputLength, outputLength) -> inputLength <= Z.of_nat (length source) ->
  convertBlock r (take (Z.to_nat inputLength) source) (Elements r) = Ok out ->
  convert sha256 (fun _ _ => true) r source = Some (Ok (MkResult (Elements r) outputLength (sha256 out), out)).
Proof.
  intros Hn Ev Hl Eo. unfold convert. rewrite ->Ev. destruct (validate_ok _ _ _ Hn Ev) as (Hp & _ & _ & -> & ->).
  destruct (convert_loop_spec (fun _ _ => true) r Hp source [] (Elements r) Hn) as (res & -> & Hres). destruct res as [out'|e].
  - destruct Hres as (_ & o & Eo' & ->). rewrite ->Eo in Eo'. by simplify_eq.
  - destruct Hres as [?|H]; [done|lia|]. by rewrite ->Eo in H.
Qed.

(** C35: Converting in blocks is converting the whole tensor: the loop always
    ends; when it succeeds the source had the declared bytes, the output is the
    element-wise conversion of all of them, has exactly the declared length and
    is what the digest covers; and when the target takes every write, the only
    failures are a rejected request, a short source and an element that is not
    finite. *)
Theorem conversion_whole sha256 accepts r source :
  0 <= Elements r ->
  match convert sha256 accepts r source with
  | None => False
  | Some (Ok (res, written)) => exists inputLength,
      validate r = Ok (inputLength, Z.of_nat (length written)) /\ inputLength <= Z.of_nat (length source) /\
      convertBlock r (take (Z.to_nat inputLength) source) (Elements r) = Ok written /\
      res = MkResult (Elements r) (Z.of_nat (length written)) (sha256 written)
  | Some (Err _) => (forall a b, accepts a b = true) ->
      match validate r with
      | Err _ => True
      | Ok (inputLength, _) => Z.of_nat (length source) < inputLength \/
          is_ok (convertBlock r (take (Z.to_nat inputLength) source) (Elements r)) = false
      end
  end.
Proof.
  intros Hn. unfold convert. destruct (validate r) as [[il ol]|] eqn:Ev; [|done].
  destruct (validate_ok _ _ _ Hn Ev) as (Hp & _ & _ & -> & ->).
  destruct (convert_loop_spec accepts r Hp source [] (Elements r) Hn) as (res & -> & Hres). destruct res as [out|e]; [|done].
  destruct Hres as (Hl & o & Eo & ->). exists (Elements r * elem_size r). cbn [app].
  pose proof (elem_size_pos r Hp) as Hz. assert (0 <= Elements r * elem_size r) by nia.
  assert (Z.of_nat (length o) = Elements r * default 0 (numericSize (TargetDType r))) as ->; [|done].
  eapply block_length; [done|done| |exact Eo]. rewrite ->length_take. lia.
Qed.

(** ** Saving and restoring INT8 tensors *)

(** The request that converts back. *)
Definition back (r : conversion) : conversion :=
  MkConversion (InputPath r) (OutputPath r) (Elements r) (TargetDType r) (SourceDType r) (Scale r) (ZeroPoint r).

Lemma block_roundtrip r input i :
  SourceDType r = "int8"%string -> -128 <= ZeroPoint r <= 127 -> scale_ok (Scale r) ->
  Forall (fun b => 0 <= b < 256 /\ (TargetDType r = "float32"%string \/ Z.abs (int8 b - ZeroPoint r) <= 128)) input ->
  float_block (back r) i (length input) (int8_block r input) = Ok input.
Proof.
  intros Hs Hz Hsc. revert i. unfold int8_block. induction input as [|b input IH]; intros i Hall; [done|].
  apply Forall_cons in Hall as [[Hb Hd] Hall]. cbn [map concat length float_block back SourceDType ZeroPoint Scale].
  rewrite <-(encode_length (TargetDType r) (dequantize (ZeroPoint r) (Scale r) b)), take_app_length, drop_app_length.
  destruct (element_roundtrip (ZeroPoint r) (Scale r) (TargetDType r) b Hz Hsc Hb Hd) as [-> ->]. cbn [negb].
  by rewrite ->IH.
Qed.

Lemma validate_back r : is_ok (validate (back r)) = is_ok (validate r).
Proof.
  unfold validate, valid_pair, back. cbn. destruct (_ || _ || _ || _ || _ || _ || _ || _); [done|].
  destruct (numericSize (SourceDType r)), (numericSize (TargetDType r)); try done. cbn.
  rewrite ->(orb_comm (_ && _)). destruct (negb _); [done|]. cbn. by destruct (_ <? Elements r), (_ <? Elements r).
Qed.

(** C7: INT8 tensors survive a checkpoint: converting an INT8 tensor to
    [float32] and back gives the tensor, byte for byte, for every zero point and
    every scale whose products are normal numbers; so does [bfloat16] when the
    values are within 128 of the zero point. *)
Theorem int8_survives sha256 r source :
  SourceDType r = "int8"%string -> is_ok (validate r) = true -> scale_ok (Scale r) ->
  Elements r = Z.of_nat (length source) ->
  Forall (fun b => 0 <= b < 256 /\ (TargetDType r = "float32"%string \/ Z.abs (int8 b - ZeroPoint r) <= 128)) source ->
  exists res saved res',
    convert sha256 (fun _ _ => true) r source = Some (Ok (res, saved)) /\
    convert sha256 (fun _ _ => true) (back r) saved = Some (Ok (res', source)).
Proof.
  intros Hs Hv Hsc Hn Hall.
  destruct (validate r) as [[il ol]|] eqn:Ev; [|done]. destruct (validate_ok r _ _ ltac:(lia) Ev) as (Hp & Hpos & Hz & -> & ->).
  assert (elem_size r = 1) as Hsz by (unfold elem_size; by rewrite ->Hs).
  assert (convertBlock r (take (Z.to_nat (Elements r * elem_size r)) source) (Elements r) = Ok (int8_block r source)) as E1.
  { unfold convertBlock. rewrite ->Hs, Hsz, Z.mul_1_r. cbn.
    assert (take (Z.to_nat (Elements r)) source = source) as Ht by (apply take_ge; lia). by rewrite ->!Ht. }
  destruct (validate (back r)) as [[il' ol']|] eqn:Ev'; [|pose proof (validate_back r) as H; by rewrite ->Ev, Ev' in H].
  destruct (validate_ok (back r) _ _ ltac:(cbn; lia) Ev') as (Hp' & _ & _ & Hil & _).
  assert (il' = Z.of_nat (length (int8_block r source))) as Hlen.
  { rewrite ->Hil, int8_block_length, Nat2Z.inj_mul, <-Hn. cbn. f_equal.
    destruct (valid_pair_cases _ Hp') as [(? & -> & _)|(_ & -> & _)]; cbn in *; [|done].
    unfold valid_pair in Hp. rewrite ->Hs in Hp. cbn in Hp. by rewrite ->H in Hp. }
  eexists _, (int8_block r source), _. split.
  - eapply convert_ok; [lia|exact Ev|lia|exact E1].
  - eapply convert_ok; [cbn; lia|exact Ev'|lia|]. rewrite ->take_ge by lia.
    unfold convertBlock. cbn [back SourceDType Elements].
    assert ((TargetDType r =? "int8")%string = false) as ->.
    { unfold valid_pair in Hp. rewrite ->Hs in Hp. destruct (TargetDType r =? "int8")%string eqn:E; [|done]. apply String.eqb_eq in E. by rewrite ->E in Hp. }
    assert (Z.to_nat (Elements r) = length source) as -> by lia. by apply block_roundtrip.
Qed.

(** ** Samples *)

Module QuantizeSamples.

Definition half : float := Fin false (2 ^ 52) (-53).
Definition request : conversion := MkConversion "" "" 3 "int8" "float32" half 1.
Definition source : list Z := [128; 0; 127].

End QuantizeSamples.

(** Ties go to even and large values are clamped. *)
Example ties_and_clamp :
  convert (fun _ => ""%string) (fun _ _ => true) (MkConversion "" "" 5 "float32" "int8" (of_int 1) 0)
    (concat (map (fun x => le_bytes 4 (float32bits (convert_format binary32 (fdiv (of_int x) (of_int 2))))) [1; 3; 5; -3; 2000])) =
  Some (Ok (MkResult 5 5 "", [0; 2; 2; 254; 127])).
Proof. vm_compute. reflexivity. Qed.

(** Farther than 128 from the zero point [bfloat16] does not suffice: with the
    scale 1.02 and the zero point -128 the value 124 comes back as 125. *)
Example bfloat16_loses :
  let scale := fdiv (of_int 102) (of_int 100) in
  quantize (-128) scale (decode "bfloat16" (encode "bfloat16" (dequantize (-128) scale 124))) = 125.
Proof. vm_compute. reflexivity. Qed.

Lemma conversion_whole_witness :
  match convert (fun _ => ""%string) (fun _ _ => true) QuantizeSamples.request QuantizeSamples.source with
  | Some (Ok (res, written)) => length written = 12%nat /\ r_Elements res = 3
  | _ => False
  end.
Proof.
  pose proof (conversion_whole (fun _ => ""%string) (fun _ _ => true) QuantizeSamples.request QuantizeSamples.source ltac:(vm_compute; discriminate)) as H.
  destruct (convert _ _ _ _) as [[[res written]|]|] eqn:E; [|by vm_compute in E|by vm_compute in E].
  destruct H as (il & Hv & _ & _ & ->). split; [|done].
  assert (validate QuantizeSamples.request = Ok (3, 12)) as Ev by (vm_compute; reflexivity). rewrite ->Ev in Hv. injection Hv as _ Hl. lia.
Defined.

Lemma int8_survives_witness :
  exists res saved res',
    convert (fun _ => ""%string) (fun _ _ => true) QuantizeSamples.request QuantizeSamples.source = Some (Ok (res, saved)) /\
    convert (fun _ => ""%string) (fun _ _ => true) (back QuantizeSamples.request) saved = Some (Ok (res', QuantizeSamples.source)).
Proof.
  apply (int8_survives (fun _ => ""%string) QuantizeSamples.request QuantizeSamples.source).
  - reflexivity.
  - vm_compute. reflexivity.
  - split; [reflexivity|]. split; vm_compute; discriminate.
  - reflexivity.
  - repeat constructor; (lia || by left).
Defined.

End Quantize.
