(* ===== verification/Engine.v ===== *)
(** * Engine: the HTTP side of the quantization engine
    ([src/quantization-engine/main.go])

    The handler and the check that a ring lies in the directory of the calling
    job and rank.  The file system, the JSON decoder and the bytes a ring
    delivers are inputs.  The last part composes it with the flusher, which
    creates the rings. *)

From S2P Require Import Prelude GoStrings GoPath GoFloat Manifest Ring Flusher Quantize.

Module Engine.
Import GoPath Quantize.

(** What the handler meets outside the process: symbolic links, file modes, the
    mapped ring files, the bytes an input ring delivers before it fails and the
    writes the output ring takes. *)
Record world := MkWorld {
  eval_symlinks : string -> option string;
  is_regular : string -> bool;
  ring_file : string -> option (bool * Ring.mapping);
  stream : string -> list Z;
  takes : list Z -> list Z -> bool;
  json_conversion : list Z -> option conversion;
  sha256 : list Z -> string }.

Inductive path_error := NotResolved | OutsideNamespace | NotRegularFile.

Definition want (job rank : Z) : string := "/" +:+ format_uint job +:+ "/" +:+ format_int rank +:+ "/".

Definition validRingPath (w : world) (sharedRoot value : string) (job rank : Z) : result path_error string :=
  match eval_symlinks w sharedRoot with
  | None => Err NotResolved
  | Some root =>
  match eval_symlinks w value with
  | None => Err NotResolved
  | Some path =>
  match rel root path with
  | None => Err OutsideNamespace
  | Some relative =>
      reject_if (relative =? ".")%string || has_prefix "../" relative
                || negb (contains (want job rank) ("/" +:+ relative +:+ "/")) with OutsideNamespace in
      reject_if negb (is_regular w path) with NotRegularFile in
      Ok path
  end end end.

Inductive reply :=
| Failed (status : Z) | Converted (res : conversionResult).
Definition status_of (r : reply) : Z := match r with Failed s => s | Converted _ => 200 end.

Definition identity (r : Flusher.request) : option (Z * Z) :=
  match parse_uint64 (Flusher.header r "X-Slurm-Job-Id") with
  | None => None
  | Some job =>
      if job =? 0 then None else
      match atoi (Flusher.header r "X-Slurm-Proc-Id") with
      | None => None
      | Some rank => if rank <? 0 then None else Some (job, rank)
      end
  end.

(** The part of [ServeHTTP] after the paths: the reply and the rings opened. *)
Definition run_conversion (w : world) (c : conversion) (lengths : Z * Z) (inputPath outputPath : string)
    : option (reply * list (string * bool)) :=
  match Ring.Open (ring_file w inputPath) false with
  | Err _ => Some (Failed 400, [])
  | Ok input =>
  match Ring.Open (ring_file w outputPath) true with
  | Err _ => Some (Failed 400, [(inputPath, false)])
  | Ok output =>
      let opened := [(inputPath, false); (outputPath, true)] in
      if negb (Ring.Total input =? fst lengths) || negb (Ring.Total output =? snd lengths)
      then Some (Failed 400, opened) else
      match convert (sha256 w) (takes w) c (stream w inputPath) with
      | None => None
      | Some (Err _) => Some (Failed 422, opened)
      | Some (Ok (res, _)) => Some (Converted res, opened)
      end
  end end.

Definition ServeHTTP (w : world) (sharedRoot : string) (r : Flusher.request) : option (reply * list (string * bool)) :=
  if negb (Flusher.Method r =? "POST")%string || negb (Flusher.URLPath r =? "/v1/conversions")%string
  then Some (Failed 404, []) else
  match identity r with
  | None => Some (Failed 401, [])
  | Some (job, rank) =>
  match json_conversion w (take (Z.to_nat (Z.shiftl 64 10)) (Flusher.body r)) with
  | None => Some (Failed 400, [])
  | Some c =>
  match validate c with
  | Err _ => Some (Failed 400, [])
  | Ok lengths =>
  match validRingPath w sharedRoot (InputPath c) job rank with
  | Err _ => Some (Failed 403, [])
  | Ok inputPath =>
  match validRingPath w sharedRoot (OutputPath c) job rank with
  | Err _ => Some (Failed 403, [])
  | Ok outputPath => run_conversion w c lengths inputPath outputPath
  end end end end end.

(** ** The directory of a job and rank *)

Lemma numeral_slash_free n : 0 <= n -> slash_free (format_uint n) = true.
Proof. intros H. unfold slash_free. by apply format_uint_no_sep. Qed.

Lemma hex_plain s : s <> ""%string -> string_forallb Manifest.is_hex_lower s = true -> plain s = true.
Proof.
  intros Hne Hd. unfold plain. rewrite ->!andb_true_iff, !negb_true_iff, !String.eqb_neq. split_and!; [|done|by intros ->|by intros ->].
  eapply string_forallb_impl; [|exact Hd]. intros c Hc. rewrite ->bool_decide_eq_false_2; [done|]. by intros ->.
Qed.

Lemma Forall_slash_free l : Forall (fun s => plain s = true) l -> Forall (fun s => slash_free s = true) l.
Proof. intros H. eapply Forall_impl; [exact H|]. intros s. apply plain_slash_free. Qed.

Lemma rel_below rs l :
  rs <> [] -> l <> [] -> Forall (fun s => plain s = true) (rs ++ l) -> rel (abs_path rs) (abs_path (rs ++ l)) = Some (join "/" l).
Proof.
  intros Hr Hl Hall. pose proof Hall as [Hrs _]%Forall_app. unfold rel.
  rewrite ->!clean_abs by (done || by destruct rs).
  destruct (abs_path (rs ++ l) =? abs_path rs)%string eqn:E.
  { apply String.eqb_eq, (f_equal elems) in E. rewrite ->!elems_abs in E by (done || by destruct rs).
    apply (f_equal length) in E. rewrite ->length_app in E. destruct l; cbn in E; [done|lia]. }
  assert (forall k, has_prefix "/" (abs_path k) = true) as Hp by (intros k; apply has_prefix_spec; by exists (join "/" k)).
  rewrite ->!Hp, !elems_abs, strip_common_prefix by (done || by destruct rs). done.
Qed.

(** A ring below the root is accepted exactly when the job and the rank are
    consecutive components of its path. *)
Lemma valid_path_iff w root rs l value job rank :
  rs <> [] -> l <> [] -> Forall (fun s => plain s = true) (rs ++ l) -> 0 <= job -> 0 <= rank ->
  eval_symlinks w root = Some (abs_path rs) -> eval_symlinks w value = Some (abs_path (rs ++ l)) -> is_regular w (abs_path (rs ++ l)) = true ->
  is_ok (validRingPath w root value job rank) = true <-> exists pre post, l = pre ++ format_uint job :: format_uint rank :: post.
Proof.
  intros Hr Hl Hall Hj Hk Er Ev Hreg. unfold validRingPath. rewrite ->Er, Ev, rel_below, Hreg by done.
  apply Forall_app in Hall as [_ Hp]. pose proof (Forall_slash_free _ Hp) as Hsf.
  assert ((join "/" l =? ".")%string = false) as ->.
  { apply String.eqb_neq. intros E. apply (f_equal (split_on "/")) in E. rewrite ->split_join in E by done. subst l. by apply Forall_cons in Hp as [? _]. }
  assert (has_prefix "../" (join "/" l) = false) as ->.
  { apply not_true_is_false. intros [t E]%has_prefix_spec. apply (f_equal (split_on "/")) in E. rewrite ->split_join in E by done.
    assert ("../" +:+ t = ".." +:+ String "/" t) as Et by done. rewrite ->Et, split_app in E. subst l. by apply Forall_cons in Hp as [? _]. }
  unfold want. rewrite ->Flusher.format_int_nonneg by done. rewrite <-(contains_elements l) by (done || by apply numeral_slash_free).
  destruct (contains _ _); done.
Qed.

(** What is accepted is the resolved path, for any caller. *)
Lemma valid_path_resolved w root value job rank path :
  validRingPath w root value job rank = Ok path -> eval_symlinks w value = Some path /\ is_regular w path = true.
Proof.
  unfold validRingPath. destruct (eval_symlinks w root) as [rt|]; [|done]. destruct (eval_symlinks w value) as [p|]; [|done].
  destruct (rel rt p) as [relative|]; [|done]. destruct (_ || _); [done|]. destruct (is_regular w p) eqn:E; cbn; [|done].
  by intros [= <-].
Qed.

(** ** The rings of the flusher *)

Lemma create_streams_paths env d sb reqs acc fs strs fs' name path :
  Flusher.create_streams env d sb reqs acc fs = (Ok strs, fs') -> (name, path) ∈ strs ->
  (name, path) ∈ acc \/ Flusher.streamPattern name = true /\ path = Flusher.filepath_join [d; name +:+ ".ring"].
Proof.
  revert acc fs. induction reqs as [|r reqs IH]; intros acc fs; cbn [Flusher.create_streams]; [intros [= <- <-]; by left|].
  destruct (negb (Flusher.streamPattern _)) eqn:Ep; cbn [orb]; [done|].
  destruct (_ || _); [done|]. destruct (bool_decide _); [done|]. destruct (Flusher.initialize_file _ _ _ _ _ _) as [fs1|]; [|done].
  intros E Hin. destruct (IH _ _ E Hin) as [[H|H]%elem_of_app|H]; [by left| |by right].
  apply list_elem_of_singleton in H as [= -> ->]. right. split; [by apply negb_false_iff in Ep|done].
Qed.

Lemma dec_aux_length fuel n acc k :
  0 <= n < 10 ^ Z.of_nat k -> (1 <= k)%nat -> (String.length (dec_aux fuel n acc) <= k + String.length acc)%nat.
Proof.
  revert n acc k. induction fuel as [|fuel IH]; intros n acc k Hn Hk; cbn [dec_aux]; [lia|].
  destruct (n <? 10) eqn:E; [cbn; lia|]. bool_hyps. destruct k as [|[|k]]; [lia|cbn in Hn; lia|].
  etrans; [apply (IH _ _ (S k)); [|lia]|cbn; lia].
  rewrite ->(Nat2Z.inj_succ (S k)), Z.pow_succ_r in Hn by lia. split; [apply Z.div_pos; lia|apply Z.div_lt_upper_bound; lia].
Qed.

Lemma numeral_length n : 0 <= n <= int64_max -> (String.length (format_uint n) <= 19)%nat.
Proof. intros H. etrans; [apply (dec_aux_length _ _ _ 19); [pow2; cbn; lia|lia]|cbn; lia]. Qed.

Lemma numeral_plain n : 0 <= n -> plain (format_uint n) = true.
Proof.
  intros H. apply hex_plain; [apply dec_aux_nonempty|]. eapply string_forallb_impl; [|by apply format_uint_digits].
  intros c Hc. unfold Manifest.is_hex_lower. by rewrite ->Hc.
Qed.

Lemma ring_name_plain name : Flusher.streamPattern name = true -> plain (name +:+ ".ring") = true.
Proof.
  intros H. unfold plain. rewrite ->!andb_true_iff, !negb_true_iff, !String.eqb_neq.
  assert (forall t, String.length t < 5 -> name +:+ ".ring" <> t)%nat as Hlen.
  { intros t Ht <-. rewrite ->sapp_length in Ht. cbn in Ht. lia. }
  split_and!; [|apply Hlen; cbn; lia..]. unfold slash_free. rewrite ->string_forallb_app. apply andb_true_iff. split; [|done].
  unfold Flusher.streamPattern, Manifest.idPattern, Manifest.ident_pattern in H. destruct name as [|c name]; [done|].
  apply andb_true_iff in H as [[H1 H2]%andb_true_iff _].
  assert (forall c, is_alnum c || Manifest.one_of ["."; "_"; "-"]%char c = true -> negb (bool_decide (c = "/"%char)) = true) as Hc.
  { intros c' Hc'. rewrite ->bool_decide_eq_false_2; [done|]. by intros ->. }
  cbn. apply andb_true_iff. split; [apply Hc; by rewrite ->H1|]. eapply string_forallb_impl; [exact Hc|done].
Qed.

Lemma ring_name_not_numeral name n : 0 <= n -> name +:+ ".ring" <> format_uint n.
Proof.
  intros Hn E. pose proof (format_uint_digits n Hn) as H. rewrite <-E, string_forallb_app in H. by apply andb_true_iff in H as [_ H].
Qed.

(** The path of a ring of a transaction. *)
Lemma transaction_path env s id job rk reqs s' c rs name path :
  Flusher.createTransaction env s id job rk reqs = (s', Ok c) -> (name, path) ∈ Flusher.c_Streams c ->
  Flusher.sharedRoot s = abs_path rs -> rs <> [] -> Forall (fun x => plain x = true) rs -> plain (Flusher.clusterUID s) = true ->
  Flusher.transactionPattern id = true -> 0 <= job -> 0 <= rk ->
  let l := [Flusher.clusterUID s; format_uint job; format_uint rk; id; name +:+ ".ring"] in
  Forall (fun x => plain x = true) (rs ++ l) /\ path = abs_path (rs ++ l).
Proof.
  intros E Hin Hroot Hne Hrs Huid Hid Hj Hk l. unfold Flusher.createTransaction in E.
  repeat match type of E with (if ?b then _ else _) = _ => destruct b; [done|] end.
  set (d := Flusher.filepath_join _) in E.
  destruct (Flusher.create_streams env d _ reqs [] _) as [[strs|] fs] eqn:Es; [|done]. simplify_eq. cbn in Hin.
  destruct (create_streams_paths _ _ _ _ _ _ _ _ _ _ Es Hin) as [[]%elem_of_nil|[Hp ->]].
  assert (plain id = true) as Hpid.
  { unfold Flusher.transactionPattern in Hid. apply andb_true_iff in Hid as [Hlen Hhex]. apply hex_plain; [by intros ->|done]. }
  assert (Forall (fun x => plain x = true) l) as Hl.
  { repeat constructor; [done|by apply numeral_plain..|done|by apply ring_name_plain]. }
  split; [by apply Forall_app|].
  assert (forall k, k <> [] -> Forall (fun x => plain x = true) k -> forall rs, rs <> [] -> Forall (fun x => plain x = true) rs ->
    Flusher.filepath_join (abs_path rs :: k) = abs_path (rs ++ k)) as Hjoin.
  { clear. intros k Hk Hp rs Hrs Hpr. unfold Flusher.filepath_join.
    assert (List.filter (fun e => negb (e =? "")%string) (abs_path rs :: k) = abs_path rs :: k) as ->.
    { cbn. f_equal. clear Hk. induction Hp as [|x k Hx _ IH]; [done|]. cbn. unfold plain in Hx. bool_hyps.
      rewrite ->(proj2 (String.eqb_neq x "")) by done. cbn. by rewrite ->IH. }
    rewrite ->join_abs by done. apply clean_abs; [by destruct rs|by apply Forall_app]. }
  assert (d = abs_path (rs ++ take 4 l)) as ->.
  { subst d. rewrite ->Hroot, Flusher.format_int_nonneg by done. apply Hjoin; [done| |done|done]. by apply Forall_take. }
  rewrite ->Hjoin.
  - by rewrite <-app_assoc.
  - done.
  - constructor; [by apply ring_name_plain|done].
  - by destruct rs.
  - apply Forall_app. split; [done|]. by apply Forall_take.
Qed.

(** The job and the rank are the only two consecutive numerals of such a path. *)
Lemma owner_unique uid id name job rk job' rk' pre post :
  (forall n, 0 <= n -> uid <> format_uint n) -> Flusher.transactionPattern id = true ->
  0 <= job -> 0 <= rk -> 0 <= job' -> 0 <= rk' <= int64_max ->
  [uid; format_uint job; format_uint rk; id; name +:+ ".ring"] = pre ++ format_uint job' :: format_uint rk' :: post ->
  job' = job /\ rk' = rk.
Proof.
  intros Huid Hid Hj Hk Hj' Hk' E.
  destruct pre as [|x1 pre]; [injection E as E1 _; by apply Huid in E1|]. injection E as _ E.
  destruct pre as [|x2 pre]; [injection E as E1 E2 _; split; symmetry; apply format_uint_inj; done || lia|]. injection E as _ E.
  destruct pre as [|x3 pre].
  { injection E as _ E2 _. exfalso. pose proof (numeral_length rk' Hk') as Hl. rewrite <-E2 in Hl.
    unfold Flusher.transactionPattern in Hid. apply andb_true_iff in Hid as [Hlen%Z.eqb_eq _]. lia. }
  injection E as _ E. destruct pre as [|x4 pre]; [injection E as _ E2 _; by apply ring_name_not_numeral in E2; [|lia]|].
  injection E as _ E. destruct pre as [|x5 pre]; [done|]. injection E as _ E. by destruct pre.
Qed.

(** Every ring opened has passed the check for the caller. *)
Lemma serve_opens w root r rep opened path producer :
  ServeHTTP w root r = Some (rep, opened) -> (path, producer) ∈ opened ->
  exists job rank value, identity r = Some (job, rank) /\ validRingPath w root value job rank = Ok path.
Proof.
  unfold ServeHTTP. intros H Hin. destruct (_ || _); [by simplify_eq; apply elem_of_nil in Hin|].
  destruct (identity r) as [[job rank]|]; [|by simplify_eq; apply elem_of_nil in Hin].
  destruct (json_conversion w _) as [c|]; [|by simplify_eq; apply elem_of_nil in Hin].
  destruct (validate c) as [lengths|]; [|by simplify_eq; apply elem_of_nil in Hin].
  destruct (validRingPath w root (InputPath c) job rank) as [ip|] eqn:Ei; [|by simplify_eq; apply elem_of_nil in Hin].
  destruct (validRingPath w root (OutputPath c) job rank) as [op|] eqn:Eo; [|by simplify_eq; apply elem_of_nil in Hin].
  assert (opened ⊆ [(ip, false); (op, true)]) as Hsub.
  { unfold run_conversion in H. destruct (Ring.Open (ring_file w ip) false); [|simplify_eq; set_solver].
    destruct (Ring.Open (ring_file w op) true); [|simplify_eq; set_solver]. destruct (_ || _); [by simplify_eq|].
    destruct (convert _ _ _ _) as [[[res out]|]|]; by simplify_eq. }
  apply Hsub in Hin. exists job, rank. apply elem_of_cons in Hin as [[= -> ->]|[[= -> ->]|[]%elem_of_nil]%elem_of_cons]; eauto.
Qed.

Lemma identity_range r job rank : identity r = Some (job, rank) -> 0 < job /\ 0 <= rank <= int64_max.
Proof.
  unfold identity. destruct (parse_uint64 _) as [j|] eqn:Ej; [|done]. destruct (j =? 0) eqn:E0; [done|].
  destruct (parse_int64 _) as [k|] eqn:Ek; [|done]. destruct (k <? 0) eqn:E1; [done|]. intros [= <- <-].
  apply parse_uint64_range in Ej. apply parse_int64_range in Ek. bool_hyps. lia.
Qed.

(** C20: The engine only opens the rings of its caller: whatever request is
    served, a ring it opens that belongs to a transaction of the flusher belongs
    to one of the job and the rank the request comes from. *)
Theorem engine_isolation env s id job rk reqs s' c rs name path w r rep opened producer :
  Flusher.createTransaction env s id job rk reqs = (s', Ok c) -> (name, path) ∈ Flusher.c_Streams c ->
  Flusher.sharedRoot s = abs_path rs -> rs <> [] -> Forall (fun x => plain x = true) rs ->
  plain (Flusher.clusterUID s) = true -> (forall n, 0 <= n -> Flusher.clusterUID s <> format_uint n) ->
  Flusher.transactionPattern id = true -> 0 <= job -> 0 <= rk ->
  eval_symlinks w (Flusher.sharedRoot s) = Some (Flusher.sharedRoot s) ->
  ServeHTTP w (Flusher.sharedRoot s) r = Some (rep, opened) -> (path, producer) ∈ opened ->
  identity r = Some (job, rk).
Proof.
  intros Hc Hin Hroot Hne Hrs Huid Hnum Hid Hj Hk Heval Hserve Hop.
  destruct (transaction_path _ _ _ _ _ _ _ _ _ _ _ Hc Hin Hroot Hne Hrs Huid Hid Hj Hk) as [Hall Hpath].
  destruct (serve_opens _ _ _ _ _ _ _ Hserve Hop) as (job' & rk' & value & Hident & Hvalid).
  destruct (identity_range _ _ _ Hident) as [Hj' Hk']. rewrite ->Hident.
  destruct (valid_path_resolved _ _ _ _ _ _ Hvalid) as [Hres Hreg]. rewrite ->Hroot in Heval. rewrite ->Hpath in Hres, Hreg.
  assert (is_ok (validRingPath w (Flusher.sharedRoot s) value job' rk') = true) as Hok by (by rewrite ->Hvalid).
  rewrite ->Hroot in Hok. 
  edestruct (valid_path_iff w (abs_path rs) rs) as [Hiff _]; [done| |exact Hall|..|exact Heval|exact Hres|exact Hreg|]; [done|by apply Z.lt_le_incl|apply Hk'|].
  destruct (Hiff Hok) as (pre & post & E).
  destruct (owner_unique _ _ _ _ _ _ _ _ _ Hnum Hid Hj Hk (Z.lt_le_incl _ _ Hj') Hk' E) as [-> ->]. done.
Qed.

(** ** A conversion of a worker *)

Module EngineSamples.

Definition streams : list Flusher.streamRequest := [Flusher.MkStream "in" 3; Flusher.MkStream "out" 6].
Definition created : Flusher.server * result Flusher.txn_error Flusher.createTransactionResponse :=
  Flusher.createTransaction Flusher.FlusherSamples.fs Flusher.FlusherSamples.start Flusher.FlusherSamples.id1 9 0 streams.
Definition response : Flusher.createTransactionResponse :=
  match snd created with Ok c => c | Err _ => Flusher.MkCreated "" [] 0 0 end.
Definition ring (name : string) : string :=
  "/dev/shm/ai-orch/uid/9/0/" +:+ Flusher.FlusherSamples.id1 +:+ "/" +:+ name +:+ ".ring".

Definition w : world :=
  MkWorld (fun p => Some p) (fun _ => true) (fun p => pair true <$> Flusher.files (fst created) !! p) (fun _ => [128; 0; 127])
    (fun _ _ => true)
    (fun _ => Some (MkConversion (ring "in") (ring "out") 3 "int8" "bfloat16" QuantizeSamples.half 1))
    (fun _ => "digest"%string).
Definition request : Flusher.request :=
  Flusher.MkRequest "POST" "/v1/conversions" Flusher.FlusherSamples.identity "" [123] false.

Lemma created_ok : created = (fst created, Ok response).
Proof. vm_compute. reflexivity. Qed.

Lemma uid_not_numeral n : 0 <= n -> "uid"%string <> format_uint n.
Proof. intros Hn E. pose proof (format_uint_digits n Hn) as H. by rewrite <-E in H. Qed.

End EngineSamples.

Example engine_converts :
  ServeHTTP EngineSamples.w "/dev/shm/ai-orch" EngineSamples.request =
  Some (Converted (MkResult 3 6 "digest"), [(EngineSamples.ring "in", false); (EngineSamples.ring "out", true)]).
Proof. vm_compute. reflexivity. Qed.

Lemma engine_isolation_witness : identity EngineSamples.request = Some (9, 0).
Proof.
  apply (engine_isolation Flusher.FlusherSamples.fs Flusher.FlusherSamples.start Flusher.FlusherSamples.id1 9 0 EngineSamples.streams
    (fst EngineSamples.created) EngineSamples.response ["dev"; "shm"; "ai-orch"]%string "in" (EngineSamples.ring "in") EngineSamples.w
    EngineSamples.request (Converted (MkResult 3 6 "digest"))
    [(EngineSamples.ring "in", false); (EngineSamples.ring "out", true)] false).
  - exact EngineSamples.created_ok.
  - apply (list_elem_of_lookup_2 _ 0). vm_compute. reflexivity.
  - reflexivity.
  - discriminate.
  - repeat constructor.
  - vm_compute. reflexivity.
  - exact EngineSamples.uid_not_numeral.
  - vm_compute. reflexivity.
  - lia.
  - lia.
  - reflexivity.
  - vm_compute. reflexivity.
  - left.
Defined.

End Engine.
