(* ===== verification/Optical.v ===== *)
(** * Optical: the driver of optical devices
    ([src/optical-dra-driver/internal/driver/])

    The devices come from an annotation of the node, are checked and brought to
    a normal form, published, and prepared with [DraPlugin].  The JSON decoder
    and encoder and SHA-256 are inputs. *)

From S2P Require Import Prelude GoStrings Hardware ResourceApi DraPlugin DraPluginSafety.

Module Optical.
Import ResourceApi.

Definition driverName : string := "orchestration.optical.gputpu.io".
Definition annotationPrefix : string := "orchestration.gputpu.io/".
Definition opticalInventoryAnnotation : string := annotationPrefix +:+ "optical-inventory-v1".
Definition opticalInventoryHash : string := annotationPrefix +:+ "optical-inventory-hash".
Definition opticalInventoryBootID : string := annotationPrefix +:+ "optical-inventory-boot-id".
Definition kindSwitch : string := "switch".
Definition kindCPOPhotonic : string := "cpo-photonic".
Definition kindPhysicalAsic : string := "physical-asic".
Definition attributeDomain : string := "orchestration.optical.gputpu.io/".

Record localDevice := MkOptical {
  o_Name : string; o_Kind : string; o_NUMA : Z; Model : string; Vendor : string; PartNumber : string;
  FormFactor : string; Protocol : string; ComponentRole : string; Management : string; SourceID : string;
  LinkID : string; Topology : string; Location : string; Ports : Z; BandwidthGbps : Z; WavelengthNM : Z;
  FullDuplex : bool; Lanes : Z; ReachMeters : Z; OutputPowerDBm : Z }.

#[export] Instance localDevice_eq_dec : EqDecision localDevice.
Proof. solve_decision. Defined.

Record inventory := MkInventory { nodeName : string; devices : gmap string localDevice }.
Record opticalTopology := MkTopology { t_Version : Z; t_Devices : list localDevice }.
Record opticalSummary := MkSummary { s_Version : Z; s_Driver : string; s_BootID : string; s_Devices : list localDevice }.

Inductive optical_error :=
| BadJSON | BadVersion | BadKind (name : string) | NoName | DuplicateName (name : string) | NegativeNUMA (name : string)
| NoTopology (name : string) | NegativeCapacity (name : string) | NegativeMetadata (name : string)
| BadField (name field : string) | NoLocation (name : string) | NoWavelength (name : string) | NotFullDuplex (name : string)
| NoBootID | EncodeFailed.

(** ** Normal forms *)

Definition normalize (value : string) : string := join "_" (fields_func Hardware.separator (to_lower value)).

Definition normalizeOptional (value : string) : option string :=
  let value := trim_space value in
  if (value =? "")%string then Some ""%string else
  let value := normalize value in
  if (value =? "")%string then None else Some value.

Definition switch_names : list string :=
  ["switch"; "circuit_switch"; "optical_switch"; "optical_circuit_switch"; "opticalcircuitswitch"]%string.
Definition photonic_names : list string :=
  ["cpo"; "cpophotonic"; "cpo_photonic"; "cpo-photonic"; "cpophotonicasic"; "cpophotonic-silicon"]%string.
Definition asic_names : list string :=
  ["asic"; "physical_asic"; "physical-asic"; "physicalasic"; "asic_transceiver"; "physical_asic_adapter"]%string.

Definition parseKind (raw : string) : option string :=
  let k := normalize raw in
  if bool_decide (k ∈ switch_names) then Some kindSwitch
  else if bool_decide (k ∈ photonic_names) then Some kindCPOPhotonic
  else if bool_decide (k ∈ asic_names) then Some kindPhysicalAsic
  else None.

(** ** Discovery *)

Definition field (name : string) (label value : string) : result optical_error string :=
  match normalizeOptional value with Some v => Ok v | None => Err (BadField name label) end.

(** What each kind requires. *)
Definition check_kind (name kind location : string) (d : localDevice) : result optical_error unit :=
  if (kind =? kindSwitch)%string then (reject_if (location =? "")%string with NoLocation name in Ok tt)
  else if (kind =? kindCPOPhotonic)%string then (reject_if WavelengthNM d <=? 0 with NoWavelength name in Ok tt)
  else if (kind =? kindPhysicalAsic)%string then (reject_if negb (FullDuplex d) with NotFullDuplex name in Ok tt)
  else Ok tt.

(** The body of the loop: the device as it is stored under its name. *)
Definition read_device (known : gmap string localDevice) (d : localDevice) : result optical_error localDevice :=
  match parseKind (o_Kind d) with
  | None => Err (BadKind (o_Name d))
  | Some kind =>
      let name := trim_space (o_Name d) in
      reject_if (name =? "")%string with NoName in
      reject_if bool_decide (is_Some (known !! name)) with DuplicateName name in
      reject_if o_NUMA d <? 0 with NegativeNUMA name in
      let topology := trim_space (Topology d) in
      let location := trim_space (Location d) in
      reject_if (topology =? "")%string with NoTopology name in
      reject_if (Ports d <? 0) || (BandwidthGbps d <? 0) with NegativeCapacity name in
      reject_if (Lanes d <? 0) || (ReachMeters d <? 0) || (OutputPowerDBm d <? 0) with NegativeMetadata name in
      let! vendor := field name "vendor" (Vendor d) in
      let! formFactor := field name "formFactor" (FormFactor d) in
      let! protocol := field name "protocol" (Protocol d) in
      let! componentRole := field name "componentRole" (ComponentRole d) in
      let! management := field name "managementInterface" (Management d) in
      let! _ := check_kind name kind location d in
      Ok (MkOptical name kind (o_NUMA d) (trim_space (Model d)) vendor (trim_space (PartNumber d)) formFactor protocol
            componentRole management (trim_space (SourceID d)) (trim_space (LinkID d)) topology location (Ports d)
            (BandwidthGbps d) (WavelengthNM d) (FullDuplex d) (Lanes d) (ReachMeters d) (OutputPowerDBm d))
  end.

Fixpoint read_devices (l : list localDevice) (known : gmap string localDevice) : result optical_error (gmap string localDevice) :=
  match l with
  | [] => Ok known
  | d :: l => let! d' := read_device known d in read_devices l (<[o_Name d' := d']> known)
  end.

Definition discoverInventory (json : string -> option opticalTopology) (raw node : string) : result optical_error inventory :=
  let raw := trim_space raw in
  if (raw =? "")%string then Ok (MkInventory node ∅) else
  match json raw with
  | None => Err BadJSON
  | Some topology =>
      let version := if t_Version topology =? 0 then 1 else t_Version topology in
      reject_if negb (version =? 1) with BadVersion in
      let! ds := read_devices (t_Devices topology) ∅ in
      Ok (MkInventory node ds)
  end.

(** ** Publication *)

(** [slices.Sorted(maps.Keys(inv.devices))] and the devices in that order. *)
Definition sorted_names (inv : inventory) : list string := merge_sort String.le (map fst (map_to_list (devices inv))).
Definition sorted_devices (inv : inventory) : list localDevice := omap (fun name => devices inv !! name) (sorted_names inv).

(** The encoding, the identity and the digest, in the order they are returned. *)
Definition summary (marshal : opticalSummary -> option string) (marshal_devices : list localDevice -> option string)
    (sha256 : string -> string) (inv : inventory) (bootID : string) : result optical_error (string * string * string) :=
  reject_if (bootID =? "")%string with NoBootID in
  let s := MkSummary 1 driverName bootID (sorted_devices inv) in
  match marshal s, marshal_devices (s_Devices s) with
  | Some encoded, Some identity => Ok (encoded, identity, sha256 encoded)
  | _, _ => Err EncodeFailed
  end.

Definition set_string (name value : string) (m : gmap string Attribute) : gmap string Attribute :=
  if (value =? "")%string then m else <[attributeDomain +:+ name := StringValue value]> m.
Definition set_positive (name : string) (value : Z) (m : gmap string Attribute) : gmap string Attribute :=
  if 0 <? value then <[attributeDomain +:+ name := IntValue value]> m else m.

Definition resourceDevice (d : localDevice) : Device :=
  let attrs : gmap string Attribute :=
    <[attributeDomain +:+ "kind" := stringAttribute (o_Kind d)]> (<[attributeDomain +:+ "numaNode" := intAttribute (o_NUMA d)]> ∅) in
  let attrs := set_string "model" (Model d) attrs in
  let attrs := set_string "vendor" (Vendor d) attrs in
  let attrs := set_string "partNumber" (PartNumber d) attrs in
  let attrs := set_string "formFactor" (FormFactor d) attrs in
  let attrs := set_string "protocol" (Protocol d) attrs in
  let attrs := set_string "componentRole" (ComponentRole d) attrs in
  let attrs := set_string "managementInterface" (Management d) attrs in
  let attrs := set_string "sourceId" (SourceID d) attrs in
  let attrs := set_string "linkId" (LinkID d) attrs in
  let attrs := set_string "topology" (Topology d) attrs in
  let attrs := set_string "location" (Location d) attrs in
  let attrs := set_positive "ports" (Ports d) attrs in
  let attrs := set_positive "bandwidthGbps" (BandwidthGbps d) attrs in
  let attrs := set_positive "wavelengthNm" (WavelengthNM d) attrs in
  let attrs := if (o_Kind d =? kindPhysicalAsic)%string then <[attributeDomain +:+ "fullDuplex" := BoolValue (FullDuplex d)]> attrs else attrs in
  let attrs := set_positive "lanes" (Lanes d) attrs in
  let attrs := set_positive "reachMeters" (ReachMeters d) attrs in
  let attrs := set_positive "outputPowerDbm" (OutputPowerDBm d) attrs in
  MkDevice (o_Name d) attrs ∅.

Definition resources (ResourceSliceMaxDevices : nat) (inv : inventory) : list (list Device) :=
  split_slices ResourceSliceMaxDevices (map resourceDevice (sorted_devices inv)).

Definition keys : DraPlugin.AnnotationKeys :=
  DraPlugin.MkKeys opticalInventoryAnnotation opticalInventoryHash opticalInventoryBootID.

(** ** The node plugin *)

Definition claimed_device (inv : inventory) (a : DraPlugin.AllocationResult) : option DraPlugin.ClaimDevice :=
  d ← devices inv !! DraPlugin.Device a;
  Some (DraPlugin.MkClaimDevice [DraPlugin.Request a] (DraPlugin.Pool a) (o_Name d) []).
Definition claimedDevices (inv : inventory) (results : list DraPlugin.AllocationResult) : list DraPlugin.ClaimDevice :=
  omap (claimed_device inv) results.

Definition no_device : localDevice := MkOptical "" "" 0 "" "" "" "" "" "" "" "" "" "" "" 0 0 0 false 0 0 0.

(** [json_devices] is [draplugin.JSONHash] of a list of devices. *)
Definition nodeConfig (json_devices : list localDevice -> string) (inv : inventory) : DraPlugin.Config :=
  DraPlugin.MkConfig 1 driverName (nodeName inv)
    (fun name => bool_decide (is_Some (devices inv !! name)))
    (fun names => json_devices (map (fun name => default no_device (devices inv !! name)) names))
    None
    (claimedDevices inv).

#[global] Instance nodeConfig_lawful json_devices inv : DraPlugin.LawfulConfig (nodeConfig json_devices inv).
Proof. by split. Qed.

(** ** Normal forms are fixed points *)

Lemma separator_facts c :
  Hardware.separator c = false -> is_upper c = false /\ Ascii.is_space c = false.
Proof. destruct c as [[] [] [] [] [] [] [] []]; vm_compute; auto. Qed.

Lemma normalize_words value : exists ws, normalize value = join "_" ws /\ Forall (word Hardware.separator) ws.
Proof. exists (fields_func Hardware.separator (to_lower value)). split; [done|]. apply fields_words. Qed.

Lemma words_forallb (g : ascii -> bool) ws :
  (forall c, Hardware.separator c = false -> g c = true) -> g "_"%char = true -> Forall (word Hardware.separator) ws ->
  string_forallb g (join "_" ws) = true.
Proof.
  intros Hg Hu Hws. apply string_forallb_join; [cbn; by rewrite ->Hu|]. eapply Forall_impl; [exact Hws|].
  intros w [_ Hw]. eapply string_forallb_impl; [|exact Hw]. intros c Hc. by apply Hg, negb_true_iff.
Qed.

Lemma normalize_idem value : normalize (normalize value) = normalize value.
Proof.
  destruct (normalize_words value) as (ws & E & Hws). rewrite ->E. unfold normalize.
  rewrite ->to_lower_id; [by rewrite ->fields_join|]. apply words_forallb; [|done|done].
  intros c Hc. apply separator_facts in Hc as [-> _]. done.
Qed.

Lemma normalize_trim value : trim_space (normalize value) = normalize value.
Proof.
  destruct (normalize_words value) as (ws & E & Hws). rewrite ->E. apply trim_space_id, words_forallb; [|done|done].
  intros c Hc. apply separator_facts in Hc as [_ ->]. done.
Qed.

Lemma normalizeOptional_idem value v : normalizeOptional value = Some v -> normalizeOptional v = Some v.
Proof.
  unfold normalizeOptional. destruct (trim_space value =? "")%string; [by intros [= <-]|].
  destruct (normalize (trim_space value) =? "")%string eqn:E; [done|]. intros [= <-].
  by rewrite ->normalize_trim, normalize_idem, E.
Qed.

Lemma parseKind_idem raw kind : parseKind raw = Some kind -> parseKind kind = Some kind.
Proof. unfold parseKind at 1. repeat (destruct (bool_decide _); [intros [= <-]; vm_compute; reflexivity|]). done. Qed.

(** A device in normal form that meets the requirements of its kind. *)
Record valid_device (d : localDevice) : Prop := {
  vd_kind : o_Kind d = kindSwitch /\ Location d <> "" \/ o_Kind d = kindCPOPhotonic /\ 0 < WavelengthNM d \/
            o_Kind d = kindPhysicalAsic /\ FullDuplex d = true;
  vd_name : o_Name d <> "" /\ Topology d <> "";
  vd_numbers : 0 <= o_NUMA d /\ 0 <= Ports d /\ 0 <= BandwidthGbps d /\ 0 <= Lanes d /\ 0 <= ReachMeters d /\ 0 <= OutputPowerDBm d;
  vd_normal : forall known, known !! o_Name d = None -> read_device known d = Ok d }.

Lemma check_kind_ok name kind location d :
  parseKind kind = Some kind -> check_kind name kind location d = Ok tt ->
  kind = kindSwitch /\ location <> "" \/ kind = kindCPOPhotonic /\ 0 < WavelengthNM d \/ kind = kindPhysicalAsic /\ FullDuplex d = true.
Proof.
  intros Hk. unfold check_kind. destruct (kind =? kindSwitch)%string eqn:E1.
  { apply String.eqb_eq in E1 as ->. destruct (location =? "")%string eqn:E; [done|]. apply String.eqb_neq in E. by left. }
  destruct (kind =? kindCPOPhotonic)%string eqn:E2.
  { apply String.eqb_eq in E2 as ->. destruct (WavelengthNM d <=? 0) eqn:E; [done|]. right. left. split; [done|lia]. }
  destruct (kind =? kindPhysicalAsic)%string eqn:E3.
  { apply String.eqb_eq in E3 as ->. destruct (FullDuplex d) eqn:E; [|done]. right. by right. }
  intros _. exfalso. apply String.eqb_neq in E1, E2, E3. revert Hk. unfold parseKind.
  repeat (destruct (bool_decide _); [by intros [= H]|]). done.
Qed.

Lemma field_ok name label value v : field name label value = Ok v -> field name label v = Ok v.
Proof.
  unfold field. destruct (normalizeOptional value) as [v'|] eqn:E; [|done]. intros [= <-]. by rewrite ->(normalizeOptional_idem _ _ E).
Qed.

Lemma read_device_valid known d d' :
  read_device known d = Ok d' -> known !! o_Name d' = None /\ valid_device d'.
Proof.
  unfold read_device. intros E. destruct (parseKind (o_Kind d)) as [kind|] eqn:Ek; [|done]. apply parseKind_idem in Ek.
  destruct (trim_space (o_Name d) =? "")%string eqn:E1; [done|]. destruct (bool_decide _) eqn:E2; [done|].
  destruct (o_NUMA d <? 0) eqn:E3; [done|]. destruct (trim_space (Topology d) =? "")%string eqn:E4; [done|].
  destruct (_ || _) eqn:E5 in E; [done|]. destruct (_ || _) eqn:E6 in E; [done|].
  destruct (field _ "vendor" _) as [v1|] eqn:F1; [|done]. destruct (field _ "formFactor" _) as [v2|] eqn:F2; [|done].
  destruct (field _ "protocol" _) as [v3|] eqn:F3; [|done]. destruct (field _ "componentRole" _) as [v4|] eqn:F4; [|done].
  destruct (field _ "managementInterface" _) as [v5|] eqn:F5; [|done]. destruct (check_kind _ _ _ _) as [[]|] eqn:Ec; [|done].
  apply field_ok in F1, F2, F3, F4, F5. injection E as <-. cbn [o_Name].
  split; [apply bool_decide_eq_false in E2; by apply eq_None_not_Some|].
  split; cbn [o_Kind o_Name o_NUMA Topology Location WavelengthNM FullDuplex Ports BandwidthGbps Lanes ReachMeters OutputPowerDBm].
  - by apply check_kind_ok in Ec.
  - by apply String.eqb_neq in E1, E4.
  - bool_hyps. lia.
  - intros known' Hn. unfold read_device. cbn [o_Kind o_Name o_NUMA Topology Location WavelengthNM FullDuplex Ports BandwidthGbps Lanes
      ReachMeters OutputPowerDBm Vendor FormFactor Protocol ComponentRole Management Model PartNumber SourceID LinkID].
    rewrite ->Ek, !trim_space_idem, E1, Hn, E3, E4, E5, E6, F1, F2, F3, F4, F5. cbn [bool_decide].
    rewrite ->bool_decide_eq_false_2 by (by intros [? ?]). unfold check_kind in *. cbn. by rewrite ->Ec.
Qed.

(** ** The inventory *)

Definition keyed (m : gmap string localDevice) : Prop := forall name d, m !! name = Some d -> o_Name d = name /\ valid_device d.

Lemma read_devices_keyed l known m : read_devices l known = Ok m -> keyed known -> keyed m.
Proof.
  revert known. induction l as [|d l IH]; intros known E Hk; cbn [read_devices] in E; [by simplify_eq|].
  destruct (read_device known d) as [d'|] eqn:Ed; [|done]. apply (IH _ E). intros name x H.
  apply lookup_insert_Some in H as [[<- <-]|[_ H]]; [|by apply Hk]. split; [done|]. by apply read_device_valid in Ed as [_ ?].
Qed.

Lemma discovered_keyed json raw node inv : discoverInventory json raw node = Ok inv -> keyed (devices inv) /\ nodeName inv = node.
Proof.
  assert (keyed ∅) as H0 by (intros name d H; by rewrite ->lookup_empty in H).
  unfold discoverInventory. destruct (trim_space raw =? "")%string; [by intros [= <-]|].
  destruct (json _) as [t|]; [|done]. destruct (negb _); [done|]. destruct (read_devices _ _) as [m|] eqn:E; [|done].
  intros [= <-]. split; [|done]. by eapply read_devices_keyed.
Qed.

Lemma read_devices_back l known :
  Forall valid_device l -> NoDup (o_Name <$> l) -> (forall d, d ∈ l -> known !! o_Name d = None) ->
  exists m, read_devices l known = Ok m /\ forall k d, m !! k = Some d <-> known !! k = Some d \/ d ∈ l /\ o_Name d = k.
Proof.
  intros Hv. revert known. induction Hv as [|d l Hd Hl IH]; intros known Hnd Hk; cbn [read_devices].
  { exists known. split; [done|]. intros k d. rewrite ->elem_of_nil. tauto. }
  apply NoDup_cons in Hnd as [Hnew Hnd]. rewrite ->(vd_normal _ Hd) by (apply Hk; by left).
  destruct (IH (<[o_Name d := d]> known)) as (m & -> & Hm); [done| |].
  { intros d' Hd'. rewrite ->lookup_insert_ne; [apply Hk; by right|]. intros E. apply Hnew. rewrite ->E. by apply list_elem_of_fmap_2. }
  exists m. split; [done|]. intros k x. rewrite ->Hm, lookup_insert_Some, elem_of_cons. split.
  - intros [[[<- <-]|[_ H]]|[H1 H2]]; [right; split; [by left|done]|by left|right; split; [by right|done]].
  - intros [H|[[->|H] <-]]; [|by left; left|by right]. left. right. split; [|done].
    intros <-. rewrite ->Hk in H by (by left). done.
Qed.

Lemma sorted_devices_spec inv :
  keyed (devices inv) ->
  Forall valid_device (sorted_devices inv) /\ NoDup (o_Name <$> sorted_devices inv) /\
  forall k d, devices inv !! k = Some d <-> d ∈ sorted_devices inv /\ o_Name d = k.
Proof.
  intros Hk. unfold sorted_devices. set (names := sorted_names inv).
  assert (forall k, k ∈ names <-> is_Some (devices inv !! k)) as Hin.
  { intros k. subst names. unfold sorted_names. rewrite ->merge_sort_Permutation. split.
    - intros H. apply list_elem_of_In, in_map_iff in H as ([k' d] & <- & H). apply list_elem_of_In, elem_of_map_to_list in H. eauto.
    - intros [d H]. apply list_elem_of_In, in_map_iff. exists (k, d). split; [done|]. by apply list_elem_of_In, elem_of_map_to_list. }
  assert (NoDup names) as Hnd.
  { subst names. unfold sorted_names. rewrite ->merge_sort_Permutation. apply NoDup_fst_map_to_list. }
  assert (o_Name <$> omap (fun name => devices inv !! name) names = names) as En.
  { assert (forall k, k ∈ names -> is_Some (devices inv !! k)) as Hall by (intros k; apply Hin). clear Hin Hnd.
    induction names as [|k names IH]; [done|]. cbn. destruct (Hall k ltac:(by left)) as [d Hd]. rewrite ->Hd. cbn.
    destruct (Hk _ _ Hd) as [-> _]. f_equal. apply IH. intros k' H'. apply Hall. by right. }
  assert (forall d, d ∈ omap (fun name => devices inv !! name) names -> devices inv !! o_Name d = Some d) as Hel.
  { intros d Hd. apply list_elem_of_omap in Hd as (k & _ & Hd). by destruct (Hk _ _ Hd) as [-> _]. }
  split_and!.
  - apply Forall_forall. intros d Hd. by destruct (Hk _ _ (Hel d Hd)).
  - by rewrite ->En.
  - intros k d. split.
    + intros Hd. destruct (Hk _ _ Hd) as [<- _]. split; [|done]. apply list_elem_of_omap. exists (o_Name d). split; [|done]. apply Hin. eauto.
    + intros [Hd <-]. by apply Hel.
Qed.

(** Discovery brings the topology to a normal form: reading back the devices
    of an inventory gives the same inventory. *)
Theorem topology_normal_form json raw raw' node inv :
  discoverInventory json raw node = Ok inv -> trim_space raw' <> "" ->
  json (trim_space raw') = Some (MkTopology 1 (sorted_devices inv)) ->
  discoverInventory json raw' node = Ok inv.
Proof.
  intros E Hne Hjson. destruct (discovered_keyed _ _ _ _ E) as [Hk Hn]. destruct (sorted_devices_spec _ Hk) as (Hv & Hnd & Hin).
  unfold discoverInventory. apply String.eqb_neq in Hne. rewrite ->Hne, Hjson. cbn [t_Version t_Devices].
  destruct (read_devices_back (sorted_devices inv) ∅ Hv Hnd) as (m & E' & Hm); [intros; apply lookup_empty|]. cbn.
  rewrite ->E'. destruct inv as [n ds]. cbn in *. subst n. do 2 f_equal. apply map_eq. intros k. apply option_eq. intros d.
  rewrite ->Hm, Hin, lookup_empty. naive_solver.
Qed.

(** In every reachable state of the optical driver, over failing calls,
    crashes and restarts, no device is prepared for two claims, and every device
    prepared is one of the discovered ones and meets the requirements of its
    kind: a switch has a location, a photonic device a wavelength, and a physical
    ASIC is full duplex. *)
Theorem optical_claims_exclusive {File} `{!DraPlugin.JSONFile File} json raw node inv json_hash json_devices es p d :
  discoverInventory json raw node = Ok inv ->
  DraPlugin.execution json_hash (nodeConfig json_devices inv) (None, ∅) es (Some p, d) ->
  (forall u u' r r' x, p !! u = Some r -> p !! u' = Some r' -> x ∈ DraPlugin.Devices r -> x ∈ DraPlugin.Devices r' -> u = u') /\
  forall u r x, p !! u = Some r -> x ∈ DraPlugin.Devices r ->
    exists dev, devices inv !! x = Some dev /\ o_Name dev = x /\ valid_device dev.
Proof.
  intros E Hex. destruct (discovered_keyed _ _ _ _ E) as [Hk _].
  destruct (DraPluginSafety.execution_settled _ _ _ _ Hex) as (m & (_ & Hv & Hx & Hm) & _).
  rewrite ->(Hm p eq_refl). split; [exact Hx|]. intros u r x Hu Hin.
  apply (map_Forall_lookup_1 _ _ _ _ Hv) in Hu as Hr. destruct Hr as [_ _ _ Hp _ _]. rewrite ->Forall_forall in Hp.
  apply Hp in Hin. cbn in Hin. apply bool_decide_eq_true in Hin as [dev Hd]. exists dev. split; [done|]. by apply Hk.
Qed.

(** ** A node with a switch *)

Module OpticalSamples.
Import DraPlugin DraPluginSafety.PluginSamples.

Definition raw_switch : localDevice :=
  MkOptical " ocs-1 " "Optical Circuit Switch" 0 "" "Coherent Corp." "" "" "" "" "" "" "" "ring" "rack-4" 64 800 0 false 0 0 0.
Definition switch : localDevice :=
  MkOptical "ocs-1" "switch" 0 "" "coherent_corp" "" "" "" "" "" "" "" "ring" "rack-4" 64 800 0 false 0 0 0.
Definition json (raw : string) : option opticalTopology :=
  if (raw =? "t")%string then Some (MkTopology 0 [raw_switch]) else Some (MkTopology 1 [switch]).
Definition inv : inventory := MkInventory "node-1" {["ocs-1" := switch]}.
Definition cfg : Config := nodeConfig (fun l => join "+" (map o_Name l)) inv.

Definition claim : ResourceClaim := MkClaim "a" "default" "claim-a" (Some [MkAllocation "r" driverName "node-1" "ocs-1" ""]).
Abbreviation state := (gmap string PreparedClaim * gmap string PreparedClaim)%type.
Definition prepared : state := fst (prepare_claim hash cfg (save "1" None) claim (∅, ∅)).

Lemma discovered : discoverInventory json " t" "node-1" = Ok inv.
Proof. vm_compute. reflexivity. Qed.

Lemma optical_run_executes :
  execution hash cfg (None, ∅) ([] ++ (grant ∅ claim ++ [replied claim]) ++ []) (Some (fst prepared), snd prepared).
Proof.
  eapply execution_step; [apply (step_start _ _ true (fun _ => true)); vm_compute; reflexivity|].
  eapply execution_step; [|apply execution_nil].
  destruct (snd (prepare_claim hash cfg (save "1" None) claim (∅, ∅))) as [ds|] eqn:E; [|by vm_compute in E].
  eapply (step_prepare _ _ (save "1" None) claim ∅ ∅ _ _ ds); [done| |].
  - split; [vm_compute; reflexivity|apply lookup_empty].
  - rewrite <-E. unfold prepared. by destruct (prepare_claim _ _ _ _ _) as [[? ?] ?].
Qed.

End OpticalSamples.

Lemma topology_normal_form_witness : discoverInventory OpticalSamples.json "u" "node-1" = Ok OpticalSamples.inv.
Proof.
  apply (topology_normal_form OpticalSamples.json " t" "u" "node-1" OpticalSamples.inv).
  - exact OpticalSamples.discovered.
  - discriminate.
  - vm_compute. reflexivity.
Defined.

Lemma optical_claims_exclusive_witness :
  exists dev, devices OpticalSamples.inv !! "ocs-1" = Some dev /\ o_Name dev = "ocs-1"%string /\ valid_device dev.
Proof.
  destruct (optical_claims_exclusive OpticalSamples.json " t" "node-1" OpticalSamples.inv DraPluginSafety.PluginSamples.hash
    (fun l => join "+" (map o_Name l)) _ _ _ OpticalSamples.discovered OpticalSamples.optical_run_executes) as [_ H].
  destruct (fst OpticalSamples.prepared !! "a"%string) as [r|] eqn:E; [|by vm_compute in E].
  apply (H "a"%string r "ocs-1"%string E). vm_compute in E. injection E as <-. left.
Defined.

End Optical.
