(* ===== verification/Verifier.v ===== *)
(** * Verifier: the hardware check of a recovered node
    ([src/slurm-compute-node/cmd/hardware-verifier/main.go])

    The program the verification Jobs run on a node after its reboot: CPU
    arithmetic, memory, GPUs and OpenTPU profiles.  What the memory gives back,
    the rows of [nvidia-smi] and the results of the two Python programs are
    inputs.  The last part composes it with the Jobs the recovery controller
    creates. *)

From S2P Require Import Prelude GoStrings Hardware WorkerPlan Effects Recovery.

Module Verifier.

Record openTPUProfile := MkProfile { p_Profile : string; p_MatrixSize : Z }.

Inductive verify_error :=
| CPUFailed | BadMemorySize | MemoryMismatch (i : Z) | SMIFailed | WrongGPUs | CUDAFailed (uuid : string)
| BadProfiles | InvalidProfile (profile : string) | OpenTPUFailed (profile : string).

(** What the checks meet: the byte an address gives back after a byte was
    stored, the rows of [nvidia-smi] ([None]: the query or the parse failed),
    the two Python programs, the JSON decoder and the environment. *)
Record machine := MkMachine {
  read_back : Z -> Z -> Z;
  smi_rows : option (list (list string));
  cuda_smoke : string -> bool;
  opentpu_verify : Z -> bool;
  json_profiles : string -> option (list openTPUProfile);
  getenv : string -> string }.

(** ** CPU *)

Definition size : Z := 32.
Definition term (row column k : Z) : Z := (Z.rem (row + k) 17 - 8) * (Z.rem (k * 3 + column) 19 - 9).
Definition cell_value (row column : Z) : Z := foldl (fun v k => wrap64 (v + term row column k)) 0 (seqZ 0 size).
Definition add_cell (checksum value : Z) : Z := wrapu64 (wrapu64 (checksum * 1099511628211) + wrapu64 value).
Definition cpu_checksum : Z :=
  foldl (fun sum row => foldl (fun sum column => add_cell sum (cell_value row column)) sum (seqZ 0 size)) 0 (seqZ 0 size).
Definition cpuCheck : bool := cpu_checksum =? 11265742251464690536.

(** ** Memory *)

Definition pattern (i : Z) : Z := Z.rem (i * 131 + 17) 251 mod 256.

(** The second loop of [memoryCheck], from byte [i]. *)
Fixpoint memory_loop (m : machine) (i : Z) (n : nat) : result verify_error unit :=
  match n with
  | O => Ok tt
  | S n => reject_if negb (read_back m i (pattern i) =? pattern i) with MemoryMismatch i in memory_loop m (i + 1) n
  end.
Definition memoryCheck (m : machine) (bytes : Z) : result verify_error unit := memory_loop m 0 (Z.to_nat bytes).

(** ** GPUs *)

Definition comma_or_space (c : ascii) : bool := bool_decide (c = ","%char) || bool_decide (c = " "%char).
Definition one_field (row : list string) : option string := match row with [x] => Some (trim_space x) | _ => None end.

Fixpoint cuda_loop (m : machine) (uuids : list string) : result verify_error unit :=
  match uuids with
  | [] => Ok tt
  | u :: uuids => reject_if negb (cuda_smoke m u) with CUDAFailed u in cuda_loop m uuids
  end.

Definition gpuCheck (m : machine) (raw : string) : result verify_error unit :=
  let expected := fields_func comma_or_space raw in
  if bool_decide (expected = []) then Ok tt else
  let expected := merge_sort String.le expected in
  match smi_rows m with
  | None => Err SMIFailed
  | Some rows =>
      let actual := merge_sort String.le (omap one_field rows) in
      reject_if negb (bool_decide (actual = expected)) with WrongGPUs in
      cuda_loop m expected
  end.

(** ** OpenTPU profiles *)

Fixpoint profile_loop (m : machine) (ps : list openTPUProfile) : result verify_error unit :=
  match ps with
  | [] => Ok tt
  | p :: ps =>
      reject_if (p_Profile p =? "")%string || (negb (p_MatrixSize p =? 8) && negb (p_MatrixSize p =? 16))
        with InvalidProfile (p_Profile p) in
      reject_if negb (opentpu_verify m (p_MatrixSize p)) with OpenTPUFailed (p_Profile p) in
      profile_loop m ps
  end.

Definition decode_profiles (m : machine) : result verify_error (list openTPUProfile) :=
  let raw := getenv m "OPENTPU_VERIFY_PROFILES" in
  if (raw =? "")%string then Ok [] else
  match json_profiles m raw with Some ps => Ok ps | None => Err BadProfiles end.

(** [cmp.Or(os.Getenv("MEMORY_CHECK_BYTES"), "67108864")] *)
Definition memory_setting (m : machine) : string :=
  let raw := getenv m "MEMORY_CHECK_BYTES" in if (raw =? "")%string then "67108864"%string else raw.

Definition run (m : machine) : result verify_error unit :=
  reject_if negb cpuCheck with CPUFailed in
  match parse_int64 (memory_setting m) with
  | None => Err BadMemorySize
  | Some bytes =>
      reject_if (bytes <? Z.shiftl 1 20) || (Z.shiftl 1 30 <? bytes) with BadMemorySize in
      let! _ := memoryCheck m bytes in
      let! _ := gpuCheck m (getenv m "EXPECTED_GPU_UUIDS") in
      let! profiles := decode_profiles m in
      profile_loop m profiles
  end.

(** ** What passing means *)

(** The constant is the checksum of correct arithmetic. *)
Lemma cpu_check_passes : cpuCheck = true.
Proof. vm_compute. reflexivity. Qed.

Lemma memory_loop_ok m i n : memory_loop m i n = Ok tt <-> forall k, i <= k < i + Z.of_nat n -> read_back m k (pattern k) = pattern k.
Proof.
  revert i. induction n as [|n IH]; intros i; cbn [memory_loop]; [split; [intros _ k H; lia|done]|].
  destruct (read_back m i (pattern i) =? pattern i) eqn:E; bool_hyps; cbn [negb].
  - rewrite ->IH. split; intros H k Hk; [destruct (decide (k = i)) as [->|]; [done|apply H; lia]|apply H; lia].
  - split; [done|]. intros H. by rewrite ->H in E by lia.
Qed.

Lemma cuda_loop_ok m l : cuda_loop m l = Ok tt <-> forall u, u ∈ l -> cuda_smoke m u = true.
Proof.
  induction l as [|u l IH]; cbn [cuda_loop]; [split; [intros _ u H; by apply elem_of_nil in H|done]|].
  destruct (cuda_smoke m u) eqn:E; cbn [negb].
  - rewrite ->IH. split; intros H x Hx; [apply elem_of_cons in Hx as [->|Hx]; auto|apply H; by right].
  - split; [done|]. intros H. rewrite ->H in E by (by left). done.
Qed.

Lemma gpuCheck_ok m raw :
  gpuCheck m raw = Ok tt <->
  let expected := fields_func comma_or_space raw in
  expected = [] \/ (exists rows, smi_rows m = Some rows /\ omap one_field rows ≡ₚ expected) /\ forall u, u ∈ expected -> cuda_smoke m u = true.
Proof.
  unfold gpuCheck. cbv zeta. set (expected := fields_func comma_or_space raw). destruct (bool_decide (expected = [])) eqn:E; bool_hyps.
  { split; [by left|done]. }
  destruct (smi_rows m) as [rows|]; [|split; [done|intros [?|[(? & ? & _) _]]; done]].
  destruct (bool_decide (merge_sort String.le (omap one_field rows) = merge_sort String.le expected)) eqn:Es; bool_hyps; cbn [negb].
  - assert (omap one_field rows ≡ₚ expected) as Hp by (rewrite <-(merge_sort_Permutation String.le (omap _ _)), Es; apply merge_sort_Permutation).
    rewrite ->cuda_loop_ok. split.
    + intros H. right. split; [by exists rows|]. intros u Hu. apply H. by rewrite ->merge_sort_Permutation.
    + intros [?|[_ H]] u Hu; [done|]. rewrite ->merge_sort_Permutation in Hu. by apply H.
  - split; [done|]. intros [?|[(? & [= <-] & Hp) _]]; [done|]. exfalso. apply Es.
    refine (merge_sort_perm String.le _ _ _ Hp). intros x y _ _. apply (anti_symm String.le).
Qed.

Lemma profile_loop_ok m ps :
  profile_loop m ps = Ok tt <->
  Forall (fun p => p_Profile p <> "" /\ (p_MatrixSize p = 8 \/ p_MatrixSize p = 16) /\ opentpu_verify m (p_MatrixSize p) = true) ps.
Proof.
  induction ps as [|p ps IH]; cbn [profile_loop]; [by split|]. rewrite ->Forall_cons, <-IH.
  destruct (p_Profile p =? "")%string eqn:E1; bool_hyps; cbn [orb]; [split; [done|by intros [[? _] _]]|].
  destruct (negb (p_MatrixSize p =? 8) && negb (p_MatrixSize p =? 16)) eqn:E2.
  { apply andb_true_iff in E2 as [E2 E3]. bool_hyps. split; [done|]. intros [(_ & ? & _) _]. lia. }
  assert (p_MatrixSize p = 8 \/ p_MatrixSize p = 16) as Hm by (apply andb_false_iff in E2 as [E2|E2]; bool_hyps; auto).
  destruct (opentpu_verify m (p_MatrixSize p)) eqn:E4; cbn [negb]; [|split; [done|by intros [(_ & _ & ?) _]]].
  split; [done|by intros [_ ?]].
Qed.

(** The checks a node has to pass. *)
Definition passes (m : machine) (bytes : Z) (profiles : list openTPUProfile) : Prop :=
  parse_int64 (memory_setting m) = Some bytes /\ 2 ^ 20 <= bytes <= 2 ^ 30 /\
  (forall i, 0 <= i < bytes -> read_back m i (pattern i) = pattern i) /\
  (let expected := fields_func comma_or_space (getenv m "EXPECTED_GPU_UUIDS") in
   expected = [] \/ (exists rows, smi_rows m = Some rows /\ omap one_field rows ≡ₚ expected) /\ forall u, u ∈ expected -> cuda_smoke m u = true) /\
  decode_profiles m = Ok profiles /\
  Forall (fun p => p_Profile p <> "" /\ (p_MatrixSize p = 8 \/ p_MatrixSize p = 16) /\ opentpu_verify m (p_MatrixSize p) = true) profiles.

Lemma run_ok m : run m = Ok tt <-> exists bytes profiles, passes m bytes profiles.
Proof.
  unfold run, passes. rewrite ->cpu_check_passes. cbn [negb]. destruct (parse_int64 (memory_setting m)) as [bytes|]; [|split; [done|by intros (? & ? & ? & _)]].
  change (Z.shiftl 1 20) with (2 ^ 20). change (Z.shiftl 1 30) with (2 ^ 30).
  destruct (_ || _) eqn:Eb.
  { split; [done|]. intros (? & ? & [= <-] & ? & _). apply orb_true_iff in Eb as [Eb|Eb]; bool_hyps; lia. }
  apply orb_false_iff in Eb as [E1 E2]. bool_hyps. unfold memoryCheck.
  pose proof (memory_loop_ok m 0 (Z.to_nat bytes)) as Hm. rewrite ->Z.add_0_l, Z2Nat.id in Hm by lia.
  pose proof (gpuCheck_ok m (getenv m "EXPECTED_GPU_UUIDS")) as Hg. split.
  - intros H. destruct (memory_loop _ _ _) as [[]|]; [|done]. destruct (gpuCheck _ _) as [[]|]; [|done].
    destruct (decode_profiles m) as [ps|]; [|done]. exists bytes, ps. split_and!; try done; [by apply Hm|by apply Hg|by apply profile_loop_ok].
  - intros (? & ps & [= <-] & _ & H1%Hm & H2%Hg & -> & H3%profile_loop_ok). by rewrite ->H1, H2.
Qed.

(** ** The Jobs of the recovery controller *)

(** The memory a Job of the controller checks. *)
Definition job_bytes (c : Hardware.Cell) : Z :=
  match Recovery.add_profiles (Hardware.OpenTPUs c) (1, Hardware.MemoryUnitBytes c, Z.shiftl 64 20) with
  | Ok (_, memoryBytes, _) => Z.min memoryBytes (Z.shiftl 64 20)
  | Err _ => 0
  end.

(** The value of a variable of a container. *)
Definition variable (vars : list (string * string)) (name : string) : string :=
  default "" (snd <$> List.find (fun v => (fst v =? name)%string) vars).

Lemma add_profiles_valid ps acc out :
  Recovery.add_profiles ps acc = Ok out ->
  Forall (fun p => Hardware.MatrixSize p = 8 \/ Hardware.MatrixSize p = 16) ps /\
  (ps = [] /\ out = acc \/ int64_min <= snd (fst out) <= int64_max).
Proof.
  revert acc. induction ps as [|p ps IH]; intros acc E; cbn [Recovery.add_profiles] in E; [simplify_eq; by split; [|left]|].
  destruct (negb (Recovery.valid_profile p)) eqn:Ev; [done|]. destruct acc as [[cpus memory] shared].
  destruct (IH _ E) as [Hall Hr]. split.
  - constructor; [|done]. unfold Recovery.valid_profile in Ev. apply negb_false_iff, negb_true_iff in Ev.
    apply orb_false_iff in Ev as [_ Ev]. apply andb_false_iff in Ev as [Ev|Ev]; bool_hyps; auto.
  - right. destruct Hr as [[-> ->]|Hr]; [|done]. cbn. apply wrap64_range.
Qed.

(** C22: The verification Job of a NUMA node checks that node: in the environment
    the recovery controller gives it, the verifier succeeds exactly when the
    memory gives back what was stored, the visible GPUs are those of the node's
    inventory and all compute, and every OpenTPU profile of the inventory is
    verified. *)
Theorem verification_covers_cell encode_profiles n c requests pod m :
  Recovery.verifierObjects encode_profiles n c = Ok (requests, pod) ->
  (forall name, getenv m name = variable (Recovery.v_Env pod) name) ->
  int64_min <= Hardware.MemoryUnitBytes c <= int64_max ->
  Forall (word comma_or_space) (map Hardware.UUID (Hardware.GPUs c)) ->
  encode_profiles (Hardware.OpenTPUs c) <> "" ->
  json_profiles m (encode_profiles (Hardware.OpenTPUs c)) =
    Some (map (fun p => MkProfile (Hardware.Profile p) (Hardware.MatrixSize p)) (Hardware.OpenTPUs c)) ->
  run m = Ok tt <->
  2 ^ 20 <= job_bytes c /\ (forall i, 0 <= i < job_bytes c -> read_back m i (pattern i) = pattern i) /\
  (Hardware.GPUs c = [] \/
   (exists rows, smi_rows m = Some rows /\ omap one_field rows ≡ₚ map Hardware.UUID (Hardware.GPUs c)) /\
   forall g, g ∈ Hardware.GPUs c -> cuda_smoke m (Hardware.UUID g) = true) /\
  Forall (fun p => Hardware.Profile p <> "" /\ opentpu_verify m (Hardware.MatrixSize p) = true) (Hardware.OpenTPUs c).
Proof.
  intros E Henv Hunit Huuid Hne Hjson. unfold Recovery.verifierObjects in E. unfold job_bytes.
  destruct (Recovery.add_profiles _ _) as [[[cpus memoryBytes] shared]|] eqn:Ea; [|done].
  destruct (_ <? cpus); [done|]. destruct (_ <? _); [done|]. simplify_eq. cbn [Recovery.v_Env] in Henv.
  destruct (add_profiles_valid _ _ _ Ea) as [Hsizes Hmem]. cbn [fst snd] in Hmem.
  set (bytes := Z.min memoryBytes (Z.shiftl 64 20)) in *. change (Z.shiftl 64 20) with (2 ^ 26) in *.
  assert (int64_min <= bytes <= 2 ^ 26) as Hb by (subst bytes; destruct Hmem as [[_ [= _ -> _]]|?]; pow2; lia).
  assert (parse_int64 (memory_setting m) = Some bytes) as Hparse.
  { unfold memory_setting. rewrite ->Henv. change (variable _ "MEMORY_CHECK_BYTES") with (format_int bytes).
    destruct (format_int bytes =? "")%string eqn:E0; [|apply parse_format_int; pow2; lia].
    apply String.eqb_eq in E0. pose proof (parse_format_int bytes ltac:(pow2; lia)) as H. by rewrite ->E0 in H. }
  assert (fields_func comma_or_space (getenv m "EXPECTED_GPU_UUIDS") = merge_sort String.le (map Hardware.UUID (Hardware.GPUs c))) as Hgpus.
  { rewrite ->Henv. apply (fields_join comma_or_space ","%char); [done|]. by rewrite ->merge_sort_Permutation. }
  assert (decode_profiles m = Ok (map (fun p => MkProfile (Hardware.Profile p) (Hardware.MatrixSize p)) (Hardware.OpenTPUs c))) as Hdec.
  { unfold decode_profiles. rewrite ->Henv. change (variable _ "OPENTPU_VERIFY_PROFILES") with (encode_profiles (Hardware.OpenTPUs c)).
    apply String.eqb_neq in Hne. by rewrite ->Hne, Hjson. }
  assert (merge_sort String.le (map Hardware.UUID (Hardware.GPUs c)) = [] <-> Hardware.GPUs c = []) as Hnil.
  { pose proof (merge_sort_Permutation String.le (map Hardware.UUID (Hardware.GPUs c))) as Hp. split; intros H.
    - rewrite ->H in Hp. apply Permutation_nil in Hp. by destruct (Hardware.GPUs c).
    - by rewrite ->H. }
  assert (forall u, u ∈ merge_sort String.le (map Hardware.UUID (Hardware.GPUs c)) <-> exists g, u = Hardware.UUID g /\ g ∈ Hardware.GPUs c) as Hin.
  { intros u. rewrite ->merge_sort_Permutation. apply list_elem_of_fmap. }
  rewrite ->run_ok. unfold passes. rewrite ->Hparse, Hgpus, Hdec. cbv zeta. split.
  - intros (b & ps & [= <-] & Hr & Hm & Hg & [= <-] & Hp). split_and!; [lia|done| |].
    + destruct Hg as [?%Hnil|[(rows & Hs & Hpm) Hc]]; [by left|right].
      split; [exists rows; split; [done|by rewrite ->Hpm, merge_sort_Permutation]|]. intros g Hgin. apply Hc, Hin. eauto.
    + apply Forall_map in Hp. eapply Forall_impl; [exact Hp|]. by intros p (? & _ & ?).
  - intros (Hr & Hm & Hg & Hp). exists bytes. eexists. split; [done|]. split; [lia|]. split; [done|]. split; [|split; [done|]].
    + destruct Hg as [?|[(rows & Hs & Hpm) Hc]]; [left; by apply Hnil|right].
      split; [exists rows; split; [done|by rewrite ->Hpm, merge_sort_Permutation]|]. intros u (g & -> & Hgin)%Hin. by apply Hc.
    + apply Forall_map, Forall_forall. intros p Hpin. rewrite ->Forall_forall in Hp, Hsizes. destruct (Hp p Hpin). split_and!; [done|by apply Hsizes|done].
Qed.

(** ** A node with a GPU *)

Module VerifierSamples.

Definition cell : Hardware.Cell :=
  Hardware.MkCell 0 8 64 (2 ^ 30) [Hardware.MkGPU "GPU-B" "a100" "0:2"; Hardware.MkGPU "GPU-A" "a100" "0:1"]
    [Hardware.MkOpenTPU "small" 1 8 2 (2 ^ 30) 0].
Definition encode (_ : list Hardware.OpenTPU) : string := "profiles".
Definition built : result Recovery.recovery_error (list WorkerPlan.DeviceRequest * Recovery.VerifierPod) :=
  Recovery.verifierObjects encode (Recovery.MkKNode "n" "" ∅ ∅ [] [] "") cell.
Definition no_pod : Recovery.VerifierPod := Recovery.MkVerifierPod [] 0 0 0 [] [] 0.
Definition requests : list WorkerPlan.DeviceRequest := match built with Ok (r, _) => r | Err _ => [] end.
Definition pod : Recovery.VerifierPod := match built with Ok (_, p) => p | Err _ => no_pod end.

Definition healthy : machine :=
  MkMachine (fun _ b => b) (Some [["GPU-A"]; [" GPU-B"]]%string) (fun _ => true) (fun _ => true)
    (fun _ => Some [MkProfile "small" 8]) (variable (Recovery.v_Env pod)).

End VerifierSamples.

Lemma verification_covers_cell_witness : run VerifierSamples.healthy = Ok tt.
Proof.
  apply (verification_covers_cell VerifierSamples.encode (Recovery.MkKNode "n" "" ∅ ∅ [] [] "") VerifierSamples.cell
    VerifierSamples.requests VerifierSamples.pod VerifierSamples.healthy).
  - vm_compute. reflexivity.
  - reflexivity.
  - vm_compute. split; discriminate.
  - repeat constructor; discriminate.
  - discriminate.
  - reflexivity.
  - split_and!.
    + vm_compute. discriminate.
    + reflexivity.
    + right. split; [|reflexivity]. eexists. split; [reflexivity|]. apply Permutation_swap.
    + repeat constructor; discriminate.
Defined.

End Verifier.
