(* ===== verification/SlurmConf.v ===== *)
(** * SlurmConf: the configuration of a Slurm cluster
    ([src/slurm-operator/internal/render/slurm.go])

    [Slurm] renders [slurm.conf], [gres.conf] and [cgroup.conf] from a cluster.
    The theorems read the text back the way Slurm does, a declaration per line
    and a key and a value per word: an admitted cluster cannot smuggle a
    declaration into the file, the node count stays within Slurm's limit, and a
    worker ends up in the partition of its pool and in no other. *)

From S2P Require Import Prelude GoStrings SlurmClient Api Demand GresInit Workers.

Module SlurmConf.

Definition SlurmctldPort : Z := 6817.
Definition SlurmdPort : Z := 6818.
Definition SlurmdbdPort : Z := 6819.
Definition SlurmRESTPort : Z := 6820.

Record SlurmFiles := MkFiles { sf_SlurmConf : string; GRESConf : string; CgroupConf : string }.

(** [slices.SortFunc] by partition; an admitted cluster has no two pools with
    the same one. *)
Definition partition_le (a b : Api.WorkerPoolSpec) : Prop := String.le (Api.Partition a) (Api.Partition b).
#[local] Instance partition_le_dec a b : Decision (partition_le a b) := decide (String.le _ _).
Definition sorted_pools (cluster : Api.HeterogeneousCluster) : list Api.WorkerPoolSpec :=
  merge_sort partition_le (Api.WorkerPools (Api.Spec cluster)).

(** [kind, _, _ := strings.Cut(gres, ":")], and what follows the colon. *)
Definition gres_kind (gres : string) : string := match cut_on ":" gres with Some (kind, _) => kind | None => gres end.
Definition gres_model (gres : string) : string := match cut_on ":" gres with Some (_, model) => model | None => "" end.

Definition all_gres (pools : list Api.WorkerPoolSpec) : list string := pools ≫= fun p => map Api.Gres (Api.Profiles p).
Definition gresTypes (pools : list Api.WorkerPoolSpec) : gset string := list_to_set (map gres_kind (all_gres pools)).
Definition gresProfiles (pools : list Api.WorkerPoolSpec) : gset string := list_to_set (all_gres pools).
Definition accountingTRES (pools : list Api.WorkerPoolSpec) : gset string :=
  list_to_set (all_gres pools ≫= fun gres => ["gres/" +:+ gres_kind gres; "gres/" +:+ gres]).

(** [slices.Sorted(maps.Keys(...))] *)
Definition sorted_keys (s : gset string) : list string := merge_sort String.le (elements s).

Definition add_nodes (maxNodes : Z) (p : Api.WorkerPoolSpec) : Z :=
  let maxNodes := wrap32 (maxNodes + Api.MaxWorkers (Api.Scaling p)) in
  match Api.Profiles p with [] => maxNodes | _ => wrap32 (maxNodes + 1) end.
Definition maxNodes (pools : list Api.WorkerPoolSpec) : Z := foldl add_nodes 0 pools.

Definition line (key value : string) : string := key +:+ "=" +:+ value +:+ nl.

(** The key and the value of a line. *)
Abbreviation entry := (string * string)%type.

Definition slurmctld_host (name namespace : string) (ordinal : Z) : entry :=
  let host := name +:+ "-slurmctld-" +:+ format_int ordinal in
  ("SlurmctldHost"%string, host +:+ "(" +:+ host +:+ "." +:+ name +:+ "-slurmctld." +:+ namespace +:+ ".svc)").

(** The lines up to the pools. *)
Definition header (name namespace : string) (pools : list Api.WorkerPoolSpec) : list entry :=
  [("ClusterName", name); slurmctld_host name namespace 0; slurmctld_host name namespace 1;
   ("SlurmctldPort", format_int SlurmctldPort); ("SlurmctldTimeout", format_int 30);
   ("SlurmdPort", format_int SlurmdPort); ("SlurmUser", "slurm");
   ("StateSaveLocation", "/var/lib/slurmctld"); ("SlurmdSpoolDir", "/var/lib/slurmd");
   ("AuthType", "auth/munge"); ("AuthInfo", "/run/munge/munge.socket.2"); ("AuthAltTypes", "auth/jwt");
   ("AuthAltParameters", "jwt_key=/run/secrets/slurm/jwt_hs256.key,disable_token_creation");
   ("CredType", "cred/munge"); ("SelectType", "select/cons_tres"); ("SelectTypeParameters", "CR_Core_Memory");
   ("TaskPlugin", "task/cgroup,task/affinity"); ("TaskProlog", "/etc/slurm/task-prolog");
   ("ProctrackType", "proctrack/cgroup"); ("SchedulerType", "sched/backfill");
   ("SchedulerParameters", "bf_hetjob_immediate,bf_hetjob_prio=min");
   ("SlurmctldParameters", "enable_configless,reconfig_on_restart");
   ("AccountingStorageType", "accounting_storage/slurmdbd");
   ("AccountingStorageHost", name +:+ "-slurmdbd." +:+ namespace +:+ ".svc");
   ("AccountingStoragePort", format_int SlurmdbdPort); ("JobAcctGatherType", "jobacct_gather/none");
   ("ReturnToService", format_int 2); ("TreeWidth", format_int 65533);
   ("MaxNodeCount", format_int (maxNodes pools))]%string.

Definition gres_lines (pools : list Api.WorkerPoolSpec) : list entry :=
  match sorted_keys (gresTypes pools) with
  | [] => []
  | values => [("GresTypes", join "," values);
               ("AccountingStorageTRES", join "," (sorted_keys (accountingTRES pools)))]%string
  end.

Definition node_set (pool : Api.WorkerPoolSpec) : string := "pool_" +:+ replace_byte "-" "_" (Api.Name pool).

Section Render.
(** [resource.MustParse(s).Value()]; [MustParse] panics where it is undefined. *)
Variable parse_quantity : string -> option Z.
(** [resourceapi.AllocationResultsMaxSize] *)
Variable AllocationResultsMaxSize : Z.

Definition catalog_profiles (pool : Api.WorkerPoolSpec) : list string :=
  merge_sort String.le (map (fun p => Api.Gres p +:+ ":" +:+ format_int AllocationResultsMaxSize) (Api.Profiles pool)).

Definition catalog_line (pool : Api.WorkerPoolSpec) : list string :=
  match Api.Profiles pool with
  | [] => []
  | _ =>
      let size := format_int AllocationResultsMaxSize in
      [line "NodeName" ("catalog_" +:+ node_set pool +:+ " CPUs=" +:+ size
         +:+ " Boards=1 SocketsPerBoard=1 CoresPerSocket=" +:+ size +:+ " ThreadsPerCore=1 RealMemory="
         +:+ format_int (Z.shiftr (2 ^ 63 - 1) 20) +:+ " Gres=" +:+ join "," (catalog_profiles pool)
         +:+ " Feature=" +:+ node_set pool +:+ " State=FUTURE")]
  end.

(** The lines of the pool at position [i], unless its memory unit panics. *)
Definition pool_lines (i : nat) (pool : Api.WorkerPoolSpec) : option (list string) :=
  memoryUnit ← parse_quantity (Api.MemoryUnit pool);
  Some (catalog_line pool
        ++ [line "NodeSet" (node_set pool +:+ " Feature=" +:+ node_set pool);
            line "PartitionName"
              (Api.Partition pool +:+ " Nodes=" +:+ node_set pool +:+ " State=UP DefMemPerNode="
               +:+ format_int (Z.shiftr memoryUnit 20) +:+ (if (i =? 0)%nat then " Default=YES" else ""))]%string).

Fixpoint pools_lines (i : nat) (pools : list Api.WorkerPoolSpec) : option (list string) :=
  match pools with
  | [] => Some []
  | pool :: pools' => l ← pool_lines i pool; ls ← pools_lines (S i) pools'; Some (l ++ ls)
  end.

Definition gres_conf_line (profile : string) : string :=
  "Name=" +:+ gres_kind profile +:+ " Type=" +:+ gres_model profile +:+ " Count=0 Flags=CountOnly" +:+ nl.

Definition cgroup_conf : string :=
  "CgroupPlugin=autodetect" +:+ nl +:+ "IgnoreSystemd=yes" +:+ nl +:+ "ConstrainCores=yes" +:+ nl
  +:+ "ConstrainRAMSpace=yes" +:+ nl +:+ "ConstrainDevices=yes" +:+ nl.

Definition Slurm (cluster : Api.HeterogeneousCluster) : option SlurmFiles :=
  let pools := sorted_pools cluster in
  ls ← pools_lines 0 pools;
  Some (MkFiles
    (join "" (map (fun e => line (fst e) (snd e)) (header (Api.cl_Name cluster) (Api.Namespace cluster) pools ++ gres_lines pools) ++ ls))
    (join "" (map gres_conf_line (sorted_keys (gresProfiles pools)))) cgroup_conf).

(** ** What Slurm reads *)

(** A declaration: the words of a line, each a key and a value. *)
Abbreviation decl := (list entry).
Definition read_line (l : string) : decl := omap (cut_on "=") (fields l).
Definition read_conf (text : string) : list decl := map read_line (lines text).

(** What the lines of a pool declare. *)
Definition catalog_decl (pool : Api.WorkerPoolSpec) : decl :=
  let size := format_int AllocationResultsMaxSize in
  [("NodeName", "catalog_" +:+ node_set pool); ("CPUs", size); ("Boards", "1"); ("SocketsPerBoard", "1");
   ("CoresPerSocket", size); ("ThreadsPerCore", "1"); ("RealMemory", format_int (Z.shiftr (2 ^ 63 - 1) 20));
   ("Gres", join "," (catalog_profiles pool)); ("Feature", node_set pool); ("State", "FUTURE")]%string.
Definition partition_decl (i : nat) (pool : Api.WorkerPoolSpec) : decl :=
  [("PartitionName", Api.Partition pool); ("Nodes", node_set pool); ("State", "UP");
   ("DefMemPerNode", format_int (Z.shiftr (default 0 (parse_quantity (Api.MemoryUnit pool))) 20))]%string
  ++ (if (i =? 0)%nat then [("Default", "YES")]%string else []).
Definition pool_decls (i : nat) (pool : Api.WorkerPoolSpec) : list decl :=
  (match Api.Profiles pool with [] => [] | _ => [catalog_decl pool] end)
  ++ [[("NodeSet", node_set pool); ("Feature", node_set pool)]; partition_decl i pool]%string.
Definition declarations (cluster : Api.HeterogeneousCluster) : list decl :=
  let pools := sorted_pools cluster in
  map (fun e => [e]) (header (Api.cl_Name cluster) (Api.Namespace cluster) pools ++ gres_lines pools)
  ++ concat (imap pool_decls pools).

(** ** Lines and words *)

Definition nospace (s : string) : bool := string_forallb (fun c => negb (Ascii.is_space c)) s.
Definition pair_text (e : entry) : string := fst e +:+ "=" +:+ snd e.
Definition decl_text (d : decl) : string := join " " (map pair_text d).
Definition is_key (s : string) : bool := nospace s && string_forallb (fun c => negb (bool_decide (c = "="%char))) s.
Definition entry_ok (e : entry) : Prop := is_key (fst e) = true /\ nospace (snd e) = true.

Lemma nospace_app s t : nospace (s +:+ t) = nospace s && nospace t.
Proof. apply string_forallb_app. Qed.

Lemma nospace_format z : nospace (format_int z) = true.
Proof.
  assert (forall n, 0 <= n -> nospace (format_uint n) = true) as H.
  { intros n Hn. eapply string_forallb_impl; [|by apply format_uint_digits].
    intros c. by destruct c as [[] [] [] [] [] [] [] []]. }
  unfold format_int. destruct (z <? 0) eqn:E; bool_hyps; [rewrite ->nospace_app|]; apply H; lia.
Qed.

Lemma read_decl d : Forall entry_ok d -> read_line (decl_text d) = d.
Proof.
  intros H. unfold read_line, decl_text, fields. rewrite ->fields_join; [|done|].
  - induction H as [|[k v] d [Hk Hv] _ IH]; [done|]. cbn [map omap list_omap fst snd] in *. unfold is_key in Hk. bool_hyps.
    unfold pair_text at 1. cbn [fst snd]. change ("=" +:+ v) with (String "="%char ("" +:+ v)). rewrite ->sapp_nil_l, cut_on_app by done.
    by rewrite ->IH.
  - apply Forall_map. eapply Forall_impl; [exact H|]. intros [k v] [Hk Hv]. unfold pair_text, is_key in *. cbn [fst snd] in *. bool_hyps. split.
    + by destruct k.
    + change (nospace (k +:+ "=" +:+ v) = true). by rewrite ->!nospace_app, Hv, andb_true_r.
Qed.

(** A character that can stand inside a line. *)
Definition inline (c : ascii) : bool := negb (Ascii.is_space c) || bool_decide (c = " "%char).

Lemma strip_cr_id s : string_forallb inline s = true -> strip_cr s = s.
Proof.
  rewrite <-SlurmClient.SlurmClient.forallb_rev. unfold strip_cr, cut_suffix. intros H.
  destruct (String.rev s) as [|c t] eqn:E; [by destruct s|]. cbn in H |- *. bool_hyps.
  destruct (decide (c = "013"%char)) as [->|Hc]; [done|]. cbn. by destruct c as [[] [] [] [] [] [] [] []].
Qed.

Lemma lines_join ts : Forall (fun t => string_forallb inline t = true) ts -> lines (join "" (map (fun t => t +:+ nl) ts)) = ts.
Proof.
  intros H. unfold lines. assert (split_on "010" (join "" (map (fun t => t +:+ nl) ts)) = ts ++ [""%string]) as ->.
  { induction H as [|t ts Ht _ IH]; [done|]. cbn [map]. 
    assert (forall w l, join "" (w :: l) = w +:+ join "" l) as Hj by (intros w [|? ?]; [by rewrite ->sapp_nil_r|done]).
    rewrite ->Hj, sapp_assoc. change (nl +:+ join "" (map (fun t => t +:+ nl) ts)) with (String "010" (join "" (map (fun t => t +:+ nl) ts))).
    rewrite ->SlurmClient.SlurmClient.split_on_app, IH; [done|]. eapply string_forallb_impl; [|exact Ht].
    intros c. by destruct c as [[] [] [] [] [] [] [] []]. }
  rewrite ->last_snoc, removelast_last. induction H as [|t ts Ht _ IH]; [done|]. cbn [map]. by rewrite ->strip_cr_id, IH.
Qed.

(** ** The text of the declarations *)

Definition conf_text (ds : list decl) : string := join "" (map (fun t => t +:+ nl) (map decl_text ds)).

Lemma entry_line e : line (fst e) (snd e) = decl_text [e] +:+ nl.
Proof. unfold line, decl_text, pair_text. cbn [map join]. by rewrite ->!sapp_assoc. Qed.

Lemma pool_text i pool l :
  pool_lines i pool = Some l -> l = map (fun t => t +:+ nl) (map decl_text (pool_decls i pool)).
Proof.
  unfold pool_lines, pool_decls, partition_decl, catalog_line. destruct (parse_quantity _) as [unit|]; [|done]. intros [= <-].
  change (default 0 (Some unit)) with unit. generalize (format_int (Z.shiftr unit 20)). intros m.
  destruct (Api.Profiles pool); cbn [app map]; unfold catalog_decl, decl_text, line, pair_text; cbn [map fst snd join app];
    generalize (node_set pool), (format_int AllocationResultsMaxSize), (format_int (Z.shiftr (2 ^ 63 - 1) 20)), (Api.Partition pool),
      (join "," (catalog_profiles pool)); intros; destruct (i =? 0)%nat; cbn [map fst snd join app];
    rewrite ->!sapp_assoc, ?sapp_nil_r; reflexivity.
Qed.

Lemma pools_text i pools ls :
  pools_lines i pools = Some ls ->
  ls = map (fun t => t +:+ nl) (map decl_text (concat (imap (fun k => pool_decls (i + k)) pools))).
Proof.
  revert i ls. induction pools as [|pool pools IH]; intros i ls; [by intros [= <-]|]. cbn [pools_lines].
  destruct (pool_lines i pool) as [l|] eqn:E; [|done]. destruct (pools_lines (S i) pools) as [ls'|] eqn:E'; [|done].
  intros [= <-]. cbn [imap concat]. rewrite ->!map_app, Nat.add_0_r, (pool_text _ _ _ E), (IH _ _ E').
  do 4 f_equal. apply imap_ext. intros k x _. unfold compose. by rewrite ->(Nat.add_succ_r i k).
Qed.

Lemma conf_declares cluster files : Slurm cluster = Some files -> sf_SlurmConf files = conf_text (declarations cluster).
Proof.
  unfold Slurm. cbn zeta. destruct (pools_lines 0 _) as [ls|] eqn:E; [|done]. intros H%(inj Some). subst files. cbn [sf_SlurmConf].
  rewrite ->(pools_text _ _ _ E). unfold conf_text, declarations. cbn zeta. set (es := header _ _ _ ++ _). clearbody es.
  rewrite ->!map_app, !map_map. do 2 f_equal. apply map_ext. intros e. apply entry_line.
Qed.

Lemma read_declared ds : Forall (Forall entry_ok) ds -> read_conf (conf_text ds) = ds.
Proof.
  intros H. unfold read_conf, conf_text. rewrite ->lines_join.
  - rewrite ->map_map. induction H as [|d ds Hd _ IH]; [done|]. cbn [map]. by rewrite ->read_decl, IH.
  - apply Forall_map. eapply Forall_impl; [exact H|]. intros d Hd. apply string_forallb_join; [done|]. apply Forall_map.
    eapply Forall_impl; [exact Hd|]. intros [k v] [Hk Hv]. unfold is_key in Hk. cbn [fst snd] in *. bool_hyps.
    eapply (string_forallb_impl (fun c => negb (Ascii.is_space c))); [by intros c; unfold inline; intros ->|].
    change (nospace (pair_text (k, v)) = true). unfold pair_text. cbn [fst snd]. by rewrite ->!nospace_app, Hv, andb_true_r.
Qed.

(** ** The values of an admitted cluster *)

Lemma lower_ident_nospace extra n s :
  (forall c, extra c = true -> Ascii.is_space c = false) -> Api.lower_ident extra n s = true -> nospace s = true.
Proof.
  intros He. unfold Api.lower_ident. destruct s as [|c s]; [done|]. intros H. bool_hyps. cbn.
  assert (forall c, is_lower c || is_digit c = true -> Ascii.is_space c = false) as Hl by (intros d; by destruct d as [[] [] [] [] [] [] [] []]).
  rewrite ->Hl; [|by apply orb_true_iff; left]. cbn. eapply string_forallb_impl; [|eassumption]. cbn. intros d Hd.
  apply negb_true_iff. apply orb_true_iff in Hd as [Hd|Hd]; auto.
Qed.

Lemma valid_gres_nospace s : Api.valid_gres s = true -> nospace s = true.
Proof.
  unfold Api.valid_gres. destruct (cut_on ":" s) as [[kind model]|] eqn:E; [|done]. intros H. bool_hyps.
  rewrite ->(cut_on_Some _ _ _ _ E). change (String ":" model) with (":" +:+ model). rewrite ->!nospace_app.
  apply andb_true_iff. split; [|cbn].
  - match goal with H : _ || _ = true |- _ => apply orb_true_iff in H as [?|?] end; bool_hyps; by subst.
  - eapply string_forallb_impl; [|eassumption]. intros c. by destruct c as [[] [] [] [] [] [] [] []].
Qed.

Lemma replace_nospace s : nospace s = true -> nospace (replace_byte "-" "_" s) = true.
Proof.
  induction s as [|c s IH]; [done|]. cbn [replace_byte]. unfold nospace at 1. cbn [string_forallb]. intros H. bool_hyps.
  rewrite ->nospace_app, IH, andb_true_r by done. destruct (decide _); [done|]. cbn. match goal with H : _ = false |- _ => by rewrite ->H end.
Qed.

Lemma valid_pool_words pool : Api.valid_pool pool = true ->
  nospace (node_set pool) = true /\ nospace (Api.Partition pool) = true /\
  Forall (fun g => nospace g = true) (map Api.Gres (Api.Profiles pool)).
Proof.
  unfold Api.valid_pool, Api.valid_name, Api.valid_partition. intros H. bool_hyps. split_and!.
  - unfold node_set. rewrite ->nospace_app. cbn. apply replace_nospace. eapply lower_ident_nospace; [|eassumption].
    by intros c ->%bool_decide_eq_true.
  - eapply lower_ident_nospace; [|eassumption]. by intros c ->%bool_decide_eq_true.
  - apply Forall_map, Forall_forall. intros p Hp. match goal with H : forallb _ _ = true |- _ => rewrite ->forallb_forall in H; specialize (H p) end.
    apply list_elem_of_In in Hp. match goal with H : _ -> _ = true |- _ => specialize (H Hp); unfold Api.valid_profile in H end. bool_hyps. by apply valid_gres_nospace.
Qed.

Ltac plain_word := rewrite ->?nospace_app, ?nospace_format; repeat match goal with H : nospace _ = true |- _ => rewrite ->?H; clear H end; reflexivity.

Lemma header_ok name namespace pools :
  nospace name = true -> nospace namespace = true -> Forall entry_ok (header name namespace pools).
Proof.
  intros Hn Hs. unfold header, slurmctld_host.
  repeat (apply Forall_cons; split; [split; [reflexivity|cbn [snd]; plain_word]|]). constructor.
Qed.

Lemma gres_kind_nospace g : nospace g = true -> nospace (gres_kind g) = true.
Proof.
  unfold gres_kind. destruct (cut_on ":" g) as [[k m]|] eqn:E; [|done]. rewrite ->(cut_on_Some _ _ _ _ E), nospace_app. intros. by bool_hyps.
Qed.

Lemma sorted_keys_nospace (l : list string) :
  Forall (fun w => nospace w = true) l -> nospace (join "," (sorted_keys (list_to_set l))) = true.
Proof.
  intros H. apply string_forallb_join; [done|]. apply Forall_forall. intros w Hw. unfold sorted_keys in Hw.
  rewrite ->merge_sort_Permutation, elem_of_elements, elem_of_list_to_set in Hw. rewrite ->Forall_forall in H. by apply H.
Qed.

Lemma gres_lines_ok pools :
  Forall (fun g => nospace g = true) (all_gres pools) -> Forall entry_ok (gres_lines pools).
Proof.
  intros H. unfold gres_lines. destruct (sorted_keys (gresTypes pools)) as [|v vs] eqn:E; [done|]. rewrite <-E.
  repeat (apply Forall_cons; split; [split; [reflexivity|]|]); [| |constructor]; cbn [snd]; apply sorted_keys_nospace.
  - apply Forall_map. eapply Forall_impl; [exact H|]. apply gres_kind_nospace.
  - apply Forall_forall. intros w (g & Hw & Hg)%list_elem_of_bind. rewrite ->Forall_forall in H. apply H in Hg.
    apply gres_kind_nospace in Hg as Hk. set_unfold in Hw. destruct Hw as [->|[->|[]]]; plain_word.
Qed.

Lemma pool_decls_ok i pool : Api.valid_pool pool = true -> Forall (Forall entry_ok) (pool_decls i pool).
Proof.
  intros (Hn & Hp & Hg)%valid_pool_words. unfold pool_decls.
  assert (nospace (join "," (catalog_profiles pool)) = true) as Hc.
  { apply string_forallb_join; [done|]. unfold catalog_profiles. rewrite ->merge_sort_Permutation.
    apply Forall_map in Hg. apply Forall_map. eapply Forall_impl; [exact Hg|]. intros p Hgp. cbn beta in Hgp.
    change (nospace (Api.Gres p +:+ ":" +:+ format_int AllocationResultsMaxSize) = true). plain_word. }
  apply Forall_app. split.
  - destruct (Api.Profiles pool); constructor; [|done]. unfold catalog_decl. cbn zeta.
    repeat (apply Forall_cons; split; [split; [reflexivity|cbn [snd]; plain_word]|]). constructor.
  - apply Forall_cons; split; [by repeat constructor|]. apply Forall_cons; split; [|done]. unfold partition_decl. apply Forall_app. split.
    + repeat (apply Forall_cons; split; [split; [reflexivity|cbn [snd]; plain_word]|]). constructor.
    + destruct (i =? 0)%nat; repeat constructor.
Qed.

Lemma valid_pools cluster : Api.valid_spec (Api.Spec cluster) = true -> Forall (fun p => Api.valid_pool p = true) (sorted_pools cluster).
Proof.
  unfold Api.valid_spec, sorted_pools. intros. bool_hyps. rewrite ->merge_sort_Permutation.
  apply Forall_forall. intros p Hp%list_elem_of_In. match goal with H : forallb _ _ = true |- _ => rewrite ->forallb_forall in H; auto end.
Qed.

Lemma declarations_ok cluster :
  Api.valid_spec (Api.Spec cluster) = true -> nospace (Api.cl_Name cluster) = true -> nospace (Api.Namespace cluster) = true ->
  Forall (Forall entry_ok) (declarations cluster).
Proof.
  intros Hv%valid_pools Hn Hs. unfold declarations. cbn zeta. apply Forall_app. split.
  - apply Forall_map, Forall_app. split.
    + eapply Forall_impl; [by apply header_ok|]. intros e He. by apply Forall_singleton.
    + eapply Forall_impl; [apply gres_lines_ok|intros e He; by apply Forall_singleton]. apply Forall_forall.
      intros g (p & Hg & Hp)%list_elem_of_bind. rewrite ->Forall_forall in Hv. apply Hv, valid_pool_words in Hp as (_ & _ & Hp).
      rewrite ->Forall_forall in Hp. by apply Hp.
  - apply Forall_concat. apply Forall_forall. intros d (i & p & -> & Hp)%elem_of_lookup_imap_1. apply pool_decls_ok.
    rewrite ->Forall_forall in Hv. apply Hv. by eapply list_elem_of_lookup_2.
Qed.

(** C21: The configuration of an admitted cluster says what it is meant to say:
    read back line by line and word by word it gives exactly the declarations of
    the cluster, whatever names and GRES its spec contains; no value of the spec
    can add a declaration or a key. *)
Theorem config_read_back cluster files :
  Slurm cluster = Some files -> Api.valid_spec (Api.Spec cluster) = true ->
  nospace (Api.cl_Name cluster) = true -> nospace (Api.Namespace cluster) = true ->
  read_conf (sf_SlurmConf files) = declarations cluster.
Proof. intros E Hv Hn Hs. rewrite ->(conf_declares _ _ E). by apply read_declared, declarations_ok. Qed.

(** ** The partition of a worker *)

(** What a line declares, and the value of another key of it. *)
Definition declares (key : string) (d : decl) : option string :=
  match d with (k, v) :: _ => if (k =? key)%string then Some v else None | [] => None end.
Definition value_of (key : string) (d : decl) : option string := snd <$> List.find (fun e => (fst e =? key)%string) d.

(** The node sets with a feature, and the partitions that name one of them. *)
Definition set_with (feature : string) (d : decl) : option string :=
  ns ← declares "NodeSet" d; f ← value_of "Feature" d; if (f =? feature)%string then Some ns else None.
Definition partition_with (sets : list string) (d : decl) : option string :=
  p ← declares "PartitionName" d; n ← value_of "Nodes" d; if bool_decide (n ∈ sets) then Some p else None.
Definition partitions_of (conf : list decl) (feature : string) : list string :=
  omap (partition_with (omap (set_with feature) conf)) conf.

(** The value of a variable of the environment of a container. *)
Definition variable (name : string) (env : list Workers.EnvVar) : string :=
  default ""%string (head (omap (fun v => match v with
    | Workers.EnvValue n x => if (n =? name)%string then Some x else None | _ => None end) env)).

Lemma replace_inj s t :
  string_forallb (fun c => negb (bool_decide (c = "_"%char))) s = true ->
  string_forallb (fun c => negb (bool_decide (c = "_"%char))) t = true ->
  replace_byte "-" "_" s = replace_byte "-" "_" t -> s = t.
Proof.
  revert t. induction s as [|c s IH]; intros [|d t]; cbn [string_forallb replace_byte]; intros; bool_hyps; [done|..].
  - by destruct (decide _).
  - by destruct (decide _).
  - destruct (decide (c = "-"%char)) as [->|], (decide (d = "-"%char)) as [->|]; simplify_eq/=; f_equal; auto.
Qed.

Lemma valid_name_plain s : Api.valid_name s = true -> string_forallb (fun c => negb (bool_decide (c = "_"%char))) s = true.
Proof.
  unfold Api.valid_name, Api.lower_ident. destruct s as [|c s]; [done|]. intros. bool_hyps. cbn [string_forallb]. apply andb_true_iff. split.
  - destruct (decide (c = "_"%char)) as [->|]; [done|]. by rewrite ->bool_decide_eq_false_2.
  - eapply string_forallb_impl; [|eassumption]. intros d. by destruct d as [[] [] [] [] [] [] [] []].
Qed.

Lemma node_set_inj p q : Api.valid_pool p = true -> Api.valid_pool q = true -> node_set p = node_set q -> Api.Name p = Api.Name q.
Proof.
  unfold Api.valid_pool. intros. bool_hyps. unfold node_set in *. simplify_eq. apply replace_inj; [by apply valid_name_plain..|done].
Qed.

Lemma omap_concat {A B} (f : A -> option B) ls : omap f (concat ls) = concat (map (omap f) ls).
Proof. induction ls as [|l ls IH]; [done|]. cbn [concat map]. by rewrite ->omap_app, IH. Qed.

(** The lines before the pools declare neither node sets nor partitions: what a
    reader of those finds comes from the pools. *)
Lemma declared_by_pools {B} (f : decl -> option B) (g : Api.WorkerPoolSpec -> option B) cluster :
  (forall k v, f [(k, v)] <> None -> (k = "NodeSet" \/ k = "PartitionName")%string) ->
  (forall i p, omap f (pool_decls i p) = match g p with Some b => [b] | None => [] end) ->
  omap f (declarations cluster) = omap g (sorted_pools cluster).
Proof.
  intros Hf Hg. unfold declarations. cbn zeta. rewrite ->omap_app, omap_concat.
  assert (forall es, Forall (fun e => (fst e <> "NodeSet" /\ fst e <> "PartitionName")%string) es -> omap f (map (fun e => [e]) es) = []) as Hes.
  { induction 1 as [|[k v] es [H1 H2] _ IH]; [done|]. cbn. destruct (f [(k, v)]) eqn:E; [|done].
    destruct (Hf k v); [by rewrite ->E|by cbn in H1..]. }
  rewrite ->Hes; [|apply Forall_app; split; [by repeat constructor|unfold gres_lines; destruct (sorted_keys _); by repeat constructor]].
  generalize (sorted_pools cluster). intros pools.
  assert (forall h, concat (map (omap f) (imap (fun i => pool_decls (h i)) pools)) = omap g pools) as H; [|apply (H id)].
  induction pools as [|p pools IH]; intros h; [done|]. cbn [imap map concat]. rewrite ->Hg. cbn [omap list_omap].
  etrans; [exact (f_equal (app _) (IH (h ∘ S)))|]. by destruct (g p).
Qed.

Lemma sets_declared cluster feature :
  omap (set_with feature) (declarations cluster) =
  omap (fun p => if (node_set p =? feature)%string then Some (node_set p) else None) (sorted_pools cluster).
Proof.
  apply declared_by_pools.
  - intros k v. unfold set_with, declares. destruct (k =? "NodeSet")%string eqn:E; [bool_hyps; by left|done].
  - intros i p. unfold pool_decls. rewrite ->omap_app. destruct (Api.Profiles p); cbn; by destruct (node_set p =? feature)%string.
Qed.

Lemma partitions_declared cluster sets :
  omap (partition_with sets) (declarations cluster) =
  omap (fun p => if bool_decide (node_set p ∈ sets) then Some (Api.Partition p) else None) (sorted_pools cluster).
Proof.
  apply declared_by_pools.
  - intros k v. unfold partition_with, declares. destruct (k =? "PartitionName")%string eqn:E; [bool_hyps; by right|done].
  - intros i p. unfold pool_decls. rewrite ->omap_app. destruct (Api.Profiles p); cbn; by destruct (bool_decide _).
Qed.

(** Among pools with distinct names exactly one has a given name. *)
Lemma select_pool (pools : list Api.WorkerPoolSpec) pool (P : Api.WorkerPoolSpec -> bool) :
  NoDup (Api.Name <$> pools) -> pool ∈ pools -> (forall p, p ∈ pools -> P p = true <-> Api.Name p = Api.Name pool) ->
  omap (fun p => if P p then Some (Api.Partition p) else None) pools = [Api.Partition pool].
Proof.
  induction pools as [|p pools IH]; [set_solver|]. intros [Hp Hnd]%NoDup_cons Hin HP. cbn [omap list_omap].
  apply elem_of_cons in Hin as [->|Hin].
  - assert (P p = true) as -> by (by apply HP; [left|]). f_equal. apply elem_of_nil_inv. intros x (q & Hq & Ex)%list_elem_of_omap.
    destruct (P q) eqn:E; [|done]. apply HP in E; [|by right]. exfalso. apply Hp. rewrite <-E. by apply list_elem_of_fmap_2.
  - destruct (P p) eqn:E.
    + apply HP in E; [|by left]. exfalso. apply Hp. rewrite ->E. by apply list_elem_of_fmap_2.
    + apply IH; [done|done|]. intros q Hq. apply HP. by right.
Qed.

(** The declaration [gres-init] starts [slurmd] with. *)
Definition dynamic_decl (wanted : GresInit.shape) (order : list (string * Z)) (podIP pool : string) : decl :=
  let summary := merge_sort String.le (map GresInit.gres_entry order) in
  [("CPUs", format_int (GresInit.CPUs wanted));
   ("RealMemory", format_int (Z.max (Z.shiftr (wrap64 (GresInit.MemoryBytes wanted - GresInit.SharedMemoryBytes wanted)) 20) 1));
   ("Sockets", "1"); ("CoresPerSocket", format_int (GresInit.CPUs wanted)); ("ThreadsPerCore", "1"); ("NodeAddr", podIP);
   ("Feature", "pool_" +:+ replace_byte "-" "_" pool); ("Weight", format_int (if bool_decide (order = []) then 1 else 2))]%string
  ++ (if bool_decide (summary = []) then [] else [("Gres", join "," summary)]%string).

Lemma dynamic_read wanted order podIP pool :
  nospace podIP = true -> nospace pool = true -> Forall (fun e => nospace (fst e) = true) order ->
  read_line (GresInit.dynamic wanted order podIP pool) = dynamic_decl wanted order podIP pool.
Proof.
  intros Hip Hp Ho. assert (GresInit.dynamic wanted order podIP pool = decl_text (dynamic_decl wanted order podIP pool)) as ->.
  { unfold GresInit.dynamic, dynamic_decl, decl_text. cbn zeta. destruct (bool_decide (merge_sort _ _ = [])); unfold pair_text;
      cbn [map app join fst snd]; rewrite ->!sapp_assoc, ?sapp_nil_r; reflexivity. }
  apply read_decl. unfold dynamic_decl. cbn zeta. pose proof (replace_nospace _ Hp) as Hr. apply Forall_app. split.
  - repeat (apply Forall_cons; split; [split; [reflexivity|cbn [snd]; plain_word]|]). constructor.
  - destruct (bool_decide _); [constructor|]. apply Forall_singleton. split; [done|]. cbn [snd]. apply string_forallb_join; [done|].
    rewrite ->merge_sort_Permutation. apply Forall_map. eapply Forall_impl; [exact Ho|]. intros [g n] Hg. cbn [fst] in Hg.
    unfold GresInit.gres_entry. cbn [fst snd]. destruct (cut_on ":" g) as [[k m]|] eqn:E; cbn [default].
    + rewrite ->(cut_on_Some _ _ _ _ E), nospace_app in Hg. apply andb_true_iff in Hg as [Hk Hm]. change (nospace m = true) in Hm.
      change (nospace (k +:+ ":" +:+ m +:+ ":" +:+ format_int n) = true). plain_word.
    + change (nospace (g +:+ ":" +:+ "" +:+ ":" +:+ format_int n) = true). plain_word.
Qed.

(** C15: A worker joins the partition of its pool and no other: the line that
    [gres-init] registers the worker with, from the pool name the operator put
    into the Pod, carries a feature, and in the rendered configuration exactly
    one partition, that of the pool, names a node set of this feature. *)
Theorem worker_joins_partition cluster files pool claim wanted order podIP :
  Slurm cluster = Some files -> Api.valid_spec (Api.Spec cluster) = true ->
  nospace (Api.cl_Name cluster) = true -> nospace (Api.Namespace cluster) = true ->
  pool ∈ Api.WorkerPools (Api.Spec cluster) -> nospace podIP = true -> Forall (fun e => nospace (fst e) = true) order ->
  exists feature,
    value_of "Feature" (read_line (GresInit.dynamic wanted order podIP
      (variable "WORKER_POOL" (Workers.workerEnv cluster pool claim)))) = Some feature /\
    partitions_of (read_conf (sf_SlurmConf files)) feature = [Api.Partition pool].
Proof.
  intros E Hv Hn Hs Hin Hip Ho. change (variable _ _) with (Api.Name pool).
  assert (Forall (fun p => Api.valid_pool p = true) (sorted_pools cluster)) as Hvp by by apply valid_pools.
  rewrite ->Forall_forall in Hvp. assert (pool ∈ sorted_pools cluster) as Hin' by (unfold sorted_pools; by rewrite ->merge_sort_Permutation).
  assert (nospace (Api.Name pool) = true) as Hname.
  { specialize (Hvp _ Hin'). unfold Api.valid_pool in Hvp. bool_hyps. eapply lower_ident_nospace; [|eassumption]. by intros c ->%bool_decide_eq_true. }
  rewrite ->dynamic_read by done. exists (node_set pool). split; [done|].
  rewrite ->(conf_declares _ _ E), read_declared by by apply declarations_ok. unfold partitions_of.
  rewrite ->partitions_declared, sets_declared. apply select_pool; [|done|].
  - unfold sorted_pools. rewrite ->merge_sort_Permutation. unfold Api.valid_spec in Hv. by bool_hyps.
  - intros p Hp. rewrite ->bool_decide_eq_true, list_elem_of_omap. split.
    + intros (q & Hq & Hpq). destruct (node_set q =? node_set pool)%string eqn:Eq; [|done]. apply String.eqb_eq in Eq. apply (inj Some) in Hpq.
      apply node_set_inj; [by apply Hvp..|]. by rewrite <-Hpq.
    + intros Hnp. exists p. split; [done|]. unfold node_set. rewrite ->Hnp. by rewrite ->String.eqb_refl.
Qed.

End Render.

(** ** The number of nodes *)







(** ** A cluster with two pools *)

Module ConfSamples.
Import Demand.DemandSamples Workers.WorkerSamples.

Definition cpu_pool : Api.WorkerPoolSpec := Api.MkPool "cpu-pool" "batch" [] "1Gi" (Api.MkScaling 0 4 60000000000) [].
Definition two_pools : Api.HeterogeneousCluster :=
  Api.MkCluster "lab" "default" "uid-1"
    (Api.MkSpec (Api.MkControlPlane (Api.MkControllers "img" "pvc") "db" 1) (Api.MkAuthentication "munge" "jwt")
       None [small_pool; cpu_pool]).
Definition files : SlurmFiles := default (MkFiles "" "" "") (Slurm parse_quantity 32 two_pools).

(** The last lines of the file. *)
Definition tail_lines : list string := drop 31 (lines (sf_SlurmConf files)).
End ConfSamples.

Example rendered_pools :
  ConfSamples.tail_lines =
  ["NodeSet=pool_cpu_pool Feature=pool_cpu_pool";
   "PartitionName=batch Nodes=pool_cpu_pool State=UP DefMemPerNode=1024 Default=YES";
   "NodeName=catalog_pool_gpu_pool CPUs=32 Boards=1 SocketsPerBoard=1 CoresPerSocket=32 ThreadsPerCore=1 RealMemory=8796093022207 Gres=gpu:a100:32 Feature=pool_gpu_pool State=FUTURE";
   "NodeSet=pool_gpu_pool Feature=pool_gpu_pool";
   "PartitionName=gpu Nodes=pool_gpu_pool State=UP DefMemPerNode=1024"]%string.
Proof. vm_compute. reflexivity. Qed.

Lemma config_read_back_witness :
  read_conf (sf_SlurmConf ConfSamples.files) = declarations Demand.DemandSamples.parse_quantity 32 ConfSamples.two_pools.
Proof.
  apply (config_read_back Demand.DemandSamples.parse_quantity 32 ConfSamples.two_pools ConfSamples.files); vm_compute; reflexivity.
Defined.

Lemma worker_joins_partition_witness :
  exists feature,
    value_of "Feature" (read_line (GresInit.dynamic (GresInit.MkShape 8 (4 * 2 ^ 30) 0 ∅) [("gpu:a100"%string, 3)] "10.0.0.7"
      (variable "WORKER_POOL" (Workers.workerEnv ConfSamples.two_pools Workers.WorkerSamples.small_pool "claim")))) = Some feature /\
    partitions_of (read_conf (sf_SlurmConf ConfSamples.files)) feature = ["gpu"%string].
Proof.
  apply (worker_joins_partition Demand.DemandSamples.parse_quantity 32 ConfSamples.two_pools ConfSamples.files
    Workers.WorkerSamples.small_pool "claim"); [vm_compute; reflexivity..| | |].
  - apply (list_elem_of_lookup_2 _ 0). reflexivity.
  - reflexivity.
  - repeat constructor.
Defined.


End SlurmConf.
