(* ===== verification/ControlPlane.v ===== *)
(** * ControlPlane: the objects of the Slurm control plane
    ([src/slurm-operator/controllers/cluster_controller.go], the [reconcile*]
    methods and their helpers)

    Each [reconcile*] method passes [controllerutil.CreateOrUpdate] a closure
    that overwrites fields of the object; the definition of the same name is the
    object with the fields as the closure leaves them.  A field the closure does
    not touch is [None].  The theorems are about the objects as a whole: they
    are well formed, every address the components use leads to a container that
    listens, and each secret is visible only where it is needed. *)

From S2P Require Import Prelude GoStrings SlurmClient Api Demand Workers SlurmConf.

Module ControlPlane.
Import SlurmConf.

Definition controlPlaneReplicas : Z := 2.
Definition mungeKey : string := "munge.key".
Definition jwtKey : string := "jwt_hs256.key".

(** ** Objects *)

Abbreviation VolumeMount := Workers.VolumeMount.
Abbreviation MkMount := Workers.MkMount.

Inductive EnvVar := EnvValue (name value : string) | EnvSecret (name secret key : string).
Inductive ProbeHandler := Exec (command : list string) | TCPSocket (port : Z).
Record Probe := MkProbe {
  Handler : ProbeHandler; InitialDelaySeconds : Z; PeriodSeconds : Z; TimeoutSeconds : Z; FailureThreshold : Z }.
Record Container := MkContainer {
  c_Name : string; c_Image : string; Command : list string; Args : list string; Env : list EnvVar;
  Ports : list (string * Z); VolumeMounts : list VolumeMount; ReadinessProbe : option Probe }.
Inductive VolumeSource :=
| EmptyDir
| SecretVolume (secret : string) (items : list (string * string * Z))
| ConfigMapVolume (name : string)
| ClaimVolume (claim : string).
Record PodSecurityContext := MkSecurity {
  FSGroup : option Z; FSGroupChangePolicy : option string;
  RunAsUser : option Z; RunAsGroup : option Z; RunAsNonRoot : option bool }.
Record PodSpec := MkPodSpec {
  Hostname : string; AutomountServiceAccountToken : option bool; TerminationGracePeriodSeconds : option Z;
  (** the label selector and the topology key of the required anti-affinity *)
  Affinity : option (gmap string string * string);
  SecurityContext : PodSecurityContext; InitContainers : list Container; Containers : list Container;
  Volumes : list (string * VolumeSource) }.
Record PodTemplate := MkTemplate {
  t_Labels : gmap string string; t_Annotations : gmap string string; t_Spec : PodSpec }.

Inductive object_spec :=
| ConfigMap (data : gmap string string)
| Service (clusterIP : option string) (publishNotReady : option bool) (selector : gmap string string)
    (ports : list (string * Z * Z))
| StatefulSet (replicas : Z) (serviceName policy : string) (selector : gmap string string) (template : PodTemplate)
| Deployment (replicas : Z) (selector : gmap string string) (template : PodTemplate)
| PodDisruptionBudget (minAvailable : Z) (selector : gmap string string).

(** [o_Controller] is the UID of the controlling owner. *)
Record object := MkObject {
  o_Name : string; o_Namespace : string; o_Labels : gmap string string; o_Controller : string; o_Spec : object_spec }.

Section Objects.
Variable cluster : Api.HeterogeneousCluster.

Definition spec : Api.HeterogeneousClusterSpec := Api.Spec cluster.
Definition image : string := Api.Image (Api.Controllers (Api.ControlPlane spec)).
Definition state_claim : string := Api.StateSaveClaim (Api.Controllers (Api.ControlPlane spec)).

Definition name (component : string) : string := Api.cl_Name cluster +:+ "-" +:+ component.
Definition labels (component : string) : gmap string string := Workers.labels cluster component.

(** [objectMeta] with the labels and the owner every closure sets. *)
Definition objectMeta (component : string) (s : object_spec) : object :=
  MkObject (name component) (Api.Namespace cluster) (labels component) (Api.UID cluster) s.

(** ** Volumes, mounts and probes *)

Definition jwtVolume : string * VolumeSource :=
  ("jwt"%string, SecretVolume (Api.JWTKeySecretRef (Api.Authentication spec)) [(jwtKey, jwtKey, 288)]).
Definition authVolumes : list (string * VolumeSource) :=
  [("munge-key"%string, SecretVolume (Api.MungeKeySecretRef (Api.Authentication spec)) [(mungeKey, mungeKey, 256)]);
   ("munge-run"%string, EmptyDir)].
Definition configVolume : string * VolumeSource := ("config"%string, ConfigMapVolume (name "config")).
Definition commonVolumes : list (string * VolumeSource) := authVolumes ++ [configVolume; jwtVolume].

Definition slurmMounts : list VolumeMount :=
  [MkMount "config" "/etc/slurm" "" true; MkMount "munge-run" "/run/munge" "" false].
Definition jwt_mount : VolumeMount := MkMount "jwt" "/run/secrets/slurm/jwt_hs256.key" jwtKey true.

Definition requiredAntiAffinity (matchLabels : gmap string string) : option (gmap string string * string) :=
  Some (matchLabels, "kubernetes.io/hostname"%string).
Definition execProbe (command : list string) : Probe := MkProbe (Exec command) 5 5 3 6.
Definition tcpProbe (port : Z) : Probe := MkProbe (TCPSocket port) 5 5 3 6.
Definition podFSGroup (group : Z) : PodSecurityContext :=
  MkSecurity (Some group) (Some "OnRootMismatch"%string) None None None.

Definition mungeContainer : Container :=
  MkContainer "munge" image ["munged"]%string
    ["--foreground"; "--force"; "--key-file=/etc/munge/munge.key"; "--socket=/run/munge/munge.socket.2"]%string [] []
    [MkMount "munge-key" "/etc/munge/munge.key" mungeKey true; MkMount "munge-run" "/run/munge" "" false]
    (Some (execProbe ["munge"; "-n"]%string)).

Definition databaseEnv : list EnvVar :=
  let secret := Api.DatabaseSecretRef (Api.ControlPlane spec) in
  map (fun '(key, suffix) => EnvSecret ("DB_" +:+ suffix) secret key)
    [("host", "HOST"); ("port", "PORT"); ("database", "NAME"); ("username", "USER"); ("password", "PASSWORD")]%string.

(** The shell script of [slurmdbd]. *)
Definition sq (s : string) : string := "  '" +:+ s +:+ "' \" +:+ nl.
Definition dq (s : string) : string := "  " +:+ Workers.dq s +:+ " \" +:+ nl.
Definition slurmdbdCommand : string :=
  "umask 077" +:+ nl +:+ "cp /config/slurm.conf /etc/slurm/slurm.conf" +:+ nl +:+ "printf '%s\n' \" +:+ nl
  +:+ sq "AuthType=auth/munge" +:+ sq "AuthInfo=/run/munge/munge.socket.2" +:+ sq "AuthAltTypes=auth/jwt"
  +:+ sq "AuthAltParameters=jwt_key=/run/secrets/slurm/jwt_hs256.key,disable_token_creation"
  +:+ sq "DbdHost=slurmdbd" +:+ sq "DbdPort=6819" +:+ sq "SlurmUser=slurm" +:+ sq "StorageType=accounting_storage/mysql"
  +:+ dq "StorageHost=$DB_HOST" +:+ dq "StoragePort=$DB_PORT" +:+ dq "StorageLoc=$DB_NAME"
  +:+ dq "StorageUser=$DB_USER" +:+ dq "StoragePass=$DB_PASSWORD"
  +:+ "  'PidFile=/run/slurmdbd.pid' > /etc/slurm/slurmdbd.conf" +:+ nl +:+ "exec slurmdbd -D".

Definition slurm_conf_env : EnvVar := EnvValue "SLURM_CONF" "/etc/slurm/slurm.conf".

(** ** The objects *)

Definition reconcileConfig (files : SlurmFiles) : object :=
  objectMeta "config"
    (ConfigMap (<["slurm.conf" := sf_SlurmConf files]> (<["gres.conf" := GRESConf files]>
               (<["cgroup.conf" := CgroupConf files]> ∅)))%string).

Definition reconcileControllerService : object :=
  objectMeta "slurmctld"
    (Service (Some "None"%string) (Some true) (labels "slurmctld") [("slurmctld"%string, SlurmctldPort, SlurmctldPort)]).

Definition template (component configHash : string) (p : PodSpec) : PodTemplate :=
  MkTemplate (labels component) {["orchestration.gputpu.io/config-hash"%string := configHash]} p.

Definition controllers_pod : PodSpec :=
  MkPodSpec "" (Some false) (Some 30) (requiredAntiAffinity (labels "slurmctld")) (podFSGroup 64030)
    [MkContainer "state-permissions" image ["chown"; "64030:64030"; "/var/lib/slurmctld"]%string [] [] []
       [MkMount "state" "/var/lib/slurmctld" "" false] None]
    [mungeContainer;
     MkContainer "slurmctld" image ["slurmctld"]%string ["-D"; "-i"; "-f"; "/etc/slurm/slurm.conf"]%string
       [slurm_conf_env] [("slurmctld"%string, SlurmctldPort)]
       (slurmMounts ++ [MkMount "state" "/var/lib/slurmctld" "" false; jwt_mount;
                        MkMount "spool" "/var/lib/slurmd" "" false])
       (Some (execProbe ["scontrol"; "ping"]%string))]
    (commonVolumes ++ [("state"%string, ClaimVolume state_claim); ("spool"%string, EmptyDir)]).

Definition reconcileControllers (configHash : string) : object :=
  objectMeta "slurmctld"
    (StatefulSet controlPlaneReplicas (name "slurmctld") "Parallel" (labels "slurmctld")
       (template "slurmctld" configHash controllers_pod)).

Definition reconcileControllerPDB : object := objectMeta "slurmctld" (PodDisruptionBudget 1 (labels "slurmctld")).

Definition reconcileService (component : string) (port : Z) : object :=
  objectMeta component (Service None None (labels component) [(component, port, port)]).

Definition reconcileDeployment (component : string) (replicas : Z) (configHash : string) (podSpec : PodSpec) : object :=
  objectMeta component (Deployment replicas (labels component) (template component configHash podSpec)).

Definition plain_pod (hostname : string) (security : PodSecurityContext) (containers : list Container)
    (volumes : list (string * VolumeSource)) : PodSpec :=
  MkPodSpec hostname None None None security [] containers volumes.

Definition reconcileDatabase (configHash : string) : object :=
  reconcileDeployment "slurmdbd" 1 configHash
    (plain_pod "slurmdbd" (podFSGroup 64030)
       [mungeContainer;
        MkContainer "slurmdbd" image ["/bin/sh"; "-ec"]%string [slurmdbdCommand] (databaseEnv ++ [slurm_conf_env])
          [("slurmdbd"%string, SlurmdbdPort)]
          [MkMount "config" "/config" "" true; MkMount "munge-run" "/run/munge" "" false; jwt_mount;
           MkMount "slurmdbd-config" "/etc/slurm" "" false]
          (Some (tcpProbe SlurmdbdPort))]
       (commonVolumes ++ [("slurmdbd-config"%string, EmptyDir)])).

Definition reconcileREST (configHash : string) : object :=
  reconcileDeployment "slurmrestd" controlPlaneReplicas configHash
    (plain_pod "" (MkSecurity None None (Some 64031) (Some 64031) (Some true))
       [MkContainer "slurmrestd" image ["slurmrestd"]%string
          ["-a"; "rest_auth/jwt"; "-s"; "slurmctld,slurmdbd"; "-d"; "v0.0.45"; "0.0.0.0:" +:+ format_int SlurmRESTPort]%string
          [slurm_conf_env; EnvValue "SLURM_JWT" "daemon"] [("http"%string, SlurmRESTPort)]
          [MkMount "config" "/etc/slurm" "" true] (Some (tcpProbe SlurmRESTPort))]
       [configVolume]).

Definition reconcileLogin (configHash : string) : object :=
  reconcileDeployment "login" (Api.Login_Replicas (Api.ControlPlane spec)) configHash
    (plain_pod "" (podFSGroup 64030)
       [mungeContainer;
        MkContainer "login" image ["sackd"]%string ["-D"; "--conf-server"; Workers.slurmConfigServers cluster]%string
          [EnvValue "RUNTIME_DIRECTORY" "/run/slurm"; EnvValue "SLURM_CONF" "/run/slurm/conf/slurm.conf"] []
          [MkMount "munge-run" "/run/munge" "" false; MkMount "slurm-run" "/run/slurm" "" false]
          (Some (execProbe ["squeue"; "--noheader"]%string))]
       (authVolumes ++ [("slurm-run"%string, EmptyDir)])).

(** The objects in the order [Reconcile] applies them; the login nodes follow
    once the controllers are ready. *)
Definition control_plane (files : SlurmFiles) (configHash : string) : list object :=
  [reconcileConfig files; reconcileControllerService; reconcileControllers configHash; reconcileControllerPDB;
   reconcileService "slurmdbd" SlurmdbdPort; reconcileDatabase configHash;
   reconcileService "slurmrestd" SlurmRESTPort; reconcileREST configHash].
Definition all_objects (files : SlurmFiles) (configHash : string) : list object :=
  control_plane files configHash ++ [reconcileLogin configHash].

(** [restURL] without the override. *)
Definition restURL : string :=
  "http://" +:+ Api.cl_Name cluster +:+ "-slurmrestd." +:+ Api.Namespace cluster +:+ ".svc:" +:+ format_int SlurmRESTPort.

End Objects.

(** ** Well-formed objects *)

Definition template_of (o : object) : option PodTemplate :=
  match o_Spec o with StatefulSet _ _ _ _ t | Deployment _ _ t => Some t | _ => None end.
Definition selector_of (o : object) : option (gmap string string) :=
  match o_Spec o with
  | StatefulSet _ _ _ s _ | Deployment _ s _ | Service _ _ s _ | PodDisruptionBudget _ s => Some s
  | ConfigMap _ => None
  end.
Definition containers_of (p : PodSpec) : list Container := InitContainers p ++ Containers p.

(** A mount names a volume of the Pod, and the file it picks is one the volume
    projects. *)
Definition mount_ok (p : PodSpec) (m : VolumeMount) : bool :=
  existsb (fun v => (fst v =? Workers.vm_Name m)%string &&
    ((Workers.SubPath m =? "")%string ||
     match snd v with SecretVolume _ items => existsb (fun i => (snd (fst i) =? Workers.SubPath m)%string) items | _ => false end))
    (Volumes p).
Definition probe_ok (c : Container) : bool :=
  match ReadinessProbe c with
  | Some (MkProbe (TCPSocket port) _ _ _ _) => existsb (fun p => snd p =? port) (Ports c)
  | _ => true
  end.
Definition container_ok (p : PodSpec) (c : Container) : bool :=
  forallb (mount_ok p) (VolumeMounts c) && bool_decide (NoDup (map Workers.MountPath (VolumeMounts c))) && probe_ok c.
Definition pod_ok (p : PodSpec) : bool :=
  bool_decide (NoDup (map fst (Volumes p))) && bool_decide (NoDup (map c_Name (containers_of p)))
  && forallb (container_ok p) (containers_of p).

Definition kind_of (o : object) : string :=
  match o_Spec o with
  | ConfigMap _ => "ConfigMap" | Service _ _ _ _ => "Service" | StatefulSet _ _ _ _ _ => "StatefulSet"
  | Deployment _ _ _ => "Deployment" | PodDisruptionBudget _ _ => "PodDisruptionBudget"
  end.

(** An object the API server accepts and that selects its own Pods: the name is
    a DNS label, with the ordinal of a StatefulSet too, the cluster is its
    controller, selectors are the labels of the component and so is the template,
    and the Pod is well formed. *)
Record well_formed (cluster : Api.HeterogeneousCluster) (o : object) : Prop := {
  wf_name : slen (o_Name o) + (if (kind_of o =? "StatefulSet")%string then 2 else 0) <= 63;
  wf_owner : o_Controller o = Api.UID cluster /\ o_Namespace o = Api.Namespace cluster;
  wf_selector : forall s, selector_of o = Some s -> s = o_Labels o;
  wf_template : forall t, template_of o = Some t -> t_Labels t = o_Labels o /\ pod_ok (t_Spec t) = true }.

Lemma slen_app s t : slen (s +:+ t) = slen s + slen t.
Proof. rewrite ->sapp_length. apply Nat2Z.inj_add. Qed.

Lemma name_inj cluster c c' : name cluster c = name cluster c' -> c = c'.
Proof. unfold name. intros H. apply sapp_inj_l in H. by apply sapp_inj_l in H. Qed.

Lemma labels_component cluster c c' : labels cluster c = labels cluster c' -> c = c'.
Proof.
  intros H. apply (f_equal (lookup "app.kubernetes.io/component"%string)) in H. unfold labels, Workers.labels in H.
  rewrite ->!(lookup_insert_ne _ "app.kubernetes.io/name"%string), !(lookup_insert_ne _ "app.kubernetes.io/instance"%string), !lookup_insert_eq in H by done.
  by simplify_eq.
Qed.

(** C25: The objects of the control plane are well formed for every cluster whose
    name passed the check of [Reconcile], no two of them share kind and name, and
    two of them select the same Pods only if they belong to one component. *)
Theorem objects_well_formed cluster files configHash :
  slen (Api.cl_Name cluster) <= 50 ->
  Forall (well_formed cluster) (all_objects cluster files configHash) /\
  NoDup (map (fun o => (kind_of o, o_Name o)) (all_objects cluster files configHash)) /\
  forall o o' s, o ∈ all_objects cluster files configHash -> o' ∈ all_objects cluster files configHash ->
    selector_of o = Some s -> selector_of o' = Some s -> o_Name o = o_Name o'.
Proof.
  intros Hn. split_and!.
  - repeat (apply Forall_cons; split); [..|constructor];
      (constructor; [cbn; unfold name; rewrite ->!slen_app; cbn; lia|done|cbn; by intros s' [= <-]|]);
      cbn [template_of reconcileConfig reconcileControllerService reconcileControllerPDB reconcileService objectMeta o_Spec];
      try (by intros t); intros t [= <-]; (split; [done|]); vm_compute; reflexivity.
  - repeat (apply NoDup_cons; split); [..|constructor]; cbn; rewrite ->?elem_of_cons, ?elem_of_nil; intros H; destruct_or? H; try done;
      injection H as H; by apply name_inj in H.
  - assert (Forall (fun o => exists c, o_Name o = name cluster c /\ forall s, selector_of o = Some s -> s = labels cluster c)
      (all_objects cluster files configHash)) as Hc.
    { repeat (apply Forall_cons; split); [..|constructor]; eexists; (split; [reflexivity|]); cbn; by intros ? [= <-]. }
    rewrite ->Forall_forall in Hc. intros o o' s (c & -> & Hs)%Hc (c' & -> & Hs')%Hc Es Es'. apply Hs in Es. apply Hs' in Es'. subst s.
    by apply labels_component in Es' as ->.
Qed.

(** ** Secrets *)

(** The (secret, key) pairs a container of a Pod can read: the keys a mounted
    volume projects, and the keys its environment refers to. *)
Definition mounted_keys (p : PodSpec) (m : VolumeMount) : list (string * string) :=
  Volumes p ≫= fun v =>
    if negb (fst v =? Workers.vm_Name m)%string then [] else
    match snd v with
    | SecretVolume secret items =>
        map (fun i => (secret, fst (fst i)))
          (List.filter (fun i => (Workers.SubPath m =? "")%string || (snd (fst i) =? Workers.SubPath m)%string) items)
    | _ => []
    end.
Definition env_keys (e : EnvVar) : list (string * string) :=
  match e with EnvSecret _ secret key => [(secret, key)] | EnvValue _ _ => [] end.
Definition secret_keys (p : PodSpec) (c : Container) : list (string * string) :=
  (VolumeMounts c ≫= mounted_keys p) ++ (Env c ≫= env_keys).

(** Which container may read which key of which secret. *)
Definition may_read (cluster : Api.HeterogeneousCluster) (container secret key : string) : Prop :=
  let auth := Api.Authentication (spec cluster) in
  (container = "munge" /\ secret = Api.MungeKeySecretRef auth /\ key = mungeKey)%string \/
  (container ∈ ["slurmctld"; "slurmdbd"]%string /\ secret = Api.JWTKeySecretRef auth /\ key = jwtKey) \/
  (container = "slurmdbd"%string /\ secret = Api.DatabaseSecretRef (Api.ControlPlane (spec cluster)) /\
   key ∈ ["host"; "port"; "database"; "username"; "password"]%string).

(** C26: Secrets stay where they are needed: over all containers of the control
    plane the MUNGE key is readable exactly by the [munge] containers, the JWT
    key exactly by [slurmctld] and [slurmdbd], the database credentials exactly
    by [slurmdbd]; in particular the REST server and the login nodes read none. *)
Theorem secrets_confined cluster files configHash o t c secret key :
  o ∈ all_objects cluster files configHash -> template_of o = Some t -> c ∈ containers_of (t_Spec t) ->
  (secret, key) ∈ secret_keys (t_Spec t) c <-> may_read cluster (c_Name c) secret key.
Proof.
  intros Ho Ht Hc. unfold may_read. cbn zeta.
  unfold all_objects, control_plane in Ho. cbn [app] in Ho. rewrite ->!elem_of_cons, elem_of_nil in Ho. destruct_or! Ho; subst o; try done; injection Ht as <-;
    unfold containers_of in Hc; cbn in Hc; rewrite ->!elem_of_cons, elem_of_nil in Hc; destruct_or? Hc; subst; try done;
    unfold secret_keys, mounted_keys; cbn; rewrite ->?elem_of_cons, ?elem_of_nil; naive_solver.
Qed.

(** ** Addresses *)

(** Pods with these labels have a container that listens on the port. *)
Definition listens (objs : list object) (sel : gmap string string) (port : Z) : Prop :=
  exists o t c n, o ∈ objs /\ template_of o = Some t /\ sel ⊆ t_Labels t /\ c ∈ Containers (t_Spec t) /\ (n, port) ∈ Ports c.

Definition svc_host (o : object) : string := o_Name o +:+ "." +:+ o_Namespace o +:+ ".svc".

(** The names the cluster DNS resolves: that of a Service with a virtual address,
    and those of the Pods of a StatefulSet behind its headless Service. *)
Inductive reachable (objs : list object) : string -> Z -> Prop :=
| through_service s publish sel ports n port target :
    s ∈ objs -> o_Spec s = Service None publish sel ports -> (n, port, target) ∈ ports -> listens objs sel target ->
    reachable objs (svc_host s) port
| through_pod set svc replicas policy sel t publish ssel ports i c n port :
    set ∈ objs -> o_Spec set = StatefulSet replicas (o_Name svc) policy sel t -> 0 <= i < replicas ->
    svc ∈ objs -> o_Spec svc = Service (Some "None"%string) publish ssel ports -> o_Namespace svc = o_Namespace set ->
    ssel ⊆ t_Labels t -> c ∈ Containers (t_Spec t) -> (n, port) ∈ Ports c ->
    reachable objs (o_Name set +:+ "-" +:+ format_int i +:+ "." +:+ svc_host svc) port.

(** The addresses in the configuration: [SlurmctldHost=name(address)] and
    [AccountingStorageHost] with their ports. *)
Definition port_of (key : string) (conf : list (list (string * string))) : Z :=
  default 0 (v ← head (omap (declares key) conf); parse_int64 v).
Definition in_parens (v : string) : option string := '(_, rest) ← cut_on "(" v; fst <$> cut_on ")" rest.
Definition conf_addresses (conf : list (list (string * string))) : list (string * Z) :=
  map (fun h => (h, port_of "SlurmctldPort" conf)) (omap in_parens (omap (declares "SlurmctldHost") conf))
  ++ map (fun h => (h, port_of "AccountingStoragePort" conf)) (omap (declares "AccountingStorageHost") conf).

(** [host:port] *)
Definition host_port (s : string) : option (string * Z) := '(h, p) ← cut_on ":" s; z ← parse_int64 p; Some (h, z).

(** The addresses the parts of a cluster are given: those of the configuration,
    the servers of the login nodes and workers, and the base URL of the operator. *)
Definition addresses (cluster : Api.HeterogeneousCluster) (conf : string) : list (string * Z) :=
  conf_addresses (read_conf conf)
  ++ omap host_port (split_on "," (Workers.slurmConfigServers cluster))
  ++ omap (fun u => cut_prefix "http://" u ≫= host_port) [restURL cluster].

(** The characters of a DNS label. *)
Definition dns_char (c : ascii) : bool := is_lower c || is_digit c || bool_decide (c = "-"%char).
Definition dns_text (s : string) : bool := string_forallb dns_char s.

Lemma dns_nospace s : dns_text s = true -> nospace s = true.
Proof. apply string_forallb_impl. intros c. by destruct c as [[] [] [] [] [] [] [] []]. Qed.

Lemma dns_plain sep s :
  dns_char sep = false -> dns_text s = true -> string_forallb (fun c => negb (bool_decide (c = sep))) s = true.
Proof. intros Hs. apply string_forallb_impl. intros c Hc. rewrite ->bool_decide_eq_false_2; [done|]. intros ->. congruence. Qed.

(** The keys of the lines after the header are none of those looked up here. *)
Lemma declared_in_header parse_quantity size key cluster :
  key ∉ ["GresTypes"; "AccountingStorageTRES"; "NodeName"; "NodeSet"; "PartitionName"]%string ->
  omap (declares key) (declarations parse_quantity size cluster) =
  omap (fun e => declares key [e]) (header (Api.cl_Name cluster) (Api.Namespace cluster) (sorted_pools cluster)).
Proof.
  rewrite ->!not_elem_of_cons. intros Hk. destruct_and! Hk. unfold declarations. cbn zeta. rewrite ->omap_app, map_app, omap_app.
  assert (forall (es : list (string * string)), omap (declares key) (map (fun e => [e]) es) = omap (fun e => declares key [e]) es) as Hm.
  { induction es as [|e es IH]; [done|]. cbn [map omap list_omap]. by rewrite ->IH. }
  assert (forall k v l, k <> key -> declares key ((k, v) :: l) = None) as Hd.
  { intros k v l Hne. unfold declares. by apply String.eqb_neq in Hne as ->. }
  rewrite ->Hm. assert (omap (declares key) (map (fun e => [e]) (gres_lines (sorted_pools cluster))) = []) as ->.
  { unfold gres_lines. destruct (sorted_keys _); [done|]. cbn [map omap list_omap]. by rewrite ->!Hd. }
  assert (omap (declares key) (concat (imap (pool_decls parse_quantity size) (sorted_pools cluster))) = []) as ->; [|by rewrite ->!app_nil_r].
  apply elem_of_nil_inv. intros x (d & Hin & Hx)%list_elem_of_omap. apply list_elem_of_In, in_concat in Hin as (l & Hl & Hd').
  apply list_elem_of_In in Hl, Hd'. apply elem_of_lookup_imap_1 in Hl as (i & p & -> & _). unfold pool_decls in Hd'.
  apply elem_of_app in Hd' as [Hd'|Hd'].
  - destruct (Api.Profiles p); [by apply elem_of_nil in Hd'|]. apply list_elem_of_singleton in Hd' as ->. unfold catalog_decl in Hx. by rewrite ->Hd in Hx.
  - apply elem_of_cons in Hd' as [->|Hd']; [by rewrite ->Hd in Hx|]. apply list_elem_of_singleton in Hd' as ->. unfold partition_decl in Hx.
    cbn [app] in Hx. by rewrite ->Hd in Hx.
Qed.

Section Addresses.
Variable cluster : Api.HeterogeneousCluster.
Hypothesis dns_name : dns_text (Api.cl_Name cluster) = true.
Hypothesis dns_namespace : dns_text (Api.Namespace cluster) = true.

(** The address of a controller Pod, and of the accounting and REST Services. *)
Definition pod_host (i : Z) : string :=
  name cluster "slurmctld" +:+ "-" +:+ format_int i +:+ "." +:+ name cluster "slurmctld" +:+ "." +:+ Api.Namespace cluster +:+ ".svc".
Definition service_host (component : string) : string := name cluster component +:+ "." +:+ Api.Namespace cluster +:+ ".svc".

(** No separator occurs in an address. *)
Lemma pod_host_plain sep i :
  i = 0 \/ i = 1 -> dns_char sep = false -> sep <> "."%char ->
  string_forallb (fun c => negb (bool_decide (c = sep))) (pod_host i) = true.
Proof.
  intros Hi Hs Hd. unfold pod_host, name. rewrite ->!string_forallb_app, !(dns_plain sep (Api.cl_Name cluster)), !(dns_plain sep (Api.Namespace cluster)) by done.
  assert (forall t, string_forallb (fun c => dns_char c || bool_decide (c = "."%char)) t = true ->
    string_forallb (fun c => negb (bool_decide (c = sep))) t = true) as Ht.
  { intros t. apply string_forallb_impl. intros c Hc. rewrite ->bool_decide_eq_false_2; [done|]. intros ->. rewrite ->Hs in Hc. by apply bool_decide_eq_true in Hc. }
  rewrite ->!Ht by (by destruct Hi as [->| ->]). done.
Qed.

Lemma service_host_plain sep component :
  dns_text component = true -> dns_char sep = false -> sep <> "."%char ->
  string_forallb (fun c => negb (bool_decide (c = sep))) (service_host component) = true.
Proof.
  intros Hc Hs Hd. unfold service_host, name. rewrite ->!string_forallb_app, (dns_plain sep (Api.cl_Name cluster)), (dns_plain sep (Api.Namespace cluster)), (dns_plain sep component) by done.
  cbn. rewrite ->!bool_decide_eq_false_2; [done|intros <-; done..].
Qed.

Lemma controller_host i : i = 0 \/ i = 1 ->
  in_parens (snd (slurmctld_host (Api.cl_Name cluster) (Api.Namespace cluster) i)) = Some (pod_host i).
Proof.
  intros Hi. unfold slurmctld_host. cbn [snd].
  assert (forall h, h +:+ "(" +:+ h +:+ "." +:+ Api.cl_Name cluster +:+ "-slurmctld." +:+ Api.Namespace cluster +:+ ".svc)" =
    h +:+ String "(" ((h +:+ "." +:+ Api.cl_Name cluster +:+ "-slurmctld." +:+ Api.Namespace cluster +:+ ".svc") +:+ String ")" "")) as ->
    by (intros h; rewrite ->!sapp_assoc; done).
  assert ((Api.cl_Name cluster +:+ "-slurmctld-" +:+ format_int i) +:+ "." +:+ Api.cl_Name cluster +:+ "-slurmctld." +:+ Api.Namespace cluster +:+ ".svc"
    = pod_host i) as ->.
  { unfold pod_host, name. rewrite ->!sapp_assoc. done. }
  unfold in_parens. rewrite ->cut_on_app.
  - cbn. rewrite ->cut_on_app; [done|]. by apply pod_host_plain.
  - rewrite ->!string_forallb_app, (dns_plain "("%char) by done. by destruct Hi as [->| ->].
Qed.

(** What the header says of the addresses and their ports. *)
Lemma header_values pools :
  let h := header (Api.cl_Name cluster) (Api.Namespace cluster) pools in
  omap (fun e => declares "SlurmctldHost" [e]) h =
    [snd (slurmctld_host (Api.cl_Name cluster) (Api.Namespace cluster) 0); snd (slurmctld_host (Api.cl_Name cluster) (Api.Namespace cluster) 1)] /\
  omap (fun e => declares "SlurmctldPort" [e]) h = [format_int SlurmctldPort] /\
  omap (fun e => declares "AccountingStorageHost" [e]) h = [Api.cl_Name cluster +:+ "-slurmdbd." +:+ Api.Namespace cluster +:+ ".svc"] /\
  omap (fun e => declares "AccountingStoragePort" [e]) h = [format_int SlurmdbdPort].
Proof.
  cbn zeta. unfold header.
  change (slurmctld_host (Api.cl_Name cluster) (Api.Namespace cluster) 0) with ("SlurmctldHost"%string, snd (slurmctld_host (Api.cl_Name cluster) (Api.Namespace cluster) 0)).
  change (slurmctld_host (Api.cl_Name cluster) (Api.Namespace cluster) 1) with ("SlurmctldHost"%string, snd (slurmctld_host (Api.cl_Name cluster) (Api.Namespace cluster) 1)).
  cbn [snd].
  generalize (snd (slurmctld_host (Api.cl_Name cluster) (Api.Namespace cluster) 0)), (snd (slurmctld_host (Api.cl_Name cluster) (Api.Namespace cluster) 1)),
    (format_int (maxNodes pools)), (format_int SlurmctldPort), (format_int SlurmdPort), (format_int SlurmdbdPort), (format_int 30), (format_int 2), (format_int 65533),
    (Api.cl_Name cluster +:+ "-slurmdbd." +:+ Api.Namespace cluster +:+ ".svc").
  intros. split_and!; reflexivity.
Qed.

Lemma configured_addresses parse_quantity size :
  conf_addresses (declarations parse_quantity size cluster) =
  [(pod_host 0, SlurmctldPort); (pod_host 1, SlurmctldPort); (service_host "slurmdbd", SlurmdbdPort)].
Proof.
  unfold conf_addresses, port_of. rewrite ->!declared_in_header by (rewrite ->!not_elem_of_cons; split_and!; [done..|apply not_elem_of_nil]).
  destruct (header_values (sorted_pools cluster)) as (-> & -> & -> & ->). cbn [omap list_omap].
  rewrite ->!controller_host by lia. cbn [map app head]. unfold default, mbind, option_bind. rewrite ->!parse_format_int by (vm_compute; split; discriminate).
  unfold service_host, name. by rewrite ->!sapp_assoc.
Qed.

Lemma host_port_read h port :
  string_forallb (fun c => negb (bool_decide (c = ":"%char))) h = true -> int64_min <= port <= int64_max ->
  host_port (h +:+ ":" +:+ format_int port) = Some (h, port).
Proof.
  intros Hh Hp. unfold host_port. change (":" +:+ format_int port) with (String ":"%char ("" +:+ format_int port)).
  rewrite ->sapp_nil_l, cut_on_app by done. cbn. by rewrite ->parse_format_int.
Qed.

Lemma server_addresses :
  omap host_port (split_on "," (Workers.slurmConfigServers cluster)) = [(pod_host 0, SlurmctldPort); (pod_host 1, SlurmctldPort)].
Proof.
  assert (Workers.slurmConfigServers cluster =
    (pod_host 0 +:+ ":" +:+ format_int SlurmctldPort) +:+ String "," (pod_host 1 +:+ ":" +:+ format_int SlurmctldPort)) as ->.
  { unfold Workers.slurmConfigServers, pod_host, name. cbn zeta. change Workers.SlurmctldPort with SlurmctldPort.
    generalize (format_int SlurmctldPort). intros p. rewrite ->!sapp_assoc. reflexivity. }
  assert (forall i, i = 0 \/ i = 1 ->
    string_forallb (fun x => negb (bool_decide (x = ","%char))) (pod_host i +:+ ":" +:+ format_int SlurmctldPort) = true) as Hc.
  { intros i Hi. rewrite ->!string_forallb_app, pod_host_plain by done. reflexivity. }
  rewrite ->SlurmClient.split_on_app by (apply Hc; lia). rewrite ->SlurmClient.split_on_plain by (apply Hc; lia). cbn [omap list_omap].
  by rewrite ->!host_port_read by (by [apply pod_host_plain; [lia|..]|vm_compute; split; discriminate]).
Qed.

Lemma rest_address :
  omap (fun u => cut_prefix "http://" u ≫= host_port) [restURL cluster] = [(service_host "slurmrestd", SlurmRESTPort)].
Proof.
  assert (restURL cluster = "http://" +:+ (service_host "slurmrestd" +:+ ":" +:+ format_int SlurmRESTPort)) as ->.
  { unfold restURL, service_host, name. generalize (format_int SlurmRESTPort). intros p. rewrite ->!sapp_assoc. reflexivity. }
  cbn [omap list_omap]. rewrite ->cut_prefix_app. cbn [mbind option_bind].
  by rewrite ->host_port_read by (by [apply service_host_plain|vm_compute; split; discriminate]).
Qed.

Variable files : SlurmFiles.
Variable configHash : string.

Lemma pod_reachable i : i = 0 \/ i = 1 -> reachable (all_objects cluster files configHash) (pod_host i) SlurmctldPort.
Proof.
  intros Hi. change (pod_host i) with
    (o_Name (reconcileControllers cluster configHash) +:+ "-" +:+ format_int i +:+ "." +:+ svc_host (reconcileControllerService cluster)).
  eapply (through_pod _ _ (reconcileControllerService cluster) controlPlaneReplicas _ _ _ _ _ _ i (List.nth 1 (Containers (controllers_pod cluster)) (mungeContainer cluster))).
  - by apply (list_elem_of_lookup_2 _ 2).
  - reflexivity.
  - unfold controlPlaneReplicas. lia.
  - by apply (list_elem_of_lookup_2 _ 1).
  - reflexivity.
  - reflexivity.
  - reflexivity.
  - by apply (list_elem_of_lookup_2 _ 1).
  - by apply (list_elem_of_lookup_2 _ 0).
Qed.

Lemma service_reachable component port k d i c :
  all_objects cluster files configHash !! k = Some (reconcileService cluster component port) ->
  all_objects cluster files configHash !! d = Some (reconcileDeployment cluster component i configHash c) ->
  (exists x n, x ∈ Containers c /\ (n, port) ∈ Ports x) ->
  reachable (all_objects cluster files configHash) (service_host component) port.
Proof.
  intros Hs Hd (x & n & Hx & Hn). change (service_host component) with (svc_host (reconcileService cluster component port)).
  eapply through_service; [by eapply list_elem_of_lookup_2|reflexivity|by apply list_elem_of_singleton|].
  exists (reconcileDeployment cluster component i configHash c). do 3 eexists.
  split_and!; [by eapply list_elem_of_lookup_2|reflexivity|reflexivity|exact Hx|exact Hn].
Qed.

End Addresses.

(** C14: Every address leads somewhere: the two controllers and the accounting
    daemon of the rendered [slurm.conf], the controllers the login nodes and the
    workers fetch their configuration from and the base URL of the operator are
    six addresses, and each is a name of the control plane's Services with a
    container that listens on the port behind it. *)
Theorem addresses_listen parse_quantity size cluster files configHash :
  Slurm parse_quantity size cluster = Some files -> Api.valid_spec (Api.Spec cluster) = true ->
  dns_text (Api.cl_Name cluster) = true -> dns_text (Api.Namespace cluster) = true ->
  length (addresses cluster (sf_SlurmConf files)) = 6%nat /\
  forall host port, (host, port) ∈ addresses cluster (sf_SlurmConf files) ->
    reachable (all_objects cluster files configHash) host port.
Proof.
  intros E Hv Hn Hs. unfold addresses. rewrite ->(conf_declares _ _ _ _ E), read_declared by (apply declarations_ok; by [|apply dns_nospace]).
  rewrite ->configured_addresses, server_addresses, rest_address by done. split; [done|].
  intros host port Hin. cbn [app] in Hin. rewrite ->!elem_of_cons, elem_of_nil in Hin.
  destruct_or? Hin; try done; injection Hin as -> ->; try (apply pod_reachable; lia).
  - eapply (service_reachable _ _ _ "slurmdbd" _ 4 5); [reflexivity..|]. do 2 eexists. split; [by apply (list_elem_of_lookup_2 _ 1)|by apply (list_elem_of_lookup_2 _ 0)].
  - eapply (service_reachable _ _ _ "slurmrestd" _ 6 7); [reflexivity..|]. do 2 eexists. split; [by apply (list_elem_of_lookup_2 _ 0)|by apply (list_elem_of_lookup_2 _ 0)].
Qed.

(** ** The cluster of two pools *)

Lemma objects_well_formed_witness :
  Forall (well_formed ConfSamples.two_pools) (all_objects ConfSamples.two_pools ConfSamples.files "hash") /\
  NoDup (map (fun o => (kind_of o, o_Name o)) (all_objects ConfSamples.two_pools ConfSamples.files "hash")) /\
  forall o o' s, o ∈ all_objects ConfSamples.two_pools ConfSamples.files "hash" ->
    o' ∈ all_objects ConfSamples.two_pools ConfSamples.files "hash" ->
    selector_of o = Some s -> selector_of o' = Some s -> o_Name o = o_Name o'.
Proof. apply (objects_well_formed ConfSamples.two_pools ConfSamples.files "hash"). vm_compute. discriminate. Defined.

Lemma secrets_confined_witness :
  ("jwt", "jwt_hs256.key")%string ∈ secret_keys (controllers_pod ConfSamples.two_pools)
    (List.nth 1 (Containers (controllers_pod ConfSamples.two_pools)) (mungeContainer ConfSamples.two_pools)) <->
  may_read ConfSamples.two_pools "slurmctld" "jwt" "jwt_hs256.key".
Proof.
  apply (secrets_confined ConfSamples.two_pools ConfSamples.files "hash" (reconcileControllers ConfSamples.two_pools "hash")
    (template ConfSamples.two_pools "slurmctld" "hash" (controllers_pod ConfSamples.two_pools))).
  - by apply (list_elem_of_lookup_2 _ 2).
  - reflexivity.
  - by apply (list_elem_of_lookup_2 _ 2).
Defined.

Lemma addresses_listen_witness :
  length (addresses ConfSamples.two_pools (sf_SlurmConf ConfSamples.files)) = 6%nat /\
  forall host port, (host, port) ∈ addresses ConfSamples.two_pools (sf_SlurmConf ConfSamples.files) ->
    reachable (all_objects ConfSamples.two_pools ConfSamples.files "hash") host port.
Proof.
  apply (addresses_listen Demand.DemandSamples.parse_quantity 32 ConfSamples.two_pools ConfSamples.files "hash"); vm_compute; reflexivity.
Defined.

End ControlPlane.
