(* ===== verification/ClusterController.v ===== *)
(** * ClusterController: the reconciliation of a cluster
    ([src/slurm-operator/controllers/cluster_controller.go], and the scan of the
    checkpoints in [recovery_checkpoint.go])

    [Reconcile] as a program over the calls it issues: it reads the cluster,
    applies the objects of [ControlPlane], waits for them, asks the REST server
    for the pending jobs, hands over to [Workers] and writes the status.  Every
    call is an [event] that carries its answer. *)

From S2P Require Import Prelude GoStrings SlurmClient Api Demand Effects ResourceApi Workers SlurmConf ControlPlane.

Module ClusterController.
Import SlurmClient ControlPlane.

Definition second : Z := 1000000000.
Definition requeueInterval : Z := 5 * second.
Definition outageRequeue : Z := 30 * second.
Definition checkpointScanInterval : Z := 60 * second.
Definition clusterWorkerFinalizer : string := "orchestration.gputpu.io/worker-cleanup".

Definition ConditionControlPlaneReady : string := "ControlPlaneReady".
Definition ConditionAccountingReady : string := "AccountingReady".
Definition ConditionWorkersReady : string := "WorkersReady".
Definition ConditionCheckpointReady : string := "CheckpointStoreReady".

(** ** State *)

(** Time is in nanoseconds; [None] is the zero time. *)
Record ObjectInfo := MkObjectInfo { oi_Key : string; oi_LastModified : option Z; UserMetadata : gmap string string }.

Inductive spec_error :=
| DuplicateProfile (pool profile : string) | GresConflict (gres owner other : string).

Inductive store_error :=
| CheckpointingDisabled | SecretUnreadable (o : Workers.outcome) | BadSecretKey (key : string) | NotHTTPSOrigin | BadCertificates
| ClientFailed | ListingFailed | TooManyMarkers.

Inductive cluster_error :=
| Kube (o : Workers.outcome)
| ClaimMissing (claim : string) | ClaimUnreadable (o : Workers.outcome) | ClaimNotShared (claim : string)
| JWTUnreadable (secret : string) (o : Workers.outcome) | JWTTooShort (secret : string)
| BadURL | KeyTooShort
| WorkersFailed (e : Workers.worker_error).

(** The message of a condition. *)
Inductive message :=
| Text (s : string) | Invalid (e : spec_error) | Failure (e : cluster_error) | Rest (e : client_error)
| StoreFailure (e : store_error) | WorkerMessage (m : Workers.message).

Inductive ConditionStatus := ConditionTrue | ConditionFalse | ConditionUnknown.
Record Condition := MkCondition {
  Type_ : string; cn_Status : ConditionStatus; Reason : string; Message : message; cn_ObservedGeneration : Z;
  LastTransitionTime : Z }.

Record HeterogeneousClusterStatus := MkStatus {
  ObservedGeneration : Z; CheckpointObservedAt : option Z; NewestCommittedCheckpoint : option Z;
  Conditions : list Condition; WorkerPools : list Api.WorkerPoolStatus }.

(** The resource with the metadata the controller reads. *)
Record Cluster := MkCluster {
  resource : Api.HeterogeneousCluster; Generation : Z; Finalizers : list string; Deleting : bool;
  Status : HeterogeneousClusterStatus }.
Definition set_finalizers (f : list string) (c : Cluster) : Cluster :=
  MkCluster (resource c) (Generation c) f (Deleting c) (Status c).
Definition set_status (s : HeterogeneousClusterStatus) (c : Cluster) : Cluster :=
  MkCluster (resource c) (Generation c) (Finalizers c) (Deleting c) s.

(** What the controller reads of a StatefulSet and of a Deployment. *)
Record SetState := MkSetState {
  ss_Generation : Z; ss_ObservedGeneration : Z; CurrentRevision : string; UpdateRevision : string;
  ss_UpdatedReplicas : Z; ss_ReadyReplicas : Z }.
Record DeploymentState := MkDeploymentState {
  ds_Generation : Z; ds_ObservedGeneration : Z; ds_UpdatedReplicas : Z; ds_ReadyReplicas : Z }.

(** ** The conditions of a status

    [meta.SetStatusCondition] and [meta.RemoveStatusCondition] of the
    apimachinery library, with what they promise: the condition of the type is
    the one given (its transition time apart), other types are untouched. *)
Definition find_condition (cs : list Condition) (type : string) : option Condition :=
  List.find (fun c => (Type_ c =? type)%string) cs.
Definition same_condition (c d : Condition) : Prop :=
  Type_ c = Type_ d /\ cn_Status c = cn_Status d /\ Reason c = Reason d /\ Message c = Message d /\
  cn_ObservedGeneration c = cn_ObservedGeneration d.

Class StatusConditions := {
  SetStatusCondition : Z -> list Condition -> Condition -> list Condition;
  RemoveStatusCondition : list Condition -> string -> list Condition;
  set_same : forall t cs c, exists d, find_condition (SetStatusCondition t cs c) (Type_ c) = Some d /\ same_condition d c;
  set_other : forall t cs c type, type <> Type_ c -> find_condition (SetStatusCondition t cs c) type = find_condition cs type;
  set_nodup : forall t cs c, NoDup (map Type_ cs) -> NoDup (map Type_ (SetStatusCondition t cs c));
  remove_same : forall cs type, NoDup (map Type_ cs) -> find_condition (RemoveStatusCondition cs type) type = None;
  remove_other : forall cs type type', type' <> type -> find_condition (RemoveStatusCondition cs type) type' = find_condition cs type';
  remove_nodup : forall cs type, NoDup (map Type_ cs) -> NoDup (map Type_ (RemoveStatusCondition cs type)) }.

(** ** Calls *)

Inductive event :=
| EGetCluster (a : result Workers.outcome Cluster)
| EForget
| EGetStateClaim (claim : string) (a : result Workers.outcome (list string))
| EGetSecret (secret : string) (a : result Workers.outcome (gmap string string))
| EUpdateCluster (c : Cluster) (o : Workers.outcome)
| EApply (x : object) (o : Workers.outcome)
| EGetSet (set : string) (a : result Workers.outcome SetState)
| EGetDeployment (name : string) (a : result Workers.outcome DeploymentState)
| EPendingJobs (a : option (exchange (list apiError * list job)))
| EObservePending (jobs : list PendingJob)
| EAccounting (a : option (exchange (list apiError * list string)))
| EListPods (a : option (list Workers.Pod))
| EWorker (e : Workers.event)
| EScan (a : list (option ObjectInfo))
| ERecord (reason : string)
| EUpdateStatus (s : HeterogeneousClusterStatus) (o : Workers.outcome)
| EObserve (c : Cluster).

(** Every answer may depend on the calls before it. *)
Record env := MkEnv {
  cluster_ : list event -> result Workers.outcome Cluster;
  state_claim_ : list event -> result Workers.outcome (list string);
  secret_ : string -> list event -> result Workers.outcome (gmap string string);
  update_ : Cluster -> list event -> Workers.outcome;
  apply_ : object -> list event -> Workers.outcome;
  set_ : list event -> result Workers.outcome SetState;
  deployment_ : string -> list event -> result Workers.outcome DeploymentState;
  jobs_ : list event -> option (exchange (list apiError * list job));
  accounting_ : list event -> option (exchange (list apiError * list string));
  pods_ : list event -> option (list Workers.Pod);
  nodes_ : list event -> option (exchange (list apiError * list Node));
  slices_ : list event -> option (list ResourceApi.ResourceSlice);
  workers_ : list event -> Workers.env;
  (** an entry that carries an error is [None] *)
  listing_ : list event -> list (option ObjectInfo);
  update_status_ : HeterogeneousClusterStatus -> list event -> Workers.outcome;
  now_ : list event -> Z }.

Abbreviation C := (eff env event cluster_error).

(** The outcome of a call as a Go error. *)
Definition must (o : Workers.outcome) : C unit := match o with Workers.Done => ret tt | _ => throw (Kube o) end.

(** [err := m(); if err != nil { ... }] *)
Definition attempt {A} (m : C A) : C (result cluster_error A) := fun e tr =>
  let '(r, tr') := m e tr in (Ok r, tr').

(** A part of [Workers], with its calls in the trace. *)
Definition workers {A} (m : eff Workers.env Workers.event Workers.worker_error A) : C A := fun e tr =>
  let '(r, new) := m (workers_ e tr) [] in
  (match r with Ok a => Ok a | Err x => Err (WorkersFailed x) end, tr ++ map EWorker new).

(** ** Validation *)

(** [profileNames] and [gresMappings]. *)
Fixpoint validate_profiles (pool : string) (profiles : list Api.WorkerProfile) (names : gset string)
    (mappings : gmap string string) : result spec_error (gmap string string) :=
  match profiles with
  | [] => Ok mappings
  | p :: profiles' =>
      reject_if bool_decide (Api.wp_Name p ∈ names) with DuplicateProfile pool (Api.wp_Name p) in
      let owner := pool +:+ "/" +:+ Api.wp_Name p in
      match mappings !! Api.Gres p with
      | Some first => Err (GresConflict (Api.Gres p) first owner)
      | None => validate_profiles pool profiles' ({[Api.wp_Name p]} ∪ names) (<[Api.Gres p := owner]> mappings)
      end
  end.

Fixpoint validate_pools (pools : list Api.WorkerPoolSpec) (mappings : gmap string string) : result spec_error unit :=
  match pools with
  | [] => Ok tt
  | pool :: pools' =>
      let! mappings := validate_profiles (Api.Name pool) (Api.Profiles pool) ∅ mappings in
      validate_pools pools' mappings
  end.

Definition validateSpec (spec : Api.HeterogeneousClusterSpec) : result spec_error unit :=
  validate_pools (Api.WorkerPools spec) ∅.

Definition validateStateClaim (c : Cluster) : C unit :=
  let claim := state_claim (resource c) in
  let* a := observe state_claim_ (EGetStateClaim claim) in
  match a with
  | Err Workers.NotFound => throw (ClaimMissing claim)
  | Err o => throw (ClaimUnreadable o)
  | Ok modes => if bool_decide ("ReadWriteMany"%string ∈ modes) then ret tt else throw (ClaimNotShared claim)
  end.

(** The key of the JWT secret; a missing entry is empty. *)
Definition jwt_key (c : Cluster) : C string :=
  let secret := Api.JWTKeySecretRef (Api.Authentication (Api.Spec (resource c))) in
  let* a := observe (fun e => secret_ e secret) (EGetSecret secret) in
  match a with
  | Err o => throw (JWTUnreadable secret o)
  | Ok data =>
      let value := default ""%string (data !! jwtKey) in
      if slen value <? 32 then throw (JWTTooShort secret) else ret value
  end.

(** ** Checkpoints *)

(** [a.After(b)] *)
Definition after (a b : option Z) : bool :=
  match a, b with Some x, Some y => y <? x | Some _, None => true | None, _ => false end.

Definition newestCheckpointTime (objects : list ObjectInfo) (clusterUID : string) : option Z :=
  foldl (fun newest o =>
    if (default "" (UserMetadata o !! "cluster-uid") =? clusterUID)%string && after (oi_LastModified o) newest
    then oi_LastModified o else newest) None objects.

(** The loop over the listing. *)
Fixpoint collect_markers (listing : list (option ObjectInfo)) (objects : list ObjectInfo) : result store_error (list ObjectInfo) :=
  match listing with
  | [] => Ok objects
  | None :: _ => Err ListingFailed
  | Some o :: listing' =>
      if has_suffix ".complete" (oi_Key o)
      then let objects := objects ++ [o] in
           reject_if 10000 <? Z.of_nat (length objects) with TooManyMarkers in
           collect_markers listing' objects
      else collect_markers listing' objects
  end.

Record URL := MkURL {
  Scheme : string; Host : string; Path : string; HasUser : bool; RawQuery : string; Fragment : string }.
Record StoreConfig := MkStoreConfig { Endpoint : string; Bucket : string; AccessKey : string; SecretKey : string }.

Section Controller.
Context {conditions : StatusConditions}.
(** [url.Parse], the check of [ca.crt] against the system pool, and
    [minio.New] of the endpoint. *)
Variable parse_url : string -> option URL.
Variable ca_ok : string -> bool.
Variable client_ok : StoreConfig -> bool.
(** [validation.IsDNS1035Label(name)] finds nothing to report. *)
Variable is_dns1035 : string -> bool.
(** [reflect.DeepEqual] of two statuses. *)
Variable deep_equal : HeterogeneousClusterStatus -> HeterogeneousClusterStatus -> bool.
(** [fmt.Sprintf] of the SHA-256 sum in hexadecimal. *)
Variable sha256_hex : string -> string.
(** The order in which a map of components is ranged over. *)
Variable component_order : list (string * Z) -> list (string * Z).
(** The parameters of [render] and of the workers. *)
Variable parse_quantity : string -> option Z.
Variable AllocationResultsMaxSize : Z.
Variable order : gmap string Z -> list (string * Z).
Variable decode_shape : string -> option Demand.Shape.
Variable encode_shape : Demand.Shape -> string.
Variable pool_order : list string -> list string.
Variable r : Workers.ClusterReconciler.
Variable RESTBaseURL : option (Api.HeterogeneousCluster -> string).

Definition store_value (data : gmap string string) (key : string) : result store_error string :=
  let value := trim_space (default ""%string (data !! key)) in
  reject_if (value =? "")%string || (4096 <? slen value) with BadSecretKey key in Ok value.

Definition is_origin (u : URL) : bool :=
  (Scheme u =? "https")%string && negb (Host u =? "")%string && ((Path u =? "")%string || (Path u =? "/")%string)
  && negb (HasUser u) && (RawQuery u =? "")%string && (Fragment u =? "")%string.

(** [checkpointStore] once the secret is read. *)
Definition checkpointStore (data : gmap string string) : result store_error StoreConfig :=
  let! endpoint := store_value data "endpoint" in
  let! bucket := store_value data "bucket" in
  let! accessKey := store_value data "accessKey" in
  let! secretKey := store_value data "secretKey" in
  match parse_url endpoint with
  | None => Err NotHTTPSOrigin
  | Some u =>
      reject_if negb (is_origin u) with NotHTTPSOrigin in
      let ca := default ""%string (data !! "ca.crt"%string) in
      reject_if negb (ca =? "")%string && negb (ca_ok ca) with BadCertificates in
      let config := MkStoreConfig (Host u) bucket accessKey secretKey in
      reject_if negb (client_ok config) with ClientFailed in
      Ok config
  end.

Definition newestCommittedCheckpoint (c : Cluster) : C (result store_error (option Z)) :=
  match Api.Checkpointing (Api.Spec (resource c)) with
  | None => ret (Err CheckpointingDisabled)
  | Some secret =>
      let* a := observe (fun e => secret_ e secret) (EGetSecret secret) in
      match a with
      | Err o => ret (Err (SecretUnreadable o))
      | Ok data =>
          match checkpointStore data with
          | Err e => ret (Err e)
          | Ok _ =>
              let* listing := observe listing_ EScan in
              ret (let! objects := collect_markers listing [] in
                   Ok (newestCheckpointTime objects (Api.UID (resource c))))
          end
      end
  end.

(** ** Status *)

Definition setCondition (t : Z) (s : HeterogeneousClusterStatus) (type : string) (value : ConditionStatus) (reason : string)
    (m : message) (generation : Z) : HeterogeneousClusterStatus :=
  MkStatus (ObservedGeneration s) (CheckpointObservedAt s) (NewestCommittedCheckpoint s)
    (SetStatusCondition t (Conditions s) (MkCondition type value reason m generation 0)) (WorkerPools s).

Definition updateStatus (c : Cluster) (s : HeterogeneousClusterStatus) : C unit :=
  if deep_equal (Status c) s then let* _ := call (fun _ _ => tt) (EObserve c) in ret tt
  else
    let* o := observe (fun e => update_status_ e s) (EUpdateStatus s) in
    let* _ := must o in
    let* _ := call (fun _ _ => tt) (EObserve (set_status s c)) in
    ret tt.

Definition not_ready_status (t : Z) (c : Cluster) (reason : string) (m : message) : HeterogeneousClusterStatus :=
  let g := Generation c in
  let s := MkStatus g (CheckpointObservedAt (Status c)) (NewestCommittedCheckpoint (Status c)) (Conditions (Status c))
             (Workers.poolStatus (Api.WorkerPools (Api.Spec (resource c)))) in
  let s := setCondition t s ConditionControlPlaneReady ConditionFalse reason m g in
  let s := setCondition t s ConditionAccountingReady ConditionFalse reason m g in
  setCondition t s ConditionWorkersReady ConditionUnknown reason
    (Text "worker capacity is preserved until the control plane recovers") g.

(** The delay before the next reconciliation. *)
Definition notReady (c : Cluster) (reason : string) (m : message) (reconcileError : option cluster_error) : C Z :=
  let* t := ask now_ in
  let* _ := updateStatus c (not_ready_status t c reason m) in
  match reconcileError with
  | Some e => throw e
  | None =>
      ret (if (reason =? "RESTUnavailable")%string || (reason =? "JWTUnavailable")%string then outageRequeue else requeueInterval)
  end.

(** ** Readiness *)

Definition set_ready (s : SetState) : bool :=
  (ss_ObservedGeneration s =? ss_Generation s) && (CurrentRevision s =? UpdateRevision s)%string
  && (ss_UpdatedReplicas s =? controlPlaneReplicas) && (ss_ReadyReplicas s =? controlPlaneReplicas).

Definition controllersReady (c : Cluster) : C bool :=
  let* a := observe set_ (EGetSet (name (resource c) "slurmctld")) in
  match a with Err o => throw (Kube o) | Ok s => ret (set_ready s) end.

Definition deployment_ready (replicas : Z) (d : DeploymentState) : bool :=
  (ds_ObservedGeneration d =? ds_Generation d) && (ds_UpdatedReplicas d =? replicas) && (ds_ReadyReplicas d =? replicas).

Fixpoint deployments_ready (c : Cluster) (l : list (string * Z)) : C bool :=
  match l with
  | [] => ret true
  | (component, replicas) :: l' =>
      let deployment := name (resource c) component in
      let* a := observe (fun e => deployment_ e deployment) (EGetDeployment deployment) in
      match a with
      | Err o => throw (Kube o)
      | Ok d => if deployment_ready replicas d then deployments_ready c l' else ret false
      end
  end.

Definition components (c : Cluster) : list (string * Z) :=
  [("slurmdbd", 1); ("slurmrestd", controlPlaneReplicas); ("login", Api.Login_Replicas (Api.ControlPlane (Api.Spec (resource c))))]%string.

Definition workloadsReady (c : Cluster) : C bool :=
  let* ready := controllersReady c in
  if ready : bool then deployments_ready c (component_order (components c)) else ret false.

(** ** The handler *)

Definition restURL (c : Cluster) : string :=
  match RESTBaseURL with Some f => f (resource c) | None => ControlPlane.restURL (resource c) end.

(** [slurm.NewClient] *)
Definition NewClient (baseURL key : string) : result cluster_error unit :=
  match parse_url baseURL with
  | None => Err BadURL
  | Some u =>
      reject_if (Host u =? "")%string || (negb (Scheme u =? "http")%string && negb (Scheme u =? "https")%string) || HasUser u
        with BadURL in
      reject_if slen key <? 32 with KeyTooShort in
      Ok tt
  end.

Definition apply (x : object) : C unit :=
  let* o := observe (fun e => apply_ e x) (EApply x) in must o.

Fixpoint apply_all (xs : list object) : C unit :=
  match xs with [] => ret tt | x :: xs' => let* _ := apply x in apply_all xs' end.

Definition cleanupClusterWorkers (c : Cluster) : C bool :=
  let* pods := observe pods_ EListPods in
  let* nodes := ask nodes_ in
  workers (Workers.cleanupClusterWorkers (resource c) pods nodes).

Definition reconcileWorkers (c : Cluster) (jobs : list PendingJob) : C Workers.workerResult :=
  let* pods := observe pods_ EListPods in
  let* nodes := ask nodes_ in
  let* slices := ask slices_ in
  workers (Workers.reconcileWorkers parse_quantity AllocationResultsMaxSize order decode_shape encode_shape r pool_order
             (resource c) jobs pods nodes slices).

(** A cluster that is being deleted. *)
Definition reconcile_deletion (c : Cluster) : C Z :=
  if negb (bool_decide (clusterWorkerFinalizer ∈ Finalizers c)) then ret 0
  else
    let* key := jwt_key c in
    let* _ := lift (NewClient (restURL c) key) in
    let* done := cleanupClusterWorkers c in
    if negb done then ret requeueInterval
    else
      let c := set_finalizers (List.filter (fun f => negb (f =? clusterWorkerFinalizer)%string) (Finalizers c)) c in
      let* o := observe (fun e => update_ e c) (EUpdateCluster c) in
      let* _ := must o in
      ret 0.

(** The checkpoint part of the final status; one reading [t] of the clock stands
    for those of the last part of a pass. *)
Definition checkpoint_status (t : Z) (c : Cluster) (s : HeterogeneousClusterStatus) : C HeterogeneousClusterStatus :=
  match Api.Checkpointing (Api.Spec (resource c)) with
  | None => ret (MkStatus (ObservedGeneration s) None None (RemoveStatusCondition (Conditions s) ConditionCheckpointReady) (WorkerPools s))
  | Some _ =>
      if match CheckpointObservedAt s with Some at_ => t - at_ <? checkpointScanInterval | None => false end then ret s
      else
        let* newest := newestCommittedCheckpoint c in
        match newest with
        | Ok newest =>
            ret (setCondition t (MkStatus (ObservedGeneration s) (Some t) newest (Conditions s) (WorkerPools s))
                   ConditionCheckpointReady ConditionTrue "Ready" (Text "checkpoint commit metadata is readable") (Generation c))
        | Err e =>
            let* _ := if Workers.Recorder r then let* _ := call (fun _ _ => tt) (ERecord "CheckpointStoreUnavailable") in ret tt else ret tt in
            ret (setCondition t (MkStatus (ObservedGeneration s) (Some t) (NewestCommittedCheckpoint s) (Conditions s) (WorkerPools s))
                   ConditionCheckpointReady ConditionFalse "ObjectStoreUnavailable" (StoreFailure e) (Generation c))
        end
  end.

Definition final_conditions (t : Z) (c : Cluster) (accounting : result client_error unit) (w : Workers.workerResult)
    (s : HeterogeneousClusterStatus) : HeterogeneousClusterStatus :=
  let g := Generation c in
  let s := setCondition t s ConditionControlPlaneReady ConditionTrue "Ready" (Text "Slurm controllers, REST, and login are ready") g in
  let s := match accounting with
           | Ok _ => setCondition t s ConditionAccountingReady ConditionTrue "Ready" (Text "Slurm accounting is ready") g
           | Err e => setCondition t s ConditionAccountingReady ConditionFalse "AccountingUnavailable" (Rest e) g
           end in
  setCondition t s ConditionWorkersReady (if Workers.wr_Ready w then ConditionTrue else ConditionFalse)
    (Workers.wr_Reason w) (WorkerMessage (Workers.wr_Message w)) g.

(** From the answer to the pending jobs on. *)
Definition reconcile_ready (c : Cluster) (jobs : list PendingJob) : C Z :=
  let* _ := call (fun _ _ => tt) (EObservePending jobs) in
  let* a := observe accounting_ EAccounting in
  let accounting := AccountingReady (Api.cl_Name (resource c)) a in
  let* w := reconcileWorkers c jobs in
  let* t := ask now_ in
  let s := MkStatus (Generation c) (CheckpointObservedAt (Status c)) (NewestCommittedCheckpoint (Status c))
             (Conditions (Status c)) (Workers.wr_Status w) in
  let* s := checkpoint_status t c s in
  let* _ := updateStatus c (final_conditions t c accounting w s) in
  ret (if negb (is_ok accounting) || (Workers.wr_Reason w =? "RESTUnavailable")%string then outageRequeue else requeueInterval).

(** From the readiness of the controllers on. *)
Definition reconcile_login (c : Cluster) (key configHash : string) : C Z :=
  let* login := attempt (apply (reconcileLogin (resource c) configHash)) in
  match login with
  | Err e => notReady c "ReconcileFailed" (Failure e) (Some e)
  | Ok _ =>
      let* ready := attempt (workloadsReady c) in
      match ready with
      | Err e => notReady c "ReadinessCheckFailed" (Failure e) (Some e)
      | Ok false => notReady c "ResourcesNotReady" (Text "Slurm control-plane workloads are not ready") None
      | Ok true =>
          match NewClient (restURL c) key with
          | Err e => notReady c "JWTUnavailable" (Failure e) None
          | Ok _ =>
              let* a := observe jobs_ EPendingJobs in
              match PendingJobs a with
              | Err e => notReady c "RESTUnavailable" (Rest e) None
              | Ok jobs => reconcile_ready c jobs
              end
          end
      end
  end.

Definition config_hash (f : SlurmConf.SlurmFiles) : string :=
  let z := String "000" "" in
  sha256_hex (SlurmConf.sf_SlurmConf f +:+ z +:+ SlurmConf.GRESConf f +:+ z +:+ SlurmConf.CgroupConf f).

(** With the finalizer in place; [None] where [render] panics. *)
Definition reconcile_control_plane (c : Cluster) (key : string) : C (option Z) :=
  match SlurmConf.Slurm parse_quantity AllocationResultsMaxSize (resource c) with
  | None => ret None
  | Some files =>
      let hash := config_hash files in
      let* applied := attempt (apply_all (control_plane (resource c) files hash)) in
      match applied with
      | Err e => let* d := notReady c "ReconcileFailed" (Failure e) (Some e) in ret (Some d)
      | Ok _ =>
          let* ready := attempt (controllersReady c) in
          match ready with
          | Err e => let* d := notReady c "ReadinessCheckFailed" (Failure e) (Some e) in ret (Some d)
          | Ok false =>
              let* d := notReady c "ResourcesNotReady" (Text "Slurm controllers are not at the current revision") None in ret (Some d)
          | Ok true => let* d := reconcile_login c key hash in ret (Some d)
          end
      end
  end.

Definition add_finalizer (c : Cluster) : C Cluster :=
  if bool_decide (clusterWorkerFinalizer ∈ Finalizers c) then ret c
  else
    let c := set_finalizers (Finalizers c ++ [clusterWorkerFinalizer]) c in
    let* o := observe (fun e => update_ e c) (EUpdateCluster c) in
    let* _ := must o in
    ret c.

Definition name_ok (n : string) : bool := (slen n <=? 50) && is_dns1035 n.

(** The delay of the next reconciliation, 0 for none; [None] is a panic. *)
Definition Reconcile : C (option Z) :=
  let* a := observe cluster_ EGetCluster in
  match a with
  | Err Workers.NotFound => let* _ := call (fun _ _ => tt) EForget in ret (Some 0)
  | Err o => throw (Kube o)
  | Ok c =>
      if Deleting c then let* d := reconcile_deletion c in ret (Some d)
      else if negb (name_ok (Api.cl_Name (resource c))) then
        let* d := notReady c "InvalidSpec"
          (Text "cluster name must be a DNS label starting with a letter and contain at most 50 characters") None in ret (Some d)
      else
      match validateSpec (Api.Spec (resource c)) with
      | Err e => let* d := notReady c "InvalidSpec" (Invalid e) None in ret (Some d)
      | Ok _ =>
          let* claim := attempt (validateStateClaim c) in
          match claim with
          | Err e => let* d := notReady c "InvalidStateClaim" (Failure e) None in ret (Some d)
          | Ok _ =>
              let* key := attempt (jwt_key c) in
              match key with
              | Err e => let* d := notReady c "JWTUnavailable" (Failure e) None in ret (Some d)
              | Ok key =>
                  let* c := add_finalizer c in
                  reconcile_control_plane c key
              end
          end
      end
  end.

(** ** What a pass has established

    Predicates of the calls made so far; each stays true when more calls follow. *)

(** [c] is the cluster as read, apart from its finalizers. *)
Definition known (c : Cluster) (h : list event) : Prop :=
  exists c0, EGetCluster (Ok c0) ∈ h /\ Deleting c = Deleting c0 /\ resource c = resource c0 /\
    Generation c = Generation c0 /\ Status c = Status c0.

(** The API server holds [c] with the finalizer. *)
Definition guarded (c : Cluster) (h : list event) : Prop :=
  clusterWorkerFinalizer ∈ Finalizers c /\ (EGetCluster (Ok c) ∈ h \/ EUpdateCluster c Workers.Done ∈ h).

(** After the control plane was applied the controllers were seen ready. *)
Definition set_seen (c : Cluster) (h : list event) : Prop :=
  exists s, EGetSet (name (resource c) "slurmctld") (Ok s) ∈ h /\ set_ready s = true.
Definition controllers_up (c : Cluster) (files : SlurmConf.SlurmFiles) (h : list event) : Prop :=
  exists h1 h2, h = h1 ++ h2 /\
    (forall x, x ∈ control_plane (resource c) files (config_hash files) -> EApply x Workers.Done ∈ h1) /\ set_seen c h2.

(** After that the login nodes were applied, and then all workloads seen ready. *)
Definition workloads_up (c : Cluster) (files : SlurmConf.SlurmFiles) (h : list event) : Prop :=
  exists h1 h2, h = h1 ++ EApply (reconcileLogin (resource c) (config_hash files)) Workers.Done :: h2 /\
    controllers_up c files h1 /\ set_seen c h2 /\
    forall component replicas, (component, replicas) ∈ components c ->
      exists d, EGetDeployment (name (resource c) component) (Ok d) ∈ h2 /\ deployment_ready replicas d = true.

(** After that the REST server listed the pending jobs. *)
Definition serving (c : Cluster) (h : list event) : Prop :=
  exists files h1 h2 a jobs, SlurmConf.Slurm parse_quantity AllocationResultsMaxSize (resource c) = Some files /\
    h = h1 ++ EPendingJobs a :: h2 /\ workloads_up c files h1 /\ PendingJobs a = Ok jobs.

Lemma known_app c h k : known c h -> known c (h ++ k).
Proof. intros (c0 & ? & ?). exists c0. split; [apply elem_of_app; by left|done]. Qed.
Lemma guarded_app c h k : guarded c h -> guarded c (h ++ k).
Proof. intros [Hf Hh]. split; [done|]. rewrite ->!elem_of_app. destruct Hh; auto. Qed.
Lemma set_seen_app c h k : set_seen c h -> set_seen c (h ++ k).
Proof. intros (s & ? & ?). exists s. split; [apply elem_of_app; by left|done]. Qed.
Lemma controllers_up_app c files h k : controllers_up c files h -> controllers_up c files (h ++ k).
Proof. intros (h1 & h2 & -> & ? & ?). exists h1, (h2 ++ k). split_and!; [by rewrite ->app_assoc|done|by apply set_seen_app]. Qed.
Lemma workloads_up_app c files h k : workloads_up c files h -> workloads_up c files (h ++ k).
Proof.
  intros (h1 & h2 & -> & ? & ? & Hd). exists h1, (h2 ++ k). split_and!; [by rewrite <-app_assoc|done|by apply set_seen_app|].
  intros component replicas Hin. destruct (Hd _ _ Hin) as (d & ? & ?). exists d. split; [apply elem_of_app; by left|done].
Qed.
Lemma serving_app c h k : serving c h -> serving c (h ++ k).
Proof. intros (files & h1 & h2 & a & jobs & ? & -> & ? & ?). exists files, h1, (h2 ++ k), a, jobs. split_and!; [done|by rewrite <-app_assoc|done..]. Qed.

(** ** Which calls are allowed *)

Definition quiet_event (e : event) : Prop := match e with EWorker _ => False | _ => True end.
Definition quiet (h : list event) : Prop := Forall quiet_event h.

Definition worker_allowed (h : list event) (w : Workers.event) : Prop :=
  exists c, known c h /\ guarded c h /\
    if Deleting c then (exists pods, EListPods (Some pods) ∈ h) /\ Workers.no_create w else serving c h.

Definition update_allowed (h : list event) (c' : Cluster) : Prop :=
  exists c, EGetCluster (Ok c) ∈ h /\
    resource c' = resource c /\ Generation c' = Generation c /\ Deleting c' = Deleting c /\ Status c' = Status c /\
    if Deleting c then
      clusterWorkerFinalizer ∈ Finalizers c /\
      Finalizers c' = filter (fun f => f <> clusterWorkerFinalizer) (Finalizers c) /\ EListPods (Some []) ∈ h
    else clusterWorkerFinalizer ∉ Finalizers c /\ Finalizers c' = Finalizers c ++ [clusterWorkerFinalizer].

(** The status of a condition, as it was observed for generation [g]. *)
Definition shows (s : HeterogeneousClusterStatus) (g : Z) (type : string) (value : ConditionStatus) : Prop :=
  exists d, find_condition (Conditions s) type = Some d /\ cn_Status d = value /\ cn_ObservedGeneration d = g.

Definition status_allowed (h : list event) (s : HeterogeneousClusterStatus) : Prop :=
  exists c, known c h /\ Deleting c = false /\ ObservedGeneration s = Generation c /\
    (NoDup (map Type_ (Conditions (Status c))) -> NoDup (map Type_ (Conditions s))) /\
    ((quiet h /\ shows s (Generation c) ConditionControlPlaneReady ConditionFalse /\
      shows s (Generation c) ConditionAccountingReady ConditionFalse /\
      shows s (Generation c) ConditionWorkersReady ConditionUnknown) \/
     (serving c h /\ shows s (Generation c) ConditionControlPlaneReady ConditionTrue /\
      exists a, EAccounting a ∈ h /\
        shows s (Generation c) ConditionAccountingReady
          (if is_ok (AccountingReady (Api.cl_Name (resource c)) a) then ConditionTrue else ConditionFalse))).

Definition allowed (h : list event) (e : event) : Prop :=
  match e with
  | EWorker w => worker_allowed h w
  | EUpdateCluster c _ => update_allowed h c
  | EUpdateStatus s _ => status_allowed h s
  | _ => True
  end.
(** In the form of [keeps]: the call is the last of the history. *)
Definition ok (h : list event) (e : event) : Prop := allowed (removelast h) e.
Definition any (_ : env) : Prop := True.

Abbreviation holds := (keeps (E := cluster_error) any ok).
Abbreviation lawful := (good ok).

(** ** Programs that only issue allowed calls *)

Lemma ok_snoc h e : allowed h e -> ok (h ++ [e]) e.
Proof. unfold ok. by rewrite ->removelast_last. Qed.

Lemma holds_observe {A} (f : env -> list event -> A) mk h :
  lawful h -> (forall a, allowed h (mk a)) -> holds (observe f mk) h (fun a h' => h' = h ++ [mk a]).
Proof. intros Hg Ha. apply keeps_observe; [done|..]; intros e _; [apply ok_snoc, Ha|done]. Qed.

Lemma holds_call e h : lawful h -> allowed h e -> holds (call (fun _ _ => tt) e) h (fun _ h' => h' = h ++ [e]).
Proof. intros Hg Ha env _. cbn. split_and!; [by apply good_snoc, ok_snoc|by apply prefix_app_r|]. by intros a [= <-]. Qed.

(** One step after another, where the first one leaves the workers alone. *)
Lemma holds_bind {A B} (m : C A) (k : A -> C B) h P Q :
  holds m h P -> (forall a k', lawful (h ++ k') -> P a (h ++ k') -> holds (k a) (h ++ k') Q) -> holds (bind m k) h Q.
Proof.
  intros Hm Hk e He. destruct (Hm e He) as (Hg & [k' Hs] & HP). unfold bind. destruct (m e h) as [[a|x] h']; simpl in *; subst h'.
  - destruct (Hk a k' Hg (HP a eq_refl) e He) as (? & ? & ?). split_and!; [done| |done]. etrans; [|done]. by apply prefix_app_r.
  - split_and!; [done|by apply prefix_app_r|done].
Qed.

Lemma holds_attempt {A} (m : C A) h Q : holds m h Q -> holds (attempt m) h (fun x h' => forall a, x = Ok a -> Q a h').
Proof.
  intros Hm e He. destruct (Hm e He) as (Hg & Hs & HP). unfold attempt. destruct (m e h) as [x h']. simpl in *.
  split_and!; [done..|]. by intros a [= ->].
Qed.

(** The calls of [m] leave the workers alone. *)
Lemma holds_quiet {A} (m : C A) h Q : emits quiet_event m -> quiet h -> holds m h Q -> holds m h (fun a h' => quiet h' /\ Q a h').
Proof.
  intros He Hq Hm e Hh. destruct (Hm e Hh) as (Hg & Hs & HP). split_and!; [done..|]. intros a Ha. split; [|auto].
  destruct (He e h) as (new & -> & Hn). by apply Forall_app.
Qed.

Lemma emits_observe {A} P (f : env -> list event -> A) mk : (forall a, P (mk a)) -> emits P (observe f mk : C A).
Proof. intros HP e tr. exists [mk (f e tr)]. split; [done|]. by apply Forall_singleton. Qed.

Lemma emits_attempt {A} P (m : C A) : emits P m -> emits P (attempt m).
Proof. intros Hm e tr. destruct (Hm e tr) as (new & E & Hn). exists new. unfold attempt. destruct (m e tr). by split. Qed.

Ltac quiet_walk :=
  repeat first
    [ emits_step | apply emits_observe; by intros | apply emits_call; done | apply emits_attempt ].

Lemma holds_must o h : lawful h -> holds (must o) h (fun _ h' => h' = h /\ o = Workers.Done).
Proof. intros Hg. destruct o; [by apply keeps_ret|by apply keeps_throw..]. Qed.

Lemma holds_apply x h : lawful h -> holds (apply x) h (fun _ h' => h' = h ++ [EApply x Workers.Done]).
Proof.
  intros Hg. eapply holds_bind; [by apply holds_observe|]. intros o k' Hg' Ek. eapply keeps_mono; [by apply holds_must|].
  by intros _ h' _ [-> ->].
Qed.

Lemma holds_apply_all xs h : lawful h ->
  holds (apply_all xs) h (fun _ h' => h' = h ++ map (fun x => EApply x Workers.Done) xs).
Proof.
  revert h. induction xs as [|x xs IH]; intros h Hg; [apply keeps_ret; [done|by rewrite ->app_nil_r]|]. cbn [apply_all].
  eapply holds_bind; [by apply holds_apply|]. intros [] k' Hg' Ek%app_inv_head. subst k'. eapply keeps_mono; [by apply IH|].
  intros [] h' _ ->. by rewrite <-app_assoc.
Qed.

Lemma holds_controllersReady c h : lawful h ->
  holds (controllersReady c) h (fun b h' => exists k, h' = h ++ k /\ (b = true -> set_seen c k)).
Proof.
  intros Hg. eapply holds_bind; [by apply holds_observe|]. intros a k' Hg' Ek. destruct a as [s|o]; [|by apply keeps_throw].
  apply keeps_ret; [done|]. exists k'. split; [done|]. intros Hs. apply app_inv_head in Ek as ->. exists s. split; [by apply list_elem_of_singleton|done].
Qed.

Lemma holds_deployments c l h : lawful h ->
  holds (deployments_ready c l) h (fun b h' => exists k, h' = h ++ k /\ (b = true -> forall component replicas, (component, replicas) ∈ l ->
    exists d, EGetDeployment (name (resource c) component) (Ok d) ∈ k /\ deployment_ready replicas d = true)).
Proof.
  revert h. induction l as [|[component replicas] l IH]; intros h Hg; cbn [deployments_ready].
  { apply keeps_ret; [done|]. exists []. split; [by rewrite ->app_nil_r|]. intros _ ? ? []%elem_of_nil. }
  eapply holds_bind; [by apply holds_observe|]. intros a k' Hg' Ek. destruct a as [d|o]; [|by apply keeps_throw].
  apply app_inv_head in Ek as ->. destruct (deployment_ready replicas d) eqn:Ed.
  - eapply keeps_mono; [by apply IH|]. intros b h' _ (k & -> & Hk). eexists. split; [by rewrite <-app_assoc|]. intros Hb x y.
    rewrite ->elem_of_cons. intros [[= -> ->]|Hin].
    + exists d. split; [by apply elem_of_app; left; apply list_elem_of_singleton|done].
    + destruct (Hk Hb _ _ Hin) as (d' & ? & ?). exists d'. split; [apply elem_of_app; by right|done].
  - apply keeps_ret; [done|]. by eexists.
Qed.

(** ** The parts of [Reconcile] *)

Lemma holds_workers {A} (m : eff Workers.env Workers.event Workers.worker_error A) (P : Workers.event -> Prop) (R : A -> Prop) h :
  lawful h -> emits P m -> returns R m -> (forall k w, P w -> worker_allowed (h ++ k) w) ->
  holds (workers m) h (fun a h' => R a /\ exists k, h' = h ++ k).
Proof.
  intros Hg Hm Hr Ha e _. unfold workers. destruct (Hm (workers_ e h) []) as (new & E & Hn). pose proof (Hr (workers_ e h) []) as Hr'.
  destruct (m (workers_ e h) []) as [x new'] eqn:Em. cbn in E, Hn, Hr'. subst new'. cbn. split_and!.
  - clear Em Hr'. induction new as [|w new IH] using rev_ind; [by rewrite ->app_nil_r|]. apply Forall_app in Hn as [Hn Hw]. rewrite ->Forall_singleton in Hw.
    rewrite ->map_app, app_assoc. apply good_snoc; [by apply IH|]. apply ok_snoc. change (worker_allowed (h ++ map EWorker new) w). auto.
  - by apply prefix_app_r.
  - intros a Ha'. split; [|by eexists]. destruct x as [a'|]; [|done]. injection Ha' as <-. by apply Hr'.
Qed.

Lemma cleanup_emits cluster pods nodes : emits Workers.no_create (Workers.cleanupClusterWorkers cluster pods nodes).
Proof.
  unfold Workers.cleanupClusterWorkers. destruct pods as [[|p pods]|]; [apply emits_ret| |apply emits_throw]. destruct (Nodes nodes) as [ns|]; [|apply emits_throw].
  generalize (p :: pods). clear p pods. intros pods. induction pods as [|p pods IH]; [apply emits_ret|]. cbn [Workers.cleanup_pods].
  apply emits_bind; [apply emits_lift|]. intros _. apply emits_bind; [apply Workers.cleanup_no_create|]. by intros _.
Qed.

Lemma cleanup_done cluster pods nodes :
  returns (fun b => b = true -> pods = Some []) (Workers.cleanupClusterWorkers cluster pods nodes).
Proof.
  unfold Workers.cleanupClusterWorkers. destruct pods as [[|p pods]|]; [by apply returns_ret| |apply returns_throw]. destruct (Nodes nodes) as [ns|]; [|apply returns_throw].
  assert (forall l, returns (fun b => b = false) (Workers.cleanup_pods cluster ns l)) as Hc.
  { induction l as [|q l IH]; [by apply returns_ret|]. cbn [Workers.cleanup_pods]. apply returns_bind. intros _. by apply returns_bind. }
  intros e tr b Hb. by rewrite ->(Hc _ _ _ _ Hb).
Qed.

Lemma filter_finalizer (l : list string) :
  List.filter (fun f => negb (f =? clusterWorkerFinalizer)%string) l = filter (fun f => f <> clusterWorkerFinalizer) l.
Proof.
  induction l as [|f l IH]; [done|]. cbn [List.filter]. rewrite ->filter_cons, IH.
  destruct (String.eqb_spec f clusterWorkerFinalizer); by case_decide.
Qed.

Lemma holds_jwt_key c h : lawful h -> holds (jwt_key c) h (fun _ h' => exists k, h' = h ++ k).
Proof.
  intros Hg. eapply holds_bind; [by apply holds_observe|]. intros [data|o] k' Hg' _; [|by apply keeps_throw].
  cbv zeta. case_match; [by apply keeps_throw|]. apply keeps_ret; [done|by eexists].
Qed.

Lemma holds_deletion c h : lawful h -> EGetCluster (Ok c) ∈ h -> Deleting c = true -> holds (reconcile_deletion c) h (fun _ _ => True).
Proof.
  intros Hg Hin Hd. unfold reconcile_deletion. destruct (bool_decide (_ ∈ Finalizers c)) eqn:Hf; [|by apply keeps_ret]. bool_hyps. cbn [negb].
  eapply holds_bind; [by apply holds_jwt_key|]. intros key k1 Hg1 _.
  eapply holds_bind; [by apply (keeps_lift _ _ _ _ (fun _ _ => True))|]. intros [] k2 Hg2 _.
  assert (forall k, EGetCluster (Ok c) ∈ h ++ k) as Hk by (intros k; apply elem_of_app; by left).
  eapply holds_bind with (P := fun b h' => b = true -> EListPods (Some []) ∈ h').
  - unfold cleanupClusterWorkers. eapply holds_bind; [by apply holds_observe|]. intros pods k3 Hg3 E3%app_inv_head. subst k3.
    eapply holds_bind; [by apply (keeps_ask _ _ _ _ (fun _ _ => True))|]. intros nodes k4 Hg4 _.
    destruct pods as [pods|].
    + eapply keeps_mono; [eapply holds_workers; [done|apply cleanup_emits|apply cleanup_done|]|].
      * intros k w Hw. exists c. rewrite <-!app_assoc. split_and!.
        -- exists c. by split_and!.
        -- split; [done|]. by left.
        -- rewrite ->Hd. split; [|done]. exists pods. set_solver.
      * intros b h' _ (Hb & k & ->) Hb'. specialize (Hb Hb'). simplify_eq. set_solver.
    + intros e _. cbn. rewrite ->!app_nil_r. by split_and!.
  - intros b k5 Hg5 Hb. destruct b; cbn [negb]; [|by apply keeps_ret]. cbv zeta.
    eapply holds_bind; [apply holds_observe; [done|]|].
    + intros o. exists c. split; [rewrite <-!app_assoc; apply Hk|]. split_and!; [done..|]. rewrite ->Hd.
      split_and!; [done|apply filter_finalizer|by apply Hb].
    + intros o k6 Hg6 _. eapply holds_bind; [by apply holds_must|]. intros [] k7 Hg7 _. by apply keeps_ret.
Qed.

(** ** Statuses *)

Lemma shows_set t s type value reason m g : shows (setCondition t s type value reason m g) g type value.
Proof.
  unfold shows, setCondition. cbn [Conditions]. destruct (set_same t (Conditions s) (MkCondition type value reason m g 0)) as (d & Hd & (_ & Hs & _ & _ & Hg)).
  by exists d.
Qed.

Lemma shows_other t s type value reason m g type' g' value' :
  type' <> type -> shows s g' type' value' -> shows (setCondition t s type value reason m g) g' type' value'.
Proof. intros Hne (d & Hd & ?). exists d. split; [|done]. cbn [setCondition Conditions]. by rewrite ->set_other. Qed.

Lemma set_keeps_nodup t s type value reason m g :
  NoDup (map Type_ (Conditions s)) -> NoDup (map Type_ (Conditions (setCondition t s type value reason m g))).
Proof. apply set_nodup. Qed.

Lemma not_ready_allowed t c reason m h :
  known c h -> Deleting c = false -> quiet h -> status_allowed h (not_ready_status t c reason m).
Proof.
  intros Hk Hd Hq. exists c. split_and!; [done..| |].
  - intros Hn. by do 3 apply set_keeps_nodup.
  - left. split_and!; [done| | |apply shows_set]; (apply shows_other; [done|]); [apply shows_other; [done|]|]; apply shows_set.
Qed.

Lemma holds_updateStatus c s h : lawful h -> status_allowed h s -> holds (updateStatus c s) h (fun _ _ => True).
Proof.
  intros Hg Hs. unfold updateStatus. destruct (deep_equal _ _).
  - eapply holds_bind; [by apply holds_call|]. intros [] k Hk _. by apply keeps_ret.
  - eapply holds_bind; [by apply holds_observe|]. intros o k Hk _. eapply holds_bind; [by apply holds_must|]. intros [] k' Hk' _.
    eapply holds_bind; [by apply holds_call|]. intros [] k'' Hk'' _. by apply keeps_ret.
Qed.

Lemma holds_notReady c reason m x h :
  lawful h -> known c h -> Deleting c = false -> quiet h -> holds (notReady c reason m x) h (fun _ _ => True).
Proof.
  intros Hg Hk Hd Hq. unfold notReady. eapply holds_bind; [by apply (keeps_ask _ _ _ _ (fun _ h' => h' = h))|]. intros t k Hg' E.
  rewrite ->E. eapply holds_bind; [apply holds_updateStatus; [done|by apply not_ready_allowed]|]. intros [] k' Hg'' _.
  destruct x; [by apply keeps_throw|by apply keeps_ret].
Qed.

(** The scan leaves the workers alone. *)
Lemma holds_checkpoint t c s h : lawful h ->
  holds (checkpoint_status t c s) h (fun s' _ => ObservedGeneration s' = ObservedGeneration s /\
    (NoDup (map Type_ (Conditions s)) -> NoDup (map Type_ (Conditions s')))).
Proof.
  intros Hg. unfold checkpoint_status. destruct (Api.Checkpointing _) eqn:Ec; [|apply keeps_ret; [done|split; [done|apply remove_nodup]]].
  case_match; [by apply keeps_ret|].
  eapply holds_bind with (P := fun _ _ => True).
  - unfold newestCommittedCheckpoint. rewrite ->Ec. eapply holds_bind; [by apply holds_observe|]. intros [data|o] k Hk _; [|by apply keeps_ret].
    destruct (checkpointStore data); [|by apply keeps_ret]. eapply holds_bind; [by apply holds_observe|]. intros l k' Hk' _. by apply keeps_ret.
  - intros [newest|x] k Hk _; [apply keeps_ret; [done|split; [done|intros Hn; by apply set_keeps_nodup]]|].
    eapply holds_bind with (P := fun _ _ => True).
    + destruct (Workers.Recorder r); [|by apply keeps_ret]. eapply holds_bind; [by apply holds_call|]. intros [] k' Hk' _. by apply keeps_ret.
    + intros [] k' Hk' _. apply keeps_ret; [done|split; [done|intros Hn; by apply set_keeps_nodup]].
Qed.

Lemma reconcile_grows cluster jobs pods nodes slices :
  emits (fun _ => True) (Workers.reconcileWorkers parse_quantity AllocationResultsMaxSize order decode_shape encode_shape r pool_order
                           cluster jobs pods nodes slices).
Proof.
  destruct pods as [pods|]; [|apply emits_throw]. destruct (Nodes nodes) as [ns|x] eqn:En.
  - eapply emits_mono; [by apply Workers.reconcile_deletes|done].
  - unfold Workers.reconcileWorkers. rewrite ->En. apply emits_ret.
Qed.

Lemma final_allowed t c a w s h :
  known c h -> Deleting c = false -> serving c h -> EAccounting a ∈ h -> ObservedGeneration s = Generation c ->
  (NoDup (map Type_ (Conditions (Status c))) -> NoDup (map Type_ (Conditions s))) ->
  status_allowed h (final_conditions t c (AccountingReady (Api.cl_Name (resource c)) a) w s).
Proof.
  intros Hk Hd Hs Ha Ho Hn. exists c. unfold final_conditions. cbv zeta. split_and!; [done..| | |].
  - by destruct (AccountingReady _ _).
  - intros H. destruct (AccountingReady _ _); do 3 apply set_keeps_nodup; auto.
  - right. split; [done|]. split.
    + destruct (AccountingReady _ _); do 2 (apply shows_other; [done|]); apply shows_set.
    + exists a. split; [done|]. apply shows_other; [done|]. destruct (AccountingReady _ _); apply shows_set.
Qed.

Lemma holds_ready c jobs h : lawful h -> known c h -> guarded c h -> Deleting c = false -> serving c h ->
  holds (reconcile_ready c jobs) h (fun _ _ => True).
Proof.
  intros Hg Hk Hgd Hd Hs. unfold reconcile_ready.
  eapply holds_bind; [by apply holds_call|]. intros [] k1 Hg1 _.
  eapply holds_bind; [by apply holds_observe|]. intros a k2 Hg2 E2%app_inv_head. subst k2.
  unfold reconcileWorkers. eapply holds_bind with (P := fun _ _ => True).
  - eapply holds_bind; [by apply holds_observe|]. intros pods k3 Hg3 _.
    eapply holds_bind; [by apply (keeps_ask _ _ _ _ (fun _ _ => True))|]. intros nodes k4 Hg4 _.
    eapply holds_bind; [by apply (keeps_ask _ _ _ _ (fun _ _ => True))|]. intros slices k5 Hg5 _.
    eapply keeps_mono; [apply (holds_workers _ (fun _ => True) (fun _ => True)); [done|..]|done].
    + apply reconcile_grows.
    + by intros.
    + intros k w _. exists c. rewrite <-!app_assoc. split_and!; [by apply known_app|by apply guarded_app|]. rewrite ->Hd. by apply serving_app.
  - intros w k3 Hg3 _. eapply holds_bind; [by apply (keeps_ask _ _ _ _ (fun _ _ => True))|]. intros t k4 Hg4 _. cbv zeta.
    eapply holds_bind; [by apply holds_checkpoint|]. cbn [ObservedGeneration Conditions]. intros s k5 Hg5 [Ho Hn].
    eapply holds_bind; [apply holds_updateStatus; [done|]|intros [] k6 Hg6 _; by apply keeps_ret].
    rewrite <-!app_assoc. apply final_allowed; [by apply known_app|done|by apply serving_app| |done|done].
    rewrite ->!elem_of_app. right. right. left. by apply list_elem_of_singleton.
Qed.

(** ** The handler *)

(** A part whose error is handled by the caller. *)
Lemma holds_stage {A B} (m : C A) (k : result cluster_error A -> C B) h P Q :
  emits quiet_event m -> quiet h -> holds m h P ->
  (forall x k', lawful (h ++ k') -> quiet (h ++ k') -> (forall a, x = Ok a -> P a (h ++ k')) -> holds (k x) (h ++ k') Q) ->
  holds (bind (attempt m) k) h Q.
Proof.
  intros He Hq Hm Hk. eapply holds_bind; [apply holds_quiet; [by apply emits_attempt|done|by apply holds_attempt]|].
  intros x k' Hg [Hq' Hx]. by apply Hk.
Qed.

Lemma apply_quiet x : emits quiet_event (apply x).
Proof. unfold apply, must. quiet_walk. Qed.
Lemma apply_all_quiet xs : emits quiet_event (apply_all xs).
Proof. induction xs; cbn [apply_all]; [apply emits_ret|]. apply emits_bind; [apply apply_quiet|done]. Qed.
Lemma controllersReady_quiet c : emits quiet_event (controllersReady c).
Proof. unfold controllersReady. quiet_walk. Qed.
Lemma deployments_quiet c l : emits quiet_event (deployments_ready c l).
Proof.
  induction l as [|[component replicas] l IH]; cbn [deployments_ready]; [apply emits_ret|]. cbv zeta.
  apply emits_bind; [by apply emits_observe|]. intros [d|o]; [|apply emits_throw]. destruct (deployment_ready _ _); [done|apply emits_ret].
Qed.
Lemma workloads_quiet c : emits quiet_event (workloadsReady c).
Proof. unfold workloadsReady. apply emits_bind; [apply controllersReady_quiet|]. intros [|]; [apply deployments_quiet|apply emits_ret]. Qed.

Hypothesis component_order_perm : forall l, component_order l ≡ₚ l.

Lemma holds_workloads c h : lawful h ->
  holds (workloadsReady c) h (fun b h' => exists k, h' = h ++ k /\ (b = true -> set_seen c k /\
    forall component replicas, (component, replicas) ∈ components c ->
      exists d, EGetDeployment (name (resource c) component) (Ok d) ∈ k /\ deployment_ready replicas d = true)).
Proof.
  intros Hg. unfold workloadsReady. eapply holds_bind; [by apply holds_controllersReady|]. intros b k1 Hg1 (k & E%app_inv_head & Hs). subst k.
  destruct b; [|apply keeps_ret; [done|by eexists]]. eapply keeps_mono; [by apply holds_deployments|]. intros b h' _ (k & -> & Hd).
  eexists. split; [by rewrite <-app_assoc|]. intros Hb. split; [by apply set_seen_app, Hs|]. intros component replicas Hin.
  rewrite <-(component_order_perm (components c)) in Hin. destruct (Hd Hb _ _ Hin) as (d & ? & ?). exists d. split; [apply elem_of_app; by right|done].
Qed.

Lemma holds_login c key files h :
  lawful h -> known c h -> guarded c h -> Deleting c = false -> quiet h -> controllers_up c files h ->
  SlurmConf.Slurm parse_quantity AllocationResultsMaxSize (resource c) = Some files ->
  holds (reconcile_login c key (config_hash files)) h (fun _ _ => True).
Proof.
  intros Hg Hk Hgd Hd Hq Hc Hf. unfold reconcile_login.
  eapply holds_stage; [apply apply_quiet|done|by apply holds_apply|]. intros [[]|x] k1 Hg1 Hq1 H1; [|by apply holds_notReady; [|apply known_app|..]].
  specialize (H1 _ eq_refl). apply app_inv_head in H1. subst k1.
  eapply holds_stage; [apply workloads_quiet|done|by apply holds_workloads|]. intros x k2 Hg2 Hq2 H2.
  assert (known c ((h ++ [EApply (reconcileLogin (resource c) (config_hash files)) Workers.Done]) ++ k2)) as Hk2 by by do 2 apply known_app.
  destruct x as [[|]|x]; [|by apply holds_notReady..]. destruct (H2 _ eq_refl) as (k & E & Hup). apply app_inv_head in E. subst k2. destruct (Hup eq_refl) as [Hset Hdep].
  destruct (NewClient _ _) as [[]|x]; [|by apply holds_notReady].
  eapply holds_bind; [apply holds_quiet; [by apply emits_observe|done|by apply holds_observe]|]. intros a k3 Hg3 [Hq3 E3%app_inv_head]. subst k3.
  destruct (PendingJobs a) as [jobs|x] eqn:Ej; [|apply holds_notReady; [done|by apply known_app|done..]].
  apply holds_ready; [done|by apply known_app|by do 3 apply guarded_app|done|].
  exists files. do 4 eexists. split_and!; [done|reflexivity| |exact Ej].
  exists h, k. split_and!; [by rewrite <-app_assoc|done..].
Qed.

Lemma holds_control_plane c key h :
  lawful h -> known c h -> guarded c h -> Deleting c = false -> quiet h -> holds (reconcile_control_plane c key) h (fun _ _ => True).
Proof.
  intros Hg Hk Hgd Hd Hq. unfold reconcile_control_plane. destruct (SlurmConf.Slurm _ _ _) as [files|] eqn:Ef; [|by apply keeps_ret]. cbv zeta.
  assert (forall d : C Z, forall h', holds d h' (fun _ _ => True) -> holds (let* d := d in ret (Some d)) h' (fun _ _ => True)) as Hret.
  { intros d h' Hh. eapply holds_bind; [exact Hh|]. intros z k Hz _. by apply keeps_ret. }
  eapply holds_stage; [apply apply_all_quiet|done|by apply holds_apply_all|].
  intros [[]|x] k1 Hg1 Hq1 H1; [|by apply Hret, holds_notReady; [|apply known_app|..]]. specialize (H1 _ eq_refl). apply app_inv_head in H1.
  eapply holds_stage; [apply controllersReady_quiet|done|by apply holds_controllersReady|]. intros x k2 Hg2 Hq2 H2.
  assert (known c ((h ++ k1) ++ k2)) as Hk2 by by do 2 apply known_app.
  destruct x as [[|]|x]; [|by apply Hret, holds_notReady..]. destruct (H2 _ eq_refl) as (k & E & Hs). apply app_inv_head in E. subst k2.
  apply Hret, holds_login; [done..|by do 2 apply guarded_app|done|done| |done]. exists (h ++ k1), k. split_and!; [done| |by apply Hs].
  intros o Ho. apply elem_of_app. right. rewrite ->H1. by apply (list_elem_of_fmap_2 (fun x => EApply x Workers.Done)).
Qed.

Lemma holds_add_finalizer c h : lawful h -> EGetCluster (Ok c) ∈ h -> Deleting c = false -> quiet h ->
  holds (add_finalizer c) h (fun c' h' => known c' h' /\ guarded c' h' /\ Deleting c' = false /\ quiet h').
Proof.
  intros Hg Hin Hd Hq. unfold add_finalizer. destruct (bool_decide _) eqn:Hf; bool_hyps.
  - apply keeps_ret; [done|]. split_and!; [by exists c|split; [done|by left]|done..].
  - cbv zeta. set (c' := set_finalizers _ c). eapply holds_bind.
    + apply holds_quiet; [by apply emits_observe|done|]. apply holds_observe; [done|]. intros o. exists c. rewrite ->Hd. by split_and!.
    + intros o k Hg' [Hq' E%app_inv_head]. subst k. eapply holds_bind; [by apply holds_must|]. intros [] k' Hg'' [E ->].
      rewrite ->E. apply keeps_ret; [by rewrite <-E|]. split_and!; [|split|done|done].
      * exists c. split; [apply elem_of_app; by left|done].
      * cbn. apply elem_of_app. right. by apply list_elem_of_singleton.
      * right. apply elem_of_app. right. by apply list_elem_of_singleton.
Qed.

Lemma holds_Reconcile h : lawful h -> quiet h -> holds Reconcile h (fun _ _ => True).
Proof.
  intros Hg Hq. unfold Reconcile.
  assert (forall d : C Z, forall h', holds d h' (fun _ _ => True) -> holds (let* d := d in ret (Some d)) h' (fun _ _ => True)) as Hret.
  { intros d h' Hh. eapply holds_bind; [exact Hh|]. intros z k Hz _. by apply keeps_ret. }
  eapply holds_bind; [apply holds_quiet; [by apply emits_observe|done|by apply holds_observe]|]. intros a k1 Hg1 [Hq1 E1%app_inv_head]. subst k1.
  destruct a as [c|[]]; try by apply keeps_throw.
  2: { eapply holds_bind; [by apply holds_call|]. intros [] k Hk _. by apply keeps_ret. }
  assert (EGetCluster (Ok c) ∈ h ++ [EGetCluster (Ok c)]) as Hin by (apply elem_of_app; right; by apply list_elem_of_singleton).
  destruct (Deleting c) eqn:Hd; [by apply Hret, holds_deletion|].
  assert (known c (h ++ [EGetCluster (Ok c)])) as Hk by by exists c.
  destruct (negb _); [by apply Hret, holds_notReady|]. destruct (validateSpec _); [|by apply Hret, holds_notReady].
  eapply holds_stage with (P := fun _ _ => True).
  { unfold validateStateClaim. cbv zeta. quiet_walk. }
  { done. }
  { unfold validateStateClaim. cbv zeta. eapply holds_bind; [by apply holds_observe|]. intros [modes|[]] k Hk' _; try by apply keeps_throw.
    destruct (bool_decide _); [by apply keeps_ret|by apply keeps_throw]. }
  intros [[]|x] k2 Hg2 Hq2 _; [|by apply Hret, holds_notReady; [|apply known_app|..]].
  eapply holds_stage; [unfold jwt_key; cbv zeta; quiet_walk|done|by apply holds_jwt_key|].
  intros [key|x] k3 Hg3 Hq3 _; [|by apply Hret, holds_notReady; [|do 2 apply known_app|..]].
  eapply holds_bind; [apply holds_add_finalizer; [done|by do 2 (apply elem_of_app; left)|done|done]|].
  intros c' k4 Hg4 (Hk4 & Hgd & Hd4 & Hq4). by apply holds_control_plane.
Qed.

(** ** The order of a pass *)

Lemma pass_allowed e h1 x h2 : snd (Reconcile e []) = h1 ++ x :: h2 -> allowed h1 x.
Proof.
  intros E. destruct (holds_Reconcile [] (good_nil _) (Forall_nil_2 _) e I) as (Hg & _). rewrite ->E in Hg. apply good_split in Hg.
  unfold ok in Hg. by rewrite ->removelast_last in Hg.
Qed.

(** C8: Workers are left alone until the control plane serves: when a pass issues
    a call for a worker, the API server holds the cluster with its finalizer, and
    either the cluster is being deleted, the worker Pods have been listed and the
    call creates none, or before it in this order every object of the control
    plane was applied, the controllers were seen ready at the current revision,
    the login nodes were applied, all workloads were seen ready, and the REST
    server listed the pending jobs. *)
Theorem workers_after_control_plane e h1 w h2 : snd (Reconcile e []) = h1 ++ EWorker w :: h2 -> worker_allowed h1 w.
Proof. apply pass_allowed. Qed.

(** C16: The finalizer comes first and goes last: a pass writes the cluster it
    read with its spec, identity, generation, deletion mark and status unchanged
    and every other finalizer in its place; it adds its own finalizer at the end
    to a cluster that has none and is not being deleted, and removes it, and only
    it, from one that is being deleted, after a listing of the worker Pods that
    came back empty. *)
Theorem finalizer_released_last e h1 c o h2 : snd (Reconcile e []) = h1 ++ EUpdateCluster c o :: h2 -> update_allowed h1 c.
Proof. apply pass_allowed. Qed.

(** C17: The status is honest: it is written for the generation that was read,
    with one condition per type, and it shows the control plane as ready exactly
    when the pass found it serving, the accounting as the REST server answered;
    otherwise the control plane and the accounting are not ready, the workers
    unknown, and no call for a worker was issued before. *)
Theorem status_honest e h1 s o h2 : snd (Reconcile e []) = h1 ++ EUpdateStatus s o :: h2 -> status_allowed h1 s.
Proof. apply pass_allowed. Qed.

End Controller.

(** ** The validation of the profiles *)

Definition owner (q : string * Api.WorkerProfile) : string := fst q +:+ "/" +:+ Api.wp_Name (snd q).
Definition pool_profiles (pool : string) (ps : list Api.WorkerProfile) : list (string * Api.WorkerProfile) := map (pair pool) ps.
(** The profiles of a cluster in order, with the names of their pools. *)
Definition profiles_of (pools : list Api.WorkerPoolSpec) : list (string * Api.WorkerProfile) :=
  pools ≫= fun pool => pool_profiles (Api.Name pool) (Api.Profiles pool).

(** [m] maps the GRES of the profiles seen to their owners. *)
Definition mapped (seen : list (string * Api.WorkerProfile)) (m : gmap string string) : Prop :=
  NoDup (map (Api.Gres ∘ snd) seen) /\ forall g o, m !! g = Some o <-> exists q, q ∈ seen /\ Api.Gres (snd q) = g /\ owner q = o.

Lemma mapped_add seen m q :
  mapped seen m -> m !! Api.Gres (snd q) = None -> mapped (seen ++ [q]) (<[Api.Gres (snd q) := owner q]> m).
Proof.
  intros [Hnd Hm] Hq. split.
  - rewrite ->map_app. apply NoDup_app. split_and!; [done| |apply NoDup_singleton].
    intros g (p & -> & Hp)%list_elem_of_fmap Hg%list_elem_of_singleton. cbn in Hg. rewrite <-Hg in Hq.
    assert (m !! Api.Gres (snd p) = Some (owner p)) by (apply Hm; eauto). congruence.
  - intros g o. destruct (decide (Api.Gres (snd q) = g)) as [<-|Hne].
    + rewrite ->lookup_insert_eq. split; [intros [= <-]; exists q; set_solver|]. intros (p & Hp & Eg & <-).
      apply elem_of_app in Hp as [Hp| ->%list_elem_of_singleton]; [|done].
      assert (m !! Api.Gres (snd q) = Some (owner p)) by (apply Hm; eauto). congruence.
    + rewrite ->lookup_insert_ne, Hm by done. set_solver.
Qed.

(** What each error of the loop over a pool means. *)
Definition profile_error (pool : string) (prev : list Api.WorkerProfile) (seen : list (string * Api.WorkerProfile))
    (ps : list Api.WorkerProfile) (e : spec_error) : Prop :=
  exists l1 p l2, ps = l1 ++ p :: l2 /\
  match e with
  | DuplicateProfile q n => q = pool /\ n = Api.wp_Name p /\ n ∈ map Api.wp_Name (prev ++ l1)
  | GresConflict g o o' => g = Api.Gres p /\ o' = owner (pool, p) /\
      exists q, q ∈ seen ++ pool_profiles pool l1 /\ Api.Gres (snd q) = g /\ o = owner q
  end.

Lemma validate_profiles_spec pool ps names m prev seen :
  mapped seen m -> (forall n, n ∈ names <-> n ∈ map Api.wp_Name prev) -> NoDup (map Api.wp_Name prev) ->
  match validate_profiles pool ps names m with
  | Ok m' => mapped (seen ++ pool_profiles pool ps) m' /\ NoDup (map Api.wp_Name (prev ++ ps))
  | Err e => profile_error pool prev seen ps e
  end.
Proof.
  revert names m prev seen. induction ps as [|p ps IH]; intros names m prev seen Hm Hn Hnd; cbn [validate_profiles]; [by rewrite ->!app_nil_r|].
  destruct (bool_decide _) eqn:Ed; bool_hyps; [exists [], p, ps; rewrite ->app_nil_r; split_and!; [done..|by apply Hn]|].
  cbv zeta. destruct (m !! Api.Gres p) as [first|] eqn:Eg.
  - apply Hm in Eg as (q & Hq & Eq & Eo). exists [], p, ps. split; [done|]. split_and!; [done..|]. exists q. by rewrite ->app_nil_r.
  - specialize (IH ({[Api.wp_Name p]} ∪ names) (<[Api.Gres p := owner (pool, p)]> m) (prev ++ [p]) (seen ++ [(pool, p)])).
    change (pool +:+ "/" +:+ Api.wp_Name p) with (owner (pool, p)).
    assert (mapped (seen ++ [(pool, p)]) (<[Api.Gres p := owner (pool, p)]> m)) as Hm' by by apply (mapped_add seen m (pool, p)).
    assert (forall n, n ∈ {[Api.wp_Name p]} ∪ names <-> n ∈ map Api.wp_Name (prev ++ [p])) as Hn'.
    { intros n. rewrite ->map_app, elem_of_app, elem_of_union, elem_of_singleton, Hn. cbn. rewrite ->list_elem_of_singleton. tauto. }
    assert (NoDup (map Api.wp_Name (prev ++ [p]))) as Hnd'.
    { rewrite ->map_app. apply NoDup_app. split_and!; [done| |apply NoDup_singleton]. intros n Hin ->%list_elem_of_singleton. by apply Ed, Hn. }
    specialize (IH Hm' Hn' Hnd'). destruct (validate_profiles _ _ _ _) as [m'|x].
    + by rewrite <-!app_assoc in IH.
    + destruct IH as (l1 & p' & l2 & -> & Hx). exists (p :: l1), p', l2. split; [done|]. destruct x; cbn [pool_profiles map] in *; by rewrite <-!app_assoc in Hx.
Qed.

Lemma validate_pools_spec pools m seen :
  mapped seen m ->
  match validate_pools pools m with
  | Ok _ => Forall (fun pool => NoDup (map Api.wp_Name (Api.Profiles pool))) pools /\
      NoDup (map (Api.Gres ∘ snd) (seen ++ profiles_of pools))
  | Err (DuplicateProfile q n) => exists pool l1 p l2, pool ∈ pools /\ Api.Name pool = q /\
      Api.Profiles pool = l1 ++ p :: l2 /\ Api.wp_Name p = n /\ n ∈ map Api.wp_Name l1
  | Err (GresConflict g o o') => exists l1 q l2 q', profiles_of pools = l1 ++ q :: l2 /\ q' ∈ seen ++ l1 /\
      Api.Gres (snd q) = g /\ Api.Gres (snd q') = g /\ o = owner q' /\ o' = owner q
  end.
Proof.
  revert m seen. induction pools as [|pool pools IH]; intros m seen Hm; cbn [validate_pools].
  { split; [done|]. rewrite ->app_nil_r. apply Hm. }
  pose proof (validate_profiles_spec (Api.Name pool) (Api.Profiles pool) ∅ m [] seen Hm) as Hp. cbn [app map] in Hp.
  specialize (Hp ltac:(set_solver) ltac:(constructor)). change (profiles_of (pool :: pools)) with (pool_profiles (Api.Name pool) (Api.Profiles pool) ++ profiles_of pools).
  destruct (validate_profiles _ _ _ _) as [m'|x].
  - destruct Hp as [Hm' Hnd]. specialize (IH m' _ Hm'). destruct (validate_pools pools m') as [|[q n|g o o']].
    + destruct IH as [IH1 IH2]. split; [by constructor|]. by rewrite <-app_assoc in IH2.
    + destruct IH as (p' & l1 & p & l2 & Hin & Hr). exists p', l1, p, l2. split; [by right|done].
    + destruct IH as (l1 & q & l2 & q' & E & Hin & Hr). exists (pool_profiles (Api.Name pool) (Api.Profiles pool) ++ l1), q, l2, q'.
      rewrite ->E, <-!app_assoc in *. done.
  - destruct Hp as (l1 & p & l2 & E & Hx). destruct x as [q n|g o o'].
    + destruct Hx as (-> & -> & Hin). exists pool, l1, p, l2. split_and!; [by left|done..].
    + destruct Hx as (-> & -> & q & Hin & Eq & ->). exists (pool_profiles (Api.Name pool) l1), (Api.Name pool, p), (pool_profiles (Api.Name pool) l2 ++ profiles_of pools), q.
      split_and!; [|done..]. unfold pool_profiles. rewrite ->E, map_app. cbn [map]. by rewrite <-app_assoc.
Qed.

(** C24: The validation of the worker profiles is exact, errors included: a spec
    is accepted when the profile names of each pool and the GRES mappings of the
    whole cluster are unique; a rejection for a name points at a profile of that
    pool with an earlier namesake in it, and one for a GRES at a profile and an
    earlier one, of whatever pool, that maps the same GRES, both named as owners. *)
Theorem validate_spec_exact spec :
  match validateSpec spec with
  | Ok _ => Forall (fun pool => NoDup (map Api.wp_Name (Api.Profiles pool))) (Api.WorkerPools spec) /\
      NoDup (map (Api.Gres ∘ snd) (profiles_of (Api.WorkerPools spec)))
  | Err (DuplicateProfile q n) => exists pool l1 p l2, pool ∈ Api.WorkerPools spec /\ Api.Name pool = q /\
      Api.Profiles pool = l1 ++ p :: l2 /\ Api.wp_Name p = n /\ n ∈ map Api.wp_Name l1
  | Err (GresConflict g o o') => exists l1 q l2 q', profiles_of (Api.WorkerPools spec) = l1 ++ q :: l2 /\ q' ∈ l1 /\
      Api.Gres (snd q) = g /\ Api.Gres (snd q') = g /\ o = owner q' /\ o' = owner q
  end.
Proof.
  apply (validate_pools_spec (Api.WorkerPools spec) ∅ []). split; [constructor|]. intros g o. rewrite ->lookup_empty.
  split; [done|]. by intros (q & []%elem_of_nil & _).
Qed.

(** ** The newest checkpoint *)

Definition of_cluster (uid : string) (o : ObjectInfo) : bool := (default "" (UserMetadata o !! "cluster-uid") =? uid)%string.

Lemma newest_fold uid objects n :
  let newest := foldl (fun newest o => if of_cluster uid o && after (oi_LastModified o) newest then oi_LastModified o else newest) n objects in
  (newest = n \/ exists o, o ∈ objects /\ of_cluster uid o = true /\ oi_LastModified o = newest) /\
  after n newest = false /\ forall o, o ∈ objects -> of_cluster uid o = true -> after (oi_LastModified o) newest = false.
Proof.
  assert (forall a b c, after a b = false -> after b c = false -> after a c = false) as Htrans.
  { intros [a|] [b|] [c|]; cbn; try done. intros ?%Z.ltb_ge ?%Z.ltb_ge. apply Z.ltb_ge. lia. }
  assert (forall a, after a a = false) as Hrefl by (intros [a|]; cbn; [apply Z.ltb_irrefl|done]).
  assert (forall a b, after a b = true -> after b a = false) as Hasym.
  { intros [a|] [b|]; cbn; try done. intros ?%Z.ltb_lt. apply Z.ltb_ge. lia. }
  revert n. induction objects as [|o objects IH]; intros n; cbn [foldl]; [split_and!; [by left|apply Hrefl|]; by intros o []%elem_of_nil|].
  destruct (of_cluster uid o && after (oi_LastModified o) n) eqn:E.
  - apply andb_true_iff in E as [Eu Ea]. destruct (IH (oi_LastModified o)) as (H1 & H2 & H3). split_and!.
    + right. destruct H1 as [H1|(o' & ? & ?)]; [exists o; split; [by left|done]|exists o'; split; [by right|done]].
    + eapply Htrans; [apply Hasym, Ea|done].
    + intros o' [->|Hin]%elem_of_cons Hu; auto.
  - destruct (IH n) as (H1 & H2 & H3). split_and!; [|done|].
    + destruct H1 as [H1|(o' & ? & ?)]; [by left|right; exists o'; split; [by right|done]].
    + intros o' [->|Hin]%elem_of_cons Hu; [|auto]. rewrite ->Hu in E. cbn in E. by eapply Htrans.
Qed.

Lemma collect_spec listing acc objects :
  collect_markers listing acc = Ok objects ->
  None ∉ listing /\ objects = acc ++ List.filter (fun o => has_suffix ".complete" (oi_Key o)) (omap id listing).
Proof.
  revert acc. induction listing as [|[o|] listing IH]; intros acc; cbn [collect_markers]; [intros [= <-]; rewrite ->app_nil_r; set_solver| |done].
  cbn [omap list_omap id List.filter]. destruct (has_suffix _ _).
  - cbv zeta. destruct (10000 <? _); [done|]. intros [Hn ->]%IH. rewrite <-app_assoc. set_solver.
  - intros [Hn ->]%IH. set_solver.
Qed.

(** The newest checkpoint that a scan reports is the newest commit marker of
    this cluster in the whole listing: there is one with that time, none is
    newer, and none is reported only if the cluster has no dated marker. *)
Theorem newest_checkpoint_exact listing objects uid :
  collect_markers listing [] = Ok objects ->
  match newestCheckpointTime objects uid with
  | Some t => exists o, Some o ∈ listing /\ has_suffix ".complete" (oi_Key o) = true /\ of_cluster uid o = true /\ oi_LastModified o = Some t
  | None => True
  end /\
  forall o, Some o ∈ listing -> has_suffix ".complete" (oi_Key o) = true -> of_cluster uid o = true ->
    after (oi_LastModified o) (newestCheckpointTime objects uid) = false.
Proof.
  intros [_ ->]%collect_spec. cbn [app]. set (l := List.filter _ _).
  assert (forall o, o ∈ l <-> Some o ∈ listing /\ has_suffix ".complete" (oi_Key o) = true) as Hl.
  { intros o. unfold l. rewrite ->list_elem_of_In, filter_In, <-list_elem_of_In, list_elem_of_omap. naive_solver. }
  destruct (newest_fold uid l None) as (H1 & _ & H3). change (newestCheckpointTime l uid) with (foldl (fun newest o =>
    if of_cluster uid o && after (oi_LastModified o) newest then oi_LastModified o else newest) None l). split.
  - destruct (foldl _ None l) eqn:E; [|done]. destruct H1 as [H1|(o & [? ?]%Hl & ? & ?)]; [done|]. by exists o.
  - intros o Ho Hs Hu. apply H3; [by apply Hl|done].
Qed.

(** ** A pass in which everything is ready *)

Module PassSamples.
Import Demand.DemandSamples Workers.WorkerSamples.

(** The conditions as a list with one entry per type. *)
Definition set_condition (t : Z) (cs : list Condition) (c : Condition) : list Condition :=
  List.filter (fun d => negb (Type_ d =? Type_ c)%string) cs
  ++ [MkCondition (Type_ c) (cn_Status c) (Reason c) (Message c) (cn_ObservedGeneration c) t].
Definition remove_condition (cs : list Condition) (type : string) : list Condition :=
  List.filter (fun d => negb (Type_ d =? type)%string) cs.

Lemma find_removed cs type : find_condition (remove_condition cs type) type = None.
Proof.
  unfold find_condition, remove_condition. induction cs as [|c cs IH]; [done|]. cbn. destruct (Type_ c =? type)%string eqn:E; [done|]. cbn. by rewrite ->E.
Qed.
Lemma find_kept cs type type' : type' <> type -> find_condition (remove_condition cs type) type' = find_condition cs type'.
Proof.
  intros Hne. unfold find_condition, remove_condition. induction cs as [|c cs IH]; [done|]. cbn. destruct (Type_ c =? type)%string eqn:E; cbn.
  - apply String.eqb_eq in E. subst type. assert ((Type_ c =? type')%string = false) as -> by (by apply String.eqb_neq). done.
  - by destruct (Type_ c =? type')%string.
Qed.
Lemma find_app cs d type : find_condition (cs ++ [d]) type =
  match find_condition cs type with Some c => Some c | None => if (Type_ d =? type)%string then Some d else None end.
Proof. unfold find_condition. induction cs as [|c cs IH]; [done|]. cbn. by destruct (Type_ c =? type)%string. Qed.
Lemma removed_nodup cs type : NoDup (map Type_ cs) -> NoDup (map Type_ (remove_condition cs type)) /\ type ∉ map Type_ (remove_condition cs type).
Proof.
  unfold remove_condition. induction cs as [|c cs IH]; cbn; [set_solver|]. intros [Hc Hn]%NoDup_cons. destruct (IH Hn) as [IH1 IH2].
  destruct (Type_ c =? type)%string eqn:E; cbn; [done|]. bool_hyps. split; [apply NoDup_cons; split; [|done]|set_solver].
  intros (d & Ed & Hd)%list_elem_of_fmap. apply Hc. rewrite ->Ed. apply list_elem_of_In, filter_In in Hd as [Hd _]. by apply list_elem_of_fmap_2, list_elem_of_In.
Qed.

#[export, refine] Instance listed_conditions : StatusConditions :=
  {| SetStatusCondition := set_condition; RemoveStatusCondition := remove_condition |}.
Proof.
  - intros t cs c. unfold set_condition. fold (remove_condition cs (Type_ c)). rewrite ->find_app, find_removed. cbn. rewrite ->String.eqb_refl. by eexists.
  - intros t cs c type Hne. unfold set_condition. fold (remove_condition cs (Type_ c)). rewrite ->find_app, find_kept by done. cbn.
    assert ((Type_ c =? type)%string = false) as -> by (by apply String.eqb_neq). by destruct (find_condition cs type).
  - intros t cs c Hn. unfold set_condition. fold (remove_condition cs (Type_ c)). destruct (removed_nodup cs (Type_ c) Hn) as [H1 H2].
    rewrite ->map_app. apply NoDup_app. split_and!; [done| |apply NoDup_singleton]. set_solver.
  - intros cs type _. apply find_removed.
  - intros cs type type' Hne. by apply find_kept.
  - intros cs type Hn. by apply removed_nodup.
Defined.

Definition blank : HeterogeneousClusterStatus := MkStatus 0 None None [] [].
Definition read_cluster (finalizers : list string) (deleting : bool) : Cluster := MkCluster cluster 3 finalizers deleting blank.
Definition key : string := "0123456789abcdef0123456789abcdef".
Definition ready_env (c : Cluster) (pods : list Workers.Pod) : env :=
  MkEnv (fun _ => Ok c) (fun _ => Ok ["ReadWriteMany"%string]) (fun _ _ => Ok {["jwt_hs256.key"%string := key]})
    (fun _ _ => Workers.Done) (fun _ _ => Workers.Done) (fun _ => Ok (MkSetState 1 1 "r" "r" 2 2))
    (fun n _ => Ok (MkDeploymentState 1 1 (if (n =? "lab-slurmrestd")%string then 2 else 1) (if (n =? "lab-slurmrestd")%string then 2 else 1)))
    (fun _ => Some (MkExchange 200 (Some ([], [])) 100)) (fun _ => Some (MkExchange 200 (Some ([], ["lab"%string])) 100))
    (fun _ => Some pods) (fun _ => nodes_answer nodes) (fun _ => Some []) (fun _ => calm) (fun _ => []) (fun _ _ => Workers.Done)
    (fun _ => 4102444800 * second).
Definition parse_url (u : string) : option URL := Some (MkURL "http" "lab-slurmrestd.default.svc:6820" "" false "" "").

Definition pass (e : env) : result cluster_error (option Z) * list event :=
  Reconcile parse_url (fun _ => true) (fun _ => true) (fun _ => true) (fun _ _ => false) id id parse_quantity 32 map_to_list decode encode id
    reconciler None e [].
Definition trace (e : env) : list event := snd (pass e).


Definition running : list event := trace (ready_env (read_cluster [] false) pods).
Definition deleting : list event := trace (ready_env (read_cluster [clusterWorkerFinalizer] true) []).
End PassSamples.

(** A pass over a ready cluster ends with all three conditions true. *)
Example ready_pass :
  fst (PassSamples.pass (PassSamples.ready_env (PassSamples.read_cluster [] false) Workers.WorkerSamples.pods)) = Ok (Some requeueInterval) /\
  match last PassSamples.running with
  | Some (EObserve c) => map (fun d => (Type_ d, cn_Status d)) (Conditions (Status c))
  | _ => []
  end = [("ControlPlaneReady", ConditionTrue); ("AccountingReady", ConditionTrue); ("WorkersReady", ConditionTrue)]%string.
Proof. vm_compute. split; reflexivity. Qed.

(** The call that deletes a drained Slurm node. *)
Lemma workers_after_control_plane_witness :
  worker_allowed id Demand.DemandSamples.parse_quantity 32 (take 26 PassSamples.running) (Workers.EDeleteNode "lab-gpu-pool-c").
Proof.
  apply (workers_after_control_plane (conditions := PassSamples.listed_conditions) PassSamples.parse_url (fun _ => true) (fun _ => true) (fun _ => true) (fun _ _ => false) id id Demand.DemandSamples.parse_quantity 32
    map_to_list Workers.WorkerSamples.decode Workers.WorkerSamples.encode id Workers.WorkerSamples.reconciler None (fun _ => ltac:(reflexivity))
    (PassSamples.ready_env (PassSamples.read_cluster [] false) Workers.WorkerSamples.pods) (take 26 PassSamples.running)
    (Workers.EDeleteNode "lab-gpu-pool-c") (drop 27 PassSamples.running)).
  symmetry. apply take_drop_middle. vm_compute. reflexivity.
Defined.

Lemma finalizer_released_last_witness :
  update_allowed (take 3 PassSamples.deleting) (PassSamples.read_cluster [] true).
Proof.
  apply (finalizer_released_last (conditions := PassSamples.listed_conditions) PassSamples.parse_url (fun _ => true) (fun _ => true) (fun _ => true) (fun _ _ => false) id id Demand.DemandSamples.parse_quantity 32
    map_to_list Workers.WorkerSamples.decode Workers.WorkerSamples.encode id Workers.WorkerSamples.reconciler None (fun _ => ltac:(reflexivity))
    (PassSamples.ready_env (PassSamples.read_cluster [clusterWorkerFinalizer] true) []) (take 3 PassSamples.deleting)
    (PassSamples.read_cluster [] true) Workers.Done []).
  vm_compute. reflexivity.
Defined.

Definition sample_status : HeterogeneousClusterStatus :=
  match PassSamples.running !! 31%nat with Some (EUpdateStatus s _) => s | _ => PassSamples.blank end.

Lemma status_honest_witness :
  status_allowed id Demand.DemandSamples.parse_quantity 32 (take 31 PassSamples.running) sample_status.
Proof.
  apply (status_honest (conditions := PassSamples.listed_conditions) PassSamples.parse_url (fun _ => true) (fun _ => true) (fun _ => true) (fun _ _ => false) id id Demand.DemandSamples.parse_quantity 32
    map_to_list Workers.WorkerSamples.decode Workers.WorkerSamples.encode id Workers.WorkerSamples.reconciler None (fun _ => ltac:(reflexivity))
    (PassSamples.ready_env (PassSamples.read_cluster [] false) Workers.WorkerSamples.pods) (take 31 PassSamples.running) sample_status Workers.Done
    (drop 32 PassSamples.running)).
  symmetry. apply take_drop_middle. vm_compute. reflexivity.
Defined.

Lemma newest_checkpoint_exact_witness :
  let mine := {["cluster-uid"%string := "u"%string]} in
  let listing := [Some (MkObjectInfo "checkpoints/a/1.complete" (Some 5) mine); Some (MkObjectInfo "checkpoints/a/2.complete" (Some 9) mine)] in
  forall o, Some o ∈ listing -> has_suffix ".complete" (oi_Key o) = true -> of_cluster "u" o = true ->
    after (oi_LastModified o) (Some 9) = false.
Proof.
  intros mine listing.
  exact (proj2 (newest_checkpoint_exact listing [MkObjectInfo "checkpoints/a/1.complete" (Some 5) mine; MkObjectInfo "checkpoints/a/2.complete" (Some 9) mine]
    "u" ltac:(vm_compute; reflexivity))).
Defined.

End ClusterController.
