(* ===== verification/FlusherStart.v ===== *)
(** * FlusherStart: the configuration of the checkpoint flusher
    ([src/checkpoint-flusher/config.go] and [main.go])

    [loadConfig] reads the environment and the mounted Secret; [main] serves
    with empty tables.  The theorem composes it with the operator, which builds
    the container ([Workers]) and checks the same Secret ([ClusterController]):
    what the operator accepts the flusher starts with, unless the shared memory
    of the worker exceeds the largest budget. *)

From S2P Require Import Prelude GoStrings Api Demand Workers Flusher SlurmConf ClusterController.

Module FlusherStart.
Import ClusterController.

(** What [os.ReadFile] answers. *)
Inductive file_answer := FileMissing | FileFailed | FileData (data : string).
Record process := MkProcess { getenv : string -> string; read_file : string -> file_answer }.

Inductive config_error :=
| ClusterUIDRequired | BadBudget | SecretFileUnreadable (key : string) | SecretFileBad (key : string) | BadBucket
| BadEndpoint | CertificatesUnreadable | NoCertificates | NoClient.

(** [client] is what [minio.New] is called with. *)
Record config := MkConfig { clusterUID : string; budget : Z; bucket : string; client : StoreConfig }.

Definition secretDir : string := "/run/secrets/checkpoint-store".

(** [filepath.Join] of a clean directory and a file name. *)
Definition secretValue (p : process) (directory key : string) : result config_error string :=
  match read_file p (directory +:+ "/" +:+ key) with
  | FileData data =>
      let value := trim_space data in
      reject_if (value =? "")%string || (4096 <? slen value) with SecretFileBad key in Ok value
  | _ => Err (SecretFileUnreadable key)
  end.

Section Start.
(** As in [ClusterController]; [valid_bucket] is
    [s3utils.CheckValidBucketNameStrict]. *)
Variable parse_url : string -> option URL.
Variable ca_ok : string -> bool.
Variable client_ok : StoreConfig -> bool.
Variable valid_bucket : string -> bool.

(** [cmp.Or(os.Getenv(name), fallback)] *)
Definition env_or (p : process) (name fallback : string) : string :=
  if (getenv p name =? "")%string then fallback else getenv p name.

Definition read_budget (p : process) : option Z :=
  b ← parse_uint64 (env_or p "CHECKPOINT_SHM_BUDGET_BYTES" "67108864");
  if (b <? Z.shiftl 16 20) || (Z.shiftl 16 30 <? b) then None else Some b.

(** The certificates, when the file is there. *)
Definition check_ca (p : process) : result config_error unit :=
  match read_file p (secretDir +:+ "/ca.crt") with
  | FileMissing => Ok tt
  | FileFailed => Err CertificatesUnreadable
  | FileData ca => reject_if negb (ca_ok ca) with NoCertificates in Ok tt
  end.

Definition loadConfig (p : process) : result config_error config :=
  let uid := getenv p "CHECKPOINT_CLUSTER_UID" in
  reject_if (uid =? "")%string with ClusterUIDRequired in
  match read_budget p with
  | None => Err BadBudget
  | Some b =>
      let! endpoint := secretValue p secretDir "endpoint" in
      let! bucket := secretValue p secretDir "bucket" in
      reject_if negb (valid_bucket bucket) with BadBucket in
      let! accessKey := secretValue p secretDir "accessKey" in
      let! secretKey := secretValue p secretDir "secretKey" in
      match parse_url endpoint with
      | None => Err BadEndpoint
      | Some u =>
          reject_if negb (is_origin u) with BadEndpoint in
          let! _ := check_ca p in
          let store := MkStoreConfig (Host u) bucket accessKey secretKey in
          reject_if negb (client_ok store) with NoClient in
          Ok (MkConfig uid b bucket store)
      end
  end.

(** The server [main] starts; the ring files of an earlier process may still be
    there. *)
Definition main_server (c : config) (left : gmap string Ring.Ring.mapping) : Flusher.server :=
  Flusher.MkServer "/dev/shm/ai-orch" (clusterUID c) (budget c) ∅ ∅ ∅ left.

(** ** The container the operator builds *)

(** The process sees the variables of the container and the keys of the Secret. *)
Definition runs_in (p : process) (env : list Workers.EnvVar) (data : gmap string string) : Prop :=
  (forall name, getenv p name = SlurmConf.variable name env) /\
  forall key, read_file p (secretDir +:+ "/" +:+ key) = match data !! key with Some v => FileData v | None => FileMissing end.

Lemma secret_agrees p env data key v :
  runs_in p env data -> store_value data key = Ok v -> secretValue p secretDir key = Ok v.
Proof.
  intros [_ Hf]. unfold store_value, secretValue. rewrite ->Hf. destruct (data !! key) as [x|]; [|done].
  change (default _ (Some x)) with x. cbv zeta. destruct (_ || _); intros Hv; [discriminate Hv|]. by injection Hv as ->.
Qed.

Lemma parse_uint64_format z : 0 <= z <= uint64_max -> parse_uint64 (format_int z) = Some z.
Proof.
  intros Hz. unfold parse_uint64, format_int. destruct (z <? 0) eqn:E; bool_hyps; [lia|]. rewrite ->parse_format_digits by lia. cbn.
  by rewrite ->Zle_imp_le_bool by lia.
Qed.

Lemma format_nonempty z : (format_int z =? "")%string = false.
Proof. apply String.eqb_neq, format_int_nonempty. Qed.

Lemma flusher_container r cluster pool shape podName claimName resources container :
  container ∈ Workers.Containers (Workers.worker_spec r cluster pool shape podName claimName resources) ->
  Workers.c_Name container = "checkpoint-flusher"%string ->
  container = Workers.checkpoint_flusher r cluster (Z.max (Demand.SharedMemoryBytes shape) (Z.shiftl 64 20)).
Proof.
  cbn. intros [->|Hin]%elem_of_cons; [done|]. destruct (Api.Checkpointing _); [|by apply elem_of_nil in Hin]. by apply list_elem_of_singleton in Hin.
Qed.

(** C23: The operator and the flusher agree, up to three cases.  In the container
    the operator builds for a worker of a cluster with a UID, with the Secret the
    operator accepted, the outcome of the start is: if the shared memory of the
    worker is above 16 GiB, the budget is refused; else if the object store's rules
    refuse the bucket name, which the operator does not check, the bucket is
    refused; else if the Secret has an empty ca.crt that holds no certificate,
    which the operator skips, the certificates are refused; and in every other
    case the flusher starts, for the cluster and the store the operator checked,
    with the shared memory of the worker as its budget and consistent tables. *)
Theorem flusher_starts (r : Workers.ClusterReconciler) cluster pool shape podName claimName resources container data store p left :
  let shared := Z.max (Demand.SharedMemoryBytes shape) (Z.shiftl 64 20) in
  container ∈ Workers.Containers (Workers.worker_spec r cluster pool shape podName claimName resources) ->
  Workers.c_Name container = "checkpoint-flusher"%string -> runs_in p (Workers.Env container) data ->
  checkpointStore parse_url ca_ok client_ok data = Ok store ->
  Api.UID cluster <> ""%string -> Demand.SharedMemoryBytes shape <= int64_max ->
  if 16 * 2 ^ 30 <? Demand.SharedMemoryBytes shape then loadConfig p = Err BadBudget
  else if negb (valid_bucket (Bucket store)) then loadConfig p = Err BadBucket
  else if bool_decide (data !! "ca.crt"%string = Some ""%string) && negb (ca_ok ""%string) then loadConfig p = Err NoCertificates
  else exists c, loadConfig p = Ok c /\ clusterUID c = Api.UID cluster /\ client c = store /\
      bucket c = Bucket store /\ budget c = shared /\ Flusher.wf (main_server c left).
Proof.
  intros shared Hin Hname Hrun Hs Huid Hmax.
  rewrite ->(flusher_container _ _ _ _ _ _ _ _ Hin Hname) in Hrun. fold shared in Hrun. clear Hin Hname.
  assert (Z.shiftl 64 20 <= shared <= int64_max) as Hsh by (subst shared; change (Z.shiftl 64 20) with 67108864; pow2; lia).
  assert (getenv p "CHECKPOINT_CLUSTER_UID" = Api.UID cluster) as Eu by (by rewrite ->(proj1 Hrun)).
  assert (env_or p "CHECKPOINT_SHM_BUDGET_BYTES" "67108864" = format_int shared) as Eb.
  { unfold env_or. rewrite ->(proj1 Hrun). change (SlurmConf.variable _ _) with (format_int shared).
    by rewrite ->format_nonempty. }
  unfold loadConfig. cbv zeta. rewrite ->Eu. apply String.eqb_neq in Huid. rewrite ->Huid. unfold read_budget. rewrite ->Eb, parse_uint64_format.
  2: { change (Z.shiftl 64 20) with 67108864 in *. pow2. lia. }
  cbn [mbind option_bind]. change (Z.shiftl 16 20) with 16777216. change (Z.shiftl 16 30) with 17179869184. change (Z.shiftl 64 20) with 67108864 in *.
  assert ((shared <? 16777216) = false) as -> by (apply Z.ltb_ge; lia). cbn [orb]. 
  assert ((16 * 2 ^ 30 <? Demand.SharedMemoryBytes shape) = (17179869184 <? shared)) as ->.
  { subst shared. apply eq_true_iff_eq. rewrite ->!Z.ltb_lt. pow2. lia. }
  destruct (17179869184 <? shared) eqn:El; [done|].
  unfold checkpointStore in Hs.
  destruct (store_value data "endpoint") as [endpoint|] eqn:E1; [|done]. destruct (store_value data "bucket") as [bkt|] eqn:E2; [|done].
  destruct (store_value data "accessKey") as [access|] eqn:E3; [|done]. destruct (store_value data "secretKey") as [secret|] eqn:E4; [|done].
  rewrite ->(secret_agrees _ _ _ _ _ Hrun E1), (secret_agrees _ _ _ _ _ Hrun E2), (secret_agrees _ _ _ _ _ Hrun E3), (secret_agrees _ _ _ _ _ Hrun E4).
  destruct (parse_url endpoint) as [u|] eqn:Eurl; [|done]. destruct (negb (is_origin u)) eqn:Eo; [done|].
  assert (check_ca p = if bool_decide (data !! "ca.crt"%string = Some ""%string) && negb (ca_ok ""%string)
                       then Err NoCertificates else Ok tt) as Ec.
  { unfold check_ca. change (secretDir +:+ "/ca.crt") with (secretDir +:+ "/" +:+ "ca.crt"). rewrite ->(proj2 Hrun).
    destruct (data !! "ca.crt"%string) as [ca|]; [|done]. cbn in Hs. destruct (ca =? "")%string eqn:Ea; bool_hyps.
    - subst ca. rewrite ->bool_decide_eq_true_2 by done. cbn. by destruct (ca_ok "").
    - rewrite ->bool_decide_eq_false_2 by congruence. cbn. by destruct (ca_ok ca). }
  destruct (negb _ && negb _); [done|]. destruct (negb (client_ok _)) eqn:Ecl; [done|]. injection Hs as <-. cbn [Bucket].
  cbv beta iota. destruct (negb (valid_bucket bkt)); [done|]. rewrite ->Ec.
  destruct (bool_decide _ && negb _); [done|]. eexists. split; [reflexivity|].
  split_and!; [done..|]. split; cbn; intros *; by rewrite ->lookup_empty.
Qed.

End Start.

Module StartSamples.
Import Workers.WorkerSamples.

Definition cluster : Api.HeterogeneousCluster :=
  Api.MkCluster "lab" "default" "uid-1"
    (Api.MkSpec (Api.MkControlPlane (Api.MkControllers "img" "pvc") "db" 1) (Api.MkAuthentication "munge" "jwt")
       (Some "store"%string) [small_pool]).
Definition data : gmap string string :=
  {["endpoint"%string := ("https://s3.lab" +:+ nl)%string; "bucket"%string := "ckpt"%string; "accessKey"%string := "a"%string; "secretKey"%string := "s"%string]}.
Definition parse_url (s : string) : option URL :=
  if (s =? "https://s3.lab")%string then Some (MkURL "https" "s3.lab" "" false "" "") else None.
Definition store : StoreConfig := MkStoreConfig "s3.lab" "ckpt" "a" "s".
Definition shape (shared : Z) : Demand.Shape := Demand.MkShape 8 (4 * 2 ^ 30) shared ∅.
Definition resources : Workers.Quantities := Workers.MkQuantities 1000 (2 ^ 30).
Definition container (shared : Z) : Workers.Container := Workers.checkpoint_flusher reconciler cluster (Z.max shared (Z.shiftl 64 20)).
Definition started (shared : Z) : process :=
  MkProcess (fun name => SlurmConf.variable name (Workers.Env (container shared)))
    (fun path => match cut_prefix (secretDir +:+ "/") path with
       | Some key => match data !! key with Some v => FileData v | None => FileMissing end
       | None => FileMissing end).

End StartSamples.

(** With 1 GiB of shared memory the flusher starts; with 32 GiB it does not. *)
Example start_cases :
  loadConfig StartSamples.parse_url (fun _ => true) (fun _ => true) (fun _ => true) (StartSamples.started (2 ^ 30)) =
    Ok (MkConfig "uid-1" (2 ^ 30) "ckpt" StartSamples.store) /\
  loadConfig StartSamples.parse_url (fun _ => true) (fun _ => true) (fun _ => true) (StartSamples.started (2 ^ 35)) = Err BadBudget.
Proof. vm_compute. split; reflexivity. Qed.

Lemma flusher_starts_witness :
  exists c, loadConfig StartSamples.parse_url (fun _ => true) (fun _ => true) (fun _ => true) (StartSamples.started (2 ^ 30)) = Ok c /\
    clusterUID c = "uid-1"%string /\ client c = StartSamples.store /\ bucket c = "ckpt"%string /\ budget c = 2 ^ 30 /\
    Flusher.wf (main_server c ∅).
Proof.
  assert (runs_in (StartSamples.started (2 ^ 30)) (Workers.Env (StartSamples.container (2 ^ 30))) StartSamples.data) as Hrun
    by (split; intros key; reflexivity).
  exact (flusher_starts StartSamples.parse_url (fun _ => true) (fun _ => true) (fun _ => true) Workers.WorkerSamples.reconciler
    StartSamples.cluster Workers.WorkerSamples.small_pool (StartSamples.shape (2 ^ 30)) "lab-gpu-pool-a" "claim" StartSamples.resources
    (StartSamples.container (2 ^ 30)) StartSamples.data StartSamples.store (StartSamples.started (2 ^ 30)) ∅
    ltac:(apply list_elem_of_further, list_elem_of_here) ltac:(reflexivity) Hrun ltac:(vm_compute; reflexivity)
    ltac:(discriminate) ltac:(vm_compute; discriminate)).
Defined.

End FlusherStart.
