(* ===== verification/DriverStart.v ===== *)
(** * DriverStart: how the DRA drivers start
    ([src/dra-driver/internal/driver/run.go], [cdi.go],
    [src/optical-dra-driver/internal/driver/run.go], [InCluster] and [Start] of
    [src/shared/draplugin/plugin.go])

    [Run] of both drivers as programs over the host and the API server.  What
    they have in common (loading the prepared claims, recovering, registering
    with the kubelet, publishing) is [launch], written against the interface
    [DriverInventory] that both inventories implement.  The theorems: no driver
    registers before its claims are recovered, everything it announces is of
    one inventory, and every CDI device it hands out was specified before. *)

From S2P Require Import Prelude GoStrings Effects Hardware ResourceApi DraPlugin DraPluginSafety DraInventory DraDriver Optical.

Module DriverStart.
Import DraPlugin.

(** What a driver provides about its inventory. *)
Class DriverInventory (Inv : Type) := {
  driver_name : string;
  config_of : Inv -> Config;
  config_lawful inv :: LawfulConfig (config_of inv);
  config_named inv : DriverName (config_of inv) = driver_name;
  keys_of : AnnotationKeys;
  (** [resources], for the pool [PoolName] of the configuration *)
  slices_of : nat -> Inv -> list (list ResourceApi.Device);
  (** the encoding and the hash [summary] returns *)
  summary_of : Inv -> string -> result string (string * string) }.

Inductive start_error :=
| NodeNameRequired | NoClusterConfig | NoKubernetesClient | NodeUnread (name : string)
| DiscoveryFailed | CDIDirFailed | CDISaveFailed (path : string)
| CDIMkdirFailed | CtkFailed | WSLFailed (e : DraDriver.cdi_error)
| LoadFailed (e : plugin_error) | RecoveryFailed (e : plugin_error) | RegisterFailed | PublishFailed
| AnnotateFailed (e : publish_error) | NRINotCreated | NRIFailed.

Section Start.
Context {Inv File : Type} `{!JSONFile File} `{!DriverInventory Inv}.
Variable json_hash : list AllocationResult -> string.
(** [resourceapi.ResourceSliceMaxDevices] *)
Variable ResourceSliceMaxDevices : nat.

Abbreviation claims := (gmap string PreparedClaim).
Abbreviation disk := (gmap string File).

Inductive event :=
| EGetNode (name : string) (found : bool)
| EMkdir (path : string) (ok : bool)
| ESaveCDI (path : string) (spec : DraDriver.cdiSpec) (ok : bool)
| ECtk (arguments environment : list string) (ok : bool)
| ELoad (inv : Inv) (d : disk) (r : result plugin_error claims)
| ERecover (inv : Inv) (p : claims) (d : disk) (e : option plugin_error)
| ERegister (inv : Inv) (driver node : string) (ok : bool)
| EPublish (pool : string) (slices : list (list ResourceApi.Device)) (ok : bool)
| EAnnotate (inv : Inv) (r : result publish_error unit) (written : option (gmap string string))
| ENRI (ok : bool)
| EServe (ok : bool)
| EStop
| ECancel.

(** The answers of the host, the kubelet and the API server. *)
Record env := MkEnv {
  NODE_NAME : string; in_cluster : bool; new_client : bool; get_node : string -> option (gmap string string);
  sysfs : DraInventory.host; numa_order : gset Z -> list Z;
  environ : list string; LD_LIBRARY_PATH : string;
  mkdir : string -> bool; stat : string -> option bool; glob : list string;
  save_cdi : string -> bool; run_ctk : list string -> bool;
  state_mkdir : bool; readable : string -> bool; state : disk;
  get_claim : string -> string -> claim_answer; remove_fails : string -> bool;
  visit_claims : claims -> list (string * PreparedClaim);
  start_plugin : bool; publish_slices : bool; attempts : list (option NodeState * update_outcome);
  new_nri : bool; serve : bool }.

Abbreviation D := (eff env event start_error).

(** ** [draplugin] *)

Definition InCluster : D (string * gmap string string) :=
  let* node := ask (fun e _ => NODE_NAME e) in
  if (node =? "")%string then throw NodeNameRequired else
  let* configured := ask (fun e _ => in_cluster e) in
  if negb configured then throw NoClusterConfig else
  let* client := ask (fun e _ => new_client e) in
  if negb client then throw NoKubernetesClient else
  let* found := observe (fun e _ => get_node e node) (fun n => EGetNode node (bool_decide (is_Some n))) in
  match found with
  | None => let* _ := call (fun _ _ => tt) ECancel in throw (NodeUnread node)
  | Some annotations => ret (node, annotations)
  end.

(** Registering with the kubelet and publishing the slices. *)
Definition Start (inv : Inv) (node : string) : D unit :=
  let* ok := observe (fun e _ => start_plugin e) (ERegister inv driver_name node) in
  if negb ok then throw RegisterFailed else
  let* ok := observe (fun e _ => publish_slices e)
    (EPublish (cfg_PoolName (config_of inv)) (slices_of ResourceSliceMaxDevices inv)) in
  if negb ok then let* _ := call (fun _ _ => tt) EStop in throw PublishFailed else ret tt.

(** ** What both [Run] functions do with their inventory *)

Definition newNodePlugin (inv : Inv) : D (claims * disk) :=
  let* d := ask (fun e _ => state e) in
  let* r := observe (fun e _ => New (config_of inv) (state_mkdir e) (readable e) d) (ELoad inv d) in
  match r with Err e => throw (LoadFailed e) | Ok p => ret (p, d) end.

Definition recover (inv : Inv) (st : claims * disk) : D unit :=
  let* r := observe (fun e _ => Recover json_hash (get_claim e) (remove_fails e) (visit_claims e (fst st)) st)
    (fun r => ERecover inv (fst (fst r)) (snd (fst r)) (snd r)) in
  match snd r with Some e => throw (RecoveryFailed e) | None => ret tt end.

Definition publishInventory (inv : Inv) : D unit :=
  let* r := observe (fun e _ => PublishInventory keys_of (summary_of inv) (attempts e)) (fun r => EAnnotate inv (fst r) (snd r)) in
  match fst r with Err e => throw (AnnotateFailed e) | Ok _ => ret tt end.

Definition launch (inv : Inv) (node : string) (rest : D unit) : D unit :=
  let* st := newNodePlugin inv in
  let* _ := recover inv st in
  let* _ := Start inv node in
  finally EStop (let* _ := publishInventory inv in rest).

(** ** What may be announced *)

(** The claims of the state directory were loaded and recovered: the plugin is
    in a state its transition system reaches. *)
Definition recovered (h : list event) (inv : Inv) : Prop :=
  exists d p p' d' es, ELoad inv d (Ok p) ∈ h /\ ERecover inv p' d' None ∈ h /\
    execution json_hash (config_of inv) (None, d) es (Some p', d').

Lemma start_recovered_mono h h' inv : h ⊆ h' -> recovered h inv -> recovered h' inv.
Proof. intros Hs (d & p & p' & d' & es & H1 & H2 & H3). exists d, p, p', d', es. set_solver. Qed.

Section Allowed.
(** What must hold of an inventory before it is registered. *)
Variable prepared_for : list event -> Inv -> Prop.

Definition start_allowed (h : list event) (e : event) : Prop :=
  match e with
  | ERegister inv driver node ok =>
      recovered h inv /\ driver = DriverName (config_of inv) /\ node = cfg_PoolName (config_of inv) /\ prepared_for h inv
  | EPublish pool slices ok => exists inv,
      ERegister inv driver_name pool true ∈ h /\ pool = cfg_PoolName (config_of inv) /\ slices = slices_of ResourceSliceMaxDevices inv
  | EAnnotate inv r written =>
      ERegister inv driver_name (cfg_PoolName (config_of inv)) true ∈ h /\
      EPublish (cfg_PoolName (config_of inv)) (slices_of ResourceSliceMaxDevices inv) true ∈ h
  | ENRI _ | EServe _ => exists inv written, EAnnotate inv (Ok tt) written ∈ h /\ recovered h inv
  | _ => True
  end.

(** [for uid, record := range p.prepared] visits all claims. *)
Definition visits (e : env) : Prop := forall m, visit_claims e m ≡ₚ map_to_list m.
Variable honest : env -> Prop.
Hypothesis honest_visits : forall e, honest e -> visits e.

Abbreviation keeps := (Effects.keeps honest start_allowed).

Hypothesis prepared_mono : forall h h' inv, h ⊆ h' -> prepared_for h inv -> prepared_for h' inv.

Lemma plugin_keeps inv h :
  good start_allowed h ->
  keeps (let* st := newNodePlugin inv in recover inv st) h (fun _ h' => recovered h' inv).
Proof.
  intros Hg env Hh. unfold newNodePlugin, recover, bind, ask, observe. cbn.
  set (h1 := h ++ [ELoad inv (state env) (New (config_of inv) (state_mkdir env) (readable env) (state env))]).
  assert (good start_allowed h1) as Hg1 by (by apply good_snoc). assert (h `prefix_of` h1) as Hp1 by (by apply prefix_app_r).
  destruct (New _ _ _ _) as [p|e] eqn:En; cbn; [|by split_and!].
  destruct (Recover _ _ _ _ _) as [[p' d'] e] eqn:Er. cbn.
  assert (good start_allowed (h1 ++ [ERecover inv p' d' e])) as Hg2 by (by apply good_snoc).
  assert (h `prefix_of` h1 ++ [ERecover inv p' d' e]) as Hp2 by (etrans; [done|by apply prefix_app_r]).
  destruct e as [e|]; cbn; split_and!; try done. intros _ _.
  exists (state env), p, p', d', ([] ++ (forgotten (get_claim env) (visit_claims env p) p' ++ [])). split_and!; [set_solver|set_solver|].
  eapply execution_step; [by eapply step_start|]. eapply execution_step; [|constructor]. eapply step_recover; [by apply honest_visits|done].
Qed.

Lemma start_keeps inv node h :
  good start_allowed h -> node = cfg_PoolName (config_of inv) -> recovered h inv -> prepared_for h inv ->
  keeps (Start inv node) h (fun _ h' =>
    ERegister inv driver_name node true ∈ h' /\ EPublish node (slices_of ResourceSliceMaxDevices inv) true ∈ h').
Proof.
  intros Hg -> Hr Hp. unfold Start. eapply keeps_bind.
  { eapply (keeps_observe _ _ _ _ _ (fun ok h' => ERegister inv driver_name (cfg_PoolName (config_of inv)) ok ∈ h')); [done| |set_solver].
    intros env _. cbn. split_and!; [eapply start_recovered_mono; [|done]; set_solver|by rewrite ->config_named|done|eapply prepared_mono; [|done]; set_solver]. }
  intros [] h1 Hg1 _ H1; cbn; [|by apply keeps_throw]. eapply keeps_bind.
  { eapply (keeps_observe _ _ _ _ _ (fun ok h' => ERegister inv driver_name (cfg_PoolName (config_of inv)) true ∈ h' /\
      EPublish (cfg_PoolName (config_of inv)) (slices_of ResourceSliceMaxDevices inv) ok ∈ h')); [done| |set_solver].
    intros env _. exists inv. set_solver. }
  intros [] h2 Hg2 _ H2; cbn; [by apply keeps_ret|].
  eapply keeps_bind; [by eapply (keeps_call _ _ _ _ _ (fun _ _ => True))|]. intros _ h3 Hg3 _ _. by apply keeps_throw.
Qed.

Lemma publish_keeps inv h :
  good start_allowed h -> ERegister inv driver_name (cfg_PoolName (config_of inv)) true ∈ h ->
  EPublish (cfg_PoolName (config_of inv)) (slices_of ResourceSliceMaxDevices inv) true ∈ h ->
  keeps (publishInventory inv) h (fun _ h' => exists written, EAnnotate inv (Ok tt) written ∈ h').
Proof.
  intros Hg Ha Hb. unfold publishInventory. eapply keeps_bind.
  - eapply (keeps_observe _ _ _ _ _ (fun r h' => EAnnotate inv (fst r) (snd r) ∈ h')); [done| |set_solver].
    intros env _. cbn. set_solver.
  - intros [[[]|e] w] h' Hg' _ Hw; cbn in *; [apply keeps_ret; eauto|by apply keeps_throw].
Qed.

(** A driver that launches with an inventory announces nothing else. *)
Lemma launch_keeps inv node rest h :
  good start_allowed h -> node = cfg_PoolName (config_of inv) -> prepared_for h inv ->
  (forall h' written, good start_allowed h' -> recovered h' inv -> EAnnotate inv (Ok tt) written ∈ h' ->
     keeps rest h' (fun _ _ => True)) ->
  keeps (launch inv node rest) h (fun _ _ => True).
Proof.
  intros Hg Hn Hp Hrest. assert (keeps (let* _ := (let* st := newNodePlugin inv in recover inv st) in
    let* _ := Start inv node in finally EStop (let* _ := publishInventory inv in rest)) h (fun _ _ => True)) as Hk.
  { eapply keeps_bind; [by apply plugin_keeps|]. intros [] h1 Hg1 Hs1 Hr1. eapply keeps_bind.
    { apply start_keeps; [done..|by eapply prepared_mono]. }
    intros [] h2 Hg2 Hs2 [Ha Hb]. eapply (keeps_finally _ _ _ _ _ (fun _ _ => True)); [|done].
    eapply keeps_bind; [apply publish_keeps; subst node; done|]. intros [] h3 Hg3 Hs3 [w Hw]. eapply Hrest; [done| |done].
    eapply start_recovered_mono; [|exact Hr1]. set_solver. }
  intros env Hh. specialize (Hk env Hh). unfold launch, bind in *. destruct (newNodePlugin inv env h) as [[st|e] h1]; [|done].
  destruct (recover inv st env h1) as [[u|e] h2]; done.
Qed.
End Allowed.

(** Reading the Node, and [environment.Cancel] on every return. *)
Lemma in_cluster_keeps (e0 : env) hon ok (rest : string -> gmap string string -> D unit) h :
  (forall e, hon e -> e = e0) -> Effects.good ok h -> (forall h name b, ok h (EGetNode name b)) -> (forall h, ok h ECancel) ->
  (forall annotations h', Effects.good ok h' -> get_node e0 (NODE_NAME e0) = Some annotations ->
     Effects.keeps hon ok (rest (NODE_NAME e0) annotations) h' (fun _ _ => True)) ->
  Effects.keeps hon ok (let* (node, annotations) := InCluster in finally ECancel (rest node annotations)) h (fun _ _ => True).
Proof.
  intros He Hg Hn Hc Hrest.
  eapply (keeps_bind _ _ _ _ _ (fun r _ => r.1 = NODE_NAME e0 /\ get_node e0 (NODE_NAME e0) = Some r.2)).
  - unfold InCluster. eapply (keeps_bind _ _ _ _ _ (fun node _ => node = NODE_NAME e0)); [apply keeps_ask; [done|]; by intros e ->%He|].
    intros node h1 Hg1 _ ->. destruct (_ =? _)%string; [by apply keeps_throw|].
    eapply (keeps_bind _ _ _ _ _ (fun _ _ => True)); [by apply keeps_ask|]. intros [] h2 Hg2 _ _; cbn [negb]; [|by apply keeps_throw].
    eapply (keeps_bind _ _ _ _ _ (fun _ _ => True)); [by apply keeps_ask|]. intros [] h3 Hg3 _ _; cbn [negb]; [|by apply keeps_throw].
    eapply (keeps_bind _ _ _ _ _ (fun r _ => r = get_node e0 (NODE_NAME e0))); [apply keeps_observe; [done|auto|]; by intros e ->%He|].
    intros [annotations|] h4 Hg4 _ E4; [by apply keeps_ret|].
    eapply (keeps_bind _ _ _ _ _ (fun _ _ => True)); [by apply keeps_call|]. intros [] h5 Hg5 _ _. by apply keeps_throw.
  - intros [node annotations] h1 Hg1 _ [En Ea]. cbn in En, Ea. subst node. eapply keeps_finally; [by apply Hrest|done].
Qed.

End Start.

Arguments event : clear implicits.
Arguments env : clear implicits.

(** ** The compute driver *)

Definition cdiDir : string := "/var/run/cdi".

Section Compute.
Import DraInventory DraDriver.
Context {File : Type} `{!JSONFile File}.
Variable json_hash : list AllocationResult -> string.
Variable ResourceSliceMaxDevices : nat.
(** As in [DraInventory] and [DraDriver]; [message] is the text of an error. *)
Variable parse_quantity : string -> option Z.
Variable decode_config : string -> option openTPUConfig.
Variable json_devices : list localDevice -> string.
Variable encode : Hardware.Inventory -> string.
Variable hash_cells : list Hardware.Cell -> string.
Variable message : inventory_error -> string.
(** The order in which a map of devices is visited. *)
Variable visit : gmap string localDevice -> list localDevice.

#[export, refine] Instance compute_driver : DriverInventory inventory := {|
  driver_name := driverName;
  config_of := nodeConfig json_devices;
  keys_of := MkKeys (annotationPrefix +:+ "inventory-v1") (annotationPrefix +:+ "inventory-hash") (annotationPrefix +:+ "inventory-boot-id");
  slices_of n inv := resources n (inv_devices inv);
  summary_of inv boot := match summary encode hash_cells (visit (inv_devices inv)) boot with
    | Ok (_, encoded, hash) => Ok (encoded, hash) | Err e => Err (message e) end |}.
Proof. done. Defined.

Abbreviation D := (eff (env File) (event inventory File) start_error).

Definition save_spec (path : string) (spec : cdiSpec) : D unit :=
  let* ok := observe (fun e _ => save_cdi e path) (ESaveCDI path spec) in
  if negb ok then throw (CDISaveFailed path) else ret tt.

Definition writeOpenTPUCDI (path : string) (inv : inventory) : D unit :=
  save_spec path (opentpu_spec (visit (inv_devices inv))).

Definition exists_ (st : string -> option bool) (path : string) : bool := bool_decide (is_Some (st path)).

Definition writeWSLNVIDIACDI (path : string) (inv : inventory) : D unit :=
  let* st := ask (fun e _ => stat e) in
  let* driverFiles := ask (fun e _ => glob e) in
  match wsl_spec (exists_ st) st driverFiles (visit (inv_devices inv)) with
  | Err e => throw (WSLFailed e)
  | Ok spec => save_spec path spec
  end.

Definition ctk_arguments (path : string) (root : bool) : list string :=
  ["cdi"; "generate"; "--device-name-strategy=uuid"; "--vendor=" +:+ driverName; "--class=nvidia"; "--output=" +:+ path]%string
  ++ (if root then ["--driver-root=/host"%string] else []).

(** The environment of the command; that of the process unless the libraries of
    WSL are there. *)
Definition ctk_environment (environ : list string) (inherited : string) (wsl : bool) : list string :=
  if wsl then
    environ ++ ["LD_LIBRARY_PATH=" +:+ join ":" (["/host/usr/lib/wsl/lib"; "/host/usr/lib/x86_64-linux-gnu"]%string
                                                  ++ (if (inherited =? "")%string then [] else [inherited]))]
  else environ.

(** [cdiDir] is [filepath.Dir(path)]. *)
Definition generateNVIDIACDI (path : string) (inv : inventory) : D unit :=
  let* st := ask (fun e _ => stat e) in
  if exists_ st "/dev/dxg" then writeWSLNVIDIACDI path inv else
  let* ok := observe (fun e _ => mkdir e cdiDir) (EMkdir cdiDir) in
  if negb ok then throw CDIMkdirFailed else
  let arguments := ctk_arguments path (exists_ st "/host") in
  let* environment := ask (fun e _ => ctk_environment (environ e) (LD_LIBRARY_PATH e) (exists_ st "/host/usr/lib/wsl/lib")) in
  let* ok := observe (fun e _ => run_ctk e arguments) (ECtk arguments environment) in
  if negb ok then throw CtkFailed else ret tt.

Definition nvidia_path : string := cdiDir +:+ "/orchestration-nvidia.yaml".
Definition opentpu_path : string := cdiDir +:+ "/orchestration-opentpu.json".

Definition without_gpus (inv : inventory) : inventory := MkInv (nodeName inv) (removeKind (inv_devices inv) kindGPU).

(** The GPUs are withheld when their specification cannot be generated. *)
Definition withhold (inv : inventory) : D inventory :=
  if hasKind (inv_devices inv) kindGPU then
    let* r := attempt (generateNVIDIACDI nvidia_path inv) in
    ret (match r with Ok _ => inv | Err _ => without_gpus inv end)
  else ret inv.

(** [select] on the end of the context and the error of the NRI plugin. *)
Definition serve_nri : D unit :=
  let* ok := observe (fun e _ => new_nri e) ENRI in
  if negb ok then throw NRINotCreated else
  let* done := observe (fun e _ => serve e) EServe in
  if negb done then throw NRIFailed else ret tt.

Definition run_node (node : string) (annotations : gmap string string) : D unit :=
  let* discovered := ask (fun e _ => discoverInventory parse_quantity decode_config (sysfs e) (numa_order e) node annotations) in
  match discovered with
  | Err _ => throw DiscoveryFailed
  | Ok inv =>
      let* ok := observe (fun e _ => mkdir e cdiDir) (EMkdir cdiDir) in
      if negb ok then throw CDIDirFailed else
      let* _ := writeOpenTPUCDI opentpu_path inv in
      let* inv := withhold inv in
      launch json_hash ResourceSliceMaxDevices inv node serve_nri
  end.

Definition Run : D unit :=
  let* (node, annotations) := InCluster in
  finally ECancel (run_node node annotations).

(** *** Every CDI device handed out is specified *)

(** The specification of the GPUs by [nvidia-ctk] names them by their UUID. *)
Definition resolvable (h : list (event inventory File)) (id : string) : Prop :=
  (exists path spec d, ESaveCDI path spec true ∈ h /\ has_prefix (cdiDir +:+ "/") path = true /\ d ∈ spec_Devices spec /\
     id = spec_Kind spec +:+ "=" +:+ cdi_Name d) \/
  (exists root environment uuid, ECtk (ctk_arguments nvidia_path root) environment true ∈ h /\ id = driverName +:+ "/nvidia=" +:+ uuid).

Definition injectable (h : list (event inventory File)) (inv : inventory) : Prop :=
  forall results cd id, cd ∈ ClaimDevices (config_of inv) results -> id ∈ CDIDeviceIDs cd -> resolvable h id.

(** The inventory is what the node has, without the GPUs if their specification
    could not be generated. *)
Definition discovered (e : env File) (inv : inventory) : Prop :=
  exists annotations inv0, get_node e (NODE_NAME e) = Some annotations /\
    discoverInventory parse_quantity decode_config (sysfs e) (numa_order e) (NODE_NAME e) annotations = Ok inv0 /\
    (inv = inv0 \/ inv = without_gpus inv0 /\ exists h, fst (generateNVIDIACDI nvidia_path inv0 e h) <> Ok tt).

Definition announced (e : env File) (h : list (event inventory File)) (inv : inventory) : Prop :=
  discovered e inv /\ injectable h inv.

Hypothesis visit_all : forall m, visit m ≡ₚ map snd (map_to_list m).

Lemma resolvable_mono h h' id : h ⊆ h' -> resolvable h id -> resolvable h' id.
Proof.
  intros Hs [(path & spec & d & H)|(root & en & u & H)]; [left; exists path, spec, d|right; exists root, en, u]; set_solver.
Qed.

Lemma announced_mono e h h' inv : h ⊆ h' -> announced e h inv -> announced e h' inv.
Proof. intros Hs [Hd Hi]. split; [done|]. intros results cd id H1 H2. by eapply resolvable_mono, Hi. Qed.

Lemma visited m name (d : localDevice) : m !! name = Some d -> d ∈ visit m.
Proof. intros H. rewrite ->visit_all. apply list_elem_of_fmap. exists (name, d). split; [done|by apply elem_of_map_to_list]. Qed.

Lemma opentpu_specified m name d :
  m !! name = Some d -> Kind d = kindOpenTPU -> exists c, c ∈ spec_Devices (opentpu_spec (visit m)) /\ cdi_Name c = l_Name d.
Proof.
  intros H%visited Hk. eexists. split; [cbn; rewrite ->merge_sort_Permutation; apply list_elem_of_In, in_map_iff; exists d; split; [done|]|done].
  apply filter_In. split; [by apply list_elem_of_In|by rewrite ->Hk].
Qed.

Lemma wsl_specified st info files m spec name d :
  wsl_spec st info files (visit m) = Ok spec -> m !! name = Some d -> Kind d = kindGPU ->
  spec_Kind spec = driverName +:+ "/nvidia" /\ exists c, c ∈ spec_Devices spec /\ cdi_Name c = l_UUID d.
Proof.
  unfold wsl_spec. intros E H%visited Hk. destruct (required_mounts _ _) as [ms|]; [|done]. destruct (bool_decide _); [done|].
  destruct (driver_mounts _ _) as [ds|]; [|done]. injection E as <-. split; [done|]. cbn [spec_Devices].
  eexists. split; [rewrite ->merge_sort_Permutation; apply list_elem_of_In, in_map_iff; exists d; split; [done|]|done].
  apply filter_In. split; [by apply list_elem_of_In|by rewrite ->Hk].
Qed.

(** The specifications in place after both generators. *)
Definition tpus_specified (h : list (event inventory File)) (inv : inventory) : Prop :=
  forall name d, inv_devices inv !! name = Some d -> Kind d = kindOpenTPU -> resolvable h (cdi_id d).
Definition gpus_specified (h : list (event inventory File)) (inv : inventory) : Prop :=
  forall name d, inv_devices inv !! name = Some d -> Kind d = kindGPU -> resolvable h (cdi_id d).

Lemma specified_injectable h inv : tpus_specified h inv -> gpus_specified h inv -> injectable h inv.
Proof.
  intros Ht Hg results cd id Hcd Hid. cbn in Hcd. unfold cdiDevices in Hcd. apply list_elem_of_omap in Hcd as (a & _ & Ha).
  unfold cdi_device in Ha. destruct (inv_devices inv !! Device a) as [d|] eqn:Ed; [|done]. cbn in Ha.
  destruct (Kind d =? kindGPU)%string eqn:E1; [|destruct (Kind d =? kindOpenTPU)%string eqn:E2; [|done]];
    cbn in Ha; injection Ha as <-; apply list_elem_of_singleton in Hid as ->; bool_hyps; eauto.
Qed.

Lemma ok_inj {E A} (a b : A) : Ok (E := E) a = Ok b -> b = a.
Proof. by intros [= ->]. Qed.

Section Trace.
Variable e0 : env File.
Definition here (e : env File) : Prop := e = e0 /\ visits e.
Abbreviation keeps := (Effects.keeps here (start_allowed json_hash ResourceSliceMaxDevices (announced e0))).
Abbreviation good := (Effects.good (start_allowed json_hash ResourceSliceMaxDevices (announced e0))).

Lemma save_keeps path spec h : good h -> keeps (save_spec path spec) h (fun _ h' => ESaveCDI path spec true ∈ h').
Proof.
  intros Hg. eapply keeps_bind; [eapply (keeps_observe _ _ _ _ _ (fun ok h' => ESaveCDI path spec ok ∈ h')); [done..|set_solver]|].
  intros [] h' Hg' _ H; cbn; [by apply keeps_ret|by apply keeps_throw].
Qed.

Lemma opentpu_keeps inv h : good h -> keeps (writeOpenTPUCDI opentpu_path inv) h (fun _ h' => tpus_specified h' inv).
Proof.
  intros Hg. eapply keeps_mono; [by apply save_keeps|]. intros [] h' _ Hin name d Hd Hk. left.
  destruct (opentpu_specified _ _ _ Hd Hk) as (c & Hc & Hn). eexists _, _, c. split_and!; [done|done|done|].
  unfold cdi_id. rewrite ->Hk, Hn. done.
Qed.

Lemma generate_keeps inv h : good h -> keeps (generateNVIDIACDI nvidia_path inv) h (fun _ h' => gpus_specified h' inv).
Proof.
  intros Hg. unfold generateNVIDIACDI. eapply (keeps_bind _ _ _ _ _ (fun st h' => True)); [by apply keeps_ask|]. intros st h1 Hg1 _ _.
  destruct (exists_ st "/dev/dxg").
  - unfold writeWSLNVIDIACDI. eapply (keeps_bind _ _ _ _ _ (fun st h' => True)); [by apply keeps_ask|]. intros st' h2 Hg2 _ _.
    eapply (keeps_bind _ _ _ _ _ (fun st h' => True)); [by apply keeps_ask|]. intros files h3 Hg3 _ _.
    destruct (wsl_spec _ _ _ _) as [spec|] eqn:Es; [|by apply keeps_throw].
    eapply keeps_mono; [by apply save_keeps|]. intros [] h' _ Hin name d Hd Hk. left.
    destruct (wsl_specified _ _ _ _ _ _ _ Es Hd Hk) as (Ek & c & Hc & Hn). eexists _, _, c. split_and!; [done|done|done|].
    unfold cdi_id. rewrite ->Hk, Hn, Ek. done.
  - eapply (keeps_bind _ _ _ _ _ (fun st h' => True)); [by apply keeps_observe|]. intros [] h2 Hg2 _ _; cbn; [|by apply keeps_throw].
    eapply (keeps_bind _ _ _ _ _ (fun st h' => True)); [by apply keeps_ask|]. intros en h3 Hg3 _ _.
    eapply keeps_bind; [eapply (keeps_observe _ _ _ _ _ (fun ok h' => ECtk (ctk_arguments nvidia_path (exists_ st "/host")) en ok ∈ h')); [done..|set_solver]|].
    intros [] h4 Hg4 _ H4; cbn; [|by apply keeps_throw]. apply keeps_ret; [done|]. intros name d Hd Hk. right.
    eexists _, _, (l_UUID d). split; [done|]. unfold cdi_id. by rewrite ->Hk.
Qed.

Lemma specified_mono h h' inv inv' :
  h ⊆ h' -> inv_devices inv' ⊆ inv_devices inv -> tpus_specified h inv -> tpus_specified h' inv'.
Proof. intros Hs Hi H name d Hd Hk. eapply resolvable_mono; [done|]. eapply H; [|done]. by eapply lookup_weaken. Qed.

Lemma without_gpus_sub inv : inv_devices (without_gpus inv) ⊆ inv_devices inv.
Proof. apply map_filter_subseteq. Qed.

Lemma without_gpus_none h inv : gpus_specified h (without_gpus inv).
Proof. intros name d [_ H]%map_lookup_filter_Some Hk. done. Qed.

Lemma no_gpus_specified h inv : hasKind (inv_devices inv) kindGPU = false -> gpus_specified h inv.
Proof.
  intros Hk name d Hd E. exfalso. unfold hasKind in Hk. assert (existsb (fun '(_, d) => (Kind d =? kindGPU)%string) (map_to_list (inv_devices inv)) = true) as Ht; [|congruence].
  apply existsb_exists. exists (name, d). split; [by apply list_elem_of_In, elem_of_map_to_list|by apply String.eqb_eq].
Qed.

Lemma withhold_keeps inv annotations h :
  good h -> tpus_specified h inv -> get_node e0 (NODE_NAME e0) = Some annotations ->
  discoverInventory parse_quantity decode_config (sysfs e0) (numa_order e0) (NODE_NAME e0) annotations = Ok inv ->
  keeps (withhold inv) h (fun inv' h' => announced e0 h' inv' /\ nodeName inv' = nodeName inv).
Proof.
  intros Hg Ht Ea Ei. unfold withhold. destruct (hasKind _ _) eqn:Ek.
  - intros e He. pose proof He as [-> _]. destruct (generate_keeps inv h Hg e0 He) as (Hg1 & Hp & HQ). unfold bind, attempt, ret.
    split_and!; [done|done|]. intros inv' Hr%ok_inj. subst inv'. pose proof (prefix_sub _ _ Hp) as Hs. destruct (fst (generateNVIDIACDI nvidia_path inv e0 h)) as [[]|err] eqn:Er.
    + split; [|done]. split; [by exists annotations, inv; auto|]. apply specified_injectable; [by eapply specified_mono|by apply (HQ tt)].
    + split; [|done]. split; [exists annotations, inv; split_and!; [done|done|right; split; [done|]]; exists h; by rewrite ->Er|].
      apply specified_injectable; [|apply without_gpus_none]. eapply specified_mono; [done|apply without_gpus_sub|done].
  - apply keeps_ret; [done|]. split; [|done]. split; [by exists annotations, inv; auto|].
    apply specified_injectable; [done|by apply no_gpus_specified].
Qed.

Lemma serve_keeps inv written h :
  good h -> recovered json_hash h inv -> EAnnotate inv (Ok tt) written ∈ h -> keeps serve_nri h (fun _ _ => True).
Proof.
  intros Hg Hr Ha. unfold serve_nri.
  assert (forall h', h ⊆ h' -> exists inv written, EAnnotate inv (Ok tt) written ∈ h' /\ recovered json_hash h' inv) as Hok.
  { intros h' Hs. exists inv, written. split; [set_solver|eapply start_recovered_mono; [exact Hs|exact Hr]]. }
  eapply (keeps_bind _ _ _ _ _ (fun _ _ => True)); [apply keeps_observe; [done| |done]; intros env _; apply Hok; set_solver|].
  intros [] h1 Hg1 Hs1 _; cbn; [|by apply keeps_throw].
  eapply (keeps_bind _ _ _ _ _ (fun _ _ => True)); [apply keeps_observe; [done| |done]; intros env _; apply Hok; set_solver|].
  intros [] h2 Hg2 _ _; cbn; [by apply keeps_ret|by apply keeps_throw].
Qed.

Lemma run_node_keeps annotations h :
  good h -> get_node e0 (NODE_NAME e0) = Some annotations ->
  keeps (run_node (NODE_NAME e0) annotations) h (fun _ _ => True).
Proof.
  intros Hg Ea. unfold run_node.
  eapply (keeps_bind _ _ _ _ _ (fun r _ => r = discoverInventory parse_quantity decode_config (sysfs e0) (numa_order e0) (NODE_NAME e0) annotations)).
  { apply keeps_ask; [done|]. by intros e [-> _]. }
  intros [inv|] h1 Hg1 _ Ei; [|by apply keeps_throw]. symmetry in Ei.
  eapply (keeps_bind _ _ _ _ _ (fun _ _ => True)); [by apply keeps_observe|]. intros [] h2 Hg2 _ _; cbn [negb]; [|by apply keeps_throw].
  eapply keeps_bind; [by apply opentpu_keeps|]. intros [] h3 Hg3 _ H3.
  eapply keeps_bind; [by eapply withhold_keeps|]. intros inv' h4 Hg4 _ [H4 Hn].
  apply launch_keeps; [by intros e [_ ?]|apply announced_mono|done| |done|].
  - cbn. rewrite ->Hn. by rewrite ->(proj1 (discovery_found _ _ _ _ _ _ _ Ei)).
  - intros h5 w Hg5 Hr5 Ha5. by eapply serve_keeps.
Qed.

End Trace.

(** C10: Start-up of the compute driver.  Whatever fails, the driver registers
    with the kubelet only after its prepared claims were loaded and recovered
    (into a state its transition system reaches), with the inventory discovered
    on the node, without the GPUs if their CDI specification could not be
    generated, and every CDI device this inventory hands out for any allocation
    is in a specification that was written before.  The slices it publishes and
    the Node annotation are of that same inventory and its pool, in that order,
    and containers are adjusted only after all of it. *)
Theorem compute_driver_announces e h1 ev h2 :
  visits e -> snd (Run e []) = h1 ++ ev :: h2 ->
  start_allowed json_hash ResourceSliceMaxDevices (announced e) (h1 ++ [ev]) ev.
Proof.
  intros Hv Ht. apply (good_split _ _ _ h2). rewrite <-Ht. apply (keeps_good (here e) _ _ _ (fun _ _ => True)); [|done].
  apply (in_cluster_keeps e); [by intros e' [-> _]|constructor|done|done|]. intros annotations h Hg Ha. by apply run_node_keeps.
Qed.

End Compute.

(** ** The optical driver *)

Section OpticalRun.
Import Optical.
Context {File : Type} `{!JSONFile File}.
Variable json_hash : list AllocationResult -> string.
Variable ResourceSliceMaxDevices : nat.
(** As in [Optical]. *)
Variable json : string -> option opticalTopology.
Variable json_devices : list localDevice -> string.
Variable marshal : opticalSummary -> option string.
Variable marshal_devices : list localDevice -> option string.
Variable sha256 : string -> string.
Variable message : optical_error -> string.

(** [PublishInventory] takes the second and the third result of [summary]. *)
#[export, refine] Instance optical_driver : DriverInventory inventory := {|
  driver_name := driverName;
  config_of := nodeConfig json_devices;
  keys_of := keys;
  slices_of := resources;
  summary_of inv boot := match summary marshal marshal_devices sha256 inv boot with
    | Ok (_, encoded, hash) => Ok (encoded, hash) | Err e => Err (message e) end |}.
Proof. done. Defined.

Abbreviation D := (eff (env File) (event inventory File) start_error).

Definition opticalTopologyAnnotation : string := annotationPrefix +:+ "optical-topology-v1".

Definition optical_node (node : string) (annotations : gmap string string) : D unit :=
  match discoverInventory json (default ""%string (annotations !! opticalTopologyAnnotation)) node with
  | Err _ => throw DiscoveryFailed
  | Ok inv =>
      launch json_hash ResourceSliceMaxDevices inv node
        (let* _ := call (fun _ _ => tt) (EServe true) in ret tt)
  end.

Definition OpticalRun : D unit :=
  let* (node, annotations) := InCluster in
  finally ECancel (optical_node node annotations).

(** The optical driver announces the inventory of its annotation. *)
Definition optical_announced (e : env File) (inv : inventory) : Prop :=
  exists annotations, get_node e (NODE_NAME e) = Some annotations /\
    discoverInventory json (default ""%string (annotations !! opticalTopologyAnnotation)) (NODE_NAME e) = Ok inv.

(** The optical driver, too, registers only after its claims were recovered,
    and announces the topology of its Node. *)
Theorem optical_driver_announces e h1 ev h2 :
  visits e -> snd (OpticalRun e []) = h1 ++ ev :: h2 ->
  start_allowed json_hash ResourceSliceMaxDevices (fun _ => optical_announced e) (h1 ++ [ev]) ev.
Proof.
  intros Hv Ht. apply (good_split _ _ _ h2). rewrite <-Ht. apply (keeps_good (fun e' => e' = e) _ _ _ (fun _ _ => True)); [|done].
  apply (in_cluster_keeps e); [done|constructor|done|done|]. intros annotations h Hg Ha. unfold optical_node.
  destruct (discoverInventory _ _ _) as [inv|] eqn:Ei; [|by apply keeps_throw].
  apply launch_keeps; [by intros ? ->|done|done|by rewrite <-(proj2 (discovered_keyed _ _ _ _ Ei))|by exists annotations|].
  intros h' w Hg' Hr Hw. eapply (keeps_bind _ _ _ _ _ (fun _ _ => True)); [|intros [] h2' Hg2 _ _; by apply keeps_ret].
  apply keeps_call; [done| |done]. exists inv, w. split; [set_solver|eapply start_recovered_mono; [|exact Hr]; set_solver].
Qed.

End OpticalRun.
(** ** A node with a GPU *)

Module StartSamples.
Import DraInventory DraDriver.DriverSamples.

#[local] Instance records : JSONFile PreparedClaim := {| Marshal r := r; Unmarshal := Some; unmarshal_marshal r := eq_refl |}.

Definition visit (m : gmap string localDevice) : list localDevice := map snd (map_to_list m).
(** [nvidia-ctk] succeeds or not; the claim of [old] is gone. *)
Definition old : PreparedClaim :=
  MkPrepared 2 "old" "default" "claim-old" "h" (json_devices (map (DraDriver.device inv) ["cpu-s0-c1"%string])) ["cpu-s0-c1"%string] [1] 0.
Definition machine (ctk : bool) : env PreparedClaim :=
  MkEnv "node-1" true true (fun _ => Some ∅) host elements [] "" (fun _ => true) (fun _ => None) [] (fun _ => true) (fun _ => ctk)
    true (fun _ => true) {["old.json"%string := old]} (fun _ _ => Missing) (fun _ => false) map_to_list true true
    [(Some (MkNode ∅ "boot-1"), Updated)] true true.

Definition run (e : env PreparedClaim) : result start_error unit * list (event inventory PreparedClaim) :=
  Run json_hash 128 quantity (fun _ => None) json_devices (fun _ => "inventory"%string) (fun _ => "hash"%string) (fun _ => ""%string) visit e [].

Definition driver : DriverInventory inventory :=
  compute_driver json_devices (fun _ => "inventory"%string) (fun _ => "hash"%string) (fun _ => ""%string) visit.
Definition published (e : env PreparedClaim) : list (list string) :=
  omap (fun ev => match ev with EPublish _ slices _ => Some (map ResourceApi.dev_Name (concat slices)) | _ => None end) (snd (run e)).
Definition started : list (event inventory PreparedClaim) := snd (run (machine true)).

End StartSamples.

(** With [nvidia-ctk] the GPU is published, without it is not. *)
Example published_devices :
  StartSamples.published (StartSamples.machine true) =
    [["cpu-s0-c1"; "cpu-s0-c2"; "gpu-gpu-ab"; "memory-n0-00000"; "memory-n0-00001"; "memory-n0-00002"]]%string /\
  StartSamples.published (StartSamples.machine false) =
    [["cpu-s0-c1"; "cpu-s0-c2"; "memory-n0-00000"; "memory-n0-00001"; "memory-n0-00002"]]%string.
Proof. vm_compute. split; reflexivity. Qed.

Lemma compute_driver_announces_witness :
  let register := ERegister DraDriver.DriverSamples.inv DraInventory.driverName "node-1" true in
  recovered (DriverInventory0 := StartSamples.driver) (JSONFile0 := StartSamples.records) DraDriver.DriverSamples.json_hash (take 7 StartSamples.started ++ [register]) DraDriver.DriverSamples.inv.
Proof.
  intros register.
  apply (compute_driver_announces DraDriver.DriverSamples.json_hash 128 DraDriver.DriverSamples.quantity (fun _ => None)
    DraDriver.DriverSamples.json_devices (fun _ => "inventory"%string) (fun _ => "hash"%string) (fun _ => ""%string) StartSamples.visit
    (fun m => ltac:(reflexivity)) (StartSamples.machine true) (take 7 StartSamples.started) register (drop 8 StartSamples.started)
    (fun m => ltac:(reflexivity))).
  symmetry. apply take_drop_middle. vm_compute. reflexivity.
Defined.

End DriverStart.
