(* ===== verification/Metrics.v ===== *)
(** * Metrics: the gauges of the operator
    ([src/slurm-operator/controllers/metrics.go])

    Six gauge vectors that the reconcilers refresh.  The vectors of the
    Prometheus client are the class [GaugeVec]: series by label values, with
    what [WithLabelValues(...).Set] and [DeletePartialMatch] do to them.  The
    theorem: after any sequence of observations the exported series are exactly
    those of the last observation of each cluster and of each incident. *)

From S2P Require Import Prelude GoStrings GoTime Api SlurmClient Demand Workers Recovery ClusterController.

Module Metrics.
Import SlurmClient ClusterController.

(** A gauge: a whole number, or the seconds of a duration. *)
Inductive value := Number (z : Z) | Seconds (d : Z).

(** [time.Since], whose duration saturates, and [max(0, d.Seconds())]. *)
Definition since (now t : Z) : Z := Z.max int64_min (Z.min int64_max (now - t)).
Definition elapsed (d : Z) : value := if d <? 0 then Number 0 else Seconds d.

Definition label (names : list string) (lv : list string) (name : string) : option string :=
  snd <$> List.find (fun p => (fst p =? name)%string) (zip names lv).
Definition partial_match (names : list string) (labels : list (string * string)) (lv : list string) : bool :=
  forallb (fun '(name, v) => bool_decide (label names lv name = Some v)) labels.

(** A gauge vector with the given names of labels. *)
Class GaugeVec (V : Type) := {
  empty_vec : V;
  series : V -> list string -> option value;
  SetGauge : list string -> value -> V -> V;
  DeletePartialMatch : list string -> list (string * string) -> V -> V;
  series_empty lv : series empty_vec lv = None;
  series_set lv x v lv' : series (SetGauge lv x v) lv' = if bool_decide (lv' = lv) then Some x else series v lv';
  series_delete names labels v lv :
    series (DeletePartialMatch names labels v) lv = if partial_match names labels lv then None else series v lv }.

Abbreviation namespace_of c := (Api.Namespace (resource c)).
Abbreviation name_of c := (Api.cl_Name (resource c)).
Abbreviation node_of s := (Recovery.NodeName s).
Abbreviation incident_of s := (Recovery.Incident s).

Section Gauges.
Context {V : Type} `{!GaugeVec V}.

Record gauges := MkGauges {
  clusterCondition : V; workerCount : V; pendingJobAge : V; checkpointAge : V; recoveryPhaseInfo : V; recoveryDuration : V }.
Definition no_gauges : gauges := MkGauges empty_vec empty_vec empty_vec empty_vec empty_vec empty_vec.

Definition clusterCondition_labels : list string := ["namespace"; "cluster"; "condition"]%string.
Definition workerCount_labels : list string := ["namespace"; "cluster"; "pool"; "state"]%string.
Definition pendingJobAge_labels : list string := ["namespace"; "cluster"; "pool"; "job"]%string.
Definition checkpointAge_labels : list string := ["namespace"; "cluster"]%string.
Definition recoveryPhase_labels : list string := ["node"; "incident"; "phase"]%string.
Definition recoveryDuration_labels : list string := ["node"; "incident"]%string.

Definition cluster_labels (namespace name : string) : list (string * string) := [("namespace", namespace); ("cluster", name)]%string.
Definition recovery_labels (node incident : string) : list (string * string) := [("node", node); ("incident", incident)]%string.

Definition set_all (l : list (list string * value)) (v : V) : V := foldl (fun v p => SetGauge (fst p) (snd p) v) v l.

(** ** The values *)

Definition condition_value (cs : list Condition) (type : string) : value :=
  match find_condition cs type with
  | Some c => match cn_Status c with ConditionTrue => Number 1 | ConditionFalse => Number 0 | ConditionUnknown => Number (-1) end
  | None => Number (-1)
  end.

Definition condition_series (c : Cluster) : list (list string * value) :=
  map (fun type => ([namespace_of c; name_of c; type], condition_value (Conditions (Status c)) type))
    [ConditionControlPlaneReady; ConditionAccountingReady; ConditionWorkersReady; ConditionCheckpointReady].

Definition worker_series (c : Cluster) : list (list string * value) :=
  List.flat_map (fun p : Api.WorkerPoolStatus =>
    let key state := [namespace_of c; name_of c; Api.ps_Name p; state] in
    [(key "ready"%string, Number (Api.Ready p)); (key "pending"%string, Number (Api.ps_Pending p)); (key "draining"%string, Number (Api.Draining p))])
    (WorkerPools (Status c)).

Definition checkpoint_series (now : Z) (c : Cluster) : list (list string * value) :=
  match NewestCommittedCheckpoint (Status c) with
  | Some t => [([namespace_of c; name_of c], elapsed (since now t))]
  | None => []
  end.

(** [pools]: the pool of a partition, the last one listed. *)
Definition partition_pools (c : Cluster) : gmap string string :=
  foldl (fun m p => <[Api.Partition p := Api.Name p]> m) ∅ (Api.WorkerPools (Api.Spec (resource c))).

Definition pending_series (now : Z) (c : Cluster) (jobs : list PendingJob) : list (list string * value) :=
  omap (fun j =>
    let pool := default ""%string (partition_pools c !! pj_Partition j) in
    if negb (pool =? "")%string && (0 <? EligibleTime j)
    then Some ([namespace_of c; name_of c; pool; format_int (pj_ID j)], elapsed (since now (EligibleTime j * GoTime.second)))
    else None) jobs.

(** ** The observations *)

Definition observeCluster (now : Z) (c : Cluster) (g : gauges) : gauges :=
  let labels := cluster_labels (namespace_of c) (name_of c) in
  MkGauges
    (set_all (condition_series c) (DeletePartialMatch clusterCondition_labels labels (clusterCondition g)))
    (set_all (worker_series c) (DeletePartialMatch workerCount_labels labels (workerCount g)))
    (pendingJobAge g)
    (set_all (checkpoint_series now c) (DeletePartialMatch checkpointAge_labels labels (checkpointAge g)))
    (recoveryPhaseInfo g) (recoveryDuration g).

Definition observePendingJobs (now : Z) (c : Cluster) (jobs : list PendingJob) (g : gauges) : gauges :=
  MkGauges (clusterCondition g) (workerCount g)
    (set_all (pending_series now c jobs)
       (DeletePartialMatch pendingJobAge_labels (cluster_labels (namespace_of c) (name_of c)) (pendingJobAge g)))
    (checkpointAge g) (recoveryPhaseInfo g) (recoveryDuration g).

Definition forgetCluster (namespace name : string) (g : gauges) : gauges :=
  let labels := cluster_labels namespace name in
  MkGauges (DeletePartialMatch clusterCondition_labels labels (clusterCondition g))
    (DeletePartialMatch workerCount_labels labels (workerCount g))
    (DeletePartialMatch pendingJobAge_labels labels (pendingJobAge g))
    (DeletePartialMatch checkpointAge_labels labels (checkpointAge g))
    (recoveryPhaseInfo g) (recoveryDuration g).

Definition phase_series (s : Recovery.recoveryState) : list (list string * value) :=
  [([node_of s; incident_of s; Recovery.phase_name (Recovery.Phase s)], Number 1)].
Definition duration_series (now : Z) (s : Recovery.recoveryState) : list (list string * value) :=
  [([node_of s; incident_of s], elapsed (since now (Recovery.StartedAt s)))].

Definition observeRecovery (now : Z) (s : Recovery.recoveryState) (g : gauges) : gauges :=
  MkGauges (clusterCondition g) (workerCount g) (pendingJobAge g) (checkpointAge g)
    (set_all (phase_series s) (DeletePartialMatch recoveryPhase_labels (recovery_labels (node_of s) (incident_of s)) (recoveryPhaseInfo g)))
    (set_all (duration_series now s) (recoveryDuration g)).

Definition forgetRecovery (s : Recovery.recoveryState) (g : gauges) : gauges :=
  let labels := recovery_labels (node_of s) (incident_of s) in
  MkGauges (clusterCondition g) (workerCount g) (pendingJobAge g) (checkpointAge g)
    (DeletePartialMatch recoveryPhase_labels labels (recoveryPhaseInfo g))
    (DeletePartialMatch recoveryDuration_labels labels (recoveryDuration g)).

Inductive observation :=
| OCluster (now : Z) (c : Cluster)
| OPending (now : Z) (c : Cluster) (jobs : list PendingJob)
| OForgetCluster (namespace name : string)
| ORecovery (now : Z) (s : Recovery.recoveryState)
| OForgetRecovery (s : Recovery.recoveryState).

Definition apply (o : observation) (g : gauges) : gauges :=
  match o with
  | OCluster now c => observeCluster now c g
  | OPending now c jobs => observePendingJobs now c jobs g
  | OForgetCluster namespace name => forgetCluster namespace name g
  | ORecovery now s => observeRecovery now s g
  | OForgetRecovery s => forgetRecovery s g
  end.
Definition run (os : list observation) (g : gauges) : gauges := foldl (fun g o => apply o g) g os.

End Gauges.
Arguments gauges : clear implicits.

(** ** The specification: the last observation of each subject *)

Abbreviation subject := (string * string)%type.
Record view := MkView {
  v_clusters : gmap subject (Z * Cluster);
  v_pending : gmap subject (Z * Cluster * list PendingJob);
  v_recoveries : gmap subject (Z * Recovery.recoveryState) }.

Definition see (v : view) (o : observation) : view :=
  match o with
  | OCluster now c => MkView (<[(namespace_of c, name_of c) := (now, c)]> (v_clusters v)) (v_pending v) (v_recoveries v)
  | OPending now c jobs => MkView (v_clusters v) (<[(namespace_of c, name_of c) := (now, c, jobs)]> (v_pending v)) (v_recoveries v)
  | OForgetCluster namespace name =>
      MkView (delete (namespace, name) (v_clusters v)) (delete (namespace, name) (v_pending v)) (v_recoveries v)
  | ORecovery now s => MkView (v_clusters v) (v_pending v) (<[(node_of s, incident_of s) := (now, s)]> (v_recoveries v))
  | OForgetRecovery s => MkView (v_clusters v) (v_pending v) (delete (node_of s, incident_of s) (v_recoveries v))
  end.
Definition seen (os : list observation) : view := foldl see (MkView ∅ ∅ ∅) os.

(** The last value a list of series gives to the labels. *)
Definition assigned (l : list (list string * value)) (lv : list string) : option value :=
  snd <$> List.find (fun p => bool_decide (fst p = lv)) (rev l).

(** The subject of a series: its first two labels. *)
Definition owner (lv : list string) : option subject := match lv with a :: b :: _ => Some (a, b) | _ => None end.

Definition exported {A} (of_subject : A -> list (list string * value)) (m : gmap subject A) (lv : list string) : option value :=
  k ← owner lv; a ← m !! k; assigned (of_subject a) lv.

Record shows `{!GaugeVec V} (g : gauges V) (v : view) : Prop := {
  show_conditions lv : series (clusterCondition g) lv = exported (fun '(_, c) => condition_series c) (v_clusters v) lv;
  show_workers lv : series (workerCount g) lv = exported (fun '(_, c) => worker_series c) (v_clusters v) lv;
  show_checkpoints lv : series (checkpointAge g) lv = exported (fun '(now, c) => checkpoint_series now c) (v_clusters v) lv;
  show_pending lv : series (pendingJobAge g) lv = exported (fun '(now, c, jobs) => pending_series now c jobs) (v_pending v) lv;
  show_phases lv : series (recoveryPhaseInfo g) lv = exported (fun '(_, s) => phase_series s) (v_recoveries v) lv;
  show_durations lv : series (recoveryDuration g) lv = exported (fun '(now, s) => duration_series now s) (v_recoveries v) lv }.

(** ** Refreshing the series of one subject *)

Lemma assigned_snoc l p lv : assigned (l ++ [p]) lv = if bool_decide (fst p = lv) then Some (snd p) else assigned l lv.
Proof. unfold assigned. rewrite ->rev_unit. cbn. by destruct (bool_decide _). Qed.

Lemma assigned_in l lv x : assigned l lv = Some x -> (lv, x) ∈ l.
Proof.
  unfold assigned. destruct (List.find _ _) as [[k y]|] eqn:E; [|done]. intros [= ->].
  apply find_some in E as [Hin Hk]. bool_hyps. cbn in *. subst. by apply list_elem_of_In, in_rev.
Qed.

Definition owned (k : subject) (l : list (list string * value)) : Prop := Forall (fun p => owner (fst p) = Some k) l.

Lemma assigned_owner k l lv x : owned k l -> assigned l lv = Some x -> owner lv = Some k.
Proof. intros Ho Hx%assigned_in. exact (proj1 (Forall_forall _ _) Ho _ Hx). Qed.

Section Refresh.
Context `{!GaugeVec V}.

Lemma series_set_all l v lv : series (set_all l v) lv = match assigned l lv with Some x => Some x | None => series v lv end.
Proof.
  induction l as [|p l IH] using rev_ind; [done|]. unfold set_all in *. rewrite ->foldl_app. cbn. rewrite ->series_set, IH, assigned_snoc.
  destruct (bool_decide (fst p = lv)) eqn:E; bool_hyps; [by rewrite ->bool_decide_eq_true_2|]. rewrite ->bool_decide_eq_false_2; [done|]. congruence.
Qed.

Lemma partial_owner n1 n2 rest a b lv :
  (n1 =? n2)%string = false -> partial_match (n1 :: n2 :: rest) [(n1, a); (n2, b)] lv = bool_decide (owner lv = Some (a, b)).
Proof.
  intros Hn. unfold partial_match, label. cbn. destruct lv as [|x [|y lv]]; cbn.
  - done.
  - rewrite ->String.eqb_refl, Hn. cbn. destruct rest; by rewrite ->andb_false_r.
  - rewrite ->String.eqb_refl, Hn. cbn. rewrite ->String.eqb_refl. cbn.
    repeat (case_bool_decide; cbn); naive_solver.
Qed.

(** Deleting the series of a subject and setting others of the same subject. *)
Lemma series_refresh n1 n2 rest a b l v lv :
  (n1 =? n2)%string = false -> owned (a, b) l ->
  series (set_all l (DeletePartialMatch (n1 :: n2 :: rest) [(n1, a); (n2, b)] v)) lv =
  if bool_decide (owner lv = Some (a, b)) then assigned l lv else series v lv.
Proof.
  intros Hn Ho. rewrite ->series_set_all, series_delete, partial_owner by done.
  destruct (assigned l lv) as [x|] eqn:E; [|done]. by rewrite ->bool_decide_eq_true_2 by by eapply assigned_owner.
Qed.

Lemma series_forget n1 n2 rest a b v lv :
  (n1 =? n2)%string = false ->
  series (DeletePartialMatch (n1 :: n2 :: rest) [(n1, a); (n2, b)] v) lv =
  if bool_decide (owner lv = Some (a, b)) then None else series v lv.
Proof. intros Hn. by rewrite ->series_delete, partial_owner. Qed.
End Refresh.

Section Exported.
Context {A : Type} (f : A -> list (list string * value)) (m : gmap subject A).

Lemma exported_insert k a lv :
  exported f (<[k := a]> m) lv = if bool_decide (owner lv = Some k) then assigned (f a) lv else exported f m lv.
Proof.
  unfold exported. destruct (owner lv) as [k'|]; cbn; [|done]. case_bool_decide as E; [injection E as ->; by rewrite ->lookup_insert_eq|].
  rewrite ->lookup_insert_ne; [done|congruence].
Qed.

Lemma exported_delete k lv : exported f (delete k m) lv = if bool_decide (owner lv = Some k) then None else exported f m lv.
Proof.
  unfold exported. destruct (owner lv) as [k'|]; cbn; [|done]. case_bool_decide as E; [injection E as ->; by rewrite ->lookup_delete_eq|].
  rewrite ->lookup_delete_ne; [done|congruence].
Qed.
End Exported.

Lemma conditions_owned c : owned (namespace_of c, name_of c) (condition_series c).
Proof. repeat constructor. Qed.
Lemma workers_owned c : owned (namespace_of c, name_of c) (worker_series c).
Proof. apply Forall_forall. intros p (q & _ & Hp)%list_elem_of_In%in_flat_map. repeat destruct Hp as [<-|Hp]; done. Qed.
Lemma checkpoints_owned now c : owned (namespace_of c, name_of c) (checkpoint_series now c).
Proof. unfold checkpoint_series. destruct (NewestCommittedCheckpoint _); repeat constructor. Qed.
Lemma pending_owned now c jobs : owned (namespace_of c, name_of c) (pending_series now c jobs).
Proof. apply Forall_forall. intros p (j & _ & Hp)%list_elem_of_omap. cbv zeta in Hp. by destruct (_ && _); simplify_eq. Qed.
#[local] Hint Resolve conditions_owned workers_owned checkpoints_owned pending_owned : core.

Lemma duration_assigned now s lv :
  assigned (duration_series now s) lv = if bool_decide (lv = [node_of s; incident_of s]) then Some (elapsed (since now (Recovery.StartedAt s))) else None.
Proof. unfold duration_series, assigned. cbn [rev app List.find fst]. repeat case_bool_decide; cbn; congruence. Qed.

Lemma duration_refresh `{!GaugeVec V} now s v m lv :
  (forall lv, series v lv = exported (fun '(now, s) => duration_series now s) m lv) ->
  series (set_all (duration_series now s) v) lv =
  exported (fun '(now, s) => duration_series now s) (<[(node_of s, incident_of s) := (now, s)]> m) lv.
Proof.
  intros Hv. rewrite ->series_set_all, exported_insert, Hv. cbv beta iota. rewrite ->!duration_assigned. case_bool_decide as E; [subst lv; by rewrite ->bool_decide_eq_true_2|].
  case_bool_decide as Eo; [|done]. destruct lv as [|a [|b lv]]; [done..|]. cbn in Eo. injection Eo as -> ->. unfold exported. cbn.
  destruct (m !! _) as [[now' s']|]; [|done]. cbn [mbind option_bind]. rewrite ->duration_assigned. case_bool_decide as E'; [|done].
  injection E' as E1 E2 ->. by destruct E.
Qed.

Lemma phases_owned s : owned (node_of s, incident_of s) (phase_series s).
Proof. repeat constructor. Qed.

(** One vector after one observation. *)
Ltac gauge :=
  intros lv;
  cbn [apply see observeCluster observePendingJobs forgetCluster observeRecovery forgetRecovery clusterCondition workerCount
    pendingJobAge checkpointAge recoveryPhaseInfo recoveryDuration v_clusters v_pending v_recoveries];
  unfold clusterCondition_labels, workerCount_labels, pendingJobAge_labels, checkpointAge_labels, recoveryPhase_labels,
    recoveryDuration_labels, cluster_labels, recovery_labels;
  first [ by auto
        | rewrite ->series_refresh by auto using conditions_owned, workers_owned, checkpoints_owned, pending_owned, phases_owned
        | rewrite ->series_forget by done ];
  first [ rewrite ->exported_insert | rewrite ->exported_delete ]; by case_bool_decide; auto.

Lemma apply_shows `{!GaugeVec V} (g : gauges V) v o : shows g v -> shows (apply o g) (see v o).
Proof.
  intros []. destruct o as [now c|now c jobs|ns name|now s|s]; split; try gauge. intros lv. by apply duration_refresh.
Qed.

(** C32: The exported metrics are exact: after any sequence of observations
    every gauge series that exists is one of the last observation of its
    cluster or incident, with that observation's value, and every series of the
    last observation exists.  Series of forgotten clusters and finished
    incidents, removed pools, jobs that are no longer pending and phases that
    were left are gone, and no observation touches another subject. *)
Theorem metrics_exact `{!GaugeVec V} os : shows (run os (no_gauges (V := V))) (seen os).
Proof.
  induction os as [|o os IH] using rev_ind; [split; intros lv; cbn; rewrite ->series_empty; unfold exported; by destruct (owner lv)|].
  unfold run, seen in *. rewrite ->!foldl_app. by apply apply_shows.
Qed.

(** Vectors as maps satisfy the interface. *)
#[export, refine] Instance map_vec : GaugeVec (gmap (list string) value) := {|
  empty_vec := ∅;
  series m lv := m !! lv;
  SetGauge lv x m := <[lv := x]> m;
  DeletePartialMatch names labels m := filter (fun p => partial_match names labels (fst p) = false) m |}.
Proof.
  - intros lv. apply lookup_empty.
  - intros lv x m lv'. case_bool_decide as E; [subst; apply lookup_insert_eq|by apply lookup_insert_ne].
  - intros names labels m lv. rewrite ->map_lookup_filter. cbn. destruct (m !! lv) as [x|]; cbn; [|by destruct (partial_match _ _ _)].
    destruct (partial_match names labels lv) eqn:E; [by rewrite ->option_guard_False by congruence|by rewrite ->option_guard_True].
Defined.

Module MetricSamples.
Import Workers.WorkerSamples.

Definition with_status (ready : ConditionStatus) (pools : list Api.WorkerPoolStatus) : Cluster :=
  MkCluster cluster 1 [] false (MkStatus 1 None (Some 0) [MkCondition ConditionWorkersReady ready "" (Text "") 1 0] pools).
Definition history : list observation :=
  [OCluster 5 (with_status ConditionTrue [Api.MkPoolStatus "gpu-pool" 3 1 0; Api.MkPoolStatus "old-pool" 1 0 0]);
   OPending 5 (with_status ConditionTrue []) Demand.DemandSamples.jobs;
   OCluster 9 (with_status ConditionFalse [Api.MkPoolStatus "gpu-pool" 2 0 1])].
Definition exposed : gauges (gmap (list string) value) := run history no_gauges.

End MetricSamples.

(** The second observation replaces the first; the removed pool is gone. *)
Lemma metrics_exact_witness :
  series (clusterCondition MetricSamples.exposed) ["default"; "lab"; "WorkersReady"]%string = Some (Number 0) /\
  series (workerCount MetricSamples.exposed) ["default"; "lab"; "gpu-pool"; "ready"]%string = Some (Number 2) /\
  series (workerCount MetricSamples.exposed) ["default"; "lab"; "old-pool"; "ready"]%string = None /\
  series (checkpointAge MetricSamples.exposed) ["default"; "lab"]%string = Some (Seconds 9).
Proof.
  pose proof (metrics_exact (V := gmap (list string) value) MetricSamples.history) as H.
  split; [|split; [|split]].
  - rewrite ->(show_conditions _ _ H). vm_compute. reflexivity.
  - rewrite ->(show_workers _ _ H). vm_compute. reflexivity.
  - rewrite ->(show_workers _ _ H). vm_compute. reflexivity.
  - rewrite ->(show_checkpoints _ _ H). vm_compute. reflexivity.
Defined.

End Metrics.
