(* ===== verification/SlurmRest.v ===== *)
(** * SlurmRest: the requests of the Slurm client
    ([request], [token] and the endpoints of
    [src/slurm-operator/internal/slurm/client.go])

    What is put on the wire for each call: the path as [net/url] escapes,
    parses, resolves and prints it, the headers and the claims of the token.
    The theorem reads the request line back by the rules of URIs: it names the
    resource the operator meant, whatever bytes the name of the node holds, as
    long as it is not a dot segment. *)

From S2P Require Import Prelude GoStrings GoPath SlurmClient ClusterController.

Module SlurmRest.
Import ClusterController.

(** ** [net/url] *)

Inductive encoding := EncodePath | EncodePathSegment | EncodeQueryComponent.

Definition one_of (s : string) (c : ascii) : bool := contains_byte (fun d => bool_decide (c = d)) s.

(** [shouldEscape] *)
Definition should_escape (c : ascii) (m : encoding) : bool :=
  if is_alnum c || one_of "-_.~" c then false
  else if one_of "$&+,/:;=?@" c then
    match m with
    | EncodePath => one_of "?" c
    | EncodePathSegment => one_of "/;,?" c
    | EncodeQueryComponent => true
    end
  else true.

Definition hex_digit (n : Z) : ascii := if n <? 10 then chr (48 + n) else chr (55 + n).
Definition unhex (c : ascii) : option Z :=
  if is_digit c then Some (code c - 48)
  else if in_range "a" "f" c then Some (code c - 87)
  else if in_range "A" "F" c then Some (code c - 55)
  else None.

Fixpoint escape (m : encoding) (s : string) : string :=
  match s with
  | EmptyString => ""
  | String c s' =>
      if bool_decide (c = " "%char) && match m with EncodeQueryComponent => true | _ => false end then String "+" (escape m s')
      else if should_escape c m then String "%" (String (hex_digit (code c / 16)) (String (hex_digit (code c mod 16)) (escape m s')))
      else String c (escape m s')
  end.
Definition PathEscape : string -> string := escape EncodePathSegment.
Definition QueryEscape : string -> string := escape EncodeQueryComponent.

(** [unescape] of a path. *)
Fixpoint unescape (s : string) : option string :=
  match s with
  | EmptyString => Some ""%string
  | String c s' =>
      if bool_decide (c = "%"%char) then
        match s' with
        | String h (String l s'') =>
            x ← unhex h; y ← unhex l; t ← unescape s''; Some (String (chr (16 * x + y)) t)
        | _ => None
        end
      else t ← unescape s'; Some (String c t)
  end.

(** [validEncoded] of a path. *)
Definition valid_char (c : ascii) : bool := one_of "!$&'()*+,;=:@[]%" c || negb (should_escape c EncodePath).
Definition validEncoded (s : string) : bool := string_forallb valid_char s.

(** The parts of a URL that a reference without scheme and authority has. *)
Record reference := MkReference { ref_Path : string; ref_RawPath : string; ref_RawQuery : string }.

Definition setPath (p query : string) : option reference :=
  path ← unescape p;
  Some (MkReference path (if (escape EncodePath path =? p)%string then ""%string else p) query).

Definition EscapedPath (r : reference) : string :=
  if negb (ref_RawPath r =? "")%string && validEncoded (ref_RawPath r) && bool_decide (unescape (ref_RawPath r) = Some (ref_Path r))
  then ref_RawPath r
  else if (ref_Path r =? "*")%string then "%2A" else escape EncodePath (ref_Path r).

Definition is_control (c : ascii) : bool := (code c <? 32) || (code c =? 127).

(** [url.Parse] of a string that starts with one slash: such a string has
    neither scheme nor authority. *)
Definition parse_rooted (s : string) : option reference :=
  if contains_byte is_control s then None else
  let s := match cut_on "#" s with Some (a, _) => a | None => s end in
  match cut_on "?" s with
  | Some (path, query) => setPath path query
  | None => setPath s ""
  end.

(** [resolvePath] of a rooted path: one element after the other. *)
Definition last_slash (s : string) : option string := fst <$> cut_last (fun c => bool_decide (c = "/"%char)) s.
Definition resolve_elem (st : string * bool) (elem : string) : string * bool :=
  let '(dst, first) := st in
  if (elem =? ".")%string then (dst, false)
  else if (elem =? "..")%string then
    match last_slash (trim_prefix "/" dst) with
    | None => ("/"%string, true)
    | Some kept => ("/" +:+ kept, first)
    end
  else ((if first then dst else dst +:+ "/") +:+ elem, false).
Definition resolvePath (full : string) : string :=
  let elems := split_on "/" full in
  let dst := fst (foldl resolve_elem ("/"%string, true) elems) in
  let dst := if match last elems with Some e => (e =? ".")%string || (e =? "..")%string | None => false end then dst +:+ "/" else dst in
  if has_prefix "//" dst then trim_prefix "/" dst else dst.

(** [baseURL.ResolveReference(reference)] as the request line shows it. *)
Definition request_target (r : reference) : option string :=
  r' ← setPath (resolvePath (EscapedPath r)) (ref_RawQuery r);
  Some (EscapedPath r' +:+ (if (ref_RawQuery r =? "")%string then ""%string else "?" +:+ ref_RawQuery r)).

(** ** The client *)

Record Client := MkClient { base : URL; key : string }.
Record claims := MkClaims { iat : Z; exp : Z; sun : string }.
Definition slurmUsername : string := "slurm".

Record http_request := MkRequest {
  q_Method : string; q_Scheme : string; q_Host : string; q_Target : string; q_Headers : list (string * string); q_Body : option string }.

Inductive operation :=
| FetchJobs | FetchClusters | FetchNodes
| Drain (name reason : string) | Delete (name : string)
| Signal (id : Z) (signal : string) | Requeue (id : Z).

Section Requests.
(** [jwt.NewWithClaims(HS256, claims).SignedString(key)] and the JSON of the
    body that drains a node. *)
Variable sign : claims -> string -> option string.
Variable drain_body : string -> string.

Definition token (c : Client) (now : Z) : option string := sign (MkClaims now (now + 60) slurmUsername) (key c).

(** The paths of this client start with one slash; [None] is an error. *)
Definition request (c : Client) (now : Z) (method path : string) (body : option string) : option http_request :=
  token ← token c now;
  if negb (has_prefix "/" path) || has_prefix "//" path then None else
  reference ← parse_rooted path;
  if negb (has_prefix "/" (ref_Path reference)) then None else
  target ← request_target reference;
  Some (MkRequest method (Scheme (base c)) (Host (base c)) target
    ([("Accept", "application/json")]%string ++ (if body is Some _ then [("Content-Type", "application/json")]%string else [])
     ++ [("X-SLURM-USER-NAME"%string, slurmUsername); ("X-SLURM-USER-TOKEN"%string, token)]) body).

(** The calls of the endpoints. *)
Definition send (c : Client) (now : Z) (op : operation) : option http_request :=
  match op with
  | FetchJobs => request c now "GET" "/slurm/v0.0.45/jobs/" None
  | FetchClusters => request c now "GET" "/slurmdb/v0.0.45/clusters/" None
  | FetchNodes => request c now "GET" "/slurm/v0.0.45/nodes/" None
  | Drain name reason => request c now "POST" ("/slurm/v0.0.45/node/" +:+ PathEscape name) (Some (drain_body reason))
  | Delete name => request c now "DELETE" ("/slurm/v0.0.45/node/" +:+ PathEscape name) None
  | Signal id signal =>
      if negb (signal =? "USR1")%string then None
      else request c now "DELETE" ("/slurm/v0.0.45/job/" +:+ format_uint id +:+ "?signal=" +:+ QueryEscape signal) None
  | Requeue id => request c now "GET" ("/slurm/v0.0.45/job/" +:+ format_uint id +:+ "/requeue") None
  end.

End Requests.

(** ** Reading a request line *)

(** The target of a request by the generic syntax of URIs: the path ends at the
    first question mark, its segments are separated by slashes, and each is
    percent-decoded on its own. *)
Definition read_target (target : string) : list string * string :=
  match cut_on "?" target with
  | Some (path, query) => (split_on "/" path, query)
  | None => (split_on "/" target, ""%string)
  end.
Definition decode_target (target : string) : option (list string * string) :=
  let '(segments, query) := read_target target in
  decoded ← mapM unescape segments;
  Some (decoded, query).

(** ** Escaping *)

Lemma chr_code c : chr (code c) = c.
Proof. unfold chr, code. by rewrite ->N2Z.id, ascii_N_embedding. Qed.

Lemma unhex_hex n : 0 <= n < 16 -> unhex (hex_digit n) = Some n.
Proof.
  intros Hn. assert (forallb (fun n => bool_decide (unhex (hex_digit n) = Some n)) (map Z.of_nat (seq 0 16)) = true) as H by (vm_compute; reflexivity).
  rewrite ->forallb_forall in H. assert (In n (map Z.of_nat (seq 0 16))) as Hin by (apply in_map_iff; exists (Z.to_nat n); split; [lia|apply in_seq; lia]).
  exact (bool_decide_eq_true_1 _ (H n Hin)).
Qed.

Lemma code_range c : 0 <= code c < 256.
Proof. unfold code. pose proof (N_ascii_bounded c). lia. Qed.

Lemma code_hex c : 16 * (code c / 16) + code c mod 16 = code c.
Proof. pose proof (Z.div_mod (code c) 16). lia. Qed.

Lemma percent_escaped m : should_escape "%" m = true.
Proof. by destruct m. Qed.

(** Facts about all bytes are checked on each of them. *)
Definition every_byte (f : ascii -> bool) : bool := forallb (fun n => f (chr (Z.of_nat n))) (seq 0 256).
Lemma every_byte_spec f c : every_byte f = true -> f c = true.
Proof.
  unfold every_byte. rewrite ->forallb_forall. intros H. pose proof (code_range c). assert (In (Z.to_nat (code c)) (seq 0 256)) as Hin by (apply in_seq; lia).
  specialize (H _ Hin). by rewrite ->Z2Nat.id, chr_code in H by lia.
Qed.

Lemma unescape_app s t s' : unescape s = Some s' -> unescape (s +:+ t) = String.append s' <$> unescape t.
Proof.
  remember (String.length s) as n eqn:Hn. revert s s' Hn. induction n as [n IH] using lt_wf_ind; intros s s' Hn H. subst n.
  destruct s as [|c s]; cbn in H; [injection H as <-; sapp; by destruct (unescape t)|]. sapp. cbn [unescape].
  destruct (bool_decide (c = "%"%char)).
  - destruct s as [|h [|l s]]; [done..|]. sapp. destruct (unhex h) as [x|]; [|done]. destruct (unhex l) as [y|]; [|done]. cbn in *.
    destruct (unescape s) as [u|] eqn:E; [|done]. injection H as <-. rewrite ->(IH (String.length s) ltac:(cbn; lia) s u eq_refl E). by destruct (unescape t).
  - destruct (unescape s) as [u|] eqn:E; [|done]. injection H as <-. rewrite ->(IH (String.length s) ltac:(cbn; lia) s u eq_refl E). by destruct (unescape t).
Qed.

Lemma unescape_escape m s : m <> EncodeQueryComponent -> unescape (escape m s) = Some s.
Proof.
  intros Hm. induction s as [|c s IH]; [done|]. cbn [escape]. assert (match m with EncodeQueryComponent => true | _ => false end = false) as -> by (by destruct m).
  rewrite ->andb_false_r. destruct (should_escape c m) eqn:E.
  - pose proof (code_range c). cbn [unescape]. rewrite ->bool_decide_eq_true_2 by done. 
    rewrite ->(unhex_hex (code c / 16)) by (split; [apply Z.div_pos|apply Z.div_lt_upper_bound]; lia).
    rewrite ->(unhex_hex (code c mod 16)) by (apply Z.mod_pos_bound; lia).
    cbn. rewrite ->IH. cbn. by rewrite ->code_hex, chr_code.
  - cbn [unescape]. rewrite ->bool_decide_eq_false_2; [by rewrite ->IH|]. intros ->. by rewrite ->percent_escaped in E.
Qed.

(** The bytes of an escaped segment. *)
Definition segment_char (c : ascii) : bool := valid_char c && negb (one_of "/" c).

Lemma segment_plain c : should_escape c EncodePathSegment = false -> segment_char c = true.
Proof.
  intros H. assert (every_byte (fun c => should_escape c EncodePathSegment || segment_char c) = true) as Hall by (vm_compute; reflexivity).
  apply (every_byte_spec _ c) in Hall. cbv beta in Hall. by rewrite ->H in Hall.
Qed.

Lemma segment_hex n : 0 <= n < 16 -> segment_char (hex_digit n) = true.
Proof.
  intros Hn. assert (forallb (fun n => segment_char (hex_digit n)) (map Z.of_nat (seq 0 16)) = true) as H by (vm_compute; reflexivity).
  rewrite ->forallb_forall in H. apply H, in_map_iff. exists (Z.to_nat n). split; [lia|apply in_seq; lia].
Qed.

Lemma escaped_segment s : string_forallb segment_char (PathEscape s) = true.
Proof.
  unfold PathEscape. induction s as [|c s IH]; [done|]. cbn [escape]. rewrite ->andb_false_r. pose proof (code_range c).
  destruct (should_escape c EncodePathSegment) eqn:E; cbn [string_forallb]; rewrite ->IH.
  - rewrite ->(segment_hex (code c / 16)) by (split; [apply Z.div_pos|apply Z.div_lt_upper_bound]; lia).
    by rewrite ->(segment_hex (code c mod 16)) by (apply Z.mod_pos_bound; lia).
  - by rewrite ->segment_plain.
Qed.

Lemma segment_valid s : string_forallb segment_char s = true -> validEncoded s = true /\ GoPath.slash_free s = true.
Proof.
  intros H. split; eapply string_forallb_impl; try exact H; intros c; unfold segment_char, one_of; cbn; intros Hc; bool_hyps; try done.
  by rewrite ->bool_decide_eq_false_2.
Qed.

Lemma valid_char_safe c : valid_char c = true -> is_control c = false /\ c <> "#"%char /\ c <> "?"%char.
Proof.
  intros Hc. assert (every_byte (fun c => negb (valid_char c) || (negb (is_control c) && negb (bool_decide (c = "#"%char)) && negb (bool_decide (c = "?"%char)))) = true) as Hall by (vm_compute; reflexivity).
  apply (every_byte_spec _ c) in Hall. cbv beta in Hall. rewrite ->Hc in Hall. cbn [negb orb] in Hall. bool_hyps. done.
Qed.

Lemma valid_safe s : validEncoded s = true ->
  contains_byte is_control s = false /\ cut_on "#" s = None /\ cut_on "?" s = None.
Proof.
  unfold validEncoded. induction s as [|c s IH]; [done|]. cbn. intros [Hc H]%andb_true_iff. destruct (IH H) as (-> & -> & ->).
  destruct (valid_char_safe _ Hc) as (-> & H2 & H3). by rewrite ->!decide_False.
Qed.

(** ** The path on the wire *)

Lemma set_path_escaped p q query : validEncoded p = true -> unescape p = Some q -> p <> "" -> q <> "*" ->
  exists r, setPath p query = Some r /\ EscapedPath r = p /\ ref_RawQuery r = query /\ ref_Path r = q.
Proof.
  intros Hv Hu Hp Hq. unfold setPath. rewrite ->Hu. cbn [mbind option_bind]. eexists. split; [reflexivity|]. split; [|done]. unfold EscapedPath. cbn [ref_Path ref_RawPath].
  apply String.eqb_neq in Hp, Hq. destruct (escape EncodePath q =? p)%string eqn:E.
  - apply String.eqb_eq in E. by rewrite ->Hq, E.
  - by rewrite ->Hp, Hv, Hu, bool_decide_eq_true_2.
Qed.

Lemma resolve_plain l dst : Forall (fun e => e <> "." /\ e <> "..") l -> l <> [] ->
  fst (foldl resolve_elem (dst, false) l) = dst +:+ "/" +:+ join "/" l.
Proof.
  intros Hall. revert dst. induction l as [|e l IH]; intros dst Hne; [done|]. apply Forall_cons in Hall as [[H1 H2] Hall].
  apply String.eqb_neq in H1, H2. cbn [foldl]. unfold resolve_elem at 2. rewrite ->H1, H2. destruct l as [|e' l].
  - cbn. by rewrite ->sapp_assoc.
  - rewrite ->IH by done. change (join "/" (e :: e' :: l)) with (e +:+ "/" +:+ join "/" (e' :: l)). by rewrite ->!sapp_assoc.
Qed.

Lemma last_plain l : Forall (fun e : string => e <> "." /\ e <> "..") l ->
  match last l with Some e => (e =? ".")%string || (e =? "..")%string | None => false end = false.
Proof.
  intros Hall. destruct (last l) as [e|] eqn:E; [|done]. apply last_Some_elem_of in E. rewrite ->Forall_forall in Hall.
  destruct (Hall e E) as [H1%String.eqb_neq H2%String.eqb_neq]. by rewrite ->H1, H2.
Qed.

(** A rooted path without dot segments is its own resolution. *)
Lemma resolve_rooted l : l <> [] -> Forall (fun e => GoPath.slash_free e = true) l -> Forall (fun e => e <> "." /\ e <> "..") l ->
  resolvePath ("/" +:+ join "/" l) = "/" +:+ join "/" l.
Proof.
  intros Hne Hs Hd. unfold resolvePath. sapp. cbn [split_on]. rewrite ->decide_True by done. rewrite ->GoPath.split_join by done.
  assert (Forall (fun e => e <> "." /\ e <> "..") ("" :: l)) as Hd' by (constructor; [done|done]).
  rewrite ->(last_plain _ Hd'). cbn [foldl]. change (resolve_elem ("/"%string, true) "") with ("/"%string, false).
  rewrite ->resolve_plain by done. unfold has_prefix, trim_prefix. change ("/" +:+ "/" +:+ join "/" l) with ("//" +:+ join "/" l).
  rewrite ->cut_prefix_app. rewrite ->bool_decide_eq_true_2 by done. change ("//" +:+ join "/" l) with ("/" +:+ ("/" +:+ join "/" l)).
  by rewrite ->cut_prefix_app.
Qed.

(** A segment that is sent as it is. *)
Record segment (e : string) : Prop := {
  seg_chars : string_forallb segment_char e = true;
  seg_unescape : is_Some (unescape e);
  seg_dots : e <> "." /\ e <> ".." }.

Lemma join_unescape l : Forall segment l -> is_Some (unescape (join "/" l)).
Proof.
  induction l as [|e l IH]; intros Hall; [by eexists|]. apply Forall_cons in Hall as [He Hall]. destruct (seg_unescape _ He) as [u Hu].
  destruct l as [|e' l]; [by exists u|]. change (join "/" (e :: e' :: l)) with (e +:+ String "/" (join "/" (e' :: l))).
  rewrite ->(unescape_app _ _ _ Hu). cbn [unescape]. destruct (IH Hall) as [v ->]. by eexists.
Qed.

Lemma join_valid l : Forall segment l -> validEncoded (join "/" l) = true.
Proof.
  intros Hall. apply string_forallb_join; [done|]. eapply Forall_impl; [exact Hall|]. intros e He. by apply segment_valid, seg_chars.
Qed.

Definition query_char (c : ascii) : bool := negb (is_control c) && negb (bool_decide (c = "#"%char)).
Definition with_query (p query : string) : string := p +:+ (if (query =? "")%string then ""%string else "?" +:+ query).

Lemma contains_byte_app f s t : contains_byte f (s +:+ t) = contains_byte f s || contains_byte f t.
Proof. induction s as [|c s IH]; [done|]. sapp. cbn. by rewrite ->IH, orb_assoc. Qed.

Lemma query_safe query : string_forallb query_char query = true -> contains_byte is_control query = false /\ cut_on "#" query = None.
Proof.
  induction query as [|c s IH]; [done|]. cbn. intros [Hc H]%andb_true_iff. unfold query_char in Hc. bool_hyps.
  destruct (IH H) as [-> ->]. by rewrite ->H0, decide_False.
Qed.

Lemma cut_on_none sep s t : cut_on sep s = None -> cut_on sep t = None -> cut_on sep (s +:+ t) = None.
Proof.
  intros Hs Ht. induction s as [|c s IH]; [done|]. sapp. cbn in *. destruct (decide (c = sep)); [done|].
  destruct (cut_on sep s) as [[]|]; [done|]. by rewrite ->IH.
Qed.

Lemma cut_on_first sep s t : cut_on sep s = None -> cut_on sep (s +:+ String sep t) = Some (s, t).
Proof.
  induction s as [|c s IH]; sapp; cbn; [by rewrite ->decide_True|]. destruct (decide (c = sep)); [done|].
  destruct (cut_on sep s) as [[]|]; [done|]. intros _. by rewrite ->IH.
Qed.

Lemma parse_rooted_valid p query : validEncoded p = true -> string_forallb query_char query = true ->
  parse_rooted (with_query p query) = setPath p query.
Proof.
  intros (H1 & H2 & H3)%valid_safe (H4 & H5)%query_safe. unfold parse_rooted, with_query. rewrite ->contains_byte_app, H1. cbn [orb].
  destruct (query =? "")%string eqn:E.
  - apply String.eqb_eq in E. subst query. rewrite ->sapp_nil_r. cbn. by rewrite ->H2, H3.
  - cbn [contains_byte String.append]. assert (contains_byte is_control ("?" +:+ query) = false) as -> by (sapp; cbn; by rewrite ->H4).
    assert (cut_on "#" ("?" +:+ query) = None) as Hq by (sapp; cbn; by rewrite ->H5). rewrite ->(cut_on_none _ _ _ H2 Hq). sapp. by rewrite ->(cut_on_first _ _ _ H3).
Qed.

(** What is asked for is what is sent. *)
Lemma request_wire sign c now tok method l query body :
  token sign c now = Some tok -> Forall segment l -> head l <> Some "" -> l <> [] -> string_forallb query_char query = true ->
  exists headers, request sign c now method (with_query ("/" +:+ join "/" l) query) body =
    Some (MkRequest method (Scheme (base c)) (Host (base c)) (with_query ("/" +:+ join "/" l) query) headers body) /\
    (is_Some body <-> ("Content-Type", "application/json")%string ∈ headers) /\
    ("X-SLURM-USER-NAME", slurmUsername)%string ∈ headers /\ ("X-SLURM-USER-TOKEN"%string, tok) ∈ headers.
Proof.
  intros Ht Hl Hh Hne Hq. destruct (join_unescape _ Hl) as [u Hu]. set (p := "/" +:+ join "/" l) in *.
  assert (validEncoded p = true) as Hv by (unfold p; sapp; cbn; by apply join_valid).
  assert (unescape p = Some (String "/" u)) as Hup by (unfold p; sapp; cbn [unescape]; by rewrite ->Hu).
  assert (resolvePath p = p) as Hr.
  { apply resolve_rooted; [done|..]; eapply Forall_impl; try exact Hl; intros e He; [by apply segment_valid, seg_chars|by apply seg_dots]. }
  destruct (set_path_escaped p _ query Hv Hup) as (r & Er & Ep & Eq & Epath); [done|done|].
  unfold request. rewrite ->Ht. cbn [mbind option_bind].
  assert (has_prefix "/" (with_query p query) = true) as -> by (apply has_prefix_spec; unfold with_query, p; rewrite ->sapp_assoc; by eexists).
  assert (has_prefix "//" (with_query p query) = false) as ->.
  { apply not_true_iff_false. intros [t Hp]%has_prefix_spec. unfold with_query, p in Hp. destruct l as [|[|a e] l]; [done|done|].
    apply Forall_cons in Hl as [He _]. pose proof (seg_chars _ He) as Hc. cbn in Hc. apply andb_true_iff in Hc as [Hc _].
    destruct l; cbn in Hp; injection Hp as -> _; by vm_compute in Hc. }
  cbn [negb orb]. rewrite ->parse_rooted_valid, Er by done. cbn [mbind option_bind]. rewrite ->Epath.
  change (has_prefix "/" (String "/" u)) with (bool_decide (is_Some (Some u))). rewrite ->bool_decide_eq_true_2 by by eexists. cbn [negb].
  unfold request_target. rewrite ->Ep, Hr, Eq, Er. cbn [mbind option_bind]. rewrite ->Ep. eexists. split; [reflexivity|].
  split; [|destruct body; set_solver]. destruct body; cbn [app]; rewrite ->!elem_of_cons, elem_of_nil.
  - split; [intros _; right; by left|by intros _; eexists].
  - split; [by intros []|]. intros H. repeat destruct H as [H|H]; done.
Qed.

Lemma read_wire l query : Forall segment l -> l <> [] -> read_target (with_query ("/" +:+ join "/" l) query) = ("" :: l, query).
Proof.
  intros Hl Hne. assert (validEncoded ("/" +:+ join "/" l) = true) as (_ & _ & Hc)%valid_safe by (sapp; cbn; by apply join_valid).
  assert (split_on "/" ("/" +:+ join "/" l) = "" :: l) as Hs.
  { sapp. cbn [split_on]. rewrite ->decide_True by done. f_equal. apply GoPath.split_join; [done|].
    eapply Forall_impl; [exact Hl|]. intros e He. by apply segment_valid, seg_chars. }
  unfold read_target, with_query. destruct (query =? "")%string eqn:E.
  - apply String.eqb_eq in E. subst. by rewrite ->sapp_nil_r, Hc, Hs.
  - change ("?" +:+ query) with (String "?" query). by rewrite ->(cut_on_first _ _ _ Hc), Hs.
Qed.

Lemma segment_name name : name <> "." -> name <> ".." -> segment (PathEscape name).
Proof.
  intros H1 H2. pose proof (unescape_escape EncodePathSegment name) as Hu. fold (PathEscape name) in Hu. specialize (Hu ltac:(done)).
  split; [apply escaped_segment|by eexists|]. split; intros E; rewrite ->E in Hu; vm_compute in Hu; injection Hu as <-; done.
Qed.

Lemma unescape_digits s : string_forallb is_digit s = true -> unescape s = Some s.
Proof.
  induction s as [|c s IH]; [done|]. cbn [string_forallb unescape]. intros [Hc H]%andb_true_iff. rewrite ->IH by done.
  rewrite ->bool_decide_eq_false_2; [done|]. intros ->. by vm_compute in Hc.
Qed.

Lemma segment_id id : 0 <= id -> segment (format_uint id).
Proof.
  intros Hid%format_uint_digits. split; [|by eexists; apply unescape_digits|split; intros E; rewrite ->E in Hid; by vm_compute in Hid].
  eapply string_forallb_impl; [|exact Hid]. intros c Hc. assert (every_byte (fun c => negb (is_digit c) || segment_char c) = true) as Hall by (vm_compute; reflexivity).
  apply (every_byte_spec _ c) in Hall. cbv beta in Hall. by rewrite ->Hc in Hall.
Qed.

Ltac fixed_segment := by (split; [vm_compute; reflexivity|vm_compute; eexists; reflexivity|split; discriminate]).

(** The operations the operator asks for: a node is not called by a dot
    segment, and the only signal is [USR1]. *)
Definition addressable (op : operation) : Prop :=
  match op with
  | Drain name _ | Delete name => name <> "." /\ name <> ".."
  | Signal id signal => 0 <= id /\ signal = "USR1"
  | Requeue id => 0 <= id
  | _ => True
  end.

(** The path and the query of an operation. *)
Definition op_segments (op : operation) : list string * string :=
  match op with
  | FetchJobs => (["slurm"; "v0.0.45"; "jobs"; ""], "")
  | FetchClusters => (["slurmdb"; "v0.0.45"; "clusters"; ""], "")
  | FetchNodes => (["slurm"; "v0.0.45"; "nodes"; ""], "")
  | Drain name _ | Delete name => (["slurm"; "v0.0.45"; "node"; PathEscape name], "")
  | Signal id signal => (["slurm"; "v0.0.45"; "job"; format_uint id], "signal=" +:+ signal)
  | Requeue id => (["slurm"; "v0.0.45"; "job"; format_uint id; "requeue"], "")
  end%string.
Definition op_method (op : operation) : string :=
  match op with Drain _ _ => "POST" | Delete _ | Signal _ _ => "DELETE" | _ => "GET" end.

Lemma op_segments_ok op : addressable op ->
  Forall segment (fst (op_segments op)) /\ head (fst (op_segments op)) <> Some "" /\ fst (op_segments op) <> [] /\
  string_forallb query_char (snd (op_segments op)) = true.
Proof.
  destruct op as [| | |name reason|name|id signal|id]; cbn -[PathEscape format_uint]; intros Ha; split_and!; try done;
    repeat (apply Forall_cons; split; [first [fixed_segment|apply segment_name; tauto|apply segment_id; lia]|]); try apply Forall_nil; try done.
  by destruct Ha as [_ ->].
Qed.

Lemma send_request sign drain_body c now op : addressable op ->
  send sign drain_body c now op =
  request sign c now (op_method op) (with_query ("/" +:+ join "/" (fst (op_segments op))) (snd (op_segments op)))
    (match op with Drain _ reason => Some (drain_body reason) | _ => None end).
Proof.
  destruct op as [| | |name reason|name|id signal|id]; cbn [send op_method op_segments fst snd addressable]; intros Ha; unfold with_query;
    try (rewrite ->sapp_nil_r; reflexivity).
  destruct Ha as [_ ->]. change (negb ("USR1" =? "USR1")%string) with false. cbv iota. f_equal.
Qed.

(** The resource an operation is about, segment by segment. *)
Definition op_resource (op : operation) : list string :=
  match op with
  | FetchJobs => [""; "slurm"; "v0.0.45"; "jobs"; ""]
  | FetchClusters => [""; "slurmdb"; "v0.0.45"; "clusters"; ""]
  | FetchNodes => [""; "slurm"; "v0.0.45"; "nodes"; ""]
  | Drain name _ | Delete name => [""; "slurm"; "v0.0.45"; "node"; name]
  | Signal id _ => [""; "slurm"; "v0.0.45"; "job"; format_uint id]
  | Requeue id => [""; "slurm"; "v0.0.45"; "job"; format_uint id; "requeue"]
  end%string.
Definition op_query (op : operation) : string := match op with Signal _ signal => "signal=" +:+ signal | _ => "" end.

Lemma decode_segments op : addressable op -> mapM unescape ("" :: fst (op_segments op)) = Some (op_resource op).
Proof.
  assert (forall id, 0 <= id -> unescape (format_uint id) = Some (format_uint id)) as Hid.
  { intros id Hid. by apply unescape_digits, format_uint_digits. }
  destruct op as [| | |name reason|name|id signal|id]; cbn [op_segments op_resource fst addressable]; intros Ha;
    cbn -[PathEscape unescape format_uint]; try reflexivity; rewrite ->?(unescape_escape EncodePathSegment) by done;
    rewrite ->?Hid by tauto; reflexivity.
Qed.

(** C28: A request names what the operator meant: for every call, on a job or on a
    node with any bytes in its name (other than the dot segments . and ..), the
    request goes to the origin of the base URL with the method of the operation,
    and its target, read by the generic syntax of URIs (path up to the first
    question mark, split at slashes, each segment percent-decoded), is exactly the
    resource of the operation on that node or job, with the signal as the only
    query; only draining has a body, which is sent as JSON; the request carries
    the operator's user and a token for this user that is signed with the key of
    the cluster and valid for sixty seconds. *)
Theorem request_read_back sign drain_body c now tok op :
  sign (MkClaims now (now + 60) slurmUsername) (key c) = Some tok -> addressable op ->
  exists q, send sign drain_body c now op = Some q /\ q_Method q = op_method op /\
    decode_target (q_Target q) = Some (op_resource op, op_query op) /\
    q_Body q = match op with Drain _ reason => Some (drain_body reason) | _ => None end /\
    q_Scheme q = Scheme (base c) /\ q_Host q = Host (base c) /\
    (is_Some (q_Body q) <-> ("Content-Type", "application/json")%string ∈ q_Headers q) /\
    ("X-SLURM-USER-NAME", slurmUsername)%string ∈ q_Headers q /\ ("X-SLURM-USER-TOKEN"%string, tok) ∈ q_Headers q.
Proof.
  intros Ht Ha. destruct (op_segments_ok _ Ha) as (Hl & Hh & Hne & Hq). rewrite ->send_request by done.
  destruct (request_wire _ c now tok (op_method op) _ _ (match op with Drain _ reason => Some (drain_body reason) | _ => None end) Ht Hl Hh Hne Hq)
    as (headers & -> & H0 & H1 & H2).
  eexists. split; [reflexivity|]. cbn [q_Method q_Target q_Body q_Scheme q_Host q_Headers]. split_and!; try done.
  unfold decode_target. rewrite ->read_wire, decode_segments by done. cbn. by destruct op.
Qed.

(** A name with a slash, a question mark and a percent sign. *)
Lemma request_read_back_witness :
  let c := MkClient (MkURL "http" "lab-slurmrestd.default.svc:6820" "" false "" "") "0123456789abcdef0123456789abcdef" in
  exists q, send (fun _ k => Some k) id c 7 (Delete "a/../b?x=%2F") = Some q /\ q_Method q = "DELETE"%string /\
    decode_target (q_Target q) = Some ([""; "slurm"; "v0.0.45"; "node"; "a/../b?x=%2F"], "")%string /\ q_Body q = None.
Proof.
  intros c. destruct (request_read_back (fun _ k => Some k) id c 7 "0123456789abcdef0123456789abcdef" (Delete "a/../b?x=%2F")
    eq_refl ltac:(split; discriminate)) as (q & H1 & H2 & H3 & H4 & _).
  exists q. split; [exact H1|]. split; [exact H2|]. split; [exact H3|exact H4].
Defined.

(** A dot segment is resolved away: the request for a node called [..] is one
    for another resource. *)
Example dot_segment :
  q_Target <$> send (fun _ k => Some k) id (MkClient (MkURL "http" "h" "" false "" "") "k") 7 (Delete "..") = Some "/slurm/v0.0.45/"%string.
Proof. vm_compute. reflexivity. Qed.

End SlurmRest.
